(** * BRONZESIM: a shallow embedding of [bronzesim.py] and its verified properties

    Python integers are modelled by [Z] (floor division is [Z.div], the
    sign-of-divisor remainder is [Z.modulo], bit operations are [Z.land],
    [Z.lor], [Z.lxor], [Z.shiftl], [Z.shiftr]).  Python lists that are
    updated in place are modelled by lists with stdpp's lookup and insert.
    Python floats that come from the input (thresholds, probabilities,
    renewal rates) and the resource pools computed from them are modelled as
    IEEE binary64 values with their rounding, infinities and NaN
    ([pyfloat]).  Agent needs, settlement valuations and per-capita stocks
    are kept as exact rationals [Q]: the rounding of their sums is not
    represented. *)

From Stdlib Require Import ZArith QArith Qabs Qround Lqa String Ascii List Lia DecimalString.
From stdpp Require Import base tactics option list strings gmap.

Open Scope Z_scope.

(** ** Constants and enumerations *)

Definition FEET_PER_MILE : Z := 5280.
Definition CELL_FEET : Z := 3.
Definition WORLD_MILES_X : Z := 30.
Definition WORLD_MILES_Y : Z := 30.
Definition WORLD_FEET_X : Z := WORLD_MILES_X * FEET_PER_MILE.
Definition WORLD_FEET_Y : Z := WORLD_MILES_Y * FEET_PER_MILE.
Definition WORLD_CELLS_X : Z := WORLD_FEET_X / CELL_FEET.
Definition WORLD_CELLS_Y : Z := WORLD_FEET_Y / CELL_FEET.

Definition CHUNK_SIZE : Z := 64.
Definition CHUNK_CELLS : Z := CHUNK_SIZE * CHUNK_SIZE.

Definition TAG_COAST : Z := Z.shiftl 1 0.
Definition TAG_BEACH : Z := Z.shiftl 1 1.
Definition TAG_FOREST : Z := Z.shiftl 1 2.
Definition TAG_MARSH : Z := Z.shiftl 1 3.
Definition TAG_HILL : Z := Z.shiftl 1 4.
Definition TAG_RIVER : Z := Z.shiftl 1 5.
Definition TAG_FIELD : Z := Z.shiftl 1 6.
Definition TAG_SETTLE : Z := Z.shiftl 1 7.

Definition RES_FISH : Z := 0.
Definition RES_GRAIN : Z := 1.
Definition RES_WOOD : Z := 2.
Definition RES_CLAY : Z := 3.
Definition RES_COPPER : Z := 4.
Definition RES_TIN : Z := 5.
Definition RES_FIRE : Z := 6.
Definition RES_PLANT_FIBER : Z := 7.
Definition RES_CATTLE : Z := 8.
Definition RES_SHEEP : Z := 9.
Definition RES_PIG : Z := 10.
Definition RES_CHARCOAL : Z := 11.
Definition RES_RELIGION : Z := 12.
Definition RES_TRIBALISM : Z := 13.
Definition RES_MAX : Z := 14.

Definition ITEM_FISH : Z := 0.
Definition ITEM_GRAIN : Z := 1.
Definition ITEM_WOOD : Z := 2.
Definition ITEM_CLAY : Z := 3.
Definition ITEM_COPPER : Z := 4.
Definition ITEM_TIN : Z := 5.
Definition ITEM_BRONZE : Z := 6.
Definition ITEM_TOOL : Z := 7.
Definition ITEM_POT : Z := 8.
Definition ITEM_MAX : Z := 9.

Definition SEASON_SPRING : Z := 0.
Definition SEASON_SUMMER : Z := 1.
Definition SEASON_AUTUMN : Z := 2.
Definition SEASON_WINTER : Z := 3.
Definition SEASON_ANY : Z := 255.

Definition CMP_ANY : Z := 0.
Definition CMP_GT : Z := 1.
Definition CMP_LT : Z := 2.
Definition CMP_GE : Z := 3.
Definition CMP_LE : Z := 4.

Definition OP_MOVE_TO : Z := 0.
Definition OP_GATHER : Z := 1.
Definition OP_CRAFT : Z := 2.
Definition OP_TRADE : Z := 3.
Definition OP_REST : Z := 4.
Definition OP_ROAM : Z := 5.

(** ** Deterministic hashing and random numbers *)

Definition MASK64 : Z := Z.shiftl 1 64 - 1.
Definition MASK32 : Z := Z.shiftl 1 32 - 1.

Definition brz_splitmix64 (x : Z) : Z :=
  let x := Z.land (x + 0x9e3779b97f4a7c15) MASK64 in
  let x := Z.land (Z.lxor x (Z.shiftr x 30) * 0xbf58476d1ce4e5b9) MASK64 in
  let x := Z.land (Z.lxor x (Z.shiftr x 27) * 0x94d049bb133111eb) MASK64 in
  Z.land (Z.lxor x (Z.shiftr x 31)) MASK64.

Definition brz_hash_u32 (a b c : Z) : Z :=
  let x := Z.lxor (Z.lxor (Z.shiftl (Z.land a MASK32) 32) (Z.land b MASK32))
                  (Z.shiftl (Z.land c MASK32) 16) in
  Z.land (brz_splitmix64 x) MASK32.

Definition rng_u32 (seed a b c : Z) : Z :=
  brz_hash_u32 (Z.land (Z.lxor a seed) MASK32) (Z.land b MASK32) (Z.land c MASK32).

(** [(u & 0xFFFFFF) / float(0x1000000)]: a 24-bit numerator over [2^24] is
    exact in binary64, so the rational is the float's value. *)
Definition rng_f01 (seed a b c : Z) : Q :=
  Qmake (Z.land (rng_u32 seed a b c) 0xFFFFFF) (Z.to_pos 0x1000000).

Definition clamp_i32 (v lo hi : Z) : Z :=
  if v <? lo then lo else if v >? hi then hi else v.

Definition clamp_u8 (v : Z) : Z :=
  if v <? 0 then 0 else if v >? 255 then 255 else v.

(** Comparison of floats (modelled by rationals): [a < b] and [a <= b]. *)
Definition flt (a b : Q) : bool := negb (Qle_bool b a).
Definition fle (a b : Q) : bool := Qle_bool a b.

(** ** Binary64 floats

    A float is a finite rational, an infinity or NaN.  [-0.0] is not told
    from [0.0]: the program compares, multiplies and truncates these values
    and never divides by them. *)
Inductive pyfloat : Type :=
  | Fin (q : Q)
  | PInf
  | NInf
  | NaN.

Coercion Fin : Q >-> pyfloat.
Bind Scope Q_scope with pyfloat.

(** [a < b] on floats: false as soon as one side is NaN. *)
Definition pf_lt (a b : pyfloat) : bool :=
  match a, b with
  | NaN, _ | _, NaN => false
  | Fin x, Fin y => flt x y
  | NInf, NInf => false
  | NInf, _ => true
  | _, NInf => false
  | PInf, _ => false
  | _, PInf => true
  end.

(** The integer nearest to [num / den] ([den] positive), ties to even. *)
Definition round_half_even (num den : Z) : Z :=
  let m := num / den in
  let r := num mod den in
  if 2 * r <? den then m
  else if den <? 2 * r then m + 1
  else if Z.even m then m else m + 1.

(** The exponent [e] with [2^e <= a / d < 2^(e+1)], for positive [a], [d]. *)
Definition ilog2_ratio (a d : Z) : Z :=
  let e0 := Z.log2 a - Z.log2 d in
  let below := if 0 <=? e0 then a <? d * 2 ^ e0 else a * 2 ^ (- e0) <? d in
  if below then e0 - 1 else e0.

(** Rounding of a real to binary64: to the nearest multiple of [2^k], ties
    to even, where [k] is the exponent of the last of 53 significant bits and
    at least [-1074] (subnormals); infinity from [2^1024] on. *)
Definition b64_round (q : Q) : pyfloat :=
  let n := Qnum q in
  let d := Z.pos (Qden q) in
  if n =? 0 then Fin 0
  else
    let a := Z.abs n in
    let k := Z.max (ilog2_ratio a d - 52) (-1074) in
    if 0 <=? k then
      let v := round_half_even a (d * 2 ^ k) * 2 ^ k in
      if 2 ^ 1024 <=? v then (if n <? 0 then NInf else PInf)
      else Fin (inject_Z (Z.sgn n * v))
    else
      Fin (Qred (Qmake (Z.sgn n * round_half_even (a * 2 ^ (- k)) d)
                   (Z.to_pos (2 ^ (- k))))).

(** [a * b] on floats. *)
Definition fmul (a b : pyfloat) : pyfloat :=
  match a, b with
  | NaN, _ | _, NaN => NaN
  | Fin x, Fin y => b64_round (x * y)
  | Fin x, PInf | PInf, Fin x =>
      if Qle_bool x 0 then (if Qle_bool 0 x then NaN else NInf) else PInf
  | Fin x, NInf | NInf, Fin x =>
      if Qle_bool x 0 then (if Qle_bool 0 x then NaN else PInf) else NInf
  | PInf, PInf | NInf, NInf => PInf
  | PInf, NInf | NInf, PInf => NInf
  end.

(** [int(x)] for a finite float [x]: truncation toward zero. *)
Definition py_int (q : Q) : Z := Z.quot (Qnum q) (Z.pos (Qden q)).

(** [int(x)] for a float: [OverflowError] on an infinity, [ValueError] on
    NaN. *)
Definition py_int_f (x : pyfloat) : option Z :=
  match x with
  | Fin q => Some (py_int q)
  | _ => None
  end.

(** [float(n)] for an integer, also the conversion of the integer operand
    of [x * n]: the nearest float, [OverflowError] when that is not finite. *)
Definition float_of_int (n : Z) : option Q :=
  match b64_round (inject_Z n) with
  | Fin q => Some q
  | _ => None
  end.

(** Python truth value of an integer. *)
Definition truthy (v : Z) : bool := negb (v =? 0).

(** ** Procedural world generation *)

Record WorldGen := mkWorldGen { wg_seed : Z }.

Definition worldgen_init (seed : Z) : WorldGen := mkWorldGen seed.

Definition noise01 (g : WorldGen) (x y salt : Z) : Z :=
  let h := brz_hash_u32 (Z.land x MASK32) (Z.land y MASK32)
                        (Z.land (Z.lxor (wg_seed g) salt) MASK32) in
  Z.land h 0xFF.

Definition is_coast_cell (x y : Z) : bool :=
  (x <? 2) || (y <? 2) || (x >=? WORLD_CELLS_X - 2) || (y >=? WORLD_CELLS_Y - 2).

Definition world_cell_tags (g : WorldGen) (x y settlement_count : Z) : Z :=
  let tags := 0 in
  let tags := if is_coast_cell x y then Z.lor tags TAG_COAST else tags in
  let tags :=
    if negb (truthy (Z.land tags TAG_COAST)) then
      if (x <? 3) || (y <? 3) || (x >? WORLD_CELLS_X - 4) || (y >? WORLD_CELLS_Y - 4) then
        if noise01 g x y 0xBEEF1234 <? 140 then Z.lor tags TAG_BEACH else tags
      else tags
    else tags in
  let n1 := noise01 g x y 0x1111A11A in
  let n2 := noise01 g x y 0x2222B22B in
  let n3 := noise01 g x y 0x3333C33C in
  let tags := if n1 >? 150 then Z.lor tags TAG_FOREST else tags in
  let tags := if n2 >? 200 then Z.lor tags TAG_HILL else tags in
  let tags := if n3 >? 215 then Z.lor tags TAG_MARSH else tags in
  let rv := noise01 g (x / 8) (y / 8) 0x52A17B3D in
  let tags := if rv >? 245 then Z.lor tags TAG_RIVER else tags in
  let sx := (x / 2000) * 2000 + 1000 in
  let sy := (y / 2000) * 2000 + 1000 in
  let sc := noise01 g sx sy 0x5E771EAD in
  let dx := x - sx in
  let dy := y - sy in
  let d2 := dx * dx + dy * dy in
  let tags := if (sc >? 240) && (d2 <? 70 * 70) then Z.lor tags TAG_SETTLE else tags in
  let tags := if (sc >? 240) && (d2 <? 250 * 250) then Z.lor tags TAG_FIELD else tags in
  tags.

Definition world_cell_res0 (g : WorldGen) (x y rk tags : Z) : Z :=
  let base := noise01 g x y 0x9999DDDD in
  if rk =? RES_FISH then
    if truthy (Z.land tags TAG_COAST) then clamp_u8 (120 + base / 2) else 0
  else if rk =? RES_GRAIN then
    if truthy (Z.land tags TAG_FIELD) then clamp_u8 (80 + base / 3) else 0
  else if rk =? RES_WOOD then
    if truthy (Z.land tags TAG_FOREST) then clamp_u8 (90 + base / 3) else 0
  else if rk =? RES_CLAY then
    if truthy (Z.land tags TAG_RIVER) || truthy (Z.land tags TAG_MARSH)
    then clamp_u8 (60 + base / 4) else 0
  else if rk =? RES_COPPER then
    if truthy (Z.land tags TAG_HILL) then (if base >? 240 then 40 else 5) else 0
  else if rk =? RES_TIN then
    if truthy (Z.land tags TAG_HILL) then (if base >? 250 then 25 else 0) else 0
  else if rk =? RES_FIRE then
    if truthy (Z.land tags TAG_SETTLE) then clamp_u8 (180 + base / 4) else 0
  else if rk =? RES_PLANT_FIBER then
    if truthy (Z.land tags TAG_MARSH) || truthy (Z.land tags TAG_FIELD)
    then clamp_u8 (70 + base / 3) else 0
  else if rk =? RES_CATTLE then
    if truthy (Z.land tags TAG_FIELD) then clamp_u8 (40 + base / 4) else 0
  else if rk =? RES_SHEEP then
    if truthy (Z.land tags TAG_FIELD) then clamp_u8 (35 + base / 4) else 0
  else if rk =? RES_PIG then
    if truthy (Z.land tags TAG_FIELD) then clamp_u8 (30 + base / 4) else 0
  else if rk =? RES_CHARCOAL then
    if truthy (Z.land tags TAG_FOREST) then clamp_u8 (25 + base / 5) else 0
  else if rk =? RES_RELIGION then
    if truthy (Z.land tags TAG_SETTLE) then clamp_u8 (60 + base / 5) else 0
  else if rk =? RES_TRIBALISM then
    if truthy (Z.land tags TAG_SETTLE) then clamp_u8 (20 + base / 8) else 0
  else 0.

Definition world_season_kind (day : Z) : Z :=
  let d := day mod 360 in
  if d <? 90 then SEASON_SPRING
  else if d <? 180 then SEASON_SUMMER
  else if d <? 270 then SEASON_AUTUMN
  else SEASON_WINTER.

(** ** Chunks and the LRU chunk cache *)

Record Chunk := mkChunk {
  ch_cx : Z;
  ch_cy : Z;
  terrain : list Z;
  res : list (list Z)
}.

(** [Chunk(cx=cx, cy=cy)]: zero-filled terrain and resource planes. *)
Definition Chunk_new (cx cy : Z) : Chunk :=
  mkChunk cx cy (replicate (Z.to_nat CHUNK_CELLS) 0)
          (replicate (Z.to_nat RES_MAX) (replicate (Z.to_nat CHUNK_CELLS) 0)).

(** [res[rk][idx]] and [res[rk][idx] = v] on the list of planes. *)
Definition res_get (rs : list (list Z)) (rk : Z) (idx : nat) : Z :=
  (rs !!! Z.to_nat rk) !!! idx.

Definition res_set (rs : list (list Z)) (rk : Z) (idx : nat) (v : Z) : list (list Z) :=
  alter (fun plane => <[idx := v]> plane) (Z.to_nat rk) rs.

Record WorldSpec := mkWorldSpec {
  ws_seed : Z;
  ws_settlement_count : Z;
  renew_per_day : list pyfloat
}.

Record ChunkCache := mkChunkCache {
  max_chunks : Z;
  cc_gen : WorldGen;
  cc_spec : WorldSpec;
  _lru : list ((Z * Z) * Chunk);
  live_chunks : Z
}.

(** The loop body of [_generate_chunk] fills the resource planes of one cell
    in six guarded blocks, in source order: coast, field, forest,
    river-or-marsh, hill, settle.  Each block is one definition here. *)
Definition cell_coast (tags base : Z) (idx : nat) (rs : list (list Z)) : list (list Z) :=
  if truthy (Z.land tags TAG_COAST) then
    res_set rs RES_FISH idx (clamp_u8 (120 + Z.shiftr base 1))
  else rs.

Definition cell_field (tags base : Z) (idx : nat) (rs : list (list Z)) : list (list Z) :=
  if truthy (Z.land tags TAG_FIELD) then
    let rs := res_set rs RES_GRAIN idx (clamp_u8 (80 + base / 3)) in
    let rs := res_set rs RES_PLANT_FIBER idx (clamp_u8 (70 + base / 3)) in
    let rs := res_set rs RES_CATTLE idx (clamp_u8 (40 + base / 4)) in
    let rs := res_set rs RES_SHEEP idx (clamp_u8 (35 + base / 4)) in
    res_set rs RES_PIG idx (clamp_u8 (30 + base / 4))
  else rs.

Definition cell_forest (tags base : Z) (idx : nat) (rs : list (list Z)) : list (list Z) :=
  if truthy (Z.land tags TAG_FOREST) then
    let rs := res_set rs RES_WOOD idx (clamp_u8 (90 + base / 3)) in
    res_set rs RES_CHARCOAL idx (clamp_u8 (25 + base / 5))
  else rs.

Definition cell_wet (tags base : Z) (idx : nat) (rs : list (list Z)) : list (list Z) :=
  if truthy (Z.land tags TAG_RIVER) || truthy (Z.land tags TAG_MARSH) then
    let rs := res_set rs RES_CLAY idx (clamp_u8 (60 + base / 4)) in
    if truthy (Z.land tags TAG_MARSH) then
      if res_get rs RES_PLANT_FIBER idx =? 0 then
        res_set rs RES_PLANT_FIBER idx (clamp_u8 (70 + base / 3))
      else rs
    else rs
  else rs.

Definition cell_hill (tags base : Z) (idx : nat) (rs : list (list Z)) : list (list Z) :=
  if truthy (Z.land tags TAG_HILL) then
    let rs := res_set rs RES_COPPER idx (if base >? 240 then 40 else 5) in
    res_set rs RES_TIN idx (if base >? 250 then 25 else 0)
  else rs.

Definition cell_settle (tags base : Z) (idx : nat) (rs : list (list Z)) : list (list Z) :=
  if truthy (Z.land tags TAG_SETTLE) then
    let rs := res_set rs RES_FIRE idx (clamp_u8 (180 + base / 4)) in
    let rs := res_set rs RES_RELIGION idx (clamp_u8 (60 + base / 5)) in
    res_set rs RES_TRIBALISM idx (clamp_u8 (20 + base / 8))
  else rs.

(** The body of the two nested loops of [_generate_chunk] for one cell. *)
Definition generate_cell (gen : WorldGen) (settle_n base_x base_y : Z)
    (ch : Chunk) (iy ix : nat) : Chunk :=
  let seed := wg_seed gen in
  let wy := base_y + Z.of_nat iy in
  let row_off := (iy * Z.to_nat CHUNK_SIZE)%nat in
  let wx := base_x + Z.of_nat ix in
  let idx := (row_off + ix)%nat in
  let tags := world_cell_tags gen wx wy settle_n in
  let terr := <[idx := tags]> (terrain ch) in
  let base := Z.land (brz_hash_u32 (Z.land wx MASK32) (Z.land wy MASK32)
                        (Z.land (Z.lxor seed 0x9999DDDD) MASK32)) 0xFF in
  let rs := res ch in
  let rs := cell_coast tags base idx rs in
  let rs := cell_field tags base idx rs in
  let rs := cell_forest tags base idx rs in
  let rs := cell_wet tags base idx rs in
  let rs := cell_hill tags base idx rs in
  let rs := cell_settle tags base idx rs in
  mkChunk (ch_cx ch) (ch_cy ch) terr rs.

(** [range(CHUNK_SIZE)]. *)
Definition chunk_range : list nat := seq 0 (Z.to_nat CHUNK_SIZE).

Definition _generate_chunk (self : ChunkCache) (cx cy : Z) : Chunk :=
  let ch := Chunk_new cx cy in
  let base_x := cx * CHUNK_SIZE in
  let base_y := cy * CHUNK_SIZE in
  let gen := cc_gen self in
  let settle_n := ws_settlement_count (cc_spec self) in
  fold_left
    (fun ch iy =>
       fold_left (fun ch ix => generate_cell gen settle_n base_x base_y ch iy ix)
                 chunk_range ch)
    chunk_range ch.

(** [ChunkCache.__init__]: the capacity is [max(1, int(max_chunks))]. *)
Definition ChunkCache_init (max_chunks : Z) (gen : WorldGen) (spec : WorldSpec) : ChunkCache :=
  mkChunkCache (Z.max 1 max_chunks) gen spec [] 0.

(** The [OrderedDict] is an association list, least recently used entry
    first.  [lru_get] is [dict.get], [lru_setitem] is item assignment (a new
    key goes to the end, an existing key keeps its place), [move_to_end] is
    [move_to_end(key, last=True)], [popitem_first] is [popitem(last=False)]. *)
Fixpoint lru_get (l : list ((Z * Z) * Chunk)) (key : Z * Z) : option Chunk :=
  match l with
  | [] => None
  | (k, c) :: l' => if decide (k = key) then Some c else lru_get l' key
  end.

Fixpoint lru_setitem (l : list ((Z * Z) * Chunk)) (key : Z * Z) (c : Chunk)
    : list ((Z * Z) * Chunk) :=
  match l with
  | [] => [(key, c)]
  | (k, c') :: l' =>
      if decide (k = key) then (k, c) :: l' else (k, c') :: lru_setitem l' key c
  end.

Definition lru_remove (l : list ((Z * Z) * Chunk)) (key : Z * Z) : list ((Z * Z) * Chunk) :=
  filter (fun kc => kc.1 ≠ key) l.

Definition move_to_end (l : list ((Z * Z) * Chunk)) (key : Z * Z) : list ((Z * Z) * Chunk) :=
  match lru_get l key with
  | Some c => lru_remove l key ++ [(key, c)]
  | None => l
  end.

Definition popitem_first (l : list ((Z * Z) * Chunk)) : list ((Z * Z) * Chunk) := tail l.

Definition get_chunk (self : ChunkCache) (cx cy : Z) : ChunkCache * Chunk :=
  let key := (cx, cy) in
  match lru_get (_lru self) key with
  | Some ch =>
      (mkChunkCache (max_chunks self) (cc_gen self) (cc_spec self)
                    (move_to_end (_lru self) key) (live_chunks self), ch)
  | None =>
      let ch := _generate_chunk self cx cy in
      let l := lru_setitem (_lru self) key ch in
      let l := if Z.of_nat (length l) >? max_chunks self then popitem_first l else l in
      (mkChunkCache (max_chunks self) (cc_gen self) (cc_spec self) l (Z.of_nat (length l)), ch)
  end.

Definition get_cell (self : ChunkCache) (x y : Z) : ChunkCache * (Chunk * Z) :=
  let cx := x / CHUNK_SIZE in
  let cy := y / CHUNK_SIZE in
  let '(self, ch) := get_chunk self cx cy in
  let idx := (y mod CHUNK_SIZE) * CHUNK_SIZE + (x mod CHUNK_SIZE) in
  (self, (ch, idx)).

(** A sequence of cell lookups on one cache. *)
Definition lookup_cells (self : ChunkCache) (cells : list (Z * Z)) : ChunkCache :=
  fold_left (fun c xy => (get_cell c xy.1 xy.2).1) cells self.

(** ** Predicates used in the statements about chunks and the cache *)

(** The shape of the resource planes of a chunk: [RES_MAX] planes of
    [CHUNK_CELLS] cells. *)
Definition planes_ok (rs : list (list Z)) : Prop :=
  length rs = Z.to_nat RES_MAX ∧ Forall (fun p => length p = Z.to_nat CHUNK_CELLS) rs.

(** The pairs [(iy, ix)] in the order the nested loops visit them. *)
Definition chunk_pairs : list (nat * nat) :=
  flat_map (fun iy => map (fun ix => (iy, ix)) chunk_range) chunk_range.

Definition cell_index (p : nat * nat) : nat := (p.1 * Z.to_nat CHUNK_SIZE + p.2)%nat.

(** The invariant of a cache reached from [c0] by lookups: same capacity,
    generator and world spec; no key twice; size within the capacity; every
    resident chunk is the one the generator yields for its key. *)
Definition cache_inv (c0 c : ChunkCache) : Prop :=
  max_chunks c = max_chunks c0 ∧ cc_gen c = cc_gen c0 ∧ cc_spec c = cc_spec c0
  ∧ NoDup (map fst (_lru c))
  ∧ Z.of_nat (length (_lru c)) ≤ max_chunks c0
  ∧ ∀ k ch, (k, ch) ∈ _lru c → ch = _generate_chunk c0 k.1 k.2.

(** ** DSL runtime structures *)

Open Scope string_scope.
Open Scope list_scope.
Open Scope Z_scope.

Record Condition := mkCondition {
  has_hunger : bool;
  hunger_threshold : pyfloat;
  has_fatigue : bool;
  fatigue_threshold : pyfloat;
  season_eq : Z;
  inv_item : list Z;
  inv_cmp : list Z;
  inv_value : list Z;
  has_prob : bool;
  prob : pyfloat
}.

(** [Condition()] with the dataclass defaults. *)
Definition Condition_new : Condition :=
  mkCondition false 0 false 0 SEASON_ANY [] [] [] false 0.

Record OpDef := mkOpDef { op_kind : Z; arg_i : Z; arg_j : Z }.

Record TaskDef := mkTaskDef { t_name : string; ops : list OpDef }.

Record RuleDef := mkRuleDef {
  r_name : string;
  cond : Condition;
  task_name : string;
  weight : Z
}.

Record VocationDef := mkVocationDef {
  v_name : string;
  tasks : list TaskDef;
  rules : list RuleDef
}.

Record VocationTable := mkVocationTable { vocations : list VocationDef }.

(** [VocationTable.find]: the index of the first vocation of that name, or -1. *)
Fixpoint find_from (vs : list VocationDef) (name : string) (i : Z) : Z :=
  match vs with
  | [] => -1
  | v :: vs' => if String.eqb (v_name v) name then i else find_from vs' name (i + 1)
  end.

Definition voc_find (vt : VocationTable) (name : string) : Z :=
  find_from (vocations vt) name 0.

(** [VocationTable.get]: [None] outside [0 <= vid < len]. *)
Definition voc_get (vt : VocationTable) (vid : Z) : option VocationDef :=
  if (0 <=? vid) && (vid <? Z.of_nat (length (vocations vt)))
  then vocations vt !! Z.to_nat vid else None.

Definition voc_add (vt : VocationTable) (v : VocationDef) : VocationTable :=
  mkVocationTable (vocations vt ++ [v]).

(** ** Configuration produced by parsing *)

Record ParsedConfig := mkParsedConfig {
  cfg_seed : Z;
  cfg_days : Z;
  agent_count : Z;
  settlement_count : Z;
  cache_max : Z;
  fish_renew : pyfloat;
  grain_renew : pyfloat;
  wood_renew : pyfloat;
  clay_renew : pyfloat;
  copper_renew : pyfloat;
  tin_renew : pyfloat;
  fire_renew : pyfloat;
  plant_fiber_renew : pyfloat;
  cattle_renew : pyfloat;
  sheep_renew : pyfloat;
  pig_renew : pyfloat;
  charcoal_renew : pyfloat;
  religion_renew : pyfloat;
  tribalism_renew : pyfloat;
  voc_table : VocationTable;
  snapshot_every_days : Z;
  map_every_days : Z
}.

(** [ParsedConfig()] with the dataclass defaults. *)
Definition ParsedConfig_new : ParsedConfig :=
  mkParsedConfig 1337 120 220 6 2048
    (b64_round (8 # 100)) (b64_round (6 # 100)) (b64_round (3 # 100))
    (b64_round (2 # 100)) (b64_round (5 # 1000)) (b64_round (2 # 1000))
    (b64_round (10 # 100)) (b64_round (4 # 100)) (b64_round (10 # 1000))
    (b64_round (10 # 1000)) (b64_round (10 # 1000)) (b64_round (5 # 1000))
    (b64_round (2 # 1000)) (b64_round (5 # 10000))
    (mkVocationTable []) 30 0.

Definition set_voc_table (cfg : ParsedConfig) (vt : VocationTable) : ParsedConfig :=
  mkParsedConfig (cfg_seed cfg) (cfg_days cfg) (agent_count cfg) (settlement_count cfg)
    (cache_max cfg) (fish_renew cfg) (grain_renew cfg) (wood_renew cfg) (clay_renew cfg)
    (copper_renew cfg) (tin_renew cfg) (fire_renew cfg) (plant_fiber_renew cfg)
    (cattle_renew cfg) (sheep_renew cfg) (pig_renew cfg) (charcoal_renew cfg)
    (religion_renew cfg) (tribalism_renew cfg) vt
    (snapshot_every_days cfg) (map_every_days cfg).

(** ** Lexer *)

Definition TK_EOF : Z := 0.
Definition TK_WORD : Z := 1.
Definition TK_LBRACE : Z := 2.
Definition TK_RBRACE : Z := 3.

Record Tok := mkTok { tok_kind : Z; text : string }.

(** The source text is a string of 8-bit characters read as the code points
    0..255.  The lexer state [(s, n, i)] is modelled by the unread suffix
    [s[i:]]: [i < n] is "the suffix is not empty". *)
Definition Lexer := string.

(** [str.isspace] on the code points 0..255. *)
Definition isspace (c : ascii) : bool :=
  let n := nat_of_ascii c in
  ((9 <=? n) && (n <=? 13) || (28 <=? n) && (n <=? 32) || (n =? 133) || (n =? 160))%nat.

(** [_skip_ws_and_comments].  [in_comment] is true inside the inner loops that
    run to the end of the line; they stop at the newline without consuming
    it, and the outer loop then consumes it as whitespace, which is what the
    [in_comment] case of a newline does in one step. *)
Fixpoint skip_from (in_comment : bool) (s : string) : string :=
  match s with
  | EmptyString => EmptyString
  | String c r =>
      if in_comment then
        if Ascii.eqb c "010" then skip_from false r else skip_from true r
      else if isspace c then skip_from false r
      else if Ascii.eqb c "#" then skip_from true r
      else
        match r with
        | String c2 r2 =>
            if Ascii.eqb c "/" && Ascii.eqb c2 "/" then skip_from true r2 else s
        | EmptyString => s
        end
  end.

Definition _skip_ws_and_comments (lx : Lexer) : Lexer := skip_from false lx.

(** The word loop of [next_tok]: the word read and the suffix left. *)
Fixpoint read_word (s : string) : string * string :=
  match s with
  | EmptyString => (EmptyString, EmptyString)
  | String ch r =>
      if isspace ch || Ascii.eqb ch "{" || Ascii.eqb ch "}" || Ascii.eqb ch "#"
      then (EmptyString, s)
      else
        let stop :=
          match r with
          | String c2 _ => Ascii.eqb ch "/" && Ascii.eqb c2 "/"
          | EmptyString => false
          end in
        if stop then (EmptyString, s)
        else let (w, rest) := read_word r in (String ch w, rest)
  end.

Definition next_tok (lx : Lexer) : Tok * Lexer :=
  match _skip_ws_and_comments lx with
  | EmptyString => (mkTok TK_EOF "", EmptyString)
  | String c r as s =>
      if Ascii.eqb c "{" then (mkTok TK_LBRACE "{", r)
      else if Ascii.eqb c "}" then (mkTok TK_RBRACE "}", r)
      else let (w, rest) := read_word s in (mkTok TK_WORD w, rest)
  end.

(** Results of the parser: a value, a [ValueError], or the recursion bound of
    the model used up (the source's loops are unbounded). *)
Inductive result (A : Type) : Type :=
  | Ok (a : A)
  | Error (msg : string)
  | OutOfFuel.
Arguments Ok {A} a.
Arguments Error {A} msg.
Arguments OutOfFuel {A}.

#[export] Instance result_bind : MBind result := fun A B f m =>
  match m with
  | Ok a => f a
  | Error msg => Error msg
  | OutOfFuel => OutOfFuel
  end.

Definition expect (lx : Lexer) (kind : Z) : result (Tok * Lexer) :=
  let (t, lx) := next_tok lx in
  if negb (tok_kind t =? kind) then Error "Parse error: expected token kind"
  else Ok (t, lx).

(** ** Identifier tables *)

Fixpoint dict_get (d : list (string * Z)) (k : string) : option Z :=
  match d with
  | [] => None
  | (k', v) :: d' => if String.eqb k' k then Some v else dict_get d' k
  end.

Definition RESOURCE_MAP : list (string * Z) :=
  [("fish", RES_FISH); ("grain", RES_GRAIN); ("wood", RES_WOOD); ("clay", RES_CLAY);
   ("copper", RES_COPPER); ("tin", RES_TIN); ("fire", RES_FIRE);
   ("plant_fiber", RES_PLANT_FIBER); ("cattle", RES_CATTLE); ("sheep", RES_SHEEP);
   ("pig", RES_PIG); ("charcoal", RES_CHARCOAL); ("religion", RES_RELIGION);
   ("tribalism", RES_TRIBALISM)].

Definition ITEM_MAP : list (string * Z) :=
  [("fish", ITEM_FISH); ("grain", ITEM_GRAIN); ("wood", ITEM_WOOD); ("clay", ITEM_CLAY);
   ("copper", ITEM_COPPER); ("tin", ITEM_TIN); ("bronze", ITEM_BRONZE);
   ("tool", ITEM_TOOL); ("pot", ITEM_POT)].

Definition TAG_MAP : list (string * Z) :=
  [("coast", TAG_COAST); ("beach", TAG_BEACH); ("forest", TAG_FOREST);
   ("marsh", TAG_MARSH); ("hill", TAG_HILL); ("river", TAG_RIVER);
   ("field", TAG_FIELD); ("settle", TAG_SETTLE); ("settlement", TAG_SETTLE)].

(** [str.lower] on the code points 0..255: the letters A-Z and the Latin-1
    capitals (0xC0-0xDE except 0xD7) move up by 32. *)
Definition lower_char (c : ascii) : ascii :=
  let n := nat_of_ascii c in
  if ((65 <=? n) && (n <=? 90) || (192 <=? n) && (n <=? 222) && negb (n =? 215))%nat
  then ascii_of_nat (n + 32) else c.

Fixpoint lower (s : string) : string :=
  match s with
  | EmptyString => EmptyString
  | String c r => String (lower_char c) (lower r)
  end.

Definition season_parse (s : string) : Z :=
  let ss := lower s in
  if String.eqb ss "spring" then SEASON_SPRING
  else if String.eqb ss "summer" then SEASON_SUMMER
  else if String.eqb ss "autumn" || String.eqb ss "fall" then SEASON_AUTUMN
  else if String.eqb ss "winter" then SEASON_WINTER
  else if String.eqb ss "any" then SEASON_ANY
  else SEASON_ANY.

Definition season_name (k : Z) : string :=
  if k =? SEASON_SPRING then "spring"
  else if k =? SEASON_SUMMER then "summer"
  else if k =? SEASON_AUTUMN then "autumn"
  else if k =? SEASON_WINTER then "winter"
  else "any".

Definition parse_cmp (s : string) : Z :=
  if String.eqb s ">" then CMP_GT
  else if String.eqb s "<" then CMP_LT
  else if String.eqb s ">=" then CMP_GE
  else if String.eqb s "<=" then CMP_LE
  else CMP_ANY.

(** ** Number conversions

    [int(s, 10)] and [float(s)] on a token (a token holds no whitespace):
    an optional sign, decimal digits with single underscores allowed between
    digits, and for [float] an optional fraction and exponent, or one of
    the words [inf], [infinity] and [nan] in any case.  The value of a
    decimal float literal is the binary64 nearest to the rational it
    denotes. *)

Definition digit_of (c : ascii) : option Z :=
  let n := nat_of_ascii c in
  if ((48 <=? n) && (n <=? 57))%nat then Some (Z.of_nat (n - 48)) else None.

(** Value and number of digits of a digit part; [None] on a misplaced
    underscore or a character that is no digit. *)
Fixpoint digits_from (s : string) (acc : Z) (cnt : nat) (prev_digit : bool)
    : option (Z * nat) :=
  match s with
  | EmptyString => if prev_digit || (cnt =? 0)%nat then Some (acc, cnt) else None
  | String c r =>
      match digit_of c with
      | Some d => digits_from r (acc * 10 + d) (S cnt) true
      | None =>
          if Ascii.eqb c "_" && prev_digit then digits_from r acc cnt false else None
      end
  end.

(** An optional sign: the sign as [1] or [-1] and the rest. *)
Definition split_sign (s : string) : Z * string :=
  match s with
  | String c r =>
      if Ascii.eqb c "-" then (-1, r) else if Ascii.eqb c "+" then (1, r) else (1, s)
  | EmptyString => (1, s)
  end.

Definition int_literal (s : string) : option Z :=
  let (sg, body) := split_sign s in
  match digits_from body 0 0 false with
  | Some (v, S _) => Some (sg * v)
  | _ => None
  end.

Definition _to_i32 (s : string) : result Z :=
  match int_literal s with
  | Some v => Ok v
  | None => Error "invalid literal for int() with base 10"
  end.

Definition _to_u32 (s : string) : result Z :=
  v ← _to_i32 s;
  let v := if v <? 0 then 0 else v in
  Ok (Z.land v MASK32).

(** The part before the first character satisfying [p], and the part after
    it when there is one. *)
Fixpoint split_at (p : ascii → bool) (s : string) : string * option string :=
  match s with
  | EmptyString => (EmptyString, None)
  | String c r =>
      if p c then (EmptyString, Some r)
      else let (a, b) := split_at p r in (String c a, b)
  end.

(** The rational a decimal literal without sign denotes. *)
Definition decimal_literal (body : string) : option Q :=
  let (mant, exp) := split_at (fun c => Ascii.eqb c "e" || Ascii.eqb c "E") body in
  let (ip, fp) := split_at (fun c => Ascii.eqb c ".") mant in
  match digits_from ip 0 0 false, digits_from (default EmptyString fp) 0 0 false with
  | Some (iv, ic), Some (fv, fc) =>
      if (ic + fc =? 0)%nat then None
      else
        let num := iv * 10 ^ Z.of_nat fc + fv in
        let den := 10 ^ Z.of_nat fc in
        match exp with
        | None => Some (Qmake num (Z.to_pos den))
        | Some e =>
            match int_literal e with
            | Some ev =>
                if 0 <=? ev then Some (Qmake (num * 10 ^ ev) (Z.to_pos den))
                else Some (Qmake num (Z.to_pos (den * 10 ^ (- ev))))
            | None => None
            end
        end
  | _, _ => None
  end.

Definition float_literal (s : string) : option pyfloat :=
  let (sg, body) := split_sign s in
  let low := lower body in
  if String.eqb low "inf" || String.eqb low "infinity"
  then Some (if sg <? 0 then NInf else PInf)
  else if String.eqb low "nan" then Some NaN
  else
    match decimal_literal body with
    | Some q => Some (b64_round (inject_Z sg * q))
    | None => None
    end.

Definition _to_f32 (s : string) : result pyfloat :=
  match float_literal s with
  | Some v => Ok v
  | None => Error "could not convert string to float"
  end.

(** ** Parser *)

(** [min(a, b)] and [max(a, b)] of two floats: the first argument unless the
    second is strictly smaller (larger). *)
Definition py_min (a b : pyfloat) : pyfloat := if pf_lt b a then b else a.
Definition py_max (a b : pyfloat) : pyfloat := if pf_lt a b then b else a.

Definition is_word (t : Tok) (w : string) : bool :=
  (tok_kind t =? TK_WORD) && String.eqb (text t) w.

(** One clause of a condition, after its first word [a] was read. *)
Definition parse_clause (a : Tok) (c : Condition) (lx : Lexer) : result (Condition * Lexer) :=
  if String.eqb (text a) "hunger" then
    '(op, lx) ← expect lx TK_WORD;
    '(vt, lx) ← expect lx TK_WORD;
    v ← _to_f32 (text vt);
    if negb (String.eqb (text op) ">") then Error "Only 'hunger > x' supported (matches C)"
    else Ok (mkCondition true v (has_fatigue c) (fatigue_threshold c) (season_eq c)
               (inv_item c) (inv_cmp c) (inv_value c) (has_prob c) (prob c), lx)
  else if String.eqb (text a) "fatigue" then
    '(op, lx) ← expect lx TK_WORD;
    '(vt, lx) ← expect lx TK_WORD;
    v ← _to_f32 (text vt);
    if negb (String.eqb (text op) "<") then Error "Only 'fatigue < x' supported (matches C)"
    else Ok (mkCondition (has_hunger c) (hunger_threshold c) true v (season_eq c)
               (inv_item c) (inv_cmp c) (inv_value c) (has_prob c) (prob c), lx)
  else if String.eqb (text a) "season" then
    '(op, lx) ← expect lx TK_WORD;
    '(vt, lx) ← expect lx TK_WORD;
    if negb (String.eqb (text op) "==")
    then Error "Only 'season == <name>' supported (matches C)"
    else Ok (mkCondition (has_hunger c) (hunger_threshold c) (has_fatigue c)
               (fatigue_threshold c) (season_parse (text vt))
               (inv_item c) (inv_cmp c) (inv_value c) (has_prob c) (prob c), lx)
  else if String.eqb (text a) "inv" then
    '(item, lx) ← expect lx TK_WORD;
    '(op, lx) ← expect lx TK_WORD;
    '(vt, lx) ← expect lx TK_WORD;
    v ← _to_i32 (text vt);
    match dict_get ITEM_MAP (text item) with
    | None => Error "Unknown item in inv clause"
    | Some it =>
        let ck := parse_cmp (text op) in
        if ck =? CMP_ANY then Error "Unknown comparison in inv clause"
        else if Z.of_nat (length (inv_item c)) >=? 4
        then Error "Too many inv clauses (max 4, matches C)"
        else Ok (mkCondition (has_hunger c) (hunger_threshold c) (has_fatigue c)
                   (fatigue_threshold c) (season_eq c)
                   (inv_item c ++ [it]) (inv_cmp c ++ [ck]) (inv_value c ++ [v])
                   (has_prob c) (prob c), lx)
    end
  else if String.eqb (text a) "prob" then
    '(vt, lx) ← expect lx TK_WORD;
    v ← _to_f32 (text vt);
    let v := if pf_lt v 0 then Fin 0 else v in
    let v := if pf_lt 1 v then Fin 1 else v in
    Ok (mkCondition (has_hunger c) (hunger_threshold c) (has_fatigue c)
          (fatigue_threshold c) (season_eq c)
          (inv_item c) (inv_cmp c) (inv_value c) true v, lx)
  else Error "Unknown condition clause".

Fixpoint parse_condition_loop (fuel : nat) (c : Condition) (lx : Lexer)
    : result (Condition * Lexer) :=
  match fuel with
  | O => OutOfFuel
  | S fuel =>
      let (a, lx) := next_tok lx in
      if negb (tok_kind a =? TK_WORD) then Error "Parse error: expected condition clause"
      else
        '(c, lx) ← parse_clause a c lx;
        let (maybe_and, lx) := next_tok lx in
        if is_word maybe_and "and" then parse_condition_loop fuel c lx
        else if negb (is_word maybe_and "do")
        then Error "Parse error: expected 'do' after condition"
        else Ok (c, lx)
  end.

(** Every iteration of a parser loop that goes on has read a token, so the
    length of the unread text bounds the number of iterations. *)
Definition fuel_of (lx : Lexer) : nat := S (String.length lx).

Definition parse_condition (lx : Lexer) : result (Condition * Lexer) :=
  parse_condition_loop (fuel_of lx) Condition_new lx.

(** One op of a task body, after its name [op] was read. *)
Definition parse_op (op : Tok) (lx : Lexer) : result (OpDef * Lexer) :=
  if String.eqb (text op) "move_to" then
    '(tag, lx) ← expect lx TK_WORD;
    match dict_get TAG_MAP (text tag) with
    | None => Error "Unknown tag in move_to"
    | Some tg => Ok (mkOpDef OP_MOVE_TO 0 tg, lx)
    end
  else if String.eqb (text op) "gather" then
    '(rs, lx) ← expect lx TK_WORD;
    '(at_, lx) ← expect lx TK_WORD;
    amt ← _to_i32 (text at_);
    match dict_get RESOURCE_MAP (text rs) with
    | None => Error "Unknown resource in gather"
    | Some rk => Ok (mkOpDef OP_GATHER amt rk, lx)
    end
  else if String.eqb (text op) "craft" then
    '(item, lx) ← expect lx TK_WORD;
    '(at_, lx) ← expect lx TK_WORD;
    amt ← _to_i32 (text at_);
    match dict_get ITEM_MAP (text item) with
    | None => Error "Unknown item in craft"
    | Some it => Ok (mkOpDef OP_CRAFT amt it, lx)
    end
  else if String.eqb (text op) "trade" then Ok (mkOpDef OP_TRADE 0 0, lx)
  else if String.eqb (text op) "rest" then Ok (mkOpDef OP_REST 0 0, lx)
  else if String.eqb (text op) "roam" then
    '(st, lx) ← expect lx TK_WORD;
    steps ← _to_i32 (text st);
    Ok (mkOpDef OP_ROAM steps 0, lx)
  else Error "Unknown op in task".

Fixpoint parse_ops (fuel : nat) (acc : list OpDef) (lx : Lexer)
    : result (list OpDef * Lexer) :=
  match fuel with
  | O => OutOfFuel
  | S fuel =>
      let (op, lx) := next_tok lx in
      if tok_kind op =? TK_RBRACE then Ok (acc, lx)
      else if negb (tok_kind op =? TK_WORD) then Error "Parse error: expected op name"
      else
        '(o, lx) ← parse_op op lx;
        parse_ops fuel (acc ++ [o]) lx
  end.

Definition parse_task (lx : Lexer) (voc : VocationDef) : result (VocationDef * Lexer) :=
  '(name, lx) ← expect lx TK_WORD;
  '(_, lx) ← expect lx TK_LBRACE;
  '(os, lx) ← parse_ops (fuel_of lx) [] lx;
  Ok (mkVocationDef (v_name voc) (tasks voc ++ [mkTaskDef (text name) os]) (rules voc), lx).

Definition parse_rule (lx : Lexer) (voc : VocationDef) : result (VocationDef * Lexer) :=
  '(name, lx) ← expect lx TK_WORD;
  '(_, lx) ← expect lx TK_LBRACE;
  '(when, lx) ← expect lx TK_WORD;
  if negb (String.eqb (text when) "when") then Error "Parse error: rule must start with 'when'"
  else
    '(cond, lx) ← parse_condition lx;
    '(tname, lx) ← expect lx TK_WORD;
    '(weight_kw, lx) ← expect lx TK_WORD;
    if negb (String.eqb (text weight_kw) "weight") then Error "Parse error: expected 'weight'"
    else
      '(wt, lx) ← expect lx TK_WORD;
      weight ← _to_i32 (text wt);
      let (maybe, lx) := next_tok lx in
      '(cond, maybe, lx) ←
        (if is_word maybe "prob" then
           '(pt, lx) ← expect lx TK_WORD;
           pv ← _to_f32 (text pt);
           let pv := py_max 0 (py_min 1 pv) in
           let cond := mkCondition (has_hunger cond) (hunger_threshold cond)
                         (has_fatigue cond) (fatigue_threshold cond) (season_eq cond)
                         (inv_item cond) (inv_cmp cond) (inv_value cond) true pv in
           let (maybe, lx) := next_tok lx in
           Ok (cond, maybe, lx)
         else Ok (cond, maybe, lx));
      if negb (tok_kind maybe =? TK_RBRACE)
      then Error "Parse error: expected '}' to end rule block"
      else Ok (mkVocationDef (v_name voc) (tasks voc)
                 (rules voc ++ [mkRuleDef (text name) cond (text tname) weight]), lx).

(** The [while depth > 0] loop that skips an unknown block. *)
Fixpoint skip_block (fuel : nat) (depth : Z) (lx : Lexer) : result Lexer :=
  if depth >? 0 then
    match fuel with
    | O => OutOfFuel
    | S fuel =>
        let (x, lx) := next_tok lx in
        if tok_kind x =? TK_EOF then Ok lx
        else if tok_kind x =? TK_LBRACE then skip_block fuel (depth + 1) lx
        else if tok_kind x =? TK_RBRACE then skip_block fuel (depth - 1) lx
        else skip_block fuel depth lx
    end
  else Ok lx.

(** The post-fix of rules after a vocation body: [task_names] is the set of
    task names computed once, before the loop over the rules. *)
Definition idle_task : TaskDef := mkTaskDef "idle" [mkOpDef OP_REST 0 0].

Definition set_task_name (r : RuleDef) (n : string) : RuleDef :=
  mkRuleDef (r_name r) (cond r) n (weight r).

Definition postfix_rule (task_names : gset string) (ts : list TaskDef) (r : RuleDef)
    : list TaskDef * RuleDef :=
  if bool_decide (task_name r ∈ task_names) then (ts, r)
  else
    match ts with
    | t0 :: _ => (ts, set_task_name r (t_name t0))
    | [] => (ts ++ [idle_task], set_task_name r "idle")
    end.

Fixpoint postfix_loop (task_names : gset string) (ts : list TaskDef) (rs : list RuleDef)
    : list TaskDef * list RuleDef :=
  match rs with
  | [] => (ts, [])
  | r :: rs =>
      let (ts, r) := postfix_rule task_names ts r in
      let (ts, rs) := postfix_loop task_names ts rs in
      (ts, r :: rs)
  end.

Definition postfix_rules (voc : VocationDef) : VocationDef :=
  let task_names : gset string := list_to_set (map t_name (tasks voc)) in
  let (ts, rs) := postfix_loop task_names (tasks voc) (rules voc) in
  mkVocationDef (v_name voc) ts rs.

(** The body of one [vocation NAME { ... }]. *)
Fixpoint parse_vocation_body (fuel : nat) (voc : VocationDef) (lx : Lexer)
    : result (VocationDef * Lexer) :=
  match fuel with
  | O => OutOfFuel
  | S fuel =>
      let (k, lx) := next_tok lx in
      if tok_kind k =? TK_RBRACE then Ok (voc, lx)
      else if negb (tok_kind k =? TK_WORD)
      then Error "Parse error: expected keyword in vocation body"
      else if String.eqb (text k) "task" then
        '(voc, lx) ← parse_task lx voc;
        parse_vocation_body fuel voc lx
      else if String.eqb (text k) "rule" then
        '(voc, lx) ← parse_rule lx voc;
        parse_vocation_body fuel voc lx
      else
        let (maybe, lx) := next_tok lx in
        if tok_kind maybe =? TK_LBRACE then
          lx ← skip_block (fuel_of lx) 1 lx;
          parse_vocation_body fuel voc lx
        else parse_vocation_body fuel voc lx
  end.

(** The loop of [parse_vocations_block] over the vocations.  The source adds
    the new vocation to the table before parsing its body and mutates it in
    place; here the finished vocation is appended, which yields the same
    table whenever parsing does not raise. *)
Fixpoint parse_vocations_loop (fuel : nat) (cfg : ParsedConfig) (lx : Lexer)
    : result (ParsedConfig * Lexer) :=
  match fuel with
  | O => OutOfFuel
  | S fuel =>
      let (t, lx) := next_tok lx in
      if tok_kind t =? TK_RBRACE then Ok (cfg, lx)
      else if negb (is_word t "vocation")
      then Error "Parse error: expected 'vocation' within vocations block"
      else
        '(name, lx) ← expect lx TK_WORD;
        '(_, lx) ← expect lx TK_LBRACE;
        '(voc, lx) ← parse_vocation_body (fuel_of lx) (mkVocationDef (text name) [] []) lx;
        let voc := postfix_rules voc in
        let cfg := set_voc_table cfg (voc_add (voc_table cfg) voc) in
        parse_vocations_loop fuel cfg lx
  end.

Definition parse_vocations_block (lx : Lexer) (cfg : ParsedConfig)
    : result (ParsedConfig * Lexer) :=
  '(_, lx) ← expect lx TK_LBRACE;
  parse_vocations_loop (fuel_of lx) cfg lx.

(** ** Predicates and reference definitions used in the statements about parsing *)

(** Every rule of the vocation names one of the vocation's tasks. *)
Definition voc_ok (v : VocationDef) : Prop :=
  Forall (fun r => task_name r ∈ map t_name (tasks v)) (rules v).

(** The repair of rule references as the specification words it: a rule
    naming no task of its vocation is pointed at the vocation's first task;
    in a vocation without tasks an [idle] task of one [rest] op is
    synthesized and the rules are pointed at it. *)
Definition repair_spec (v : VocationDef) : VocationDef :=
  match tasks v with
  | t0 :: _ =>
      mkVocationDef (v_name v) (tasks v)
        (map (fun r => if bool_decide (task_name r ∈ map t_name (tasks v)) then r
                       else set_task_name r (t_name t0)) (rules v))
  | [] =>
      match rules v with
      | [] => v
      | _ :: _ =>
          mkVocationDef (v_name v) [idle_task]
            (map (fun r => set_task_name r "idle") (rules v))
      end
  end.

(** The vocations of a block as they are read, before the rule references
    are repaired: the loops of [parse_vocations_block] with the post-fix
    step left out. *)
Fixpoint read_vocations_loop (fuel : nat) (acc : list VocationDef) (lx : Lexer)
    : result (list VocationDef * Lexer) :=
  match fuel with
  | O => OutOfFuel
  | S fuel =>
      let (t, lx) := next_tok lx in
      if tok_kind t =? TK_RBRACE then Ok (acc, lx)
      else if negb (is_word t "vocation")
      then Error "Parse error: expected 'vocation' within vocations block"
      else
        '(name, lx) ← expect lx TK_WORD;
        '(_, lx) ← expect lx TK_LBRACE;
        '(voc, lx) ← parse_vocation_body (fuel_of lx) (mkVocationDef (text name) [] []) lx;
        read_vocations_loop fuel (acc ++ [voc]) lx
  end.

Definition read_vocations (lx : Lexer) : result (list VocationDef * Lexer) :=
  '(_, lx) ← expect lx TK_LBRACE;
  read_vocations_loop (fuel_of lx) [] lx.

(** ** Simulation state *)

Record Household := mkHousehold { hh_id : Z; settlement_id : Z; parent_id : Z }.

Record Settlement := mkSettlement { st_x : Z; st_y : Z; val : list Q }.

Record Agent := mkAgent {
  ag_x : Z;
  ag_y : Z;
  vocation_id : Z;
  age : Z;
  household_id : Z;
  inv : list Z;
  hunger : Q;
  fatigue : Q;
  health : Q
}.

Record Sim := mkSim {
  world : WorldSpec;
  gen : WorldGen;
  cache : ChunkCache;
  settlements : list Settlement;
  resources_pool : list Z;
  households : list Household;
  agents : list Agent;
  sim_voc_table : VocationTable;
  day : Z;
  switch_every_days : Z
}.

(** Python list indexing [l[i]] and item assignment [l[i] = v]: negative
    indices count from the end, and an index out of range raises
    [IndexError], modelled by [None]. *)
Definition py_pos {A} (l : list A) (i : Z) : option nat :=
  let n := Z.of_nat (length l) in
  if (0 <=? i) && (i <? n) then Some (Z.to_nat i)
  else if (- n <=? i) && (i <? 0) then Some (Z.to_nat (n + i))
  else None.

Definition py_index {A} (l : list A) (i : Z) : option A :=
  k ← py_pos l i; l !! k.

Definition py_setitem {A} (l : list A) (i : Z) (v : A) : option (list A) :=
  k ← py_pos l i; Some (<[k := v]> l).

(** Field updates of an agent. *)
Definition set_inv (a : Agent) (l : list Z) : Agent :=
  mkAgent (ag_x a) (ag_y a) (vocation_id a) (age a) (household_id a) l
          (hunger a) (fatigue a) (health a).
Definition set_hunger (a : Agent) (h : Q) : Agent :=
  mkAgent (ag_x a) (ag_y a) (vocation_id a) (age a) (household_id a) (inv a)
          h (fatigue a) (health a).
Definition set_fatigue (a : Agent) (f : Q) : Agent :=
  mkAgent (ag_x a) (ag_y a) (vocation_id a) (age a) (household_id a) (inv a)
          (hunger a) f (health a).
Definition set_health (a : Agent) (h : Q) : Agent :=
  mkAgent (ag_x a) (ag_y a) (vocation_id a) (age a) (household_id a) (inv a)
          (hunger a) (fatigue a) h.
Definition set_vocation (a : Agent) (v : Z) : Agent :=
  mkAgent (ag_x a) (ag_y a) v (age a) (household_id a) (inv a)
          (hunger a) (fatigue a) (health a).
Definition set_age (a : Agent) (n : Z) : Agent :=
  mkAgent (ag_x a) (ag_y a) (vocation_id a) n (household_id a) (inv a)
          (hunger a) (fatigue a) (health a).

(** [a.inv[it] += d]. *)
Definition inv_add (a : Agent) (it d : Z) : option Agent :=
  v ← py_index (inv a) it;
  l ← py_setitem (inv a) it (v + d);
  Some (set_inv a l).

(** Field updates of the simulator. *)
Definition set_agents (s : Sim) (l : list Agent) : Sim :=
  mkSim (world s) (gen s) (cache s) (settlements s) (resources_pool s) (households s)
        l (sim_voc_table s) (day s) (switch_every_days s).
Definition set_pool (s : Sim) (p : list Z) : Sim :=
  mkSim (world s) (gen s) (cache s) (settlements s) p (households s)
        (agents s) (sim_voc_table s) (day s) (switch_every_days s).
Definition set_day (s : Sim) (d : Z) : Sim :=
  mkSim (world s) (gen s) (cache s) (settlements s) (resources_pool s) (households s)
        (agents s) (sim_voc_table s) d (switch_every_days s).
Definition set_cache (s : Sim) (c : ChunkCache) : Sim :=
  mkSim (world s) (gen s) c (settlements s) (resources_pool s) (households s)
        (agents s) (sim_voc_table s) (day s) (switch_every_days s).

(** The agents are objects held in the list [sim.agents] and mutated in
    place.  The agent being stepped is identified by its position [i] in
    that list, and every mutation of it is written to the list at once, so a
    read of [sim.agents[j]] always sees the current object. *)
Definition put_agent (s : Sim) (i : nat) (a : Agent) : Sim :=
  set_agents s (<[i := a]> (agents s)).

(** ** Task operations *)

Definition move_to_tag (s : Sim) (a : Agent) (want_tag radius : Z) : Agent :=
  set_fatigue a (fatigue a + (2 # 1000))%Q.

(** [float(steps)] raises [OverflowError] on an integer too large for a
    float. *)
Definition roam (s : Sim) (a : Agent) (steps : Z) : option Agent :=
  f ← float_of_int steps;
  Some (set_fatigue a (fatigue a + (1 # 1000) * f)%Q).

(** [gather]: the new simulator (only the pool changes) and the units taken. *)
Definition gather (s : Sim) (a : Agent) (rk want_units : Z) : option (Sim * Z) :=
  pool ← py_index (resources_pool s) rk;
  let max_take := pool / 20 in
  let take := if want_units <? max_take then want_units else max_take in
  p ← py_setitem (resources_pool s) rk (pool - take * 20);
  Some (set_pool s p, take).

(** One iteration of the loop of [craft_item]. *)
Definition craft_once (a : Agent) (item : Z) : option Agent :=
  if item =? ITEM_POT then
    clay ← py_index (inv a) ITEM_CLAY;
    if clay >=? 2 then
      wood ← py_index (inv a) ITEM_WOOD;
      if wood >=? 1 then
        a ← inv_add a ITEM_CLAY (-2);
        a ← inv_add a ITEM_WOOD (-1);
        a ← inv_add a ITEM_POT 1;
        Some (set_fatigue a (fatigue a + (1 # 100))%Q)
      else Some a
    else Some a
  else if item =? ITEM_BRONZE then
    copper ← py_index (inv a) ITEM_COPPER;
    if copper >=? 1 then
      tin ← py_index (inv a) ITEM_TIN;
      if tin >=? 1 then
        wood ← py_index (inv a) ITEM_WOOD;
        if wood >=? 2 then
          a ← inv_add a ITEM_COPPER (-1);
          a ← inv_add a ITEM_TIN (-1);
          a ← inv_add a ITEM_WOOD (-2);
          a ← inv_add a ITEM_BRONZE 1;
          Some (set_fatigue a (fatigue a + (2 # 100))%Q)
        else Some a
      else Some a
    else Some a
  else if item =? ITEM_TOOL then
    bronze ← py_index (inv a) ITEM_BRONZE;
    if bronze >=? 1 then
      a ← inv_add a ITEM_BRONZE (-1);
      a ← inv_add a ITEM_TOOL 1;
      Some (set_fatigue a (fatigue a + (2 # 100))%Q)
    else Some a
  else Some a.

(** [for _ in range(amount)]: [n] iterations. *)
Fixpoint craft_loop (n : nat) (a : Agent) (item : Z) : option Agent :=
  match n with
  | O => Some a
  | S n => a ← craft_once a item; craft_loop n a item
  end.

Definition craft_item (a : Agent) (item amount : Z) : option Agent :=
  craft_loop (Z.to_nat amount) a item.

(** The inner loop of [trade] over [range(ITEM_MAX)]: the running
    [(offer, bestScore)]. *)
Fixpoint best_offer (a : Agent) (st : Settlement) (want : Z) (its : list Z)
    (offer : Z) (bestScore : Q) : option (Z * Q) :=
  match its with
  | [] => Some (offer, bestScore)
  | it :: its =>
      if it =? want then best_offer a st want its offer bestScore
      else
        have ← py_index (inv a) it;
        if have <? 6 then best_offer a st want its offer bestScore
        else
          score ← py_index (val st) it;
          if flt bestScore score then best_offer a st want its it score
          else best_offer a st want its offer bestScore
  end.

Definition item_range : list Z := map Z.of_nat (seq 0 (Z.to_nat ITEM_MAX)).

(** The body of the loop of [trade] for one [want]. *)
Definition trade_want (a : Agent) (st : Settlement) (want : Z) : option Agent :=
  have ← py_index (inv a) want;
  if have >=? 3 then Some a
  else
    '(offer, _) ← best_offer a st want item_range ITEM_FISH (-1)%Q;
    ho ← py_index (inv a) offer;
    if ho <? 6 then Some a
    else
      vo ← py_index (val st) offer;
      vw ← py_index (val st) want;
      if fle vw vo then
        a ← inv_add a offer (-2);
        a ← inv_add a want 1;
        Some (set_fatigue a (fatigue a + (1 # 100))%Q)
      else Some a.

Fixpoint trade_wants (a : Agent) (st : Settlement) (wants : list Z) : option Agent :=
  match wants with
  | [] => Some a
  | w :: ws => a ← trade_want a st w; trade_wants a st ws
  end.

Definition trade (s : Sim) (a : Agent) : option Agent :=
  hh ← py_index (households s) (household_id a);
  st ← py_index (settlements s) (settlement_id hh);
  trade_wants a st [ITEM_GRAIN; ITEM_FISH; ITEM_TOOL; ITEM_POT].

Definition eat (a : Agent) : option Agent :=
  if fle (hunger a) (7 # 10) then Some a
  else
    fish ← py_index (inv a) ITEM_FISH;
    a ← (if fish >? 0 then
           a ← inv_add a ITEM_FISH (-1);
           Some (set_hunger a (hunger a - (35 # 100))%Q)
         else Some a);
    a ← (if flt (7 # 10) (hunger a) then
           grain ← py_index (inv a) ITEM_GRAIN;
           if grain >? 0 then
             a ← inv_add a ITEM_GRAIN (-1);
             Some (set_hunger a (hunger a - (30 # 100))%Q)
           else Some a
         else Some a);
    Some (if flt (hunger a) 0 then set_hunger a 0 else a).

(** [apprenticeship]: reads the parent's vocation from [sim.agents]. *)
Definition apprenticeship (s : Sim) (a : Agent) : option Agent :=
  if (age a <? 10) || (age a >? 16) then Some a
  else
    hh ← py_index (households s) (household_id a);
    if parent_id hh <? 0 then Some a
    else
      let pid := parent_id hh in
      if (pid <? 0) || (pid >=? Z.of_nat (length (agents s))) then Some a
      else
        p ← py_index (agents s) pid;
        let pv := vocation_id p in
        let r := rng_f01 (ws_seed (world s)) (ag_x a) (ag_y a) (Z.lxor (day s) 0xA22E11) in
        if flt r (10 # 100) then Some (set_vocation a pv) else Some a.

(** ** Condition evaluation and the task picker *)

(** The loop of [cond_eval] over [zip(inv_item, inv_cmp, inv_value)]. *)
Fixpoint inv_clauses (a : Agent) (items cmps vals : list Z) : option bool :=
  match items, cmps, vals with
  | ik :: items, ck :: cmps, v :: vals =>
      have ← py_index (inv a) ik;
      if (ck =? CMP_GT) && negb (have >? v) then Some false
      else if (ck =? CMP_LT) && negb (have <? v) then Some false
      else if (ck =? CMP_GE) && negb (have >=? v) then Some false
      else if (ck =? CMP_LE) && negb (have <=? v) then Some false
      else inv_clauses a items cmps vals
  | _, _, _ => Some true
  end.

Definition cond_eval (c : Condition) (s : Sim) (a : Agent) (roll : Q) : option bool :=
  if has_hunger c && negb (pf_lt (hunger_threshold c) (hunger a)) then Some false
  else if has_fatigue c && negb (pf_lt (fatigue a) (fatigue_threshold c)) then Some false
  else if negb (season_eq c =? SEASON_ANY)
          && negb (world_season_kind (day s) =? season_eq c) then Some false
  else
    ok ← inv_clauses a (inv_item c) (inv_cmp c) (inv_value c);
    if negb ok then Some false
    else if has_prob c && negb (pf_lt roll (prob c)) then Some false
    else Some true.

(** The first loop of [choose_task]: the running [total] and [eligible]. *)
Fixpoint eligible_rules (s : Sim) (a : Agent) (roll : Q) (rs : list RuleDef)
    (total : Z) (eligible : list RuleDef) : option (Z * list RuleDef) :=
  match rs with
  | [] => Some (total, eligible)
  | r :: rs =>
      ok ← cond_eval (cond r) s a roll;
      if (ok : bool) then
        let w := if weight r >? 0 then weight r else 0 in
        if w >? 0 then eligible_rules s a roll rs (total + w) (eligible ++ [r])
        else eligible_rules s a roll rs total eligible
      else eligible_rules s a roll rs total eligible
  end.

(** [for t in voc.tasks: if t.name == name: return t], else [None]. *)
Fixpoint resolve_task (ts : list TaskDef) (name : string) : option TaskDef :=
  match ts with
  | [] => None
  | t :: ts => if String.eqb (t_name t) name then Some t else resolve_task ts name
  end.

(** The second loop of [choose_task]: the rule that drives [pick] below zero. *)
Fixpoint pick_rule (eligible : list RuleDef) (pick : Z) : option RuleDef :=
  match eligible with
  | [] => None
  | r :: rs =>
      let w := if weight r >? 0 then weight r else 0 in
      let pick := pick - w in
      if pick <? 0 then Some r else pick_rule rs pick
  end.

(** [choose_task]: the outer option is the [IndexError] of a condition, the
    inner one the [Optional[TaskDef]] of the source. *)
Definition choose_task (s : Sim) (a : Agent) : option (option TaskDef) :=
  match voc_get (sim_voc_table s) (vocation_id a) with
  | None => Some None
  | Some voc =>
      let roll := rng_f01 (ws_seed (world s)) (ag_x a) (ag_y a)
                    (Z.lxor (day s) (household_id a * 131)) in
      '(total, eligible) ← eligible_rules s a roll (rules voc) 0 [];
      if total <=? 0 then Some None
      else
        let pick := rng_u32 (ws_seed (world s)) (ag_x a) (ag_y a)
                      (Z.lxor (day s) 0xC0FFEE) mod total in
        match pick_rule eligible pick with
        | Some r => Some (resolve_task (tasks voc) (task_name r))
        | None => Some None
        end
  end.

(** ** Task execution *)

Definition exec_op (s : Sim) (i : nat) (op : OpDef) : option Sim :=
  a ← agents s !! i;
  if op_kind op =? OP_MOVE_TO then Some (put_agent s i (move_to_tag s a (arg_j op) 12))
  else if op_kind op =? OP_GATHER then
    let rk := arg_j op in
    '(s, got) ← gather s a rk (arg_i op);
    if rk =? RES_FISH then a ← inv_add a ITEM_FISH got; Some (put_agent s i a)
    else if rk =? RES_GRAIN then a ← inv_add a ITEM_GRAIN got; Some (put_agent s i a)
    else if rk =? RES_WOOD then a ← inv_add a ITEM_WOOD got; Some (put_agent s i a)
    else if rk =? RES_CLAY then a ← inv_add a ITEM_CLAY got; Some (put_agent s i a)
    else if rk =? RES_COPPER then a ← inv_add a ITEM_COPPER got; Some (put_agent s i a)
    else if rk =? RES_TIN then a ← inv_add a ITEM_TIN got; Some (put_agent s i a)
    else Some s
  else if op_kind op =? OP_CRAFT then
    a ← craft_item a (arg_j op) (arg_i op); Some (put_agent s i a)
  else if op_kind op =? OP_TRADE then
    a ← trade s a; Some (put_agent s i a)
  else if op_kind op =? OP_REST then
    let a := set_fatigue a (fatigue a - (2 # 10))%Q in
    let a := if flt (fatigue a) 0 then set_fatigue a 0 else a in
    Some (put_agent s i a)
  else if op_kind op =? OP_ROAM then a ← roam s a (arg_i op); Some (put_agent s i a)
  else Some s.

Fixpoint exec_ops (s : Sim) (i : nat) (os : list OpDef) : option Sim :=
  match os with
  | [] => Some s
  | op :: os => s ← exec_op s i op; exec_ops s i os
  end.

Definition exec_task (s : Sim) (i : nat) (t : TaskDef) : option Sim :=
  exec_ops s i (ops t).

(** ** Role switching *)

(** [range(n)]. *)
Definition py_range (n : Z) : list Z := map Z.of_nat (seq 0 (Z.to_nat n)).

(** [str(n)] of an integer. *)
Definition str_of_int (n : Z) : string := NilEmpty.string_of_int (Z.to_int n).

(** [for it in range(ITEM_MAX): totals[it] += a.inv[it]]. *)
Fixpoint add_inv (totals : list Z) (a : Agent) (its : list Z) : option (list Z) :=
  match its with
  | [] => Some totals
  | it :: its =>
      t ← py_index totals it;
      v ← py_index (inv a) it;
      totals ← py_setitem totals it (t + v);
      add_inv totals a its
  end.

(** The loop over the living agents that counts them and sums their
    inventories (the same loop opens [role_switching], [sim_report] and
    [sim_write_snapshot_json]). *)
Fixpoint alive_totals (as_ : list Agent) (alive : Z) (totals : list Z)
    : option (Z * list Z) :=
  match as_ with
  | [] => Some (alive, totals)
  | a :: as_ =>
      if fle (health a) 0 then alive_totals as_ alive totals
      else
        totals ← add_inv totals a (py_range ITEM_MAX);
        alive_totals as_ (alive + 1) totals
  end.

Definition zero_totals : list Z := replicate (Z.to_nat ITEM_MAX) 0.

(** The choice of the target vocation from the four per-capita figures. *)
Definition choose_target (vt : VocationTable) (pc_grain pc_fish pc_tool pc_pot : Q) : Z :=
  let farmer_id := voc_find vt "farmer" in
  let fisher_id := voc_find vt "fisher" in
  let smith_id := voc_find vt "smith" in
  let potter_id := voc_find vt "potter" in
  let target_voc := -1 in
  let target_voc :=
    if (farmer_id >=? 0) && flt pc_grain 3 then farmer_id else target_voc in
  let target_voc :=
    if (fisher_id >=? 0) && flt pc_fish 2 && ((target_voc <? 0) || flt pc_fish pc_grain)
    then fisher_id else target_voc in
  let target_voc :=
    if (smith_id >=? 0) && flt pc_tool (6 # 10) then smith_id else target_voc in
  let target_voc :=
    if (potter_id >=? 0) && flt pc_pot (6 # 10) then potter_id else target_voc in
  target_voc.

(** The loop of [role_switching] over [enumerate(sim.agents)], from index
    [i] on: the agents after the loop and the number switched.  Leaving the
    loop by [break] keeps the remaining agents as they are. *)
Fixpoint switch_loop (s : Sim) (target_voc alive : Z) (i : Z) (as_ : list Agent)
    (switched : Z) : option (list Agent * Z) :=
  match as_ with
  | [] => Some ([], switched)
  | a :: rest =>
      let skip :=
        '(rest', sw) ← switch_loop s target_voc alive (i + 1) rest switched;
        Some (a :: rest', sw) in
      if fle (health a) 0 then skip
      else if age a <? 17 then skip
      else if vocation_id a =? target_voc then skip
      else
        hh ← py_index (households s) (household_id a);
        if parent_id hh =? i then skip
        else
          let r := rng_f01 (ws_seed (world s)) (ag_x a) (ag_y a)
                     (Z.lxor (day s) 0x5A17C9) in
          if flt r (5 # 100) then
            let a := set_vocation a target_voc in
            let switched := switched + 1 in
            if switched >=? alive / 50 + 1 then Some (a :: rest, switched)
            else
              '(rest', sw) ← switch_loop s target_voc alive (i + 1) rest switched;
              Some (a :: rest', sw)
          else skip
  end.

Definition nl : string := String "010" EmptyString.

(** [role_switching]: the new simulator and the text written to stdout. *)
Definition role_switching (s : Sim) : option (Sim * string) :=
  if switch_every_days s =? 0 then Some (s, "")
  else if negb (day s mod switch_every_days s =? 0) then Some (s, "")
  else
    '(alive, totals) ← alive_totals (agents s) 0 zero_totals;
    if alive <=? 0 then Some (s, "")
    else
      tg ← py_index totals ITEM_GRAIN;
      tf ← py_index totals ITEM_FISH;
      tt ← py_index totals ITEM_TOOL;
      tp ← py_index totals ITEM_POT;
      let pc_grain := (inject_Z tg / inject_Z alive)%Q in
      let pc_fish := (inject_Z tf / inject_Z alive)%Q in
      let pc_tool := (inject_Z tt / inject_Z alive)%Q in
      let pc_pot := (inject_Z tp / inject_Z alive)%Q in
      let target_voc := choose_target (sim_voc_table s) pc_grain pc_fish pc_tool pc_pot in
      if target_voc <? 0 then Some (s, "")
      else
        '(as_, switched) ← switch_loop s target_voc alive 0 (agents s) 0;
        let s := set_agents s as_ in
        if switched >? 0 then
          let name := match voc_get (sim_voc_table s) target_voc with
                      | Some v => v_name v
                      | None => "?"
                      end in
          Some (s, "Day " +:+ str_of_int (day s) +:+ ": role switching nudged "
                   +:+ str_of_int switched +:+ " adults into vocation '" +:+ name
                   +:+ "'" +:+ nl)
        else Some (s, "").

(** ** Reports, snapshots and maps *)

(** The loop shared by [sim_report] and [sim_write_snapshot_json]: living
    agents, inventory sums and the number of living agents per vocation. *)
Fixpoint report_totals (as_ : list Agent) (alive : Z) (inv_ : list Z) (voc_counts : list Z)
    : option (Z * list Z * list Z) :=
  match as_ with
  | [] => Some (alive, inv_, voc_counts)
  | a :: as_ =>
      if fle (health a) 0 then report_totals as_ alive inv_ voc_counts
      else
        inv_ ← add_inv inv_ a (py_range ITEM_MAX);
        voc_counts ←
          (if (0 <=? vocation_id a) && (vocation_id a <? Z.of_nat (length voc_counts))
           then c ← py_index voc_counts (vocation_id a);
                py_setitem voc_counts (vocation_id a) (c + 1)
           else Some voc_counts);
        report_totals as_ (alive + 1) inv_ voc_counts
  end.

Definition report_stats (s : Sim) : option (Z * list Z * list Z) :=
  report_totals (agents s) 0 zero_totals
    (replicate (length (vocations (sim_voc_table s))) 0).

(** [for v, c in zip(vocations, voc_counts): write(f" {v.name}={c}")]. *)
Fixpoint voc_line (vs : list VocationDef) (cs : list Z) : string :=
  match vs, cs with
  | v :: vs, c :: cs => " " +:+ v_name v +:+ "=" +:+ str_of_int c +:+ voc_line vs cs
  | _, _ => ""
  end.

(** [sim_report]: the text written to stdout. *)
Definition sim_report (s : Sim) : option string :=
  '(alive, inv_, voc_counts) ← report_stats s;
  fish ← py_index inv_ ITEM_FISH;
  wood ← py_index inv_ ITEM_WOOD;
  clay ← py_index inv_ ITEM_CLAY;
  cu ← py_index inv_ ITEM_COPPER;
  tin ← py_index inv_ ITEM_TIN;
  bronze ← py_index inv_ ITEM_BRONZE;
  tool ← py_index inv_ ITEM_TOOL;
  pot ← py_index inv_ ITEM_POT;
  Some ("Day " +:+ str_of_int (day s) +:+ " season="
        +:+ season_name (world_season_kind (day s))
        +:+ " alive=" +:+ str_of_int alive +:+ " cache_chunks=0 | "
        +:+ "fish=" +:+ str_of_int fish +:+ "...wood=" +:+ str_of_int wood
        +:+ " clay=" +:+ str_of_int clay +:+ " cu=" +:+ str_of_int cu
        +:+ " tin=" +:+ str_of_int tin +:+ " "
        +:+ "bronze=" +:+ str_of_int bronze +:+ " tool=" +:+ str_of_int tool
        +:+ " pot=" +:+ str_of_int pot +:+ nl
        +:+ "  vocations:" +:+ voc_line (vocations (sim_voc_table s)) voc_counts +:+ nl).

(** The object handed to [json.dump]; dictionaries are association lists in
    insertion order. *)
Record Snapshot := mkSnapshot {
  snap_day : Z;
  snap_season : string;
  snap_alive : Z;
  snap_inventory : list (string * Z);
  snap_vocations : list (string * Z)
}.

(** Dictionary item assignment: a present key keeps its place. *)
Fixpoint dict_set (d : list (string * Z)) (k : string) (v : Z) : list (string * Z) :=
  match d with
  | [] => [(k, v)]
  | (k', v') :: d' => if String.eqb k' k then (k', v) :: d' else (k', v') :: dict_set d' k v
  end.

(** [{v.name: voc_counts[i] for i, v in enumerate(vocations)}]. *)
Fixpoint voc_dict (vs : list VocationDef) (i : Z) (cs : list Z) (d : list (string * Z))
    : option (list (string * Z)) :=
  match vs with
  | [] => Some d
  | v :: vs => c ← py_index cs i; voc_dict vs (i + 1) cs (dict_set d (v_name v) c)
  end.

Definition snapshot_data (s : Sim) : option Snapshot :=
  '(alive, inv_, voc_counts) ← report_stats s;
  fish ← py_index inv_ ITEM_FISH;
  grain ← py_index inv_ ITEM_GRAIN;
  wood ← py_index inv_ ITEM_WOOD;
  clay ← py_index inv_ ITEM_CLAY;
  copper ← py_index inv_ ITEM_COPPER;
  tin ← py_index inv_ ITEM_TIN;
  bronze ← py_index inv_ ITEM_BRONZE;
  tool ← py_index inv_ ITEM_TOOL;
  pot ← py_index inv_ ITEM_POT;
  vd ← voc_dict (vocations (sim_voc_table s)) 0 voc_counts [];
  Some (mkSnapshot (day s) (season_name (world_season_kind (day s))) alive
          [("fish", fish); ("grain", grain); ("wood", wood); ("clay", clay);
           ("copper", copper); ("tin", tin); ("bronze", bronze); ("tool", tool);
           ("pot", pot)]
          vd).

Definition cell_char (tags : Z) : string :=
  if truthy (Z.land tags TAG_SETTLE) then "S"
  else if truthy (Z.land tags TAG_COAST) then "~"
  else if truthy (Z.land tags TAG_RIVER) then "r"
  else if truthy (Z.land tags TAG_MARSH) then "m"
  else if truthy (Z.land tags TAG_HILL) then "^"
  else if truthy (Z.land tags TAG_FOREST) then "f"
  else if truthy (Z.land tags TAG_FIELD) then "."
  else if truthy (Z.land tags TAG_BEACH) then "b"
  else " ".

(** One row of the map: the cache after the lookups and the row text. *)
Fixpoint map_row (c : ChunkCache) (yy : Z) (xs : list Z) : option (ChunkCache * string) :=
  match xs with
  | [] => Some (c, "")
  | xx :: xs =>
      if (xx <? 0) || (yy <? 0) || (xx >=? WORLD_CELLS_X) || (yy >=? WORLD_CELLS_Y) then
        '(c, row) ← map_row c yy xs; Some (c, " " +:+ row)
      else
        let '(c, (ch, idx)) := get_cell c xx yy in
        tags ← py_index (terrain ch) idx;
        '(c, row) ← map_row c yy xs; Some (c, cell_char tags +:+ row)
  end.

Fixpoint map_rows (c : ChunkCache) (ys xs : list Z) : option (ChunkCache * string) :=
  match ys with
  | [] => Some (c, "")
  | yy :: ys =>
      '(c, row) ← map_row c yy xs;
      '(c, rest) ← map_rows c ys xs;
      Some (c, row +:+ nl +:+ rest)
  end.

(** [range(a, b)]. *)
Definition py_range2 (a b : Z) : list Z := map (fun k => a + k) (py_range (b - a)).

(** [sim_dump_ascii_map]: the simulator (its cache has served the lookups)
    and the text of the file. *)
Definition sim_dump_ascii_map (s : Sim) (w h : Z) : option (Sim * string) :=
  let cx := WORLD_CELLS_X / 2 in
  let cy := WORLD_CELLS_Y / 2 in
  let sx := cx - w / 2 in
  let sy := cy - h / 2 in
  '(c, txt) ← map_rows (cache s) (py_range2 sy (sy + h)) (py_range2 sx (sx + w));
  Some (set_cache s c, txt).

(** ** Simulator initialisation *)

Definition pick_spawn (g : WorldGen) (i : Z) : Z * Z :=
  let h1 := brz_hash_u32 (Z.land i MASK32) (Z.land (wg_seed g) MASK32) 0xABCDE123 in
  let h2 := brz_hash_u32 (Z.land i MASK32) (Z.land (wg_seed g) MASK32) 0xCDEF2345 in
  let x := h1 mod (WORLD_CELLS_X - 200) + 100 in
  let y := h2 mod (WORLD_CELLS_Y - 200) + 100 in
  (x, y).

Definition init_settlement (seed i : Z) : Settlement :=
  let h1 := brz_hash_u32 i seed 0x5E77A11A in
  let h2 := brz_hash_u32 i seed 0x5E77B22B in
  let x := h1 mod (WORLD_CELLS_X - 2000) + 1000 in
  let y := h2 mod (WORLD_CELLS_Y - 2000) + 1000 in
  let r := Qmake (brz_hash_u32 i seed 0xC0DE mod 100) 100 in
  let v := replicate (Z.to_nat ITEM_MAX) 1%Q in
  let v := <[Z.to_nat ITEM_FISH := (1 + (5 # 10) * r)%Q]> v in
  let v := <[Z.to_nat ITEM_GRAIN := (1 + (5 # 10) * (1 - r))%Q]> v in
  let v := <[Z.to_nat ITEM_POT := (1 + (4 # 10) * r)%Q]> v in
  let v := <[Z.to_nat ITEM_TOOL := ((12 # 10) + (6 # 10) * r)%Q]> v in
  let v := <[Z.to_nat ITEM_BRONZE := ((13 # 10) + (7 # 10) * r)%Q]> v in
  mkSettlement x y v.

Definition init_agent (g : WorldGen) (cfg : ParsedConfig) (seed household_count i : Z) : Agent :=
  let default_voc := match vocations (voc_table cfg) with [] => -1 | _ :: _ => 0 end in
  let farmer_id := voc_find (voc_table cfg) "farmer" in
  let fisher_id := voc_find (voc_table cfg) "fisher" in
  let potter_id := voc_find (voc_table cfg) "potter" in
  let smith_id := voc_find (voc_table cfg) "smith" in
  let trader_id := voc_find (voc_table cfg) "trader" in
  let '(x, y) := pick_spawn g i in
  let age := 8 + brz_hash_u32 i seed 0xA9E mod 35 in
  let household_id := i mod household_count in
  let rr := brz_hash_u32 i seed 0xB00C mod 100 in
  let vid := default_voc in
  let vid :=
    if (rr <? 45) && (farmer_id >=? 0) then farmer_id
    else if (rr <? 70) && (fisher_id >=? 0) then fisher_id
    else if (rr <? 85) && (potter_id >=? 0) then potter_id
    else if (rr <? 95) && (smith_id >=? 0) then smith_id
    else if trader_id >=? 0 then trader_id else vid in
  mkAgent x y vid age household_id (replicate (Z.to_nat ITEM_MAX) 0)
          (10 # 100) (10 # 100) 1.

(** The oldest member of household [h]: the running [(bestAge, parent)]. *)
Fixpoint oldest_member (as_ : list Agent) (h : Z) (i : Z) (bestAge parent : Z) : Z :=
  match as_ with
  | [] => parent
  | a :: as_ =>
      if negb (household_id a =? h) then oldest_member as_ h (i + 1) bestAge parent
      else if age a >? bestAge then oldest_member as_ h (i + 1) (age a) i
      else oldest_member as_ h (i + 1) bestAge parent
  end.

Definition renew_list (cfg : ParsedConfig) : list pyfloat :=
  [fish_renew cfg; grain_renew cfg; wood_renew cfg; clay_renew cfg; copper_renew cfg;
   tin_renew cfg; fire_renew cfg; plant_fiber_renew cfg; cattle_renew cfg;
   sheep_renew cfg; pig_renew cfg; charcoal_renew cfg; religion_renew cfg;
   tribalism_renew cfg].

(** [int(renew * 255.0 * 30.0 * scale)] in binary64, the products taken
    from left to right; [None] when the conversion of the integer [scale] to
    a float or [int] of the product raises. *)
Definition init_amount (renew : pyfloat) (scale : Z) : option Z :=
  sc ← float_of_int scale;
  py_int_f (fmul (fmul (fmul renew 255) 30) (Fin sc)).

(** The pool loop that ends [sim_init_from_cfg]. *)
Fixpoint init_pool_loop (rm : list pyfloat) (scale : Z) : option (list Z) :=
  match rm with
  | [] => Some []
  | r :: rm =>
      v ← init_amount r scale;
      vs ← init_pool_loop rm scale;
      Some (v :: vs)
  end.

Definition init_pool (cfg : ParsedConfig) : option (list Z) :=
  let scale := Z.max 1000 (agent_count cfg * 80) in
  init_pool_loop (renew_list cfg) scale.

(** The simulator [sim_init_from_cfg] builds.  The pool is the one of
    [init_pool]; when the pool loop raises, the function returns nothing
    ([sim_init_run]) and the simulator is the one built before that loop,
    with [resources_pool=[0]*RES_MAX]. *)
Definition sim_init_from_cfg (cfg : ParsedConfig) : Sim :=
  let rm := renew_list cfg in
  let ws := mkWorldSpec (cfg_seed cfg) (Z.max 1 (settlement_count cfg)) rm in
  let g := worldgen_init (ws_seed ws) in
  let cache := ChunkCache_init (cache_max cfg) g ws in
  let settlements := map (init_settlement (ws_seed ws)) (py_range (ws_settlement_count ws)) in
  let n_agents := Z.max 1 (agent_count cfg) in
  let household_count := (n_agents + 4) / 5 in
  let agents := map (init_agent g cfg (ws_seed ws) household_count) (py_range n_agents) in
  let households :=
    map (fun h => mkHousehold h (h mod ws_settlement_count ws)
                    (oldest_member agents h 0 (-1) (-1)))
        (py_range household_count) in
  let pool := default (replicate (Z.to_nat RES_MAX) 0) (init_pool cfg) in
  mkSim ws g cache settlements pool households agents (voc_table cfg) 0 30.

(** The result of [sim_init_from_cfg]: [None] when it raises. *)
Definition sim_init_run (cfg : ParsedConfig) : option Sim :=
  _ ← init_pool cfg; Some (sim_init_from_cfg cfg).

(** ** The day stepper *)

(** [int(renew * mul * 255.0 * scale)] in binary64; [None] when it raises. *)
Definition regen_amount (renew mul : pyfloat) (scale : Z) : option Z :=
  sc ← float_of_int scale;
  py_int_f (fmul (fmul (fmul renew mul) 255) (Fin sc)).

(** The regeneration loop of [sim_step] over [range(RES_MAX)]. *)
Fixpoint regen_pool (s : Sim) (season scale : Z) (rks : list Z) : option Sim :=
  match rks with
  | [] => Some s
  | rk :: rks =>
      let fishMul := if season =? SEASON_WINTER then b64_round (70 # 100) else Fin 1 in
      let grainMul :=
        if season =? SEASON_WINTER then b64_round (30 # 100)
        else if (season =? SEASON_SUMMER) || (season =? SEASON_AUTUMN) then Fin 1
        else b64_round (70 # 100) in
      let mul := if rk =? RES_FISH then fishMul
                 else if rk =? RES_GRAIN then grainMul else Fin 1 in
      p ← py_index (resources_pool s) rk;
      r ← py_index (renew_per_day (world s)) rk;
      add ← regen_amount r mul scale;
      pool ← py_setitem (resources_pool s) rk (p + add);
      regen_pool (set_pool s pool) season scale rks
  end.

(** The body of the loop of [sim_step] for the agent at position [i]. *)
Definition agent_step (s : Sim) (i : nat) : option Sim :=
  a ← agents s !! i;
  if fle (health a) 0 then Some s
  else
    let a := if day s mod 360 =? 0 then set_age a (age a + 1) else a in
    let a := set_hunger a (hunger a + (18 # 100))%Q in
    let a := if flt 1 (hunger a) then set_hunger a 1 else a in
    let a := set_fatigue a (fatigue a - (8 # 100))%Q in
    let a := if flt (fatigue a) 0 then set_fatigue a 0 else a in
    a ← eat a;
    let s := put_agent s i a in
    a ← apprenticeship s a;
    let s := put_agent s i a in
    if flt (95 # 100) (hunger a) then
      let a := set_health a (health a - (1 # 100))%Q in
      let a := if flt (health a) 0 then set_health a 0 else a in
      Some (put_agent s i a)
    else if fle (90 # 100) (fatigue a) then
      let a := set_fatigue a (fatigue a - (20 # 100))%Q in
      let a := if flt (fatigue a) 0 then set_fatigue a 0 else a in
      Some (put_agent s i a)
    else
      t ← choose_task s a;
      match t with
      | None =>
          let a := set_fatigue a (fatigue a + (3 # 1000))%Q in
          let s := put_agent s i a in
          if Z.of_nat i mod 9 =? 0 then a ← trade s a; Some (put_agent s i a)
          else Some s
      | Some t => exec_task s i t
      end.

Fixpoint agents_loop (s : Sim) (is_ : list nat) : option Sim :=
  match is_ with
  | [] => Some s
  | i :: is_ => s ← agent_step s i; agents_loop s is_
  end.

(** [sim_step]: the new simulator and the text written to stdout. *)
Definition sim_step (s : Sim) : option (Sim * string) :=
  let s := set_day s (day s + 1) in
  let season := world_season_kind (day s) in
  let scale := Z.max 1000 (Z.of_nat (length (agents s)) * 80) in
  s ← regen_pool s season scale (py_range RES_MAX);
  s ← agents_loop s (seq 0 (length (agents s)));
  role_switching s.

(** ** The main loop *)

Inductive FileData : Type :=
  | SnapshotFile (data : Snapshot)
  | MapFile (txt : string).

Record Outputs := mkOutputs {
  out_stdout : string;
  out_files : list (string * FileData)
}.

(** [f"{n:05d}"]. *)
Definition pad5 (n : Z) : string :=
  let digits := str_of_int (Z.abs n) in
  let width := if n <? 0 then 4%nat else 5%nat in
  let zeros := String.concat "" (replicate (width - String.length digits) "0") in
  (if n <? 0 then "-" else "") +:+ zeros +:+ digits.

(** One iteration of the loop of [main]. *)
Definition main_day (cfg : ParsedConfig) (s : Sim) (out : Outputs) : option (Sim * Outputs) :=
  '(s, txt) ← sim_step s;
  let out := mkOutputs (out_stdout out +:+ txt) (out_files out) in
  out ← (if day s mod 10 =? 0 then
           r ← sim_report s; Some (mkOutputs (out_stdout out +:+ r) (out_files out))
         else Some out);
  out ← (if (snapshot_every_days cfg >? 0) && (day s mod snapshot_every_days cfg =? 0) then
           d ← snapshot_data s;
           Some (mkOutputs (out_stdout out)
                   (out_files out
                    ++ [("snapshot_day" +:+ pad5 (day s) +:+ ".json", SnapshotFile d)]))
         else Some out);
  if (map_every_days cfg >? 0) && (day s mod map_every_days cfg =? 0) then
    '(s, txt) ← sim_dump_ascii_map s 80 40;
    Some (s, mkOutputs (out_stdout out)
               (out_files out ++ [("map_day" +:+ pad5 (day s) +:+ ".txt", MapFile txt)]))
  else Some (s, out).

Fixpoint main_days (n : nat) (cfg : ParsedConfig) (s : Sim) (out : Outputs)
    : option (Sim * Outputs) :=
  match n with
  | O => Some (s, out)
  | S n => '(s, out) ← main_day cfg s out; main_days n cfg s out
  end.

(** [main] after the configuration was parsed: the exit code, the final
    simulator and everything written; [None] is an uncaught exception. *)
Definition main_from_cfg (cfg : ParsedConfig) : option (Z * option Sim * Outputs) :=
  match vocations (voc_table cfg) with
  | [] => Some (1, None, mkOutputs "" [])
  | _ :: _ =>
      s ← sim_init_run cfg;
      '(s, out) ← main_days (Z.to_nat (cfg_days cfg)) cfg s (mkOutputs "" []);
      r ← sim_report s;
      Some (0, Some s, mkOutputs (out_stdout out +:+ r) (out_files out))
  end.

(** ** Reference definitions used in the statements about role switching *)

(** The four clauses of the target choice. *)
Definition farmer_clause (vt : VocationTable) (pc_grain : Q) : bool :=
  (voc_find vt "farmer" >=? 0) && flt pc_grain 3.
Definition fisher_clause (vt : VocationTable) (pc_grain pc_fish : Q) : bool :=
  (voc_find vt "fisher" >=? 0) && flt pc_fish 2
  && (negb (farmer_clause vt pc_grain) || flt pc_fish pc_grain).
Definition smith_clause (vt : VocationTable) (pc_tool : Q) : bool :=
  (voc_find vt "smith" >=? 0) && flt pc_tool (6 # 10).
Definition potter_clause (vt : VocationTable) (pc_pot : Q) : bool :=
  (voc_find vt "potter" >=? 0) && flt pc_pot (6 # 10).

(** A two-vocation table used in examples. *)
Definition farmer_smith_table : VocationTable :=
  mkVocationTable [mkVocationDef "farmer" [] []; mkVocationDef "smith" [] []].

(** ** Reference definitions used in the statements about the task picker *)

(** The shared roll of an agent on the current day. *)
Definition day_roll (s : Sim) (a : Agent) : Q :=
  rng_f01 (ws_seed (world s)) (ag_x a) (ag_y a) (Z.lxor (day s) (household_id a * 131)).

(** The rules whose condition succeeds under the roll. *)
Definition passing_rules (s : Sim) (a : Agent) (rs : list RuleDef) : list RuleDef :=
  List.filter (fun r => bool_decide (cond_eval (cond r) s a (day_roll s a) = Some true)) rs.

(** The passing rules of positive weight: the eligible rules. *)
Definition eligible_spec (s : Sim) (a : Agent) (rs : list RuleDef) : list RuleDef :=
  List.filter (fun r => weight r >? 0) (passing_rules s a rs).

(** The plain sum of the weights of a list of rules. *)
Definition sum_weights (rs : list RuleDef) : Z :=
  foldr (fun r acc => weight r + acc) 0 rs.

(** The random pick of [choose_task] for a given total. *)
Definition day_pick (s : Sim) (a : Agent) (total : Z) : Z :=
  rng_u32 (ws_seed (world s)) (ag_x a) (ag_y a) (Z.lxor (day s) 0xC0FFEE) mod total.

(** A simulator with one agent and one vocation, for examples: the agent is
    an adult, rested and fed, and carries [inv0]. *)
Definition example_agent (inv0 : list Z) : Agent :=
  mkAgent 500 600 0 30 0 inv0 (10 # 100) (10 # 100) 1.

Definition one_agent_sim (voc : VocationDef) (inv0 : list Z) (pool : list Z) (d : Z) : Sim :=
  let ws := mkWorldSpec 1337 1 (replicate 14 (b64_round (1 # 100))) in
  let g := worldgen_init 1337 in
  mkSim ws g (ChunkCache_init 16 g ws)
        [mkSettlement 1000 1000 (replicate 9 1%Q)]
        pool
        [mkHousehold 0 0 0]
        [example_agent inv0]
        (mkVocationTable [voc]) d 30.

Definition rest_task : TaskDef := mkTaskDef "A" [mkOpDef OP_REST 0 0].

(** Two rules that always pass, of weights 5 and -5. *)
Definition opposite_weights_voc : VocationDef :=
  mkVocationDef "v" [rest_task]
    [mkRuleDef "r1" Condition_new "A" 5; mkRuleDef "r2" Condition_new "A" (-5)].

(** Two rules of weights 3 and 2; the second passes only with five fish. *)
Definition two_rule_voc : VocationDef :=
  mkVocationDef "v" [rest_task; mkTaskDef "B" [mkOpDef OP_ROAM 2 0]]
    [mkRuleDef "r1" Condition_new "A" 3;
     mkRuleDef "r2" (mkCondition false 0 false 0 SEASON_ANY
                       [ITEM_FISH] [CMP_GE] [5] false 0) "B" 2].

(** ** Reference definitions used in the statements about season clauses *)

(** The condition left by parsing the single clause [season == NAME]. *)
Definition season_cond (k : Z) : Condition :=
  mkCondition false 0 false 0 k [] [] [] false 0.



(** ** The invariant of the simulation *)

(** Inventories and pools: the right number of slots, none negative. *)
Definition inv_ok (l : list Z) : Prop :=
  length l = Z.to_nat ITEM_MAX ∧ Forall (fun v => 0 ≤ v) l.

Definition pool_ok (p : list Z) : Prop :=
  length p = Z.to_nat RES_MAX ∧ Forall (fun v => 0 ≤ v) p.

(** Needs: hunger and health within [0,1]; fatigue is only bounded below
    (nothing in the stepper caps it from above). *)
Definition needs_ok (a : Agent) : Prop :=
  (0 <= hunger a)%Q ∧ (hunger a <= 1)%Q ∧ (0 <= fatigue a)%Q
  ∧ (0 <= health a)%Q ∧ (health a <= 1)%Q.

(** An agent of a simulator with [nh] households. *)
Definition agent_ok (nh : nat) (a : Agent) : Prop :=
  inv_ok (inv a) ∧ needs_ok a ∧ 0 ≤ household_id a < Z.of_nat nh.

(** Programs: resource and item ordinals in range, as the parser leaves
    them, and no negative gather or roam amount. *)
Definition op_ok (op : OpDef) : Prop :=
  (op_kind op = OP_GATHER → 0 ≤ arg_j op < RES_MAX ∧ 0 ≤ arg_i op)
  ∧ (op_kind op = OP_ROAM → 0 ≤ arg_i op).

Definition cond_ok (c : Condition) : Prop :=
  Forall (fun ik => 0 ≤ ik < ITEM_MAX) (inv_item c).

Definition voc_wf (v : VocationDef) : Prop :=
  Forall (fun t => Forall op_ok (ops t)) (tasks v)
  ∧ Forall (fun r => cond_ok (cond r)) (rules v).

Definition table_ok (vt : VocationTable) : Prop := Forall voc_wf (vocations vt).

(** A renewal rate that is not negative: [r < 0] is false (NaN and the
    positive infinity pass; with them the pool loop raises). *)
Definition rate_nonneg (r : pyfloat) : Prop := pf_lt r 0 = false.

(** The parts of the simulator that no day step changes. *)
Definition static_ok (s : Sim) : Prop :=
  length (renew_per_day (world s)) = Z.to_nat RES_MAX
  ∧ Forall rate_nonneg (renew_per_day (world s))
  ∧ Forall (fun hh => 0 ≤ settlement_id hh < Z.of_nat (length (settlements s))) (households s)
  ∧ Forall (fun st => length (val st) = Z.to_nat ITEM_MAX) (settlements s)
  ∧ table_ok (sim_voc_table s).

Definition sim_ok (s : Sim) : Prop :=
  static_ok s ∧ pool_ok (resources_pool s)
  ∧ Forall (agent_ok (length (households s))) (agents s).

(** A configuration whose program is in range and whose renewal rates are
    not negative. *)
Definition cfg_ok (cfg : ParsedConfig) : Prop :=
  table_ok (voc_table cfg) ∧ Forall rate_nonneg (renew_list cfg).

(** *** Sizes that keep the float arithmetic finite

    [float(steps)] raises [OverflowError] from about [1.8e308] on, and so
    does [int] of a pool product that has overflowed to infinity.  The
    bounds below are sufficient for neither to happen. *)

(** A roam amount below [2^1023]. *)
Definition op_fin (op : OpDef) : Prop := op_kind op = OP_ROAM → arg_i op < 2 ^ 1023.

Definition table_fin (vt : VocationTable) : Prop :=
  Forall (fun v => Forall (fun t => Forall op_fin (ops t)) (tasks v)) (vocations vt).

(** A renewal rate that is a finite float, not negative and at most
    [2^400]; with at most [2^400] agents the products of the pool arithmetic
    then stay below the largest float. *)
Definition rate_ok (r : pyfloat) : Prop :=
  ∃ q : Q, r = Fin q ∧ (0 <= q)%Q ∧ (q <= inject_Z (2 ^ 400))%Q.

(** A renewal rate that is a finite float of magnitude at most [2^400]. *)
Definition rate_fin (r : pyfloat) : Prop :=
  ∃ q : Q, r = Fin q ∧ (Qabs q <= inject_Z (2 ^ 400))%Q.

Definition sim_fin (s : Sim) : Prop :=
  Forall rate_ok (renew_per_day (world s))
  ∧ Z.of_nat (length (agents s)) ≤ 2 ^ 400
  ∧ table_fin (sim_voc_table s).

Definition cfg_fin (cfg : ParsedConfig) : Prop :=
  Forall rate_ok (renew_list cfg)
  ∧ agent_count cfg ≤ 2 ^ 400
  ∧ table_fin (voc_table cfg).

(** The simulator after [n] days (the text written is dropped). *)
Fixpoint sim_days (n : nat) (s : Sim) : option Sim :=
  match n with
  | O => Some s
  | S n => '(s, _) ← sim_step s; sim_days n s
  end.

(** The parts of the simulator that neither a task nor the agent loop
    changes, and the number of agents. *)
Definition frame_eq (s s' : Sim) : Prop :=
  world s' = world s ∧ households s' = households s ∧ settlements s' = settlements s
  ∧ sim_voc_table s' = sim_voc_table s ∧ day s' = day s
  ∧ switch_every_days s' = switch_every_days s
  ∧ length (agents s') = length (agents s).

(** ** Reference definitions used in the statements about the chunk cache *)

(** Replacing the cache in the result of a step. *)
Definition with_cache {A} (c : ChunkCache) (r : Sim * A) : Sim * A := (set_cache r.1 c, r.2).

(** The simulator without the content of its cache. *)
Definition forget_cache (s : Sim) : Sim := set_cache s (ChunkCache_init 0 (gen s) (world s)).

Definition set_cache_max (cfg : ParsedConfig) (n : Z) : ParsedConfig :=
  mkParsedConfig (cfg_seed cfg) (cfg_days cfg) (agent_count cfg) (settlement_count cfg) n
    (fish_renew cfg) (grain_renew cfg) (wood_renew cfg) (clay_renew cfg) (copper_renew cfg)
    (tin_renew cfg) (fire_renew cfg) (plant_fiber_renew cfg) (cattle_renew cfg)
    (sheep_renew cfg) (pig_renew cfg) (charcoal_renew cfg) (religion_renew cfg)
    (tribalism_renew cfg) (voc_table cfg) (snapshot_every_days cfg) (map_every_days cfg).

Definition set_map_every_days (cfg : ParsedConfig) (n : Z) : ParsedConfig :=
  mkParsedConfig (cfg_seed cfg) (cfg_days cfg) (agent_count cfg) (settlement_count cfg)
    (cache_max cfg)
    (fish_renew cfg) (grain_renew cfg) (wood_renew cfg) (clay_renew cfg) (copper_renew cfg)
    (tin_renew cfg) (fire_renew cfg) (plant_fiber_renew cfg) (cattle_renew cfg)
    (sheep_renew cfg) (pig_renew cfg) (charcoal_renew cfg) (religion_renew cfg)
    (tribalism_renew cfg) (voc_table cfg) (snapshot_every_days cfg) n.

Definition is_snapshot (f : string * FileData) : bool :=
  match f.2 with
  | SnapshotFile _ => true
  | MapFile _ => false
  end.

Definition snapshot_files (out : Outputs) : list (string * FileData) :=
  List.filter is_snapshot (out_files out).

(** What is compared between two runs of the main loop: the simulator
    without its cache, the text on stdout and the snapshot files. *)
Definition observe_days (r : Sim * Outputs) : Sim * string * list (string * FileData) :=
  (forget_cache r.1, out_stdout r.2, snapshot_files r.2).

(** The same with every file, the maps included. *)
Definition observe_days_all (r : Sim * Outputs) : Sim * Outputs := (forget_cache r.1, r.2).

Definition observe (r : Z * option Sim * Outputs)
    : Z * option Sim * string * list (string * FileData) :=
  (r.1.1, forget_cache <$> r.1.2, out_stdout r.2, snapshot_files r.2).

Definition observe_all (r : Z * option Sim * Outputs) : Z * option Sim * Outputs :=
  (r.1.1, forget_cache <$> r.1.2, r.2).

(** The map text as a function of the generator and the settlement count. *)
Fixpoint map_row_text (g : WorldGen) (n : Z) (yy : Z) (xs : list Z) : string :=
  match xs with
  | [] => ""
  | xx :: xs =>
      (if (xx <? 0) || (yy <? 0) || (xx >=? WORLD_CELLS_X) || (yy >=? WORLD_CELLS_Y)
       then " " else cell_char (world_cell_tags g xx yy n))
      +:+ map_row_text g n yy xs
  end.

Fixpoint map_text (g : WorldGen) (n : Z) (ys xs : list Z) : string :=
  match ys with
  | [] => ""
  | yy :: ys => map_row_text g n yy xs +:+ nl +:+ map_text g n ys xs
  end.

(** Two states of the main loop that agree up to the cache, each cache
    being one reached by lookups from an empty cache over the generator [g]
    and the world spec [ws]; [same_maps] says whether the map files are
    compared too. *)
Definition run_rel (g : WorldGen) (ws : WorldSpec) (same_maps : Prop)
    (r1 r2 : Sim * Outputs) : Prop :=
  set_cache r1.1 (cache r2.1) = r2.1
  ∧ (∃ c0, cache_inv c0 (cache r1.1) ∧ cc_gen c0 = g ∧ cc_spec c0 = ws)
  ∧ (∃ c0, cache_inv c0 (cache r2.1) ∧ cc_gen c0 = g ∧ cc_spec c0 = ws)
  ∧ out_stdout r1.2 = out_stdout r2.2
  ∧ snapshot_files r1.2 = snapshot_files r2.2
  ∧ (same_maps → out_files r1.2 = out_files r2.2).

(** ** Example programs *)

(** A single vocation with a single unconditional [gather fish 5] task,
    chosen by a rule of weight [w]. *)
Definition gather_fish_voc (w : Z) : VocationDef :=
  mkVocationDef "fisher" [mkTaskDef "fish" [mkOpDef OP_GATHER 5 RES_FISH]]
    [mkRuleDef "r" Condition_new "fish" w].

Definition gather_fish_src : string :=
  "{ vocation fisher { task fish { gather fish 5 } rule r { when season == any do fish weight 3 } } }".

(** A vocation whose only task roams 2000 steps, and one whose only task
    gathers a negative amount. *)
Definition roam_src : string :=
  "{ vocation walker { task walk { roam 2000 } rule r { when season == any do walk weight 1 } } }".

Definition negative_gather_src : string :=
  "{ vocation fisher { task fish { gather fish -5 } rule r { when season == any do fish weight 1 } } }".

(** The configuration read from a vocations block, every other setting at
    its default but the number of agents. *)
Definition cfg_of_src (src : string) (n_agents : Z) : ParsedConfig :=
  let cfg := match parse_vocations_block src ParsedConfig_new with
             | Ok (cfg, _) => cfg
             | _ => ParsedConfig_new
             end in
  mkParsedConfig (cfg_seed cfg) (cfg_days cfg) n_agents (settlement_count cfg)
    (cache_max cfg)
    (fish_renew cfg) (grain_renew cfg) (wood_renew cfg) (clay_renew cfg) (copper_renew cfg)
    (tin_renew cfg) (fire_renew cfg) (plant_fiber_renew cfg) (cattle_renew cfg)
    (sheep_renew cfg) (pig_renew cfg) (charcoal_renew cfg) (religion_renew cfg)
    (tribalism_renew cfg) (voc_table cfg) (snapshot_every_days cfg) (map_every_days cfg).

(** Two vocations, a fisher and a farmer. *)
Definition fisher_farmer_src : string :=
  "{ vocation fisher { task fish { move_to coast gather fish 5 } task nap { rest } rule r1 { when season == any do fish weight 3 } rule r2 { when hunger > 0.5 do nap weight 1 } } vocation farmer { task farm { gather grain 4 craft pot 1 trade } rule r1 { when season == any do farm weight 3 } } }".

(** A rule that names no task of its vocation, and a vocation without any
    task. *)
Definition dangling_src : string :=
  "{ vocation smith { task forge { craft bronze 1 } rule r { when season == any do smelt weight 2 } } vocation idler { rule r { when fatigue < 0.5 do stroll weight 1 } } }".

(** The initial simulator of 220 agents over the fisher and farmer program,
    put on day 30, a day on which role switching runs. *)
Definition day30_sim : Sim :=
  set_day (sim_init_from_cfg (cfg_of_src fisher_farmer_src 220)) 30.

Definition set_fish_renew (cfg : ParsedConfig) (q : pyfloat) : ParsedConfig :=
  mkParsedConfig (cfg_seed cfg) (cfg_days cfg) (agent_count cfg) (settlement_count cfg)
    (cache_max cfg)
    q (grain_renew cfg) (wood_renew cfg) (clay_renew cfg) (copper_renew cfg)
    (tin_renew cfg) (fire_renew cfg) (plant_fiber_renew cfg) (cattle_renew cfg)
    (sheep_renew cfg) (pig_renew cfg) (charcoal_renew cfg) (religion_renew cfg)
    (tribalism_renew cfg) (voc_table cfg) (snapshot_every_days cfg) (map_every_days cfg).

(** One agent over the [gather fish 5] program with [fish_renew 0.000013]:
    the initial fish pool is 99. *)
Definition scarce_fish_cfg : ParsedConfig :=
  set_fish_renew (cfg_of_src gather_fish_src 1) (b64_round (13 # 1000000)).


(** ** Predicates used in the lemmas about float arithmetic *)

(** A finite float that is not negative and at most [2^B]. *)
Definition fin_le (x : pyfloat) (B : Z) : Prop :=
  ∃ q : Q, x = Fin q ∧ (0 <= q)%Q ∧ (q <= inject_Z (2 ^ B))%Q.

(** The float of opposite sign. *)
Definition fneg (x : pyfloat) : pyfloat :=
  match x with
  | Fin q => Fin (- q)
  | PInf => NInf
  | NInf => PInf
  | NaN => NaN
  end.

(** A finite float of magnitude at most [2^B]. *)
Definition fin_abs (x : pyfloat) (B : Z) : Prop :=
  ∃ q : Q, x = Fin q ∧ (Qabs q <= inject_Z (2 ^ B))%Q.

(** ** Predicates used in the statements about the lexer and the parsers *)

(** The characters that end a word. *)
Definition ends_word (c : ascii) : bool :=
  isspace c || Ascii.eqb c "{" || Ascii.eqb c "}" || Ascii.eqb c "#".

(** Every character of the string satisfies [p]. *)
Fixpoint string_forall (p : ascii → bool) (s : string) : bool :=
  match s with
  | EmptyString => true
  | String c r => p c && string_forall p r
  end.

(** A parser step that has returned, by a value or by [ValueError], and in
    the first case has left at most [n] characters unread. *)
Definition returned {A} (n : nat) (r : result (A * Lexer)) : Prop :=
  match r with
  | Ok (_, lx') => (String.length lx' ≤ n)%nat
  | Error _ => True
  | OutOfFuel => False
  end.

(** An op as the parser builds it: one of the six kinds; the tag of a
    [move_to] is one of the eight tag bits, the resource of a [gather] and
    the item of a [craft] are ordinals of their tables. *)
Definition op_parsed (op : OpDef) : Prop :=
  (op_kind op = OP_MOVE_TO ∧ arg_i op = 0 ∧ ∃ k, 0 ≤ k < 8 ∧ arg_j op = Z.shiftl 1 k)
  ∨ (op_kind op = OP_GATHER ∧ 0 ≤ arg_j op < RES_MAX)
  ∨ (op_kind op = OP_CRAFT ∧ 0 ≤ arg_j op < ITEM_MAX)
  ∨ (op_kind op = OP_TRADE ∧ arg_i op = 0 ∧ arg_j op = 0)
  ∨ (op_kind op = OP_REST ∧ arg_i op = 0 ∧ arg_j op = 0)
  ∨ (op_kind op = OP_ROAM ∧ arg_j op = 0).

(** A condition as the parser builds it: at most four inventory clauses,
    held in three lists of one length, over items of the table and the four
    comparisons; a season or ANY; a probability within [0,1] or NaN (the
    clamps [v < 0] and [v > 1] of a [prob] clause let NaN through). *)
Definition cond_parsed (c : Condition) : Prop :=
  length (inv_item c) = length (inv_cmp c)
  ∧ length (inv_cmp c) = length (inv_value c)
  ∧ (length (inv_item c) ≤ 4)%nat
  ∧ Forall (fun it => 0 ≤ it < ITEM_MAX) (inv_item c)
  ∧ Forall (fun k => CMP_GT ≤ k ≤ CMP_LE) (inv_cmp c)
  ∧ (0 ≤ season_eq c ≤ SEASON_WINTER ∨ season_eq c = SEASON_ANY)
  ∧ (prob c = NaN ∨ ∃ q : Q, prob c = Fin q ∧ (0 <= q)%Q ∧ (q <= 1)%Q).

Definition voc_parsed (v : VocationDef) : Prop :=
  Forall (fun t => Forall op_parsed (ops t)) (tasks v)
  ∧ Forall (fun r => cond_parsed (cond r)) (rules v).

(** ** The file parser

    [parse_bronze_file] after the file was read: [src] is its text.  Each
    block of settings is a loop over key and value words; [kv] is the chain
    of tests on the key, which converts the value and stores it. *)

Definition set_seed (cfg : ParsedConfig) (n : Z) : ParsedConfig :=
  mkParsedConfig n (cfg_days cfg) (agent_count cfg) (settlement_count cfg) (cache_max cfg)
    (fish_renew cfg) (grain_renew cfg) (wood_renew cfg) (clay_renew cfg) (copper_renew cfg)
    (tin_renew cfg) (fire_renew cfg) (plant_fiber_renew cfg) (cattle_renew cfg)
    (sheep_renew cfg) (pig_renew cfg) (charcoal_renew cfg) (religion_renew cfg)
    (tribalism_renew cfg) (voc_table cfg) (snapshot_every_days cfg) (map_every_days cfg).

Definition set_days (cfg : ParsedConfig) (n : Z) : ParsedConfig :=
  mkParsedConfig (cfg_seed cfg) n (agent_count cfg) (settlement_count cfg) (cache_max cfg)
    (fish_renew cfg) (grain_renew cfg) (wood_renew cfg) (clay_renew cfg) (copper_renew cfg)
    (tin_renew cfg) (fire_renew cfg) (plant_fiber_renew cfg) (cattle_renew cfg)
    (sheep_renew cfg) (pig_renew cfg) (charcoal_renew cfg) (religion_renew cfg)
    (tribalism_renew cfg) (voc_table cfg) (snapshot_every_days cfg) (map_every_days cfg).

Definition set_agent_count (cfg : ParsedConfig) (n : Z) : ParsedConfig :=
  mkParsedConfig (cfg_seed cfg) (cfg_days cfg) n (settlement_count cfg) (cache_max cfg)
    (fish_renew cfg) (grain_renew cfg) (wood_renew cfg) (clay_renew cfg) (copper_renew cfg)
    (tin_renew cfg) (fire_renew cfg) (plant_fiber_renew cfg) (cattle_renew cfg)
    (sheep_renew cfg) (pig_renew cfg) (charcoal_renew cfg) (religion_renew cfg)
    (tribalism_renew cfg) (voc_table cfg) (snapshot_every_days cfg) (map_every_days cfg).

Definition set_settlement_count (cfg : ParsedConfig) (n : Z) : ParsedConfig :=
  mkParsedConfig (cfg_seed cfg) (cfg_days cfg) (agent_count cfg) n (cache_max cfg)
    (fish_renew cfg) (grain_renew cfg) (wood_renew cfg) (clay_renew cfg) (copper_renew cfg)
    (tin_renew cfg) (fire_renew cfg) (plant_fiber_renew cfg) (cattle_renew cfg)
    (sheep_renew cfg) (pig_renew cfg) (charcoal_renew cfg) (religion_renew cfg)
    (tribalism_renew cfg) (voc_table cfg) (snapshot_every_days cfg) (map_every_days cfg).

Definition set_snapshot_every_days (cfg : ParsedConfig) (n : Z) : ParsedConfig :=
  mkParsedConfig (cfg_seed cfg) (cfg_days cfg) (agent_count cfg) (settlement_count cfg)
    (cache_max cfg)
    (fish_renew cfg) (grain_renew cfg) (wood_renew cfg) (clay_renew cfg) (copper_renew cfg)
    (tin_renew cfg) (fire_renew cfg) (plant_fiber_renew cfg) (cattle_renew cfg)
    (sheep_renew cfg) (pig_renew cfg) (charcoal_renew cfg) (religion_renew cfg)
    (tribalism_renew cfg) (voc_table cfg) n (map_every_days cfg).

(** The chain of tests of the [resources] block: the keys are distinct, so
    each field is replaced exactly when the key is its name. *)
Definition set_renew (k : string) (f : pyfloat) (cfg : ParsedConfig) : ParsedConfig :=
  let pick (name : string) (old : pyfloat) : pyfloat :=
    if String.eqb k name then f else old in
  mkParsedConfig (cfg_seed cfg) (cfg_days cfg) (agent_count cfg) (settlement_count cfg)
    (cache_max cfg)
    (pick "fish_renew" (fish_renew cfg)) (pick "grain_renew" (grain_renew cfg))
    (pick "wood_renew" (wood_renew cfg)) (pick "clay_renew" (clay_renew cfg))
    (pick "copper_renew" (copper_renew cfg)) (pick "tin_renew" (tin_renew cfg))
    (pick "fire_renew" (fire_renew cfg)) (pick "plant_fiber_renew" (plant_fiber_renew cfg))
    (pick "cattle_renew" (cattle_renew cfg)) (pick "sheep_renew" (sheep_renew cfg))
    (pick "pig_renew" (pig_renew cfg)) (pick "charcoal_renew" (charcoal_renew cfg))
    (pick "religion_renew" (religion_renew cfg))
    (pick "tribalism_renew" (tribalism_renew cfg))
    (voc_table cfg) (snapshot_every_days cfg) (map_every_days cfg).

Definition sim_kv (k v : string) (cfg : ParsedConfig) : result ParsedConfig :=
  if String.eqb k "days" then n ← _to_i32 v; Ok (set_days cfg n)
  else if String.eqb k "cache_max" then c ← _to_i32 v; Ok (set_cache_max cfg (Z.max 16 c))
  else if String.eqb k "snapshot_every" then n ← _to_i32 v; Ok (set_snapshot_every_days cfg n)
  else if String.eqb k "map_every" then n ← _to_i32 v; Ok (set_map_every_days cfg n)
  else Ok cfg.

Definition world_kv (k v : string) (cfg : ParsedConfig) : result ParsedConfig :=
  if String.eqb k "seed" then n ← _to_u32 v; Ok (set_seed cfg n)
  else if String.eqb k "days" then n ← _to_i32 v; Ok (set_days cfg n)
  else if String.eqb k "cache_max" then c ← _to_i32 v; Ok (set_cache_max cfg (Z.max 16 c))
  else if String.eqb k "snapshot_every" then n ← _to_i32 v; Ok (set_snapshot_every_days cfg n)
  else if String.eqb k "map_every" then n ← _to_i32 v; Ok (set_map_every_days cfg n)
  else if String.eqb k "agents" then n ← _to_i32 v; Ok (set_agent_count cfg (Z.max 1 n))
  else if String.eqb k "settlements" then
    n ← _to_i32 v; Ok (set_settlement_count cfg (Z.max 1 n))
  else Ok cfg.

Definition agents_kv (k v : string) (cfg : ParsedConfig) : result ParsedConfig :=
  if String.eqb k "count" then n ← _to_i32 v; Ok (set_agent_count cfg (Z.max 1 n))
  else Ok cfg.

Definition settlements_kv (k v : string) (cfg : ParsedConfig) : result ParsedConfig :=
  if String.eqb k "count" then n ← _to_i32 v; Ok (set_settlement_count cfg (Z.max 1 n))
  else Ok cfg.

(** The value of a [resources] entry is converted before the key is looked
    at, so a value that is no float raises also under an unknown key. *)
Definition resources_kv (k v : string) (cfg : ParsedConfig) : result ParsedConfig :=
  f ← _to_f32 v; Ok (set_renew k f cfg).

(** The loop of a block of settings, after its opening brace.  A token that
    is neither a word nor the closing brace is passed over: the loop goes on
    with the next token. *)
Fixpoint kv_loop (fuel : nat) (kv : string → string → ParsedConfig → result ParsedConfig)
    (cfg : ParsedConfig) (lx : Lexer) : result (ParsedConfig * Lexer) :=
  match fuel with
  | O => OutOfFuel
  | S fuel =>
      let (k, lx) := next_tok lx in
      if tok_kind k =? TK_RBRACE then Ok (cfg, lx)
      else if negb (tok_kind k =? TK_WORD) then kv_loop fuel kv cfg lx
      else
        '(v, lx) ← expect lx TK_WORD;
        cfg ← kv (text k) (text v) cfg;
        kv_loop fuel kv cfg lx
  end.

Definition kv_block (fuel : nat) (kv : string → string → ParsedConfig → result ParsedConfig)
    (cfg : ParsedConfig) (lx : Lexer) : result (ParsedConfig * Lexer) :=
  '(_, lx) ← expect lx TK_LBRACE;
  kv_loop fuel kv cfg lx.

(** One top-level block, after its name [t] was read. *)
Definition parse_block (fuel : nat) (t : Tok) (cfg : ParsedConfig) (lx : Lexer)
    : result (ParsedConfig * Lexer) :=
  if String.eqb (text t) "world" then kv_block fuel world_kv cfg lx
  else if String.eqb (text t) "sim" then kv_block fuel sim_kv cfg lx
  else if String.eqb (text t) "agents" then kv_block fuel agents_kv cfg lx
  else if String.eqb (text t) "settlements" then kv_block fuel settlements_kv cfg lx
  else if String.eqb (text t) "resources" then kv_block fuel resources_kv cfg lx
  else if String.eqb (text t) "vocations" then parse_vocations_block lx cfg
  else
    let (maybe, lx) := next_tok lx in
    if tok_kind maybe =? TK_LBRACE then
      lx ← skip_block (fuel_of lx) 1 lx; Ok (cfg, lx)
    else Ok (cfg, lx).

(** The loop [while t.kind != TK_EOF] over the top-level blocks; [fuel]
    bounds the number of iterations of this loop and of the loop of a block
    of settings (the other loops are bounded by the text left). *)
Fixpoint parse_top (fuel : nat) (cfg : ParsedConfig) (t : Tok) (lx : Lexer)
    : result ParsedConfig :=
  match fuel with
  | O => OutOfFuel
  | S fuel =>
      if tok_kind t =? TK_EOF then Ok cfg
      else if negb (tok_kind t =? TK_WORD) then
        let (t, lx) := next_tok lx in parse_top fuel cfg t lx
      else
        match parse_block fuel t cfg lx with
        | Ok (cfg, lx) => let (t, lx) := next_tok lx in parse_top fuel cfg t lx
        | Error msg => Error msg
        | OutOfFuel => OutOfFuel
        end
  end.

Definition parse_bronze_src (fuel : nat) (src : string) : result ParsedConfig :=
  let (t, lx) := next_tok src in parse_top fuel ParsedConfig_new t lx.

(** What every parsed configuration satisfies. *)
Definition cfg_parsed (cfg : ParsedConfig) : Prop :=
  0 ≤ cfg_seed cfg < 2 ^ 32 ∧ 1 ≤ agent_count cfg ∧ 1 ≤ settlement_count cfg
  ∧ 16 ≤ cache_max cfg
  ∧ Forall voc_parsed (vocations (voc_table cfg))
  ∧ Forall voc_ok (vocations (voc_table cfg)).

(** The names of the blocks of settings. *)
Definition kv_block_names : list string :=
  ["world"; "sim"; "agents"; "settlements"; "resources"].

Definition example_bronze_src : string :=
  "# demo" +:+ nl +:+
  "world { seed -5 agents 0 cache_max 4 settlements 3 }" +:+ nl +:+
  "resources { fish_renew 0.5 bogus 1e2 }  // rates" +:+ nl +:+
  "notes { a { b } c }" +:+ nl +:+
  "vocations " +:+ fisher_farmer_src +:+ nl +:+
  "sim { days 10 map_every 5 }".

(** ** Reference definitions used in the statements about the day stepper *)

(** What no task changes of an agent: where it is, its household, its age
    and its health. *)
Definition body_kept (a a' : Agent) : Prop :=
  ag_x a' = ag_x a ∧ ag_y a' = ag_y a ∧ household_id a' = household_id a
  ∧ age a' = age a ∧ health a' = health a.

(** What a day keeps of an agent, and the direction in which age and health
    move; an agent without health is left as it is. *)
Definition agent_kept (a a' : Agent) : Prop :=
  ag_x a' = ag_x a ∧ ag_y a' = ag_y a ∧ household_id a' = household_id a
  ∧ age a ≤ age a' ∧ (health a' <= health a)%Q ∧ ((health a <= 0)%Q → a' = a).

(** ** Reference definitions used in the statements about trade *)

(** An item the agent can give away when it wants [want]: another item of
    which it holds at least six. *)
Definition surplus (a : Agent) (want it : Z) : Prop :=
  it ≠ want ∧ ∃ h, py_index (inv a) it = Some h ∧ 6 ≤ h.

(** ** Settlement search and movement *)

(** The loop of [nearest_settlement] over [enumerate(sim.settlements)], from
    index [i] on: the running [(best, bestd)]. *)
Fixpoint nearest_loop (sts : list Settlement) (x y : Z) (i best bestd : Z) : Z :=
  match sts with
  | [] => best
  | st :: sts =>
      let dx := x - st_x st in
      let dy := y - st_y st in
      let d2 := dx * dx + dy * dy in
      if d2 <? bestd then nearest_loop sts x y (i + 1) i d2
      else nearest_loop sts x y (i + 1) best bestd
  end.

Definition nearest_settlement (s : Sim) (x y : Z) : Z :=
  nearest_loop (settlements s) x y 0 0 (2 ^ 63 - 1).

Definition set_x (a : Agent) (x : Z) : Agent :=
  mkAgent x (ag_y a) (vocation_id a) (age a) (household_id a) (inv a)
          (hunger a) (fatigue a) (health a).
Definition set_y (a : Agent) (y : Z) : Agent :=
  mkAgent (ag_x a) y (vocation_id a) (age a) (household_id a) (inv a)
          (hunger a) (fatigue a) (health a).

Definition step_toward (a : Agent) (tx ty : Z) : Agent :=
  let dx := if tx >? ag_x a then 1 else if tx <? ag_x a then -1 else 0 in
  let dy := if ty >? ag_y a then 1 else if ty <? ag_y a then -1 else 0 in
  let a := set_x a (clamp_i32 (ag_x a + dx) 0 (WORLD_CELLS_X - 1)) in
  let a := set_y a (clamp_i32 (ag_y a + dy) 0 (WORLD_CELLS_Y - 1)) in
  set_fatigue a (fatigue a + (4 # 1000))%Q.

(** The squared distance of a settlement from a cell. *)
Definition dist2 (st : Settlement) (x y : Z) : Z :=
  (x - st_x st) * (x - st_x st) + (y - st_y st) * (y - st_y st).

(** A simulator with three settlements, for examples. *)
Definition three_towns_sim : Sim :=
  let s := one_agent_sim two_rule_voc (replicate 9 0) (replicate 14 1000) 0 in
  mkSim (world s) (gen s) (cache s)
        [mkSettlement 1000 1000 (replicate 9 1%Q); mkSettlement 5000 2000 (replicate 9 1%Q);
         mkSettlement 3000 3000 (replicate 9 1%Q)]
        (resources_pool s) (households s) (agents s) (sim_voc_table s) (day s)
        (switch_every_days s).

(** ** Reference definitions used in the statements about reports *)

(** The agents a report counts: those with health above zero. *)
Definition living (as_ : list Agent) : list Agent :=
  List.filter (fun a => negb (fle (health a) 0)) as_.

(** The number of units of item [k] held by a list of agents. *)
Definition total_held (as_ : list Agent) (k : nat) : Z :=
  foldr (fun a acc => default 0 (inv a !! k) + acc) 0 as_.

(** The number of agents of a list with vocation id [k]. *)
Definition count_vocation (as_ : list Agent) (k : nat) : Z :=
  Z.of_nat (length (List.filter (fun a => vocation_id a =? Z.of_nat k) as_)).


(** * Verified properties *)

(** ** The chunk materializer agrees with the per-cell reference formulas *)

Lemma planes_ok_new cx cy : planes_ok (res (Chunk_new cx cy)).
Proof.
  unfold Chunk_new, planes_ok. cbn [res]. split.
  - by rewrite length_replicate.
  - apply Forall_replicate. by rewrite length_replicate.
Qed.

Lemma planes_ok_set rs rk idx v : planes_ok rs → planes_ok (res_set rs rk idx v).
Proof.
  intros [Hlen Hall]. split; unfold res_set.
  - by rewrite length_alter.
  - apply Forall_alter; [done|]. intros p Hp. by rewrite length_insert.
Qed.

Lemma res_get_set_same rs rk idx v :
  planes_ok rs → (Z.to_nat rk < Z.to_nat RES_MAX)%nat → (idx < Z.to_nat CHUNK_CELLS)%nat →
  res_get (res_set rs rk idx v) rk idx = v.
Proof.
  intros [Hlen Hall] Hrk Hidx. unfold res_get, res_set.
  rewrite list_lookup_total_alter_eq by lia.
  apply list_lookup_total_insert_eq.
  rewrite Forall_lookup in Hall.
  destruct (lookup_lt_is_Some_2 rs (Z.to_nat rk)) as [p Hp]; [lia|].
  rewrite (list_lookup_total_correct _ _ _ Hp). by rewrite (Hall _ _ Hp).
Qed.

Lemma res_get_set_plane rs rk rk' idx idx' v :
  Z.to_nat rk ≠ Z.to_nat rk' → res_get (res_set rs rk idx v) rk' idx' = res_get rs rk' idx'.
Proof.
  intros Hne. unfold res_get, res_set. by rewrite list_lookup_total_alter_ne.
Qed.

Lemma res_get_set_cell rs rk rk' idx idx' v :
  idx ≠ idx' → res_get (res_set rs rk idx v) rk' idx' = res_get rs rk' idx'.
Proof.
  intros Hne. unfold res_get, res_set. rewrite list_lookup_total_alter.
  case_decide as Hd; [|done]. destruct Hd as [-> _].
  by rewrite list_lookup_total_insert_ne.
Qed.

Lemma res_kind_cases rk :
  0 ≤ rk < RES_MAX →
  rk = 0 ∨ rk = 1 ∨ rk = 2 ∨ rk = 3 ∨ rk = 4 ∨ rk = 5 ∨ rk = 6 ∨ rk = 7 ∨
  rk = 8 ∨ rk = 9 ∨ rk = 10 ∨ rk = 11 ∨ rk = 12 ∨ rk = 13.
Proof. unfold RES_MAX. lia. Qed.

Lemma clamp_u8_lower k b d : 0 < k → 0 ≤ b → 0 < d → clamp_u8 (k + b / d) ≠ 0.
Proof.
  intros Hk Hb Hd. unfold clamp_u8.
  assert (0 ≤ b / d) by (apply Z.div_pos; lia).
  repeat case_match; lia.
Qed.

Lemma noise01_range g x y salt : 0 ≤ noise01 g x y salt < 256.
Proof.
  unfold noise01. cbv zeta.
  change 255 with (Z.ones 8). rewrite Z.land_ones by lia.
  apply Z.mod_pos_bound. lia.
Qed.

Section cell_blocks.
Variables (tags base : Z) (idx : nat).

Local Ltac block_ok :=
  intros Hok; repeat case_match; repeat apply planes_ok_set; exact Hok.

Lemma cell_coast_ok rs : planes_ok rs → planes_ok (cell_coast tags base idx rs).
Proof. unfold cell_coast. block_ok. Qed.
Lemma cell_field_ok rs : planes_ok rs → planes_ok (cell_field tags base idx rs).
Proof. unfold cell_field. cbv zeta. block_ok. Qed.
Lemma cell_forest_ok rs : planes_ok rs → planes_ok (cell_forest tags base idx rs).
Proof. unfold cell_forest. cbv zeta. block_ok. Qed.
Lemma cell_wet_ok rs : planes_ok rs → planes_ok (cell_wet tags base idx rs).
Proof. unfold cell_wet. cbv zeta. block_ok. Qed.
Lemma cell_hill_ok rs : planes_ok rs → planes_ok (cell_hill tags base idx rs).
Proof. unfold cell_hill. cbv zeta. block_ok. Qed.
Lemma cell_settle_ok rs : planes_ok rs → planes_ok (cell_settle tags base idx rs).
Proof. unfold cell_settle. cbv zeta. block_ok. Qed.

(** Cells other than [idx] are left alone by every block. *)
Local Ltac block_other :=
  intros Hj; repeat case_match; rewrite ?res_get_set_cell by exact Hj; reflexivity.

Lemma cell_coast_other rs rk j :
  idx ≠ j → res_get (cell_coast tags base idx rs) rk j = res_get rs rk j.
Proof. unfold cell_coast. block_other. Qed.
Lemma cell_field_other rs rk j :
  idx ≠ j → res_get (cell_field tags base idx rs) rk j = res_get rs rk j.
Proof. unfold cell_field. cbv zeta. block_other. Qed.
Lemma cell_forest_other rs rk j :
  idx ≠ j → res_get (cell_forest tags base idx rs) rk j = res_get rs rk j.
Proof. unfold cell_forest. cbv zeta. block_other. Qed.
Lemma cell_wet_other rs rk j :
  idx ≠ j → res_get (cell_wet tags base idx rs) rk j = res_get rs rk j.
Proof. unfold cell_wet. cbv zeta. block_other. Qed.
Lemma cell_hill_other rs rk j :
  idx ≠ j → res_get (cell_hill tags base idx rs) rk j = res_get rs rk j.
Proof. unfold cell_hill. cbv zeta. block_other. Qed.
Lemma cell_settle_other rs rk j :
  idx ≠ j → res_get (cell_settle tags base idx rs) rk j = res_get rs rk j.
Proof. unfold cell_settle. cbv zeta. block_other. Qed.

(** What each block leaves in the slots of cell [idx]. *)
Hypothesis Hidx : (idx < Z.to_nat CHUNK_CELLS)%nat.

Local Ltac res_simpl Hok :=
  repeat first
    [ rewrite res_get_set_plane by (vm_compute; lia)
    | rewrite res_get_set_same
        by (first [ by repeat apply planes_ok_set | vm_compute; lia | exact Hidx ]) ].

Local Ltac block_at Hok Hrk :=
  destruct (res_kind_cases _ Hrk) as
      [->|[->|[->|[->|[->|[->|[->|[->|[->|[->|[->|[->|[->| ->]]]]]]]]]]]]];
  repeat match goal with |- context [truthy ?x] => destruct (truthy x) end;
  unfold RES_FISH, RES_GRAIN, RES_WOOD, RES_CLAY, RES_COPPER, RES_TIN, RES_FIRE,
    RES_PLANT_FIBER, RES_CATTLE, RES_SHEEP, RES_PIG, RES_CHARCOAL, RES_RELIGION,
    RES_TRIBALISM;
  cbn [andb orb Z.eqb Pos.eqb]; res_simpl Hok; reflexivity.

Lemma cell_coast_at rs rk :
  planes_ok rs → 0 ≤ rk < RES_MAX →
  res_get (cell_coast tags base idx rs) rk idx =
  if truthy (Z.land tags TAG_COAST) && (rk =? RES_FISH)
  then clamp_u8 (120 + Z.shiftr base 1) else res_get rs rk idx.
Proof. intros Hok Hrk. unfold cell_coast. block_at Hok Hrk. Qed.

Lemma cell_field_at rs rk :
  planes_ok rs → 0 ≤ rk < RES_MAX →
  res_get (cell_field tags base idx rs) rk idx =
  if truthy (Z.land tags TAG_FIELD) then
    if rk =? RES_GRAIN then clamp_u8 (80 + base / 3)
    else if rk =? RES_PLANT_FIBER then clamp_u8 (70 + base / 3)
    else if rk =? RES_CATTLE then clamp_u8 (40 + base / 4)
    else if rk =? RES_SHEEP then clamp_u8 (35 + base / 4)
    else if rk =? RES_PIG then clamp_u8 (30 + base / 4)
    else res_get rs rk idx
  else res_get rs rk idx.
Proof. intros Hok Hrk. unfold cell_field. cbv zeta. block_at Hok Hrk. Qed.

Lemma cell_forest_at rs rk :
  planes_ok rs → 0 ≤ rk < RES_MAX →
  res_get (cell_forest tags base idx rs) rk idx =
  if truthy (Z.land tags TAG_FOREST) then
    if rk =? RES_WOOD then clamp_u8 (90 + base / 3)
    else if rk =? RES_CHARCOAL then clamp_u8 (25 + base / 5)
    else res_get rs rk idx
  else res_get rs rk idx.
Proof. intros Hok Hrk. unfold cell_forest. cbv zeta. block_at Hok Hrk. Qed.

Lemma cell_wet_at rs rk :
  planes_ok rs → 0 ≤ rk < RES_MAX →
  res_get (cell_wet tags base idx rs) rk idx =
  if truthy (Z.land tags TAG_RIVER) || truthy (Z.land tags TAG_MARSH) then
    if rk =? RES_CLAY then clamp_u8 (60 + base / 4)
    else if (rk =? RES_PLANT_FIBER) && truthy (Z.land tags TAG_MARSH)
            && (res_get rs RES_PLANT_FIBER idx =? 0)
    then clamp_u8 (70 + base / 3)
    else res_get rs rk idx
  else res_get rs rk idx.
Proof.
  intros Hok Hrk. unfold cell_wet. cbv zeta.
  rewrite res_get_set_plane by (vm_compute; lia).
  destruct (truthy (Z.land tags TAG_RIVER)), (truthy (Z.land tags TAG_MARSH)),
    (res_get rs RES_PLANT_FIBER idx =? 0); cbn [orb andb];
    block_at Hok Hrk.
Qed.

Lemma cell_hill_at rs rk :
  planes_ok rs → 0 ≤ rk < RES_MAX →
  res_get (cell_hill tags base idx rs) rk idx =
  if truthy (Z.land tags TAG_HILL) then
    if rk =? RES_COPPER then (if base >? 240 then 40 else 5)
    else if rk =? RES_TIN then (if base >? 250 then 25 else 0)
    else res_get rs rk idx
  else res_get rs rk idx.
Proof. intros Hok Hrk. unfold cell_hill. cbv zeta. block_at Hok Hrk. Qed.

Lemma cell_settle_at rs rk :
  planes_ok rs → 0 ≤ rk < RES_MAX →
  res_get (cell_settle tags base idx rs) rk idx =
  if truthy (Z.land tags TAG_SETTLE) then
    if rk =? RES_FIRE then clamp_u8 (180 + base / 4)
    else if rk =? RES_RELIGION then clamp_u8 (60 + base / 5)
    else if rk =? RES_TRIBALISM then clamp_u8 (20 + base / 8)
    else res_get rs rk idx
  else res_get rs rk idx.
Proof. intros Hok Hrk. unfold cell_settle. cbv zeta. block_at Hok Hrk. Qed.

End cell_blocks.

Create HintDb planes.
#[local] Hint Resolve cell_coast_ok cell_field_ok cell_forest_ok cell_wet_ok cell_hill_ok
  cell_settle_ok : planes.

Lemma generate_cell_planes_ok gen n bx by_ ch iy ix :
  planes_ok (res ch) → planes_ok (res (generate_cell gen n bx by_ ch iy ix)).
Proof. intros Hok. unfold generate_cell. cbv zeta. cbn [res]. auto 10 with planes. Qed.

Lemma generate_cell_terrain_length gen n bx by_ ch iy ix :
  length (terrain (generate_cell gen n bx by_ ch iy ix)) = length (terrain ch).
Proof. unfold generate_cell. cbv zeta. cbn [terrain]. by rewrite length_insert. Qed.

(** Cells other than the one being generated are left alone. *)
Lemma generate_cell_res_other gen n bx by_ ch iy ix rk j :
  cell_index (iy, ix) ≠ j →
  res_get (res (generate_cell gen n bx by_ ch iy ix)) rk j = res_get (res ch) rk j.
Proof.
  unfold cell_index. cbn [fst snd]. intros Hj.
  unfold generate_cell. cbv zeta. cbn [res].
  by rewrite cell_settle_other, cell_hill_other, cell_wet_other, cell_forest_other,
    cell_field_other, cell_coast_other.
Qed.

Lemma generate_cell_terrain_other gen n bx by_ ch iy ix j :
  cell_index (iy, ix) ≠ j →
  terrain (generate_cell gen n bx by_ ch iy ix) !! j = terrain ch !! j.
Proof.
  unfold cell_index. cbn [fst snd]. intros Hj.
  unfold generate_cell. cbv zeta. cbn [terrain].
  by rewrite list_lookup_insert_ne.
Qed.

Lemma generate_cell_terrain_at gen n bx by_ ch iy ix :
  (cell_index (iy, ix) < length (terrain ch))%nat →
  terrain (generate_cell gen n bx by_ ch iy ix) !! cell_index (iy, ix)
  = Some (world_cell_tags gen (bx + Z.of_nat ix) (by_ + Z.of_nat iy) n).
Proof.
  unfold cell_index. cbn [fst snd]. intros Hlt.
  unfold generate_cell. cbv zeta. cbn [terrain].
  by rewrite list_lookup_insert_eq.
Qed.

(** The freshly generated cell holds the reference density of every kind,
    provided its slots still held the initial zero. *)
Lemma generate_cell_res_at gen n bx by_ ch iy ix rk :
  planes_ok (res ch) →
  (cell_index (iy, ix) < Z.to_nat CHUNK_CELLS)%nat →
  (∀ rk', 0 ≤ rk' < RES_MAX → res_get (res ch) rk' (cell_index (iy, ix)) = 0) →
  0 ≤ rk < RES_MAX →
  res_get (res (generate_cell gen n bx by_ ch iy ix)) rk (cell_index (iy, ix))
  = world_cell_res0 gen (bx + Z.of_nat ix) (by_ + Z.of_nat iy) rk
      (world_cell_tags gen (bx + Z.of_nat ix) (by_ + Z.of_nat iy) n).
Proof.
  unfold cell_index. cbn [fst snd]. intros Hok Hidx Hzero Hrk.
  assert (Hpf : 0 ≤ RES_PLANT_FIBER < RES_MAX) by (unfold RES_PLANT_FIBER, RES_MAX; lia).
  unfold generate_cell, world_cell_res0. cbv zeta. cbn [res].
  change (Z.land (brz_hash_u32 (Z.land (bx + Z.of_nat ix) MASK32)
            (Z.land (by_ + Z.of_nat iy) MASK32)
            (Z.land (Z.lxor (wg_seed gen) 2576997853) MASK32)) 255)
    with (noise01 gen (bx + Z.of_nat ix) (by_ + Z.of_nat iy) 2576997853).
  pose proof (noise01_range gen (bx + Z.of_nat ix) (by_ + Z.of_nat iy) 2576997853) as Hb.
  generalize dependent (noise01 gen (bx + Z.of_nat ix) (by_ + Z.of_nat iy) 2576997853).
  intros base Hb.
  generalize (world_cell_tags gen (bx + Z.of_nat ix) (by_ + Z.of_nat iy) n).
  intros tags.
  generalize dependent (iy * Z.to_nat CHUNK_SIZE + ix)%nat. intros idx Hidx Hzero.
  rewrite cell_settle_at, cell_hill_at, cell_wet_at, !cell_forest_at, !cell_field_at,
    !cell_coast_at, !Hzero by auto 10 with planes.
  replace (Z.shiftr base 1) with (base / 2)
    by (rewrite Z.shiftr_div_pow2 by lia; reflexivity).
  pose proof (clamp_u8_lower 70 base 3) as Hne.
  destruct (clamp_u8 (70 + base / 3) =? 0) eqn:Hc70; [apply Z.eqb_eq in Hc70; lia|].
  destruct (res_kind_cases rk Hrk) as
      [->|[->|[->|[->|[->|[->|[->|[->|[->|[->|[->|[->|[->| ->]]]]]]]]]]]]];
  unfold RES_FISH, RES_GRAIN, RES_WOOD, RES_CLAY, RES_COPPER, RES_TIN, RES_FIRE,
    RES_PLANT_FIBER, RES_CATTLE, RES_SHEEP, RES_PIG, RES_CHARCOAL, RES_RELIGION,
    RES_TRIBALISM;
  cbn [andb orb Z.eqb Pos.eqb];
  repeat match goal with |- context [truthy ?x] => destruct (truthy x) end;
  cbn [andb orb]; rewrite ?Hc70; reflexivity.
Qed.

(** The two nested loops visit the pairs of [chunk_pairs] in order. *)
Lemma fold_left_nested {A B C} (f : A → B → C → A) (l1 : list B) (l2 : list C) (a : A) :
  fold_left (fun a b => fold_left (fun a c => f a b c) l2 a) l1 a
  = fold_left (fun a p => f a p.1 p.2) (flat_map (fun b => map (fun c => (b, c)) l2) l1) a.
Proof.
  revert a. induction l1 as [|b l1 IH]; intros a; [done|].
  cbn [flat_map fold_left]. rewrite fold_left_app, IH. f_equal.
  generalize a. clear. induction l2 as [|c l2 IH]; intros a; [done|].
  cbn [map fold_left]. by rewrite IH.
Qed.

Lemma generate_chunk_pairs self cx cy :
  _generate_chunk self cx cy
  = fold_left (fun ch p => generate_cell (cc_gen self) (ws_settlement_count (cc_spec self))
                             (cx * CHUNK_SIZE) (cy * CHUNK_SIZE) ch p.1 p.2)
      chunk_pairs (Chunk_new cx cy).
Proof. unfold _generate_chunk, chunk_pairs. cbv zeta. apply fold_left_nested. Qed.

Section cell_loop.
Variables (gen : WorldGen) (n bx by_ : Z).

Let step (ch : Chunk) (p : nat * nat) : Chunk := generate_cell gen n bx by_ ch p.1 p.2.

Lemma cell_loop_planes_ok l ch :
  planes_ok (res ch) → planes_ok (res (fold_left step l ch)).
Proof.
  revert ch. induction l as [|p l IH]; intros ch Hok; [done|].
  cbn [fold_left]. apply IH. by apply generate_cell_planes_ok.
Qed.

Lemma cell_loop_terrain_length l ch :
  length (terrain (fold_left step l ch)) = length (terrain ch).
Proof.
  revert ch. induction l as [|p l IH]; intros ch; [done|].
  cbn [fold_left]. rewrite IH. apply generate_cell_terrain_length.
Qed.

(** Cells not visited by the loop keep their contents. *)
Lemma cell_loop_other l ch j :
  j ∉ map cell_index l →
  (∀ rk, res_get (res (fold_left step l ch)) rk j = res_get (res ch) rk j)
  ∧ terrain (fold_left step l ch) !! j = terrain ch !! j.
Proof.
  revert ch. induction l as [|[iy ix] l IH]; intros ch Hj; [done|].
  cbn [fold_left map] in *. apply not_elem_of_cons in Hj as [Hne Hj].
  destruct (IH (step ch (iy, ix)) Hj) as [Hres Hterr]. split.
  - intros rk. rewrite Hres. by apply generate_cell_res_other.
  - rewrite Hterr. by apply generate_cell_terrain_other.
Qed.

(** Every visited cell ends with the reference terrain and densities. *)
Lemma cell_loop_at l ch iy ix :
  NoDup (map cell_index l) → (iy, ix) ∈ l →
  planes_ok (res ch) →
  length (terrain ch) = Z.to_nat CHUNK_CELLS →
  (cell_index (iy, ix) < Z.to_nat CHUNK_CELLS)%nat →
  (∀ rk, 0 ≤ rk < RES_MAX → res_get (res ch) rk (cell_index (iy, ix)) = 0) →
  let x := bx + Z.of_nat ix in
  let y := by_ + Z.of_nat iy in
  let ch' := fold_left step l ch in
  terrain ch' !! cell_index (iy, ix) = Some (world_cell_tags gen x y n)
  ∧ ∀ rk, 0 ≤ rk < RES_MAX →
      res_get (res ch') rk (cell_index (iy, ix))
      = world_cell_res0 gen x y rk (world_cell_tags gen x y n).
Proof.
  revert ch. induction l as [|p l IH]; intros ch Hnd Hin Hok Hlen Hidx Hzero.
  { by apply elem_of_nil in Hin. }
  cbn [map] in Hnd. apply NoDup_cons in Hnd as [Hfresh Hnd].
  cbn [fold_left]. cbv zeta.
  destruct (decide (cell_index p = cell_index (iy, ix))) as [Heq|Hne].
  - (* this iteration writes the cell; the remaining ones leave it alone *)
    rewrite Heq in Hfresh.
    destruct (cell_loop_other l (step ch p) _ Hfresh) as [Hres Hterr].
    assert (p = (iy, ix)) as ->.
    { apply elem_of_cons in Hin as [Hp|Hin]; [done|].
      exfalso. apply Hfresh. apply list_elem_of_fmap. by exists (iy, ix). }
    split.
    + rewrite Hterr. apply generate_cell_terrain_at. by rewrite Hlen.
    + intros rk Hrk. rewrite Hres. by apply generate_cell_res_at.
  - apply elem_of_cons in Hin as [Hp|Hin]; [by rewrite Hp in Hne|].
    apply IH; try done.
    + by apply generate_cell_planes_ok.
    + unfold step. by rewrite generate_cell_terrain_length.
    + intros rk Hrk. unfold step. destruct p as [py px].
      rewrite generate_cell_res_other by done. by apply Hzero.
Qed.

End cell_loop.

Lemma NoDup_pairs {B C} (l1 : list B) (l2 : list C) :
  NoDup l1 → NoDup l2 → NoDup (flat_map (fun b => map (fun c => (b, c)) l2) l1).
Proof.
  intros H1 H2. induction H1 as [|b l1 Hb H1 IH]; cbn [flat_map]; [constructor|].
  apply NoDup_app. split_and!.
  - apply (NoDup_fmap_2_strong (fun c => (b, c))); [|done]. by intros c c' _ _ [= ->].
  - intros [b' c'] Hin1 Hin2.
    apply list_elem_of_fmap in Hin1 as (c & [= -> ->] & _).
    apply list_elem_of_In, in_flat_map in Hin2 as (b'' & Hb'' & Hin2).
    apply in_map_iff in Hin2 as (c'' & [= -> ->] & _).
    by apply Hb, list_elem_of_In.
  - exact IH.
Qed.

Lemma chunk_pairs_bound p :
  p ∈ chunk_pairs → (p.1 < Z.to_nat CHUNK_SIZE)%nat ∧ (p.2 < Z.to_nat CHUNK_SIZE)%nat.
Proof.
  unfold chunk_pairs, chunk_range. intros Hin.
  apply list_elem_of_In, in_flat_map in Hin as (b & Hb & Hin).
  apply in_map_iff in Hin as (c & <- & Hc).
  apply in_seq in Hb, Hc. cbn [fst snd]. lia.
Qed.

Lemma chunk_pairs_index : NoDup (map cell_index chunk_pairs).
Proof.
  apply (NoDup_fmap_2_strong cell_index).
  - intros [y1 x1] [y2 x2] H1%chunk_pairs_bound H2%chunk_pairs_bound.
    unfold cell_index. cbn [fst snd] in *.
    change (Z.to_nat CHUNK_SIZE) with 64%nat in *. intros Heq.
    assert (y1 = y2) by nia. subst. f_equal. lia.
  - apply NoDup_pairs; apply NoDup_seq.
Qed.

Lemma chunk_pairs_elem iy ix :
  (iy < Z.to_nat CHUNK_SIZE)%nat → (ix < Z.to_nat CHUNK_SIZE)%nat → (iy, ix) ∈ chunk_pairs.
Proof.
  intros Hy Hx. unfold chunk_pairs. apply list_elem_of_In, in_flat_map.
  exists iy. split; [apply in_seq; lia|].
  apply in_map. apply in_seq. lia.
Qed.

Lemma res_get_new cx cy rk j :
  0 ≤ rk < RES_MAX → (j < Z.to_nat CHUNK_CELLS)%nat →
  res_get (res (Chunk_new cx cy)) rk j = 0.
Proof.
  intros Hrk Hj. unfold res_get, Chunk_new. cbn [res].
  rewrite lookup_total_replicate_2 by lia.
  by rewrite lookup_total_replicate_2.
Qed.

Lemma res_lookup_get rs rk idx :
  planes_ok rs → 0 ≤ rk < RES_MAX → (idx < Z.to_nat CHUNK_CELLS)%nat →
  rs !! Z.to_nat rk ≫= (fun plane => plane !! idx) = Some (res_get rs rk idx).
Proof.
  intros [Hlen Hall] Hrk Hidx. unfold res_get.
  destruct (lookup_lt_is_Some_2 rs (Z.to_nat rk)) as [p Hp]; [lia|].
  rewrite Hp, (list_lookup_total_correct _ _ _ Hp). cbn.
  rewrite Forall_lookup in Hall.
  apply list_lookup_lookup_total_lt. by rewrite (Hall _ _ Hp).
Qed.

(** C3. For every seed, chunk coordinate, cell of the chunk and resource
    kind, the terrain tag stored by [_generate_chunk] is [world_cell_tags] of
    the cell and the density stored in plane [rk] is [world_cell_res0] at those
    tags; the result depends on the cache only through its generator and world
    spec, so generating the chunk again (for instance after an eviction
    changed the cache) yields the same chunk. *)
Theorem generate_chunk_matches_reference (self : ChunkCache) (cx cy rk : Z) (ix iy : nat) :
  (ix < 64)%nat → (iy < 64)%nat → 0 ≤ rk < 14 →
  let ch := _generate_chunk self cx cy in
  let x := cx * CHUNK_SIZE + Z.of_nat ix in
  let y := cy * CHUNK_SIZE + Z.of_nat iy in
  let idx := (iy * 64 + ix)%nat in
  let tags := world_cell_tags (cc_gen self) x y (ws_settlement_count (cc_spec self)) in
  terrain ch !! idx = Some tags
  ∧ res ch !! Z.to_nat rk ≫= (fun plane => plane !! idx)
    = Some (world_cell_res0 (cc_gen self) x y rk tags)
  ∧ ∀ self' : ChunkCache,
      cc_gen self' = cc_gen self → cc_spec self' = cc_spec self →
      _generate_chunk self' cx cy = ch.
Proof.
  intros Hx Hy Hrk. cbv zeta.
  assert (Hidx : (cell_index (iy, ix) < Z.to_nat CHUNK_CELLS)%nat).
  { unfold cell_index. cbn [fst snd]. change (Z.to_nat CHUNK_SIZE) with 64%nat.
    change (Z.to_nat CHUNK_CELLS) with 4096%nat. lia. }
  change (iy * 64 + ix)%nat with (cell_index (iy, ix)).
  rewrite generate_chunk_pairs.
  destruct (cell_loop_at (cc_gen self) (ws_settlement_count (cc_spec self))
              (cx * CHUNK_SIZE) (cy * CHUNK_SIZE) chunk_pairs (Chunk_new cx cy) iy ix)
    as [Hterr Hres].
  - apply chunk_pairs_index.
  - by apply chunk_pairs_elem.
  - apply planes_ok_new.
  - unfold Chunk_new. cbn [terrain]. by rewrite length_replicate.
  - exact Hidx.
  - intros rk' Hrk'. by apply res_get_new.
  - split; [exact Hterr|]. split.
    + rewrite res_lookup_get; [by rewrite Hres| |done|done].
      apply cell_loop_planes_ok, planes_ok_new.
    + intros self' Hg Hs. rewrite generate_chunk_pairs. by rewrite Hg, Hs.
Qed.

Lemma generate_chunk_matches_reference_witness :
  let self := ChunkCache_init 16 (mkWorldGen 1337) (mkWorldSpec 1337 6 []) in
  let ch := _generate_chunk self 10 10 in
  let tags := world_cell_tags (mkWorldGen 1337) 643 645 6 in
  terrain ch !! 323%nat = Some tags
  ∧ res ch !! 2%nat ≫= (fun plane => plane !! 323%nat)
    = Some (world_cell_res0 (mkWorldGen 1337) 643 645 RES_WOOD tags).
Proof.
  intros self ch tags.
  destruct (generate_chunk_matches_reference self 10 10 RES_WOOD 3 5) as (Ht & Hr & _);
    [lia | lia | unfold RES_WOOD; lia |].
  split; [exact Ht | exact Hr].
Defined.


(** ** The LRU chunk cache *)

Lemma lru_get_None l key : lru_get l key = None ↔ key ∉ map fst l.
Proof.
  induction l as [|[k c] l IH]; cbn [lru_get map fst].
  - split; [intros _; apply not_elem_of_nil | done].
  - rewrite not_elem_of_cons. case_decide as Hk.
    + split; [done|]. intros [Hne _]. by destruct Hne.
    + rewrite IH. split; [by intros; split; [congruence|]|by intros [_ ?]].
Qed.

Lemma lru_get_Some l key ch : lru_get l key = Some ch → (key, ch) ∈ l.
Proof.
  induction l as [|[k c] l IH]; cbn [lru_get]; [done|].
  case_decide as Hk.
  - intros [= ->]. subst. apply elem_of_cons. by left.
  - intros Hget. apply elem_of_cons. right. by apply IH.
Qed.

Lemma lru_setitem_fresh l key ch :
  lru_get l key = None → lru_setitem l key ch = l ++ [(key, ch)].
Proof.
  induction l as [|[k c] l IH]; cbn [lru_get lru_setitem]; [done|].
  case_decide; [done|]. intros Hget. by rewrite IH.
Qed.

Lemma lru_remove_keys l key : map fst (lru_remove l key) = filter (fun k => k ≠ key) (map fst l).
Proof.
  unfold lru_remove. induction l as [|[k c] l IH]; [done|].
  cbn [map fst]. rewrite !filter_cons. cbn [fst].
  case_decide; cbn [map fst]; by rewrite IH.
Qed.

Lemma lru_remove_elem l key kc : kc ∈ lru_remove l key → kc ∈ l.
Proof. unfold lru_remove. by intros [_ ?]%list_elem_of_filter. Qed.

Lemma lru_remove_absent l key : key ∉ map fst l → lru_remove l key = l.
Proof.
  unfold lru_remove. induction l as [|[k c] l IH]; [done|].
  cbn [map fst]. intros [Hk Hl]%not_elem_of_cons.
  rewrite filter_cons. cbn [fst]. case_decide; [|done]. by rewrite IH.
Qed.

(** Removing a resident key takes out exactly one entry. *)
Lemma lru_remove_length l key ch :
  NoDup (map fst l) → lru_get l key = Some ch →
  S (length (lru_remove l key)) = length l.
Proof.
  induction l as [|[k c] l IH]; cbn [lru_get map fst]; [done|].
  intros [Hk Hnd]%NoDup_cons. unfold lru_remove. rewrite filter_cons. cbn [fst].
  case_decide as Hd.
  - intros _. subst k. case_decide; [done|].
    fold (lru_remove l key). by rewrite lru_remove_absent.
  - intros Hget. case_decide; [|done]. cbn [length]. f_equal.
    by apply IH.
Qed.

Lemma move_to_end_hit l key ch :
  lru_get l key = Some ch → move_to_end l key = lru_remove l key ++ [(key, ch)].
Proof. unfold move_to_end. by intros ->. Qed.


Lemma generate_chunk_same c0 c cx cy :
  cc_gen c = cc_gen c0 → cc_spec c = cc_spec c0 →
  _generate_chunk c cx cy = _generate_chunk c0 cx cy.
Proof. intros Hg Hs. rewrite !generate_chunk_pairs. by rewrite Hg, Hs. Qed.

Lemma cache_inv_init cache_max gen spec :
  1 ≤ cache_max →
  cache_inv (ChunkCache_init cache_max gen spec) (ChunkCache_init cache_max gen spec).
Proof.
  intros Hmax. unfold cache_inv, ChunkCache_init. cbn. split_and!; try done.
  - constructor.
  - lia.
  - intros k ch Hin. by apply elem_of_nil in Hin.
Qed.

(** What a hit does: the entry moves to the most recently used end, nothing
    else changes, and the resident chunk is returned. *)
Lemma get_chunk_hit c cx cy ch :
  lru_get (_lru c) (cx, cy) = Some ch →
  get_chunk c cx cy
  = (mkChunkCache (max_chunks c) (cc_gen c) (cc_spec c)
       (lru_remove (_lru c) (cx, cy) ++ [((cx, cy), ch)]) (live_chunks c), ch).
Proof. intros Hget. unfold get_chunk. cbv zeta. rewrite Hget. by rewrite (move_to_end_hit _ _ ch). Qed.

(** What a miss does: the generated chunk is appended at the most recently
    used end and, when that makes the size exceed the capacity, the entry at
    the least recently used end is dropped. *)
Lemma get_chunk_miss c cx cy :
  lru_get (_lru c) (cx, cy) = None →
  let ch := _generate_chunk c cx cy in
  let l := _lru c ++ [((cx, cy), ch)] in
  let l' := if Z.of_nat (length l) >? max_chunks c then tail l else l in
  get_chunk c cx cy
  = (mkChunkCache (max_chunks c) (cc_gen c) (cc_spec c) l' (Z.of_nat (length l')), ch).
Proof.
  intros Hget. unfold get_chunk, popitem_first. cbv zeta. rewrite Hget.
  by rewrite lru_setitem_fresh.
Qed.

Lemma get_chunk_inv c0 c cx cy :
  cache_inv c0 c → cache_inv c0 (get_chunk c cx cy).1
                   ∧ (get_chunk c cx cy).2 = _generate_chunk c0 cx cy.
Proof.
  intros (Hmax & Hg & Hs & Hnd & Hlen & Hgen).
  destruct (lru_get (_lru c) (cx, cy)) as [ch|] eqn:Hget.
  - rewrite (get_chunk_hit _ _ _ _ Hget). cbn [fst snd].
    pose proof (lru_get_Some _ _ _ Hget) as Hin.
    split; [|by apply (Hgen (cx, cy))].
    unfold cache_inv. cbn [max_chunks cc_gen cc_spec _lru]. split_and!; try done.
    + rewrite map_app, lru_remove_keys. cbn [map fst].
      apply NoDup_app. split_and!.
      * by apply NoDup_filter.
      * intros k [Hk _]%list_elem_of_filter Hk'%list_elem_of_singleton. done.
      * apply NoDup_singleton.
    + rewrite length_app. cbn [length].
      pose proof (lru_remove_length _ _ _ Hnd Hget). lia.
    + intros k ch' [Hin'|Hin']%elem_of_app.
      * by apply Hgen, (lru_remove_elem _ (cx, cy)).
      * apply list_elem_of_singleton in Hin' as [= -> ->]. by apply (Hgen (cx, cy)).
  - rewrite (get_chunk_miss _ _ _ Hget). cbv zeta. cbn [fst snd].
    rewrite (generate_chunk_same c0 c) by done.
    split; [|done].
    set (l := _lru c ++ [((cx, cy), _generate_chunk c0 cx cy)]).
    assert (Hndl : NoDup (map fst l)).
    { unfold l. rewrite map_app. cbn [map fst]. apply NoDup_app. split_and!; [done| |apply NoDup_singleton].
      intros k Hk Hk'%list_elem_of_singleton. subst k. by apply lru_get_None in Hget. }
    assert (Hgenl : ∀ k ch, (k, ch) ∈ l → ch = _generate_chunk c0 k.1 k.2).
    { intros k ch [Hin|Hin]%elem_of_app; [by apply Hgen|].
      by apply list_elem_of_singleton in Hin as [= -> ->]. }
    assert (Hlenl : length l = S (length (_lru c))).
    { unfold l. rewrite length_app. cbn [length]. lia. }
    unfold cache_inv. cbn [max_chunks cc_gen cc_spec _lru]. rewrite Hmax.
    split_and!; try done.
    + case_match; [|done]. destruct l as [|kc l']; [constructor|].
      cbn [tail]. cbn [map] in Hndl. by apply NoDup_cons in Hndl as [_ ?].
    + case_match eqn:Hgt.
      * destruct l as [|kc l']; cbn [tail length] in *; lia.
      * lia.
    + intros k ch Hin. apply Hgenl. case_match; [|done].
      destruct l as [|kc l']; [done|]. apply elem_of_cons. by right.
Qed.

Lemma lookup_cells_inv c0 c cells : cache_inv c0 c → cache_inv c0 (lookup_cells c cells).
Proof.
  unfold lookup_cells. revert c. induction cells as [|[x y] cells IH]; intros c Hinv; [done|].
  cbn [fold_left]. apply IH. unfold get_cell. cbv zeta. cbn [fst snd].
  pose proof (get_chunk_inv c0 c (x / CHUNK_SIZE) (y / CHUNK_SIZE) Hinv) as [Hinv' _].
  by destruct (get_chunk c (x / CHUNK_SIZE) (y / CHUNK_SIZE)).
Qed.

(** C9. Starting from an empty cache of capacity [cache_max] and after any
    sequence of cell lookups: no key is resident twice and the size is at
    most [cache_max]; a lookup that hits moves the entry to the most recently
    used end and leaves the other entries in order; a lookup that misses
    appends the generated chunk and, if the size then exceeds the capacity,
    drops exactly the entry at the least recently used end; and every lookup
    returns the chunk the generator yields for its key, so a chunk looked up
    again after its eviction has identical contents. *)
Theorem chunk_cache_lru (cache_max : Z) (gen : WorldGen) (spec : WorldSpec)
    (cells : list (Z * Z)) (cx cy : Z) :
  1 ≤ cache_max →
  let c0 := ChunkCache_init cache_max gen spec in
  let c := lookup_cells c0 cells in
  let key := (cx, cy) in
  NoDup (map fst (_lru c))
  ∧ Z.of_nat (length (_lru c)) ≤ cache_max
  ∧ (∀ ch, lru_get (_lru c) key = Some ch →
       _lru (get_chunk c cx cy).1 = lru_remove (_lru c) key ++ [(key, ch)]
       ∧ (get_chunk c cx cy).2 = ch)
  ∧ (lru_get (_lru c) key = None →
       let l := _lru c ++ [(key, _generate_chunk c0 cx cy)] in
       _lru (get_chunk c cx cy).1
       = if Z.of_nat (length l) >? cache_max then tail l else l)
  ∧ (get_chunk c cx cy).2 = _generate_chunk c0 cx cy.
Proof.
  intros Hmax c0 c key.
  assert (Hinv : cache_inv c0 c) by (apply lookup_cells_inv, cache_inv_init; done).
  pose proof Hinv as (Hm & Hg & Hs & Hnd & Hlen & Hgen).
  assert (Hcap : max_chunks c0 = cache_max) by (unfold c0, ChunkCache_init; cbn; lia).
  split_and!.
  - exact Hnd.
  - by rewrite <- Hcap.
  - intros ch Hget. by rewrite (get_chunk_hit _ _ _ _ Hget).
  - intros Hget. cbv zeta. rewrite (get_chunk_miss _ _ _ Hget). cbv zeta. cbn [fst _lru].
    rewrite (generate_chunk_same c0 c) by done. by rewrite Hm, Hcap.
  - by apply get_chunk_inv.
Qed.

Lemma chunk_cache_lru_witness :
  let c := lookup_cells (ChunkCache_init 2 (mkWorldGen 1337) (mkWorldSpec 1337 6 []))
             [(0, 0); (64, 0); (128, 0)] in
  1 ≤ 2 ∧ NoDup (map fst (_lru c)) ∧ Z.of_nat (length (_lru c)) ≤ 2
  ∧ (get_chunk c 0 0).2
    = _generate_chunk (ChunkCache_init 2 (mkWorldGen 1337) (mkWorldSpec 1337 6 [])) 0 0.
Proof.
  intros c.
  destruct (chunk_cache_lru 2 (mkWorldGen 1337) (mkWorldSpec 1337 6 [])
              [(0, 0); (64, 0); (128, 0)] 0 0) as (Hnd & Hlen & _ & _ & Hgen); [lia|].
  split; [lia|]. split; [exact Hnd|]. split; [exact Hlen | exact Hgen].
Defined.

(** Three lookups in three different chunks with capacity two: the chunk of
    the first lookup is the one evicted. *)
Example lru_eviction_order :
  map fst (_lru (lookup_cells (ChunkCache_init 2 (mkWorldGen 1337) (mkWorldSpec 1337 6 []))
                   [(0, 0); (64, 0); (128, 0)]))
  = [(1, 0); (2, 0)].
Proof. lazy. reflexivity. Qed.


(** ** Rule references are repaired at parse time *)

Lemma postfix_loop_tasks names t0 ts rs :
  postfix_loop names (t0 :: ts) rs
  = (t0 :: ts,
     map (fun r => if bool_decide (task_name r ∈ names) then r
                   else set_task_name r (t_name t0)) rs).
Proof.
  induction rs as [|r rs IH]; [done|].
  cbn [postfix_loop map]. unfold postfix_rule at 1.
  case_bool_decide; by rewrite IH.
Qed.

Lemma postfix_loop_no_tasks r rs :
  postfix_loop ∅ [] (r :: rs)
  = ([idle_task], map (fun r => set_task_name r "idle") (r :: rs)).
Proof.
  cbn [postfix_loop]. unfold postfix_rule at 1.
  rewrite bool_decide_eq_false_2 by set_solver.
  cbn [app]. rewrite postfix_loop_tasks. cbn [map]. reflexivity.
Qed.

(** The post-fix loop of the source computes the repair of the specification. *)
Lemma postfix_rules_spec v : postfix_rules v = repair_spec v.
Proof.
  unfold postfix_rules, repair_spec. cbv zeta.
  destruct (tasks v) as [|t0 ts] eqn:Hts.
  - cbn [map list_to_set foldr]. destruct (rules v) as [|r rs] eqn:Hrs.
    + cbn [postfix_loop]. destruct v; cbn in *; by subst.
    + by rewrite postfix_loop_no_tasks.
  - rewrite postfix_loop_tasks. f_equal. apply map_ext. intros r.
    assert (Hiff : task_name r ∈ (list_to_set (map t_name (t0 :: ts)) : gset string)
                   ↔ task_name r ∈ map t_name (t0 :: ts)) by apply elem_of_list_to_set.
    repeat case_bool_decide; tauto.
Qed.

Lemma repair_spec_ok v : voc_ok (repair_spec v).
Proof.
  unfold voc_ok, repair_spec. destruct (tasks v) as [|t0 ts] eqn:Hts.
  - destruct (rules v) as [|r rs] eqn:Hrs.
    + rewrite Hrs. constructor.
    + cbn [rules tasks]. apply Forall_forall. intros r' Hin.
      apply list_elem_of_fmap in Hin as (r0 & -> & _). cbn. apply elem_of_cons. by left.
  - cbn [rules tasks]. apply Forall_forall. intros r' Hin.
    apply list_elem_of_fmap in Hin as (r0 & -> & _).
    case_bool_decide; [done|]. cbn. apply elem_of_cons. by left.
Qed.

Ltac bind_step H :=
  match type of H with
  | mbind _ ?m = Ok _ =>
      let E := fresh "E" in
      destruct m as [?| |] eqn:E; unfold mbind in H; cbn [result_bind] in H;
      try discriminate H
  | result_bind _ _ _ ?m = Ok _ =>
      let E := fresh "E" in
      destruct m as [?| |] eqn:E; cbn [result_bind] in H; try discriminate H
  | (let (_, _) := ?m in _) = Ok _ =>
      let E := fresh "E" in destruct m eqn:E
  | (if ?b then _ else _) = Ok _ =>
      let E := fresh "E" in destruct b eqn:E; try discriminate H
  | (match ?m with _ => _ end) = Ok _ =>
      let E := fresh "E" in destruct m eqn:E; try discriminate H
  end.

Lemma set_voc_table_twice (c : ParsedConfig) (a b : VocationTable) :
  set_voc_table (set_voc_table c a) b = set_voc_table c b.
Proof. reflexivity. Qed.

Lemma set_voc_table_same (c : ParsedConfig) : set_voc_table c (voc_table c) = c.
Proof. by destruct c. Qed.

Lemma parse_vocations_loop_read fuel :
  ∀ cfg lx cfg' lx' acc,
  parse_vocations_loop fuel cfg lx = Ok (cfg', lx') →
  ∃ raw, read_vocations_loop fuel acc lx = Ok (acc ++ raw, lx')
         ∧ vocations (voc_table cfg')
           = vocations (voc_table cfg) ++ map postfix_rules raw
         ∧ set_voc_table cfg' (voc_table cfg) = cfg.
Proof.
  induction fuel as [|fuel IH]; intros cfg lx cfg' lx' acc Hp; [done|].
  cbn [parse_vocations_loop] in Hp. cbn [read_vocations_loop].
  destruct (next_tok lx) as [t lx1].
  destruct (tok_kind t =? TK_RBRACE).
  { injection Hp as <- <-. exists []. rewrite !app_nil_r.
    split; [done|]. split; [done|]. apply set_voc_table_same. }
  destruct (negb (is_word t "vocation")); [done|].
  destruct (expect lx1 TK_WORD) as [[name lx2]| |]; [|done..].
  unfold mbind in *. cbn [result_bind] in *.
  destruct (expect lx2 TK_LBRACE) as [[lb lx3]| |]; [|done..].
  cbn [result_bind] in *.
  destruct (parse_vocation_body _ _ lx3) as [[voc lx4]| |]; [|done..].
  cbn [result_bind] in *.
  destruct (IH _ _ _ _ (acc ++ [voc]) Hp) as (raw & Hread & Hvocs & Hcfg).
  exists (voc :: raw). rewrite Hread, <- app_assoc. split; [done|].
  unfold set_voc_table in Hvocs. cbn [voc_table voc_add vocations] in Hvocs.
  rewrite Hvocs, <- app_assoc. split; [done|].
  match type of Hcfg with
  | set_voc_table _ ?x = _ => rewrite <- (set_voc_table_twice cfg' x (voc_table cfg))
  end.
  rewrite Hcfg, set_voc_table_twice. apply set_voc_table_same.
Qed.

Lemma parse_vocations_loop_spec fuel cfg lx cfg' lx' :
  parse_vocations_loop fuel cfg lx = Ok (cfg', lx') →
  ∃ raw, vocations (voc_table cfg')
         = vocations (voc_table cfg) ++ map repair_spec raw.
Proof.
  intros H. destruct (parse_vocations_loop_read fuel _ _ _ _ [] H) as (raw & _ & Hv & _).
  exists raw. rewrite Hv. f_equal. apply map_ext. intros v. apply postfix_rules_spec.
Qed.

(** C8. When a vocations block parses, the table gains the vocations read
    from the block, in their order, each one repaired (and nothing else of
    the configuration changes): a rule whose task name is no task of its
    vocation is rewritten to the name of the vocation's first task; in a
    vocation without tasks that has rules, a task [idle] of one rest op is
    synthesized and the rules point at it; every other rule, every task and
    every name is kept.  So every rule of every added vocation names a task
    of its vocation, and a table free of dangling references stays free. *)
Theorem parse_vocations_no_dangling (lx lx' : Lexer) (cfg cfg' : ParsedConfig) :
  parse_vocations_block lx cfg = Ok (cfg', lx') →
  ∃ raw : list VocationDef,
    read_vocations lx = Ok (raw, lx')
    ∧ cfg' = set_voc_table cfg
               (mkVocationTable (vocations (voc_table cfg) ++ map repair_spec raw))
    ∧ Forall2 (fun v v' =>
                 v_name v' = v_name v
                 ∧ match tasks v with
                   | t0 :: _ =>
                       tasks v' = tasks v
                       ∧ Forall2 (fun r r' =>
                                    r' = if bool_decide (task_name r ∈ map t_name (tasks v))
                                         then r else set_task_name r (t_name t0))
                                 (rules v) (rules v')
                   | [] =>
                       (rules v = [] ∧ v' = v)
                       ∨ (rules v ≠ [] ∧ tasks v' = [mkTaskDef "idle" [mkOpDef OP_REST 0 0]]
                          ∧ Forall2 (fun r r' => r' = set_task_name r "idle")
                                    (rules v) (rules v'))
                   end)
              raw (map repair_spec raw)
    ∧ Forall voc_ok (map repair_spec raw)
    ∧ (Forall voc_ok (vocations (voc_table cfg)) →
       Forall voc_ok (vocations (voc_table cfg'))).
Proof.
  unfold parse_vocations_block, read_vocations. intros Hp.
  destruct (expect lx TK_LBRACE) as [[lb lx1]| |]; [|done..].
  unfold mbind in *. cbn [result_bind] in *.
  destruct (parse_vocations_loop_read _ _ _ _ _ [] Hp) as (raw & Hread & Hvocs & Hcfg).
  assert (Hmap : map postfix_rules raw = map repair_spec raw).
  { apply map_ext. intros v. apply postfix_rules_spec. }
  rewrite Hmap in Hvocs.
  assert (Hok : Forall voc_ok (map repair_spec raw)).
  { apply Forall_forall. intros v Hin.
    apply list_elem_of_fmap in Hin as (v0 & -> & _). apply repair_spec_ok. }
  exists raw. split; [exact Hread|]. split.
  { rewrite <- Hvocs, <- Hcfg, set_voc_table_twice.
    destruct cfg' as [? ? ? ? ? ? ? ? ? ? ? ? ? ? ? ? ? ? ? [vs] ? ?]. reflexivity. }
  split.
  { apply Forall2_fmap_r, Forall_Forall2_diag, Forall_forall. intros v _.
    unfold compose, repair_spec. cbv beta. destruct (tasks v) as [|t0 ts] eqn:Hts.
    - destruct (rules v) as [|r rs] eqn:Hrs.
      + split; [done|]. by left.
      + cbn [v_name tasks rules]. split; [done|]. right.
        split; [done|]. split; [done|].
        apply Forall2_fmap_r, Forall_Forall2_diag, Forall_forall. done.
    - cbn [v_name tasks rules]. split; [done|]. split; [done|].
      apply Forall2_fmap_r, Forall_Forall2_diag, Forall_forall.
      done. }
  split; [exact Hok|].
  intros Hold. rewrite Hvocs. by apply Forall_app.
Qed.


(** ** Python indexing *)

Lemma py_pos_in_range {A} (l : list A) (i : Z) :
  0 ≤ i < Z.of_nat (length l) → py_pos l i = Some (Z.to_nat i).
Proof.
  intros Hi. unfold py_pos. cbv zeta.
  destruct (0 <=? i) eqn:E1; [|lia]. destruct (i <? Z.of_nat (length l)) eqn:E2; [done|lia].
Qed.

Lemma py_pos_lt {A} (l : list A) (i : Z) (k : nat) :
  py_pos l i = Some k → (k < length l)%nat.
Proof.
  unfold py_pos. cbv zeta. intros H.
  repeat case_match; simplify_eq; lia.
Qed.

Lemma py_index_in_range {A} (l : list A) (i : Z) :
  0 ≤ i < Z.of_nat (length l) → py_index l i = l !! Z.to_nat i.
Proof. intros Hi. unfold py_index. by rewrite py_pos_in_range. Qed.

Lemma py_setitem_in_range {A} (l : list A) (i : Z) (v : A) :
  0 ≤ i < Z.of_nat (length l) → py_setitem l i v = Some (<[Z.to_nat i := v]> l).
Proof. intros Hi. unfold py_setitem. by rewrite py_pos_in_range. Qed.

Lemma py_index_is_Some {A} (l : list A) (i : Z) :
  0 ≤ i < Z.of_nat (length l) → is_Some (py_index l i).
Proof.
  intros Hi. rewrite py_index_in_range by done. apply lookup_lt_is_Some_2. lia.
Qed.

Lemma py_index_elem {A} (l : list A) (i : Z) (v : A) : py_index l i = Some v → v ∈ l.
Proof.
  unfold py_index. intros H. destruct (py_pos l i) as [k|]; [|done].
  cbn in H. by eapply list_elem_of_lookup_2.
Qed.

Lemma py_setitem_length {A} (l l' : list A) (i : Z) (v : A) :
  py_setitem l i v = Some l' → length l' = length l.
Proof.
  unfold py_setitem. destruct (py_pos l i) as [k|]; [|done].
  cbn. intros [= <-]. apply length_insert.
Qed.

(** ** Gathering *)

Lemma gather_in_range (s : Sim) (a : Agent) (rk want pool : Z) :
  0 ≤ rk < Z.of_nat (length (resources_pool s)) →
  resources_pool s !! Z.to_nat rk = Some pool →
  let take := Z.min want (pool / 20) in
  gather s a rk want
  = Some (set_pool s (<[Z.to_nat rk := pool - take * 20]> (resources_pool s)), take).
Proof.
  intros Hrk Hpool take. unfold gather.
  rewrite py_index_in_range, Hpool by done. cbn [mbind option_bind].
  rewrite py_setitem_in_range by done. cbn [mbind option_bind].
  assert (Htake : (if want <? pool / 20 then want else pool / 20) = take).
  { unfold take. destruct (want <? pool / 20) eqn:E; lia. }
  by rewrite Htake.
Qed.

Lemma inv_add_in_range (a : Agent) (it d v : Z) :
  0 ≤ it < Z.of_nat (length (inv a)) → inv a !! Z.to_nat it = Some v →
  inv_add a it d = Some (set_inv a (<[Z.to_nat it := v + d]> (inv a))).
Proof.
  intros Hit Hv. unfold inv_add.
  rewrite py_index_in_range, Hv by done. cbn [mbind option_bind].
  by rewrite py_setitem_in_range by done.
Qed.

(** The gather op of the executor: [take = min(want, pool[rk] div 20)] units
    leave the pool as [take * 20] points, and reach the inventory slot of the
    same ordinal for the six kinds that have one. *)
Lemma exec_gather_spec (s : Sim) (i : nat) (a : Agent) (rk want pool have : Z) :
  agents s !! i = Some a →
  0 ≤ rk < RES_MAX →
  length (resources_pool s) = Z.to_nat RES_MAX →
  resources_pool s !! Z.to_nat rk = Some pool →
  length (inv a) = Z.to_nat ITEM_MAX →
  (rk < 6 → inv a !! Z.to_nat rk = Some have) →
  let take := Z.min want (pool / 20) in
  let s' := set_pool s (<[Z.to_nat rk := pool - take * 20]> (resources_pool s)) in
  exec_op s i (mkOpDef OP_GATHER want rk)
  = Some (if rk <? 6
          then put_agent s' i (set_inv a (<[Z.to_nat rk := have + take]> (inv a)))
          else s').
Proof.
  intros Ha Hrk Hlen Hpool Hinv Hhave take s'.
  unfold exec_op. rewrite Ha. cbn [mbind option_bind op_kind arg_i arg_j].
  change (OP_GATHER =? OP_MOVE_TO) with false. change (OP_GATHER =? OP_GATHER) with true.
  cbv iota.
  rewrite (gather_in_range s a rk want pool) by (rewrite ?Hlen; unfold RES_MAX in *; lia || done).
  cbn [mbind option_bind]. fold take. fold s'.
  unfold RES_MAX, ITEM_MAX in *.
  assert (Hcases : rk = 0 ∨ rk = 1 ∨ rk = 2 ∨ rk = 3 ∨ rk = 4 ∨ rk = 5 ∨ 6 ≤ rk) by lia.
  destruct Hcases as [->|[->|[->|[->|[->|[->|Hge]]]]]];
    try (unfold RES_FISH, RES_GRAIN, RES_WOOD, RES_CLAY, RES_COPPER, RES_TIN,
           ITEM_FISH, ITEM_GRAIN, ITEM_WOOD, ITEM_CLAY, ITEM_COPPER, ITEM_TIN;
         cbn [Z.eqb Pos.eqb Z.ltb Z.compare Pos.compare Pos.compare_cont];
         rewrite (inv_add_in_range a _ take have)
           by (rewrite ?Hinv; first [lia | apply Hhave; lia]);
         reflexivity).
  destruct (rk <? 6) eqn:E; [lia|].
  unfold RES_FISH, RES_GRAIN, RES_WOOD, RES_CLAY, RES_COPPER, RES_TIN.
  repeat (case_match; [lia|]). reflexivity.
Qed.

(** ** Role switching: the choice of the target *)

Lemma find_from_range vs name i : 0 ≤ i → find_from vs name i = -1 ∨ i ≤ find_from vs name i.
Proof.
  revert i. induction vs as [|v vs IH]; intros i Hi; cbn [find_from]; [by left|].
  destruct (String.eqb _ _); [right; lia|].
  destruct (IH (i + 1)) as [->|Hr]; [lia|by left|right; lia].
Qed.

(** C6 (as amended). The target of role switching is decided by the last of
    the four clauses that holds, in the order farmer, fisher, smith, potter:
    potter when the potter clause holds, else smith when the smith clause
    holds, else fisher when the fisher clause holds, else farmer when the
    farmer clause holds, else none. *)
Theorem choose_target_last_clause_wins (vt : VocationTable) (pc_grain pc_fish pc_tool pc_pot : Q) :
  choose_target vt pc_grain pc_fish pc_tool pc_pot
  = if potter_clause vt pc_pot then voc_find vt "potter"
    else if smith_clause vt pc_tool then voc_find vt "smith"
    else if fisher_clause vt pc_grain pc_fish then voc_find vt "fisher"
    else if farmer_clause vt pc_grain then voc_find vt "farmer"
    else -1.
Proof.
  unfold choose_target, potter_clause, smith_clause, fisher_clause, farmer_clause.
  cbv zeta.
  destruct ((voc_find vt "potter" >=? 0) && flt pc_pot (6 # 10)); [done|].
  destruct ((voc_find vt "smith" >=? 0) && flt pc_tool (6 # 10)); [done|].
  destruct (voc_find vt "farmer" >=? 0) eqn:Hf; cbn [andb]; [|done].
  destruct (flt pc_grain 3); cbn [negb orb]; [|done].
  assert ((voc_find vt "farmer" <? 0) = false) as -> by lia.
  done.
Qed.

(** C6 (as stated) fails: with a farmer and a smith vocation, no grain and
    no tools, the farmer clause holds and the fisher clause does not, yet
    the target is the smith. *)
Lemma choose_target_counterexample :
  let vt := farmer_smith_table in
  let alive := 4 in
  let pc_grain := (inject_Z 0 / inject_Z alive)%Q in
  let pc_fish := (inject_Z 20 / inject_Z alive)%Q in
  let pc_tool := (inject_Z 0 / inject_Z alive)%Q in
  let pc_pot := (inject_Z 4 / inject_Z alive)%Q in
  voc_find vt "farmer" = 0 ∧ flt pc_grain 3 = true
  ∧ ((voc_find vt "fisher" >=? 0) && flt pc_fish 2
     && ((voc_find vt "farmer" <? 0) || flt pc_fish pc_grain)) = false
  ∧ flt pc_tool (6 # 10) = true
  ∧ choose_target vt pc_grain pc_fish pc_tool pc_pot = voc_find vt "smith"
  ∧ voc_find vt "smith" ≠ voc_find vt "farmer".
Proof. vm_compute. repeat split; congruence. Qed.

(** ** Role switching never moves a household's parent *)

Lemma switch_loop_spec (s : Sim) (target alive : Z) (as_ : list Agent) :
  ∀ (i switched : Z) (as' : list Agent) (sw' : Z),
  switch_loop s target alive i as_ switched = Some (as', sw') →
  length as' = length as_
  ∧ ∀ (k : nat) (a : Agent), as_ !! k = Some a →
      ∃ a', as' !! k = Some a'
            ∧ (a' = a
               ∨ (a' = set_vocation a target
                  ∧ ∃ hh, py_index (households s) (household_id a) = Some hh
                          ∧ parent_id hh ≠ i + Z.of_nat k)).
Proof.
  induction as_ as [|a0 rest IH]; intros i switched as' sw' Hloop.
  { cbn in Hloop. injection Hloop as <- <-. split; [done|]. intros k a Hk. done. }
  cbn [switch_loop] in Hloop. cbv zeta in Hloop.
  assert (Hskip : ∀ sw0,
     ('(rest', sw) ← switch_loop s target alive (i + 1) rest sw0; Some (a0 :: rest', sw))
       = Some (as', sw') →
     ∀ a1, (a1 = a0 ∨ (a1 = set_vocation a0 target
                       ∧ ∃ hh, py_index (households s) (household_id a0) = Some hh
                               ∧ parent_id hh ≠ i)) →
     ∃ rest', as' = a0 :: rest' ∧
     length (a1 :: rest') = length (a0 :: rest)
     ∧ ∀ (k : nat) (a : Agent), (a0 :: rest) !! k = Some a →
        ∃ a', (a1 :: rest') !! k = Some a'
              ∧ (a' = a ∨ (a' = set_vocation a target
                           ∧ ∃ hh, py_index (households s) (household_id a) = Some hh
                                   ∧ parent_id hh ≠ i + Z.of_nat k))).
  { intros sw0 H a1 Ha1.
    destruct (switch_loop s target alive (i + 1) rest sw0) as [[rest' sw]|] eqn:E; [|done].
    cbn in H. injection H as <- <-.
    destruct (IH _ _ _ _ E) as [Hlen Hk]. exists rest'. split; [done|]. split.
    - cbn. by rewrite Hlen.
    - intros [|k] a Hlk; cbn in Hlk.
      + injection Hlk as <-. exists a1. split; [done|].
        rewrite Z.add_0_r. exact Ha1.
      + destruct (Hk k a Hlk) as (a' & Ha' & Hor). exists a'. split; [done|].
        replace (i + Z.of_nat (S k)) with (i + 1 + Z.of_nat k) by lia. exact Hor. }
  assert (Hskip0 : ∀ sw0,
     ('(rest', sw) ← switch_loop s target alive (i + 1) rest sw0; Some (a0 :: rest', sw))
       = Some (as', sw') →
     length as' = length (a0 :: rest)
     ∧ ∀ (k : nat) (a : Agent), (a0 :: rest) !! k = Some a →
        ∃ a', as' !! k = Some a'
              ∧ (a' = a ∨ (a' = set_vocation a target
                           ∧ ∃ hh, py_index (households s) (household_id a) = Some hh
                                   ∧ parent_id hh ≠ i + Z.of_nat k))).
  { intros sw0 H. destruct (Hskip sw0 H a0 (or_introl eq_refl)) as (rest' & -> & Hl & Hk).
    by split. }
  destruct (fle (health a0) 0); [by eapply Hskip0|].
  destruct (age a0 <? 17); [by eapply Hskip0|].
  destruct (vocation_id a0 =? target); [by eapply Hskip0|].
  destruct (py_index (households s) (household_id a0)) as [hh|] eqn:Hhh; [|done].
  cbn [mbind option_bind] in Hloop.
  destruct (parent_id hh =? i) eqn:Hpar; [by eapply Hskip0|].
  destruct (flt _ _); [|by eapply Hskip0].
  assert (Hmoved : set_vocation a0 target = a0
                   ∨ (set_vocation a0 target = set_vocation a0 target
                      ∧ ∃ hh, py_index (households s) (household_id a0) = Some hh
                              ∧ parent_id hh ≠ i)).
  { right. split; [done|]. exists hh. split; [done|]. lia. }
  destruct (switched + 1 >=? alive `div` 50 + 1).
  - (* break: the rest of the list is untouched *)
    injection Hloop as <- <-. split; [done|].
    intros [|k] a Hlk; cbn in Hlk.
    + injection Hlk as <-. eexists. split; [done|]. rewrite Z.add_0_r. exact Hmoved.
    + exists a. split; [done|]. by left.
  - destruct (switch_loop s target alive (i + 1) rest (switched + 1))
      as [[rest' sw]|] eqn:E; [|done].
    cbn in Hloop. injection Hloop as <- <-.
    destruct (IH _ _ _ _ E) as [Hlen Hk]. split; [cbn; by rewrite Hlen|].
    intros [|k] a Hlk; cbn in Hlk.
    + injection Hlk as <-. eexists. split; [done|]. rewrite Z.add_0_r. exact Hmoved.
    + destruct (Hk k a Hlk) as (a' & Ha' & Hor). exists a'. split; [done|].
      replace (i + Z.of_nat (S k)) with (i + 1 + Z.of_nat k) by lia. exact Hor.
Qed.

(** Role switching changes nothing but the agent list. *)
Lemma role_switching_frame (s s' : Sim) (out : string) :
  role_switching s = Some (s', out) →
  households s' = households s ∧ resources_pool s' = resources_pool s
  ∧ day s' = day s ∧ world s' = world s ∧ settlements s' = settlements s
  ∧ sim_voc_table s' = sim_voc_table s ∧ cache s' = cache s
  ∧ switch_every_days s' = switch_every_days s ∧ gen s' = gen s.
Proof.
  unfold role_switching. intros H.
  repeat (first
    [ match type of H with
      | (if ?b then _ else _) = Some _ => destruct b
      | mbind _ ?m = Some _ => destruct m as [?|]; cbn [mbind option_bind] in H
      | (let (_, _) := ?p in _) = Some _ => destruct p
      | (let '(_, _) := ?p in _) = Some _ => destruct p
      end
    | discriminate H ]);
  injection H as <- <-; done.
Qed.

(** C7. Role switching never changes the vocation of a household's parent:
    an agent at position [i] whose household names [i] as its parent has the
    same [vocation_id] after [role_switching] as before, and the households
    themselves are not changed. *)
Theorem role_switching_keeps_parents (s s' : Sim) (out : string) (i : nat) (a : Agent)
    (hh : Household) :
  role_switching s = Some (s', out) →
  agents s !! i = Some a →
  py_index (households s) (household_id a) = Some hh →
  parent_id hh = Z.of_nat i →
  households s' = households s
  ∧ ∃ a', agents s' !! i = Some a' ∧ vocation_id a' = vocation_id a.
Proof.
  intros Hrs Ha Hhh Hpar.
  split; [by apply role_switching_frame in Hrs as (? & _)|].
  unfold role_switching in Hrs.
  destruct (switch_every_days s =? 0); [injection Hrs as <- _; by exists a|].
  destruct (negb _); [injection Hrs as <- _; by exists a|].
  destruct (alive_totals _ _ _) as [[alive totals]|]; [|done].
  cbn [mbind option_bind] in Hrs.
  destruct (alive <=? 0); [injection Hrs as <- _; by exists a|].
  repeat (match type of Hrs with
          | mbind _ (py_index ?l ?k) = Some _ =>
              destruct (py_index l k) as [?|]; cbn [mbind option_bind] in Hrs;
              [|discriminate Hrs]
          end).
  cbv zeta in Hrs.
  destruct (choose_target _ _ _ _ _ <? 0); [injection Hrs as <- _; by exists a|].
  destruct (switch_loop _ _ _ _ _ _) as [[as' sw]|] eqn:Hloop; [|done].
  cbn [mbind option_bind] in Hrs.
  destruct (switch_loop_spec _ _ _ _ _ _ _ _ Hloop) as [_ Hk].
  destruct (Hk i a Ha) as (a' & Ha' & Hor).
  assert (Hag : agents s' = as') by (destruct (sw >? 0); by injection Hrs as <- _).
  rewrite Hag. exists a'. split; [done|].
  destruct Hor as [->|[_ (hh' & Hhh' & Hne)]]; [done|].
  rewrite Hhh in Hhh'. injection Hhh' as <-. lia.
Qed.

(** ** The task picker *)

Lemma eligible_rules_spec (s : Sim) (a : Agent) (rs : list RuleDef) :
  ∀ (total : Z) (el : list RuleDef),
  (∀ r, r ∈ rs → is_Some (cond_eval (cond r) s a (day_roll s a))) →
  eligible_rules s a (day_roll s a) rs total el
  = Some (total + sum_weights (eligible_spec s a rs), el ++ eligible_spec s a rs).
Proof.
  unfold eligible_spec, passing_rules.
  induction rs as [|r rs IH]; intros total el Hsome.
  { cbn. by rewrite Z.add_0_r, app_nil_r. }
  assert (Hrs : ∀ r', r' ∈ rs → is_Some (cond_eval (cond r') s a (day_roll s a))).
  { intros r' Hr'. apply Hsome. apply elem_of_cons. by right. }
  destruct (Hsome r) as [ok Hok]; [apply elem_of_cons; by left|].
  cbn [eligible_rules List.filter]. rewrite Hok. cbn [mbind option_bind].
  destruct ok.
  - rewrite bool_decide_eq_true_2 by done. cbn [List.filter].
    destruct (weight r >? 0) eqn:Hw.
    + rewrite Hw. rewrite IH by done. cbn [sum_weights foldr].
      fold (sum_weights (List.filter (fun r => weight r >? 0)
             (List.filter (fun r => bool_decide (cond_eval (cond r) s a (day_roll s a) = Some true)) rs))).
      rewrite <- app_assoc. cbn [app]. f_equal. f_equal. lia.
    + assert ((0 >? 0) = false) as -> by done. by rewrite IH.
  - rewrite bool_decide_eq_false_2 by congruence. by rewrite IH.
Qed.

Lemma eligible_spec_positive s a rs r : r ∈ eligible_spec s a rs → 0 < weight r.
Proof.
  unfold eligible_spec. intros Hin. apply list_elem_of_In, filter_In in Hin as [_ Hw]. lia.
Qed.

Lemma sum_weights_nonneg rs : (∀ r, r ∈ rs → 0 < weight r) → 0 ≤ sum_weights rs.
Proof.
  induction rs as [|r rs IH]; intros Hpos; cbn [sum_weights foldr]; [done|].
  fold (sum_weights rs).
  assert (0 < weight r) by (apply Hpos, elem_of_cons; by left).
  assert (0 ≤ sum_weights rs) by (apply IH; intros r' ?; apply Hpos, elem_of_cons; by right).
  lia.
Qed.

(** The walk over the eligible rules stops at the rule whose cumulative
    weight interval holds the pick. *)
Lemma pick_rule_interval (el : list RuleDef) :
  ∀ pick : Z,
  (∀ r, r ∈ el → 0 < weight r) →
  0 ≤ pick < sum_weights el →
  ∃ pre r post,
    el = pre ++ r :: post
    ∧ sum_weights pre ≤ pick < sum_weights pre + weight r
    ∧ pick_rule el pick = Some r.
Proof.
  induction el as [|r el IH]; intros pick Hpos Hpick.
  { cbn in Hpick. lia. }
  cbn [sum_weights foldr] in Hpick. fold (sum_weights el) in Hpick.
  assert (Hr : 0 < weight r) by (apply Hpos, elem_of_cons; by left).
  cbn [pick_rule]. cbv zeta.
  assert ((weight r >? 0) = true) as -> by lia.
  destruct (pick - weight r <? 0) eqn:Hlt.
  - exists [], r, el. cbn. split; [done|]. split; [lia|done].
  - destruct (IH (pick - weight r)) as (pre & r' & post & -> & Hint & Hp).
    + intros r' ?. apply Hpos, elem_of_cons. by right.
    + lia.
    + exists (r :: pre), r', post. split; [done|]. split; [|done].
      cbn [sum_weights foldr]. fold (sum_weights pre). lia.
Qed.

(** C4 (as amended). For an agent with a valid vocation, the picker's total
    is the sum of the weights of the rules whose condition succeeds under the
    shared roll and whose weight is positive (rules of weight zero or less
    are never eligible).  When the total is zero there is no task; otherwise
    [pick = rng_u32(seed, x, y, day xor 0xC0FFEE) mod total] and the chosen
    rule is the eligible rule whose cumulative weight interval contains
    [pick]; the result is that rule's task looked up by name. *)
Theorem choose_task_weighted_pick (s : Sim) (a : Agent) (voc : VocationDef) :
  voc_get (sim_voc_table s) (vocation_id a) = Some voc →
  (∀ r, r ∈ rules voc → is_Some (cond_eval (cond r) s a (day_roll s a))) →
  let el := eligible_spec s a (rules voc) in
  let total := sum_weights el in
  let pick := day_pick s a total in
  eligible_rules s a (day_roll s a) (rules voc) 0 [] = Some (total, el)
  ∧ 0 ≤ total
  ∧ (total = 0 → choose_task s a = Some None)
  ∧ (total ≠ 0 →
     ∃ pre r post,
       el = pre ++ r :: post
       ∧ sum_weights pre ≤ pick < sum_weights pre + weight r
       ∧ choose_task s a = Some (resolve_task (tasks voc) (task_name r))).
Proof.
  intros Hvoc Hsome el total pick.
  pose proof (eligible_rules_spec s a (rules voc) 0 [] Hsome) as Hel.
  cbn [app] in Hel. rewrite Z.add_0_l in Hel. fold el in Hel. fold total in Hel.
  assert (Hpos : ∀ r, r ∈ el → 0 < weight r) by (intros r; apply eligible_spec_positive).
  pose proof (sum_weights_nonneg el Hpos) as Hnn. fold total in Hnn.
  split; [exact Hel|]. split; [exact Hnn|].
  unfold choose_task. rewrite Hvoc. fold (day_roll s a). rewrite Hel.
  cbn [mbind option_bind]. split.
  - intros ->. done.
  - intros Hne. assert ((total <=? 0) = false) as -> by lia.
    fold (day_pick s a total). fold pick.
    destruct (pick_rule_interval el pick Hpos) as (pre & r & post & Hsplit & Hint & Hp).
    { unfold pick, day_pick. apply Z.mod_pos_bound. lia. }
    exists pre, r, post. rewrite Hp. done.
Qed.

(** C4 (as stated) fails: two rules whose conditions both succeed, of
    weights 5 and -5.  The sum of the weights of the rules whose condition
    succeeds is zero, which would mean no task; the picker's total is 5 and
    it returns the task of the first rule. *)
Lemma choose_task_counterexample :
  let s := one_agent_sim opposite_weights_voc (replicate 9 0) (replicate 14 1000) 1 in
  let a := example_agent (replicate 9 0) in
  agents s !! 0%nat = Some a
  ∧ voc_get (sim_voc_table s) (vocation_id a) = Some opposite_weights_voc
  ∧ passing_rules s a (rules opposite_weights_voc) = rules opposite_weights_voc
  ∧ sum_weights (passing_rules s a (rules opposite_weights_voc)) = 0
  ∧ eligible_rules s a (day_roll s a) (rules opposite_weights_voc) 0 []
    = Some (5, [mkRuleDef "r1" Condition_new "A" 5])
  ∧ choose_task s a = Some (Some rest_task).
Proof. vm_compute. repeat split; reflexivity. Qed.

Lemma choose_task_weighted_pick_witness :
  let s := one_agent_sim two_rule_voc [7; 0; 0; 0; 0; 0; 0; 0; 0] (replicate 14 1000) 1 in
  let a := example_agent [7; 0; 0; 0; 0; 0; 0; 0; 0] in
  let el := eligible_spec s a (rules two_rule_voc) in
  eligible_rules s a (day_roll s a) (rules two_rule_voc) 0 [] = Some (sum_weights el, el)
  ∧ 0 ≤ sum_weights el.
Proof.
  intros s a el.
  destruct (choose_task_weighted_pick s a two_rule_voc) as (H1 & H2 & _).
  - vm_compute. reflexivity.
  - intros r Hr. apply list_elem_of_In in Hr. cbn [rules two_rule_voc In] in Hr.
    destruct Hr as [<-|[<-|[]]]; vm_compute; eauto.
  - split; [exact H1 | exact H2].
Defined.

(** ** Season clauses *)


Lemma cond_eval_season_any (s : Sim) (a : Agent) (roll : Q) :
  cond_eval (season_cond SEASON_ANY) s a roll = Some true.
Proof. reflexivity. Qed.







(** ** Binary64 rounding: finite results and their bounds *)

Lemma round_half_even_bounds (num den : Z) :
  0 < den → 0 ≤ num →
  0 ≤ round_half_even num den ∧ round_half_even num den * den ≤ num + den.
Proof.
  intros Hd Hn. unfold round_half_even.
  pose proof (Z.div_pos num den Hn Hd) as Hm.
  pose proof (Z.mul_div_le num den Hd) as Hle.
  repeat case_match; split; nia.
Qed.

Lemma pow2_pos (k : Z) : 0 ≤ k → 0 < 2 ^ k.
Proof. intros. apply Z.pow_pos_nonneg; lia. Qed.

Lemma ilog2_ratio_le (a d : Z) : ilog2_ratio a d ≤ Z.log2 a - Z.log2 d.
Proof. unfold ilog2_ratio. repeat case_match; lia. Qed.

(** A non-negative real below [2^1023] rounds to a finite float that is not
    negative and at most twice the real plus one. *)
Lemma b64_round_fin (q : Q) :
  (0 <= q)%Q → (q < inject_Z (2 ^ 1023))%Q →
  ∃ r : Q, b64_round q = Fin r ∧ (0 <= r)%Q ∧ (r <= 2 * q + 1)%Q.
Proof.
  destruct q as [n d]. intros Hn Hq. unfold Qle in Hn. unfold Qlt in Hq.
  cbn [Qnum Qden inject_Z] in Hn, Hq.
  rewrite Z.mul_1_r in Hn. change (Z.pos 1) with 1 in Hq. rewrite Z.mul_1_r in Hq.
  unfold b64_round. cbn [Qnum Qden].
  destruct (n =? 0) eqn:En.
  { exists 0%Q. split; [done|]. split; [apply Qle_refl|].
    apply Z.eqb_eq in En. subst n. unfold Qle. cbn. lia. }
  apply Z.eqb_neq in En.
  assert (Hnpos : 0 < n) by lia.
  rewrite (Z.abs_eq n) by lia. rewrite (Z.sgn_pos n) by lia.
  set (e := ilog2_ratio n (Z.pos d)).
  pose proof (ilog2_ratio_le n (Z.pos d)) as He. fold e in He.
  destruct (Z.log2_spec n Hnpos) as [Hla _].
  destruct (Z.log2_spec (Z.pos d) ltac:(lia)) as [_ Hld].
  pose proof (Z.log2_nonneg n) as Hln0.
  pose proof (Z.log2_nonneg (Z.pos d)) as Hld0.
  set (k := Z.max (e - 52) (-1074)).
  assert (Hkdef : k = Z.max (e - 52) (-1074)) by reflexivity.
  clearbody k e.
  destruct (0 <=? k) eqn:Ek.
  - apply Z.leb_le in Ek.
    assert (Hk : k = e - 52) by lia.
    pose proof (pow2_pos k Ek) as Hpk.
    destruct (round_half_even_bounds n (Z.pos d * 2 ^ k) ltac:(nia) ltac:(lia)) as [H0 Hle].
    set (m := round_half_even n (Z.pos d * 2 ^ k)) in *. clearbody m.
    assert (Hkd : 2 ^ k * Z.pos d ≤ n).
    { assert (2 ^ k * 2 ^ (Z.succ (Z.log2 (Z.pos d))) ≤ 2 ^ Z.log2 n).
      { rewrite <- Z.pow_add_r by lia. apply Z.pow_le_mono_r; lia. }
      assert (2 ^ k * Z.pos d ≤ 2 ^ k * 2 ^ Z.succ (Z.log2 (Z.pos d)))
        by (apply Z.mul_le_mono_nonneg_l; lia).
      eapply Z.le_trans; [eassumption|]. eapply Z.le_trans; eassumption. }
    assert (Hv : m * 2 ^ k * Z.pos d ≤ 2 * n) by nia.
    assert (Hfin : m * 2 ^ k < 2 ^ 1024).
    { assert (2 * n < 2 ^ 1024 * Z.pos d).
      { change (2 ^ 1024) with (2 * 2 ^ 1023). lia. }
      nia. }
    destruct (2 ^ 1024 <=? m * 2 ^ k) eqn:Eo; [apply Z.leb_le in Eo; lia|].
    exists (inject_Z (1 * (m * 2 ^ k))). split; [done|].
    unfold Qle. cbn [Qnum Qden inject_Z Qmult Qplus Qmult].
    split; [nia|]. cbn. nia.
  - apply Z.leb_gt in Ek.
    assert (Hpk : 0 < 2 ^ (- k)) by (apply pow2_pos; lia).
    destruct (round_half_even_bounds (n * 2 ^ (- k)) (Z.pos d) ltac:(lia) ltac:(nia))
      as [H0 Hle].
    set (m := round_half_even (n * 2 ^ (- k)) (Z.pos d)) in *. clearbody m.
    eexists. split; [reflexivity|].
    assert (Hq0 : (0 <= 1 * m # Z.to_pos (2 ^ (- k)))%Q).
    { unfold Qle. cbn. lia. }
    assert (Hq1 : (1 * m # Z.to_pos (2 ^ (- k)) <= 2 * (n # d) + 1)%Q).
    { unfold Qle. cbn [Qnum Qden Qmult Qplus]. rewrite !Pos2Z.inj_mul.
      rewrite Z2Pos.id by lia. nia. }
    split.
    + rewrite Qred_correct. exact Hq0.
    + rewrite Qred_correct. exact Hq1.
Qed.

Lemma inject_Z_pow_le (a b : Z) : 0 ≤ a ≤ b → (inject_Z (2 ^ a) <= inject_Z (2 ^ b))%Q.
Proof.
  intros H. rewrite <- Zle_Qle. apply Z.pow_le_mono_r; lia.
Qed.

Lemma inject_Z_pow_mul (a b : Z) :
  0 ≤ a → 0 ≤ b → (inject_Z (2 ^ a) * inject_Z (2 ^ b) == inject_Z (2 ^ (a + b)))%Q.
Proof.
  intros Ha Hb. rewrite <- inject_Z_mult, <- Z.pow_add_r by lia. reflexivity.
Qed.

(** The same with powers of two as bounds. *)
Lemma b64_round_pow (q : Q) (B : Z) :
  0 ≤ B < 1023 → (0 <= q)%Q → (q <= inject_Z (2 ^ B))%Q →
  ∃ r : Q, b64_round q = Fin r ∧ (0 <= r)%Q ∧ (r <= inject_Z (2 ^ (B + 2)))%Q.
Proof.
  intros HB H0 Hq.
  assert (Hlt : (q < inject_Z (2 ^ 1023))%Q).
  { eapply Qle_lt_trans; [exact Hq|]. rewrite <- Zlt_Qlt.
    apply Z.pow_lt_mono_r; lia. }
  destruct (b64_round_fin q H0 Hlt) as (r & Hr & Hr0 & Hr1).
  exists r. split; [done|]. split; [done|].
  eapply Qle_trans; [exact Hr1|].
  assert (H1 : (1 <= inject_Z (2 ^ B))%Q).
  { change 1%Q with (inject_Z 1). rewrite <- Zle_Qle.
    pose proof (pow2_pos B ltac:(lia)). lia. }
  assert (E : (inject_Z (2 ^ (B + 2)) == 4 * inject_Z (2 ^ B))%Q).
  { rewrite Z.pow_add_r by lia. rewrite inject_Z_mult.
    change (inject_Z (2 ^ 2)) with 4%Q. ring. }
  rewrite E. lra.
Qed.

Lemma fmul_fin (x y : Q) (A B : Z) :
  0 ≤ A → 0 ≤ B → A + B < 1023 →
  (0 <= x)%Q → (x <= inject_Z (2 ^ A))%Q → (0 <= y)%Q → (y <= inject_Z (2 ^ B))%Q →
  ∃ r : Q, fmul (Fin x) (Fin y) = Fin r ∧ (0 <= r)%Q ∧ (r <= inject_Z (2 ^ (A + B + 2)))%Q.
Proof.
  intros HA HB HAB Hx0 Hx Hy0 Hy. cbn [fmul].
  apply b64_round_pow; [lia| |].
  - apply Qmult_le_0_compat; done.
  - rewrite <- inject_Z_pow_mul by lia.
    assert (Ha0 : (0 <= inject_Z (2 ^ A))%Q).
    { change 0%Q with (inject_Z 0). rewrite <- Zle_Qle.
      pose proof (pow2_pos A HA). lia. }
    generalize dependent (inject_Z (2 ^ A)). generalize dependent (inject_Z (2 ^ B)).
    intros b Hy a Hx Ha0. nra.
Qed.

Lemma float_of_int_fin (n B : Z) :
  0 ≤ B < 1023 → 0 ≤ n ≤ 2 ^ B →
  ∃ r : Q, float_of_int n = Some r ∧ (0 <= r)%Q ∧ (r <= inject_Z (2 ^ (B + 2)))%Q.
Proof.
  intros HB Hn. unfold float_of_int.
  destruct (b64_round_pow (inject_Z n) B HB) as (r & -> & Hr).
  - change 0%Q with (inject_Z 0). rewrite <- Zle_Qle. lia.
  - rewrite <- Zle_Qle. lia.
  - by exists r.
Qed.

Lemma py_int_nonneg (q : Q) : (0 <= q)%Q → 0 ≤ py_int q.
Proof.
  destruct q as [n d]. unfold Qle, py_int. cbn [Qnum Qden]. intros H.
  apply Z.quot_pos; lia.
Qed.

Lemma fin_le_fmul (x y : pyfloat) (A B : Z) :
  0 ≤ A → 0 ≤ B → A + B < 1023 → fin_le x A → fin_le y B →
  fin_le (fmul x y) (A + B + 2).
Proof.
  intros HA HB HAB (qx & -> & Hx0 & Hx) (qy & -> & Hy0 & Hy).
  by apply fmul_fin.
Qed.

Lemma fin_le_rate (r : pyfloat) : rate_ok r → fin_le r 400.
Proof. intros H. exact H. Qed.

Lemma fin_le_const (q : Q) (B : Z) :
  Qle_bool 0 q = true → Qle_bool q (inject_Z (2 ^ B)) = true → fin_le (Fin q) B.
Proof.
  intros H0 H1. exists q. split; [done|]. by split; apply Qle_bool_iff.
Qed.

Lemma fin_le_float_of_int (n B : Z) :
  0 ≤ B < 1023 → 0 ≤ n ≤ 2 ^ B →
  ∃ sc : Q, float_of_int n = Some sc ∧ fin_le (Fin sc) (B + 2).
Proof.
  intros HB Hn. destruct (float_of_int_fin n B HB Hn) as (r & Hr & Hr0 & Hr1).
  exists r. split; [done|]. by exists r.
Qed.

Lemma fin_le_int (x : pyfloat) (B : Z) :
  fin_le x B → ∃ v : Z, py_int_f x = Some v ∧ 0 ≤ v.
Proof.
  intros (q & -> & Hq0 & _). exists (py_int q). split; [done|]. by apply py_int_nonneg.
Qed.

(** The multipliers of the regeneration loop. *)
Lemma fin_le_b64_70 : fin_le (b64_round (70 # 100)) 0.
Proof.
  assert (E : ∃ q, b64_round (70 # 100) = Fin q ∧ Qle_bool 0 q = true
                   ∧ Qle_bool q (inject_Z (2 ^ 0)) = true).
  { eexists. vm_compute. split; [reflexivity|]. split; reflexivity. }
  destruct E as (q & -> & H0 & H1). by apply fin_le_const.
Qed.

Lemma fin_le_b64_30 : fin_le (b64_round (30 # 100)) 0.
Proof.
  assert (E : ∃ q, b64_round (30 # 100) = Fin q ∧ Qle_bool 0 q = true
                   ∧ Qle_bool q (inject_Z (2 ^ 0)) = true).
  { eexists. vm_compute. split; [reflexivity|]. split; reflexivity. }
  destruct E as (q & -> & H0 & H1). by apply fin_le_const.
Qed.

Lemma fin_le_one : fin_le (Fin 1) 0.
Proof. apply fin_le_const; vm_compute; reflexivity. Qed.

(** The amount one resource regenerates on a day:
    [int(renew * mul * 255.0 * scale)]. *)
Lemma regen_amount_ok (r mul : pyfloat) (scale : Z) :
  rate_ok r → fin_le mul 0 → 0 ≤ scale ≤ 2 ^ 407 →
  ∃ add : Z, regen_amount r mul scale = Some add ∧ 0 ≤ add.
Proof.
  intros Hr Hmul Hscale. unfold regen_amount.
  destruct (fin_le_float_of_int scale 407 ltac:(lia) Hscale) as (sc & Hsc & Hscb).
  pose proof (fin_le_fmul r mul 400 0 ltac:(lia) ltac:(lia) ltac:(lia) Hr Hmul) as H1.
  assert (H255 : fin_le (Fin 255) 8) by (apply fin_le_const; vm_compute; reflexivity).
  pose proof (fin_le_fmul _ _ (400 + 0 + 2) 8 ltac:(lia) ltac:(lia) ltac:(lia) H1 H255)
    as H2.
  pose proof (fin_le_fmul _ _ (400 + 0 + 2 + 8 + 2) (407 + 2)
                ltac:(lia) ltac:(lia) ltac:(lia) H2 Hscb) as H3.
  destruct (fin_le_int _ _ H3) as (add & Hadd & Hadd0).
  rewrite Hsc. cbn [mbind option_bind]. by exists add.
Qed.

(** The initial amount of one resource:
    [int(renew * 255.0 * 30.0 * scale)]. *)
Lemma init_amount_ok (r : pyfloat) (scale : Z) :
  rate_ok r → 0 ≤ scale ≤ 2 ^ 407 →
  ∃ v : Z, init_amount r scale = Some v ∧ 0 ≤ v.
Proof.
  intros Hr Hscale. unfold init_amount.
  destruct (fin_le_float_of_int scale 407 ltac:(lia) Hscale) as (sc & Hsc & Hscb).
  assert (H255 : fin_le (Fin 255) 8) by (apply fin_le_const; vm_compute; reflexivity).
  assert (H30 : fin_le (Fin 30) 5) by (apply fin_le_const; vm_compute; reflexivity).
  pose proof (fin_le_fmul r _ 400 8 ltac:(lia) ltac:(lia) ltac:(lia) Hr H255) as H1.
  pose proof (fin_le_fmul _ _ (400 + 8 + 2) 5 ltac:(lia) ltac:(lia) ltac:(lia) H1 H30)
    as H2.
  pose proof (fin_le_fmul _ _ (400 + 8 + 2 + 5 + 2) (407 + 2)
                ltac:(lia) ltac:(lia) ltac:(lia) H2 Hscb) as H3.
  destruct (fin_le_int _ _ H3) as (v & Hv & Hv0).
  rewrite Hsc. cbn [mbind option_bind]. by exists v.
Qed.

Lemma init_pool_loop_ok (rm : list pyfloat) (scale : Z) :
  Forall rate_ok rm → 0 ≤ scale ≤ 2 ^ 407 →
  ∃ pool, init_pool_loop rm scale = Some pool
          ∧ length pool = length rm ∧ Forall (fun v => 0 ≤ v) pool.
Proof.
  intros Hrm Hscale. induction Hrm as [|r rm Hr _ IH]; cbn [init_pool_loop].
  { exists []. by repeat split. }
  destruct (init_amount_ok r scale Hr Hscale) as (v & -> & Hv).
  cbn [mbind option_bind].
  destruct IH as (pool & -> & Hlen & Hall). cbn [mbind option_bind].
  exists (v :: pool). split; [done|]. split; [cbn [length]; by rewrite Hlen|]. by constructor.
Qed.

(** A roam amount that [float(steps)] converts. *)
Lemma float_of_int_steps (steps : Z) :
  0 ≤ steps < 2 ^ 1023 → ∃ f : Q, float_of_int steps = Some f ∧ (0 <= f)%Q.
Proof.
  intros H. unfold float_of_int.
  destruct (b64_round_fin (inject_Z steps)) as (r & -> & Hr0 & _).
  - change 0%Q with (inject_Z 0). rewrite <- Zle_Qle. lia.
  - rewrite <- Zlt_Qlt. lia.
  - by exists r.
Qed.

(** Rounding is symmetric around zero. *)
Lemma b64_round_opp (n : Z) (d : positive) :
  n ≠ 0 → b64_round (- n # d) = fneg (b64_round (n # d)).
Proof.
  intros Hn. unfold b64_round. cbn [Qnum Qden].
  rewrite Z.abs_opp, Z.sgn_opp.
  replace (- n =? 0) with false by lia. replace (n =? 0) with false by lia.
  destruct (0 <=? _).
  - destruct (2 ^ 1024 <=? _).
    + destruct (Z.ltb_spec n 0), (Z.ltb_spec (- n) 0); try lia; reflexivity.
    + cbn [fneg]. f_equal. unfold inject_Z, Qopp. cbn [Qnum Qden]. f_equal. lia.
  - cbn [fneg]. f_equal. rewrite <- Qred_opp. f_equal.
    unfold Qopp. cbn [Qnum Qden]. f_equal. lia.
Qed.

(** A real of magnitude below [2^1023] rounds to a finite float of magnitude
    at most twice that plus one. *)
Lemma b64_round_fin_abs (q : Q) :
  (Qabs q < inject_Z (2 ^ 1023))%Q →
  ∃ r : Q, b64_round q = Fin r ∧ (Qabs r <= 2 * Qabs q + 1)%Q.
Proof.
  intros Hq. destruct (Qlt_le_dec q 0) as [Hneg|Hpos].
  - destruct q as [n d].
    assert (Hn : n < 0) by (unfold Qlt in Hneg; cbn in Hneg; lia).
    assert (Eabs : Qabs (n # d) = (- n # d)).
    { unfold Qabs. f_equal. lia. }
    rewrite Eabs in Hq |- *.
    destruct (b64_round_fin (- n # d)) as (r & Hr & Hr0 & Hr1).
    { unfold Qle. cbn. lia. }
    { exact Hq. }
    pose proof (b64_round_opp (- n) d ltac:(lia)) as Ho.
    rewrite Z.opp_involutive, Hr in Ho. cbn [fneg] in Ho.
    exists (- r)%Q. split; [exact Ho|].
    assert (E : (Qabs (- r) == r)%Q) by (rewrite Qabs_opp; by apply Qabs_pos).
    rewrite E. exact Hr1.
  - pose proof (Qabs_pos q Hpos) as E. rewrite E in Hq.
    destruct (b64_round_fin q Hpos Hq) as (r & Hr & Hr0 & Hr1).
    exists r. split; [exact Hr|]. rewrite E. by rewrite (Qabs_pos r Hr0).
Qed.

Lemma fin_abs_fmul (x y : pyfloat) (A B : Z) :
  0 ≤ A → 0 ≤ B → A + B < 1023 → fin_abs x A → fin_abs y B →
  fin_abs (fmul x y) (A + B + 2).
Proof.
  intros HA HB HAB (qx & -> & Hx) (qy & -> & Hy). cbn [fmul].
  assert (Hxy : (Qabs (qx * qy) <= inject_Z (2 ^ (A + B)))%Q).
  { rewrite Qabs_Qmult, <- inject_Z_pow_mul by lia.
    pose proof (Qabs_nonneg qx). pose proof (Qabs_nonneg qy).
    generalize dependent (Qabs qx). generalize dependent (Qabs qy).
    generalize (inject_Z (2 ^ A)) (inject_Z (2 ^ B)). intros. nra. }
  destruct (b64_round_fin_abs (qx * qy)) as (r & Hr & Hr1).
  { eapply Qle_lt_trans; [exact Hxy|]. rewrite <- Zlt_Qlt.
    apply Z.pow_lt_mono_r; lia. }
  exists r. split; [exact Hr|].
  eapply Qle_trans; [exact Hr1|].
  assert (H1 : (1 <= inject_Z (2 ^ (A + B)))%Q).
  { change 1%Q with (inject_Z 1). rewrite <- Zle_Qle.
    pose proof (pow2_pos (A + B) ltac:(lia)). lia. }
  assert (E : (inject_Z (2 ^ (A + B + 2)) == 4 * inject_Z (2 ^ (A + B)))%Q).
  { rewrite Z.pow_add_r by lia. rewrite inject_Z_mult.
    change (inject_Z (2 ^ 2)) with 4%Q. ring. }
  rewrite E. lra.
Qed.

Lemma fin_le_abs (x : pyfloat) (B : Z) : fin_le x B → fin_abs x B.
Proof.
  intros (q & -> & H0 & H1). exists q. split; [done|]. by rewrite (Qabs_pos q H0).
Qed.

Lemma fin_abs_int (x : pyfloat) (B : Z) : fin_abs x B → ∃ v : Z, py_int_f x = Some v.
Proof. intros (q & -> & _). by eexists. Qed.

Lemma fin_abs_float_of_int (n B : Z) :
  0 ≤ B < 1023 → 0 ≤ n ≤ 2 ^ B →
  ∃ sc : Q, float_of_int n = Some sc ∧ fin_abs (Fin sc) (B + 2).
Proof.
  intros HB Hn. destruct (fin_le_float_of_int n B HB Hn) as (sc & Hsc & Hb).
  exists sc. split; [done|]. by apply fin_le_abs.
Qed.

(** With finite rates of either sign the pool amounts are computed. *)
Lemma regen_amount_fin (r mul : pyfloat) (scale : Z) :
  rate_fin r → fin_le mul 0 → 0 ≤ scale ≤ 2 ^ 407 →
  ∃ add : Z, regen_amount r mul scale = Some add.
Proof.
  intros Hr Hmul Hscale. unfold regen_amount.
  destruct (fin_abs_float_of_int scale 407 ltac:(lia) Hscale) as (sc & Hsc & Hscb).
  pose proof (fin_abs_fmul r mul 400 0 ltac:(lia) ltac:(lia) ltac:(lia) Hr
                (fin_le_abs _ _ Hmul)) as H1.
  assert (H255 : fin_abs (Fin 255) 8).
  { apply fin_le_abs, fin_le_const; vm_compute; reflexivity. }
  pose proof (fin_abs_fmul _ _ (400 + 0 + 2) 8 ltac:(lia) ltac:(lia) ltac:(lia) H1 H255)
    as H2.
  pose proof (fin_abs_fmul _ _ (400 + 0 + 2 + 8 + 2) (407 + 2)
                ltac:(lia) ltac:(lia) ltac:(lia) H2 Hscb) as H3.
  destruct (fin_abs_int _ _ H3) as (add & Hadd).
  rewrite Hsc. cbn [mbind option_bind]. by exists add.
Qed.

Lemma init_amount_fin (r : pyfloat) (scale : Z) :
  rate_fin r → 0 ≤ scale ≤ 2 ^ 407 → ∃ v : Z, init_amount r scale = Some v.
Proof.
  intros Hr Hscale. unfold init_amount.
  destruct (fin_abs_float_of_int scale 407 ltac:(lia) Hscale) as (sc & Hsc & Hscb).
  assert (H255 : fin_abs (Fin 255) 8).
  { apply fin_le_abs, fin_le_const; vm_compute; reflexivity. }
  assert (H30 : fin_abs (Fin 30) 5).
  { apply fin_le_abs, fin_le_const; vm_compute; reflexivity. }
  pose proof (fin_abs_fmul r _ 400 8 ltac:(lia) ltac:(lia) ltac:(lia) Hr H255) as H1.
  pose proof (fin_abs_fmul _ _ (400 + 8 + 2) 5 ltac:(lia) ltac:(lia) ltac:(lia) H1 H30)
    as H2.
  pose proof (fin_abs_fmul _ _ (400 + 8 + 2 + 5 + 2) (407 + 2)
                ltac:(lia) ltac:(lia) ltac:(lia) H2 Hscb) as H3.
  destruct (fin_abs_int _ _ H3) as (v & Hv).
  rewrite Hsc. cbn [mbind option_bind]. by exists v.
Qed.

Lemma init_pool_loop_fin (rm : list pyfloat) (scale : Z) :
  Forall rate_fin rm → 0 ≤ scale ≤ 2 ^ 407 →
  ∃ pool, init_pool_loop rm scale = Some pool ∧ length pool = length rm.
Proof.
  intros Hrm Hscale. induction Hrm as [|r rm Hr _ IH]; cbn [init_pool_loop].
  { by exists []. }
  destruct (init_amount_fin r scale Hr Hscale) as (v & ->).
  cbn [mbind option_bind].
  destruct IH as (pool & -> & Hlen). cbn [mbind option_bind].
  exists (v :: pool). split; [done|]. cbn [length]. by rewrite Hlen.
Qed.

Lemma init_pool_loop_lookup (rm : list pyfloat) (scale : Z) (pool : list Z) :
  init_pool_loop rm scale = Some pool →
  ∀ (k : nat) (r : pyfloat), rm !! k = Some r →
  ∃ v, pool !! k = Some v ∧ init_amount r scale = Some v.
Proof.
  revert pool. induction rm as [|r0 rm IH]; intros pool Hp k r Hk; [done|].
  cbn [init_pool_loop] in Hp.
  destruct (init_amount r0 scale) as [v0|] eqn:E0; [|done]. cbn [mbind option_bind] in Hp.
  destruct (init_pool_loop rm scale) as [vs|] eqn:E1; [|done].
  cbn [mbind option_bind] in Hp. injection Hp as <-.
  destruct k as [|k]; cbn [lookup list_lookup] in Hk |- *.
  - injection Hk as <-. by exists v0.
  - by apply (IH vs eq_refl).
Qed.

Lemma rate_ok_fin (r : pyfloat) : rate_ok r → rate_fin r.
Proof.
  intros (q & -> & H0 & H1). exists q. split; [done|]. by rewrite (Qabs_pos q H0).
Qed.

(** ** Signs: what is not negative stays so *)

Lemma rate_nonneg_fin (q : Q) : rate_nonneg (Fin q) ↔ (0 <= q)%Q.
Proof.
  unfold rate_nonneg. cbn [pf_lt]. unfold flt. split.
  - intros H. apply Qle_bool_iff. by destruct (Qle_bool 0 q).
  - intros H. apply Qle_bool_iff in H. by rewrite H.
Qed.

Lemma b64_round_nonneg (q : Q) : (0 <= q)%Q → rate_nonneg (b64_round q).
Proof.
  destruct q as [n d]. intros Hn. unfold Qle in Hn. cbn [Qnum Qden] in Hn.
  rewrite Z.mul_1_r in Hn. unfold b64_round. cbn [Qnum Qden].
  destruct (n =? 0) eqn:En.
  { apply rate_nonneg_fin. apply Qle_refl. }
  apply Z.eqb_neq in En.
  rewrite (Z.abs_eq n) by lia. rewrite (Z.sgn_pos n) by lia.
  set (k := Z.max _ (-1074)). clearbody k.
  destruct (0 <=? k) eqn:Ek.
  - apply Z.leb_le in Ek. pose proof (pow2_pos k Ek) as Hpk.
    destruct (round_half_even_bounds n (Z.pos d * 2 ^ k) ltac:(nia) ltac:(lia)) as [H0 _].
    destruct (2 ^ 1024 <=? _).
    + replace (n <? 0) with false by lia. reflexivity.
    + apply rate_nonneg_fin. unfold Qle. cbn [Qnum Qden inject_Z]. nia.
  - apply Z.leb_gt in Ek.
    assert (Hpk : 0 < 2 ^ (- k)) by (apply pow2_pos; lia).
    destruct (round_half_even_bounds (n * 2 ^ (- k)) (Z.pos d) ltac:(lia) ltac:(nia))
      as [H0 _].
    apply rate_nonneg_fin. rewrite Qred_correct. unfold Qle. cbn [Qnum Qden]. lia.
Qed.

Lemma fmul_nonneg (x y : pyfloat) :
  rate_nonneg x → rate_nonneg y → rate_nonneg (fmul x y).
Proof.
  destruct x as [a| | |], y as [b| | |]; intros Hx Hy; try done.
  - apply rate_nonneg_fin in Hx. apply rate_nonneg_fin in Hy.
    cbn [fmul]. apply b64_round_nonneg. by apply Qmult_le_0_compat.
  - apply rate_nonneg_fin, Qle_bool_iff in Hx. cbn [fmul]. rewrite Hx.
    by destruct (Qle_bool a 0).
  - apply rate_nonneg_fin, Qle_bool_iff in Hy. cbn [fmul]. rewrite Hy.
    by destruct (Qle_bool b 0).
Qed.

Lemma py_int_f_nonneg (x : pyfloat) (v : Z) :
  rate_nonneg x → py_int_f x = Some v → 0 ≤ v.
Proof.
  destruct x as [q| | |]; try done. cbn [py_int_f]. intros Hq [= <-].
  apply py_int_nonneg. by apply rate_nonneg_fin.
Qed.

Lemma float_of_int_nonneg (n : Z) (f : Q) :
  0 ≤ n → float_of_int n = Some f → (0 <= f)%Q.
Proof.
  intros Hn. unfold float_of_int.
  assert (H : rate_nonneg (b64_round (inject_Z n))).
  { apply b64_round_nonneg. change 0%Q with (inject_Z 0). rewrite <- Zle_Qle. lia. }
  destruct (b64_round (inject_Z n)) as [q| | |]; try done.
  intros [= <-]. by apply rate_nonneg_fin.
Qed.

Lemma regen_amount_nonneg (r mul : pyfloat) (scale add : Z) :
  rate_nonneg r → rate_nonneg mul → 0 ≤ scale →
  regen_amount r mul scale = Some add → 0 ≤ add.
Proof.
  intros Hr Hmul Hscale. unfold regen_amount.
  destruct (float_of_int scale) as [sc|] eqn:Esc; [|done]. cbn [mbind option_bind].
  apply py_int_f_nonneg. repeat apply fmul_nonneg; try done.
  apply rate_nonneg_fin. by eapply float_of_int_nonneg.
Qed.

Lemma init_amount_nonneg (r : pyfloat) (scale v : Z) :
  rate_nonneg r → 0 ≤ scale → init_amount r scale = Some v → 0 ≤ v.
Proof.
  intros Hr Hscale. unfold init_amount.
  destruct (float_of_int scale) as [sc|] eqn:Esc; [|done]. cbn [mbind option_bind].
  apply py_int_f_nonneg. repeat apply fmul_nonneg; try done.
  apply rate_nonneg_fin. by eapply float_of_int_nonneg.
Qed.

Lemma init_pool_loop_nonneg (rm : list pyfloat) (scale : Z) :
  Forall rate_nonneg rm → 0 ≤ scale →
  ∀ pool, init_pool_loop rm scale = Some pool →
  length pool = length rm ∧ Forall (fun v => 0 ≤ v) pool.
Proof.
  intros Hrm Hscale. induction Hrm as [|r rm Hr _ IH]; intros pool; cbn [init_pool_loop].
  { by intros [= <-]. }
  destruct (init_amount r scale) as [v|] eqn:Ev; [|done]. cbn [mbind option_bind].
  destruct (init_pool_loop rm scale) as [vs|]; [|done]. cbn [mbind option_bind].
  intros [= <-]. destruct (IH vs eq_refl) as [Hlen Hall].
  split; [cbn [length]; by rewrite Hlen|].
  constructor; [|done]. by eapply init_amount_nonneg.
Qed.

Lemma rate_ok_nonneg (r : pyfloat) : rate_ok r → rate_nonneg r.
Proof. intros (q & -> & H0 & _). by apply rate_nonneg_fin. Qed.

Lemma fin_le_nonneg (x : pyfloat) (B : Z) : fin_le x B → rate_nonneg x.
Proof. intros (q & -> & H0 & _). by apply rate_nonneg_fin. Qed.


(** ** Needs and counts stay in range *)

Lemma flt_spec (a b : Q) : reflect (a < b)%Q (flt a b).
Proof.
  unfold flt. destruct (Qle_bool b a) eqn:E; cbn [negb]; constructor.
  - apply Qle_bool_iff in E. lra.
  - apply Qnot_le_lt. intros Hle. apply Qle_bool_iff in Hle. congruence.
Qed.

Lemma fle_spec (a b : Q) : reflect (a <= b)%Q (fle a b).
Proof.
  unfold fle. destruct (Qle_bool a b) eqn:E; constructor.
  - by apply Qle_bool_iff.
  - intros Hle. apply Qle_bool_iff in Hle. congruence.
Qed.

(** Case analysis on every float comparison in the goal. *)
Ltac fcases :=
  repeat match goal with
         | |- context [flt ?a ?b] => destruct (flt_spec a b)
         | |- context [fle ?a ?b] => destruct (fle_spec a b)
         end.

Lemma inv_ok_slots (l : list Z) :
  inv_ok l →
  ∃ v0 v1 v2 v3 v4 v5 v6 v7 v8,
    l = [v0; v1; v2; v3; v4; v5; v6; v7; v8]
    ∧ 0 ≤ v0 ∧ 0 ≤ v1 ∧ 0 ≤ v2 ∧ 0 ≤ v3 ∧ 0 ≤ v4 ∧ 0 ≤ v5 ∧ 0 ≤ v6 ∧ 0 ≤ v7 ∧ 0 ≤ v8.
Proof.
  intros [Hlen Hall].
  do 9 (destruct l as [|? l]; [discriminate Hlen|]).
  destruct l; [|discriminate Hlen].
  repeat (apply Forall_cons in Hall as [? Hall]).
  do 9 eexists. split; [reflexivity|]. repeat split; assumption.
Qed.

Lemma inv_ok_of_slots (v0 v1 v2 v3 v4 v5 v6 v7 v8 : Z) :
  0 ≤ v0 → 0 ≤ v1 → 0 ≤ v2 → 0 ≤ v3 → 0 ≤ v4 → 0 ≤ v5 → 0 ≤ v6 → 0 ≤ v7 → 0 ≤ v8 →
  inv_ok [v0; v1; v2; v3; v4; v5; v6; v7; v8].
Proof. intros. split; [done|]. repeat constructor; assumption. Qed.

(** An agent opened up: its record fields and its nine inventory slots. *)
Ltac open_agent a Hok :=
  let Hinv := fresh "Hinv" in
  let Hneeds := fresh "Hneeds" in
  let Hhh := fresh "Hhh" in
  destruct Hok as (Hinv & Hneeds & Hhh);
  destruct (inv_ok_slots _ Hinv) as
    (?v0 & ?v1 & ?v2 & ?v3 & ?v4 & ?v5 & ?v6 & ?v7 & ?v8 & ?Hl & ?P0 & ?P1 & ?P2 & ?P3
     & ?P4 & ?P5 & ?P6 & ?P7 & ?P8);
  destruct a as [?ax ?ay ?avid ?aage ?ahid ?ainv ?hu ?fa ?he];
  unfold needs_ok in Hneeds;
  cbn [inv hunger fatigue health household_id vocation_id age ag_x ag_y] in *;
  subst;
  clear Hinv.

(** Evaluation of the record and list operations on an opened agent. *)
Ltac agent_eval_step :=
  first
    [ rewrite py_index_in_range by (cbn [length]; lia)
    | rewrite py_setitem_in_range by (cbn [length]; lia)
    | progress
        (change (Z.to_nat 0) with 0%nat; change (Z.to_nat 1) with 1%nat;
         change (Z.to_nat 2) with 2%nat; change (Z.to_nat 3) with 3%nat;
         change (Z.to_nat 4) with 4%nat; change (Z.to_nat 5) with 5%nat;
         change (Z.to_nat 6) with 6%nat; change (Z.to_nat 7) with 7%nat;
         change (Z.to_nat 8) with 8%nat)
    | progress
        cbn [mbind option_bind lookup list_lookup insert list_insert inv hunger fatigue
             health household_id vocation_id age ag_x ag_y] ].

Ltac agent_eval :=
  unfold ITEM_FISH, ITEM_GRAIN, ITEM_WOOD, ITEM_CLAY, ITEM_COPPER, ITEM_TIN, ITEM_BRONZE,
    ITEM_TOOL, ITEM_POT, inv_add, set_inv, set_hunger, set_fatigue, set_health,
    set_vocation, set_age;
  repeat agent_eval_step.

(** Closing a goal [agent_ok nh a] for an explicit agent. *)
Ltac close_agent :=
  unfold agent_ok, needs_ok, set_inv, set_hunger, set_fatigue, set_health, set_vocation,
    set_age;
  cbn [inv hunger fatigue health household_id vocation_id age ag_x ag_y];
  split; [apply inv_ok_of_slots; lia | split; [repeat split; lra | assumption]].

Lemma eat_ok (nh : nat) (a : Agent) :
  agent_ok nh a → ∃ a', eat a = Some a' ∧ agent_ok nh a'.
Proof.
  intros Hok. open_agent a Hok. unfold eat. agent_eval.
  destruct (fle_spec hu (7 # 10)).
  { eexists. split; [reflexivity|]. close_agent. }
  destruct (v0 >? 0) eqn:Ef; agent_eval; fcases; agent_eval;
    try (destruct (v1 >? 0) eqn:Eg; agent_eval);
    fcases; eexists; (split; [reflexivity|]); close_agent.
Qed.

Ltac if_cases :=
  repeat (match goal with
          | |- context [if ?b then _ else _] => destruct b eqn:?
          end; agent_eval).

Lemma craft_once_ok (nh : nat) (a : Agent) (item : Z) :
  agent_ok nh a → ∃ a', craft_once a item = Some a' ∧ agent_ok nh a'.
Proof.
  intros Hok. open_agent a Hok. unfold craft_once. agent_eval.
  if_cases; eexists; (split; [reflexivity|]); close_agent.
Qed.

Lemma craft_item_ok (nh : nat) (a : Agent) (item amount : Z) :
  agent_ok nh a → ∃ a', craft_item a item amount = Some a' ∧ agent_ok nh a'.
Proof.
  unfold craft_item. generalize (Z.to_nat amount). intros n. revert a.
  induction n as [|n IH]; intros a Hok; cbn [craft_loop]; [by exists a|].
  destruct (craft_once_ok nh a item Hok) as (a1 & -> & Hok1). cbn [mbind option_bind].
  by apply IH.
Qed.

(** Slots of an inventory by a symbolic index. *)
Lemma inv_ok_index (l : list Z) (it : Z) :
  inv_ok l → 0 ≤ it < ITEM_MAX → ∃ v, py_index l it = Some v ∧ 0 ≤ v.
Proof.
  intros [Hlen Hall] Hit. unfold ITEM_MAX in *.
  rewrite py_index_in_range by lia.
  destruct (lookup_lt_is_Some_2 l (Z.to_nat it)) as [v Hv]; [lia|].
  exists v. split; [done|]. rewrite Forall_lookup in Hall. by apply (Hall _ _ Hv).
Qed.

Lemma inv_add_ok (nh : nat) (a : Agent) (it d v : Z) :
  agent_ok nh a → 0 ≤ it < ITEM_MAX → py_index (inv a) it = Some v → 0 ≤ v + d →
  ∃ a', inv_add a it d = Some a' ∧ agent_ok nh a' ∧ fatigue a' = fatigue a.
Proof.
  intros (Hinv & Hneeds & Hhh) Hit Hv Hd. unfold inv_add. rewrite Hv.
  cbn [mbind option_bind]. destruct Hinv as [Hlen Hall]. unfold ITEM_MAX in *.
  rewrite py_setitem_in_range by lia. cbn [mbind option_bind].
  eexists. split; [reflexivity|]. split; [|done].
  split; [|done]. cbn [set_inv inv]. split.
  - by rewrite length_insert.
  - apply Forall_insert; done.
Qed.

Lemma set_fatigue_ok (nh : nat) (a : Agent) (f : Q) :
  agent_ok nh a → (0 <= f)%Q → agent_ok nh (set_fatigue a f).
Proof.
  intros (Hinv & Hneeds & Hhh) Hf. split; [done|]. split; [|done].
  unfold needs_ok in *. cbn [set_fatigue hunger fatigue health]. tauto.
Qed.

Lemma agent_ok_fatigue (nh : nat) (a : Agent) : agent_ok nh a → (0 <= fatigue a)%Q.
Proof. intros (_ & Hneeds & _). unfold needs_ok in Hneeds. tauto. Qed.

(** ** Trading *)

Lemma best_offer_ok (a : Agent) (st : Settlement) (want : Z) (its : list Z) :
  inv_ok (inv a) → length (val st) = Z.to_nat ITEM_MAX →
  Forall (fun it => 0 ≤ it < ITEM_MAX) its →
  ∀ (offer : Z) (best : Q), 0 ≤ offer < ITEM_MAX →
  ∃ o b, best_offer a st want its offer best = Some (o, b) ∧ 0 ≤ o < ITEM_MAX.
Proof.
  intros Hinv Hval Hits. induction Hits as [|it its Hit _ IH]; intros offer best Hoff.
  { cbn. by exists offer, best. }
  cbn [best_offer]. destruct (it =? want); [by apply IH|].
  destruct (inv_ok_index _ it Hinv Hit) as (have & -> & _). cbn [mbind option_bind].
  destruct (have <? 6); [by apply IH|].
  unfold ITEM_MAX in *.
  rewrite py_index_in_range by lia.
  destruct (lookup_lt_is_Some_2 (val st) (Z.to_nat it)) as [score ->]; [lia|].
  cbn [mbind option_bind]. destruct (flt best score); by apply IH.
Qed.

Lemma item_range_ok : Forall (fun it => 0 ≤ it < ITEM_MAX) item_range.
Proof.
  apply Forall_forall. intros it Hin. unfold item_range in Hin.
  apply list_elem_of_fmap in Hin as (k & -> & Hk).
  apply list_elem_of_In, in_seq in Hk. lia.
Qed.

Lemma trade_want_ok (nh : nat) (a : Agent) (st : Settlement) (want : Z) :
  agent_ok nh a → length (val st) = Z.to_nat ITEM_MAX → 0 ≤ want < ITEM_MAX →
  ∃ a', trade_want a st want = Some a' ∧ agent_ok nh a'.
Proof.
  intros Hok Hval Hwant. pose proof Hok as (Hinv & _ & _).
  unfold trade_want.
  destruct (inv_ok_index _ want Hinv Hwant) as (have & -> & Hhave).
  cbn [mbind option_bind]. destruct (have >=? 3); [by exists a|].
  destruct (best_offer_ok a st want item_range Hinv Hval item_range_ok ITEM_FISH (-1)%Q)
    as (offer & best & -> & Hoff); [unfold ITEM_FISH, ITEM_MAX; lia|].
  cbn [mbind option_bind].
  destruct (inv_ok_index _ offer Hinv Hoff) as (ho & Hho & Hho0). rewrite Hho.
  cbn [mbind option_bind]. destruct (ho <? 6) eqn:Hlt; [by exists a|].
  unfold ITEM_MAX in *.
  rewrite !py_index_in_range by lia.
  destruct (lookup_lt_is_Some_2 (val st) (Z.to_nat offer)) as [vo ->]; [lia|].
  destruct (lookup_lt_is_Some_2 (val st) (Z.to_nat want)) as [vw ->]; [lia|].
  cbn [mbind option_bind]. destruct (fle vw vo); [|by exists a].
  destruct (inv_add_ok nh a offer (-2) ho Hok) as (a1 & -> & Hok1 & Hf1);
    [unfold ITEM_MAX; lia | done | lia |].
  cbn [mbind option_bind]. pose proof Hok1 as (Hinv1 & _ & _).
  destruct (inv_ok_index _ want Hinv1) as (hw & Hhw & Hhw0); [unfold ITEM_MAX; lia|].
  destruct (inv_add_ok nh a1 want 1 hw Hok1) as (a2 & -> & Hok2 & Hf2);
    [unfold ITEM_MAX; lia | done | lia |].
  cbn [mbind option_bind]. eexists. split; [reflexivity|].
  apply set_fatigue_ok; [done|]. pose proof (agent_ok_fatigue _ _ Hok2). lra.
Qed.

Lemma trade_wants_ok (nh : nat) (st : Settlement) (wants : list Z) :
  length (val st) = Z.to_nat ITEM_MAX → Forall (fun w => 0 ≤ w < ITEM_MAX) wants →
  ∀ a, agent_ok nh a → ∃ a', trade_wants a st wants = Some a' ∧ agent_ok nh a'.
Proof.
  intros Hval Hw. induction Hw as [|w wants Hw _ IH]; intros a Hok; cbn [trade_wants].
  { by exists a. }
  destruct (trade_want_ok nh a st w Hok Hval Hw) as (a1 & -> & Hok1).
  cbn [mbind option_bind]. by apply IH.
Qed.

Lemma static_households (s : Sim) (hid : Z) :
  static_ok s → 0 ≤ hid < Z.of_nat (length (households s)) →
  ∃ hh st, py_index (households s) hid = Some hh
           ∧ py_index (settlements s) (settlement_id hh) = Some st
           ∧ length (val st) = Z.to_nat ITEM_MAX.
Proof.
  intros (_ & _ & Hhh & Hst & _) Hhid.
  destruct (lookup_lt_is_Some_2 (households s) (Z.to_nat hid)) as [hh Hhhv]; [lia|].
  rewrite Forall_lookup in Hhh. pose proof (Hhh _ _ Hhhv) as Hsid. cbn beta in Hsid.
  destruct (lookup_lt_is_Some_2 (settlements s) (Z.to_nat (settlement_id hh)))
    as [st Hstv]; [lia|].
  rewrite Forall_lookup in Hst. exists hh, st.
  rewrite !py_index_in_range by done. split; [done|]. split; [done|].
  by apply (Hst _ _ Hstv).
Qed.

Lemma trade_ok (s : Sim) (a : Agent) :
  static_ok s → agent_ok (length (households s)) a →
  ∃ a', trade s a = Some a' ∧ agent_ok (length (households s)) a'.
Proof.
  intros Hst Hok. pose proof Hok as (_ & _ & Hhid).
  destruct (static_households s _ Hst Hhid) as (hh & st & Hhh & Hsett & Hval).
  unfold trade. rewrite Hhh. cbn [mbind option_bind]. rewrite Hsett.
  cbn [mbind option_bind]. apply trade_wants_ok; [done| |done].
  unfold ITEM_GRAIN, ITEM_FISH, ITEM_TOOL, ITEM_POT, ITEM_MAX.
  repeat (constructor; [lia|]). constructor.
Qed.

(** ** Task execution *)

Lemma frame_eq_refl (s : Sim) : frame_eq s s.
Proof. by repeat split. Qed.

Lemma frame_eq_trans (s1 s2 s3 : Sim) : frame_eq s1 s2 → frame_eq s2 s3 → frame_eq s1 s3.
Proof.
  intros (A1 & A2 & A3 & A4 & A5 & A6 & A7) (B1 & B2 & B3 & B4 & B5 & B6 & B7).
  repeat split; congruence.
Qed.

Lemma static_ok_frame (s s' : Sim) : frame_eq s s' → static_ok s → static_ok s'.
Proof.
  intros (A1 & A2 & A3 & A4 & _) H. unfold static_ok in *. by rewrite A1, A2, A3, A4.
Qed.

Lemma sim_fin_frame (s s' : Sim) : frame_eq s s' → sim_fin s → sim_fin s'.
Proof.
  intros (A1 & _ & _ & A4 & _ & _ & A7) H. unfold sim_fin in *. by rewrite A1, A4, A7.
Qed.

Lemma put_agent_ok (s : Sim) (i : nat) (a : Agent) :
  sim_ok s → agent_ok (length (households s)) a →
  sim_ok (put_agent s i a) ∧ frame_eq s (put_agent s i a).
Proof.
  intros (Hst & Hpool & Hag) Ha.
  assert (Hfr : frame_eq s (put_agent s i a)).
  { repeat split. cbn [put_agent set_agents agents]. apply length_insert. }
  split; [|exact Hfr].
  split; [by apply (static_ok_frame s)|]. split; [done|].
  cbn [put_agent set_agents agents households]. by apply Forall_insert.
Qed.

Lemma sim_ok_agent (s : Sim) (i : nat) (a : Agent) :
  sim_ok s → agents s !! i = Some a → agent_ok (length (households s)) a.
Proof. intros (_ & _ & Hag) Ha. rewrite Forall_lookup in Hag. by apply (Hag _ _ Ha). Qed.

Lemma gather_ok (s : Sim) (a : Agent) (rk want : Z) :
  sim_ok s → 0 ≤ rk < RES_MAX → 0 ≤ want →
  ∃ s' take, gather s a rk want = Some (s', take)
             ∧ 0 ≤ take ∧ sim_ok s' ∧ frame_eq s s' ∧ agents s' = agents s.
Proof.
  intros (Hst & [Hlen Hpool] & Hag) Hrk Hwant. unfold RES_MAX in *.
  destruct (lookup_lt_is_Some_2 (resources_pool s) (Z.to_nat rk)) as [pool Hp]; [lia|].
  rewrite (gather_in_range s a rk want pool) by (done || lia).
  rewrite Forall_lookup in Hpool. pose proof (Hpool _ _ Hp) as Hp0. cbn beta in Hp0.
  assert (0 ≤ pool / 20) by (apply Z.div_pos; lia).
  assert (20 * (pool / 20) ≤ pool) by (apply Z.mul_div_le; lia).
  eexists _, _. split; [reflexivity|]. split; [lia|]. split; [|by repeat split].
  split; [done|]. split; [|done]. cbn [set_pool resources_pool]. split.
  - by rewrite length_insert.
  - apply Forall_insert; [by apply Forall_lookup|]. lia.
Qed.

Lemma inv_add_nonneg_ok (nh : nat) (a : Agent) (it d : Z) :
  agent_ok nh a → 0 ≤ it < ITEM_MAX → 0 ≤ d →
  ∃ a', inv_add a it d = Some a' ∧ agent_ok nh a'.
Proof.
  intros Hok Hit Hd. pose proof Hok as (Hinv & _ & _).
  destruct (inv_ok_index _ it Hinv Hit) as (v & Hv & Hv0).
  destruct (inv_add_ok nh a it d v Hok Hit Hv) as (a' & Ha' & Hok' & _); [lia|].
  by exists a'.
Qed.

(** The lemmas on the executor and the stepper come in one form for two
    uses.  With [E] true they say that a call that returns keeps the
    simulator in range (a call may raise, in a float conversion); with [E]
    false and the sizes of [sim_fin] they say that the call returns. *)
Section Escape.

Variable E : Prop.

Lemma exec_op_ok (s : Sim) (i : nat) (op : OpDef) :
  sim_ok s → (i < length (agents s))%nat → op_ok op → E ∨ op_fin op →
  (∃ s', exec_op s i op = Some s' ∧ sim_ok s' ∧ frame_eq s s')
  ∨ (E ∧ exec_op s i op = None).
Proof.
  intros Hs Hi [Hgather Hroam] Hfin.
  destruct (lookup_lt_is_Some_2 (agents s) i Hi) as [a Ha].
  pose proof (sim_ok_agent s i a Hs Ha) as Hok.
  unfold exec_op. rewrite Ha. cbn [mbind option_bind].
  destruct (op_kind op =? OP_MOVE_TO) eqn:E0.
  { left. eexists. split; [reflexivity|]. apply put_agent_ok; [done|].
    apply set_fatigue_ok; [done|]. pose proof (agent_ok_fatigue _ _ Hok). lra. }
  destruct (op_kind op =? OP_GATHER) eqn:E1.
  { left. apply Z.eqb_eq in E1. destruct (Hgather E1) as [Hrk Hwant].
    destruct (gather_ok s a (arg_j op) (arg_i op) Hs Hrk Hwant)
      as (s1 & take & -> & Htake & Hs1 & Hfr & Hag).
    cbn [mbind option_bind].
    assert (Hok1 : agent_ok (length (households s1)) a).
    { destruct Hfr as (_ & -> & _). done. }
    assert (Hput : ∀ it, 0 ≤ it < ITEM_MAX →
              ∃ s', (a' ← inv_add a it take; Some (put_agent s1 i a')) = Some s'
                    ∧ sim_ok s' ∧ frame_eq s s').
    { intros it Hit.
      destruct (inv_add_nonneg_ok _ a it take Hok1 Hit Htake) as (a' & -> & Hok').
      cbn [mbind option_bind]. eexists. split; [reflexivity|].
      destruct (put_agent_ok s1 i a' Hs1 Hok') as [? ?].
      split; [done|]. by eapply frame_eq_trans. }
    unfold ITEM_MAX, ITEM_FISH, ITEM_GRAIN, ITEM_WOOD, ITEM_CLAY, ITEM_COPPER, ITEM_TIN in *.
    repeat (case_match; [apply Hput; lia|]).
    by exists s1. }
  destruct (op_kind op =? OP_CRAFT) eqn:E2.
  { left. destruct (craft_item_ok _ a (arg_j op) (arg_i op) Hok) as (a' & -> & Hok').
    cbn [mbind option_bind]. eexists. split; [reflexivity|]. by apply put_agent_ok. }
  destruct (op_kind op =? OP_TRADE) eqn:E3.
  { left. destruct (trade_ok s a) as (a' & -> & Hok'); [by destruct Hs|done|].
    cbn [mbind option_bind]. eexists. split; [reflexivity|]. by apply put_agent_ok. }
  destruct (op_kind op =? OP_REST) eqn:E4.
  { left. cbv zeta. eexists. split; [reflexivity|]. apply put_agent_ok; [done|].
    change (fatigue (set_fatigue a (fatigue a - (2 # 10)))) with (fatigue a - (2 # 10))%Q.
    destruct (flt_spec (fatigue a - (2 # 10)) 0).
    - change (set_fatigue (set_fatigue a (fatigue a - (2 # 10))) 0) with (set_fatigue a 0).
      apply set_fatigue_ok; [done|]. lra.
    - apply set_fatigue_ok; [done|]. lra. }
  destruct (op_kind op =? OP_ROAM) eqn:E5.
  { apply Z.eqb_eq in E5. pose proof (Hroam E5) as Hsteps.
    unfold roam. destruct (float_of_int (arg_i op)) as [f|] eqn:Ef.
    - left. pose proof (float_of_int_nonneg _ _ Hsteps Ef) as Hf.
      cbn [mbind option_bind].
      eexists. split; [reflexivity|]. apply put_agent_ok; [done|].
      apply set_fatigue_ok; [done|]. pose proof (agent_ok_fatigue _ _ Hok).
      nra.
    - destruct Hfin as [He|Hf]; [by right|].
      destruct (float_of_int_steps (arg_i op)) as (f & Hf' & _); [|congruence].
      split; [exact Hsteps|by apply Hf]. }
  left. exists s. split; [done|]. split; [done|]. apply frame_eq_refl.
Qed.

Lemma exec_ops_ok (i : nat) (os : list OpDef) :
  Forall op_ok os → E ∨ Forall op_fin os →
  ∀ s, sim_ok s → (i < length (agents s))%nat →
  (∃ s', exec_ops s i os = Some s' ∧ sim_ok s' ∧ frame_eq s s')
  ∨ (E ∧ exec_ops s i os = None).
Proof.
  intros Hos. induction Hos as [|op os Hop _ IH]; intros Hfin s Hs Hi; cbn [exec_ops].
  { left. exists s. split; [done|]. split; [done|]. apply frame_eq_refl. }
  assert (Hfin1 : E ∨ op_fin op).
  { destruct Hfin as [He|Hf]; [by left|]. right. by apply Forall_cons in Hf as [? _]. }
  assert (Hfin2 : E ∨ Forall op_fin os).
  { destruct Hfin as [He|Hf]; [by left|]. right. by apply Forall_cons in Hf as [_ ?]. }
  destruct (exec_op_ok s i op Hs Hi Hop Hfin1) as [(s1 & -> & Hs1 & Hfr1)|[He ->]];
    [|by right].
  cbn [mbind option_bind].
  destruct (IH Hfin2 s1 Hs1) as [(s2 & -> & Hs2 & Hfr2)|[He ->]]; [| |by right].
  { destruct Hfr1 as (_ & _ & _ & _ & _ & _ & ->). done. }
  left. exists s2. split; [done|]. split; [done|]. by eapply frame_eq_trans.
Qed.

(** ** Apprenticeship and the task picker never raise *)

Lemma set_vocation_ok (nh : nat) (a : Agent) (v : Z) :
  agent_ok nh a → agent_ok nh (set_vocation a v).
Proof. intros (Hinv & Hneeds & Hhh). by split. Qed.

Lemma apprenticeship_ok (s : Sim) (a : Agent) :
  static_ok s → agent_ok (length (households s)) a →
  ∃ a', apprenticeship s a = Some a' ∧ agent_ok (length (households s)) a'.
Proof.
  intros Hst Hok. pose proof Hok as (_ & _ & Hhid).
  destruct (static_households s _ Hst Hhid) as (hh & _ & Hhh & _).
  unfold apprenticeship.
  destruct ((age a <? 10) || (age a >? 16)); [by exists a|].
  rewrite Hhh. cbn [mbind option_bind].
  destruct (parent_id hh <? 0) eqn:E1; [by exists a|]. cbv zeta.
  cbn [orb].
  destruct (parent_id hh >=? Z.of_nat (length (agents s))) eqn:E2; [by exists a|].
  rewrite py_index_in_range by lia.
  destruct (lookup_lt_is_Some_2 (agents s) (Z.to_nat (parent_id hh))) as [p ->]; [lia|].
  cbn [mbind option_bind].
  destruct (flt _ _); [|by exists a].
  eexists. split; [reflexivity|]. by apply set_vocation_ok.
Qed.

Lemma inv_clauses_total (a : Agent) (items : list Z) :
  inv_ok (inv a) → Forall (fun ik => 0 ≤ ik < ITEM_MAX) items →
  ∀ cmps vals, is_Some (inv_clauses a items cmps vals).
Proof.
  intros Hinv Hit. induction Hit as [|ik items Hik _ IH]; intros cmps vals.
  { by eexists. }
  cbn [inv_clauses]. destruct cmps as [|ck cmps]; [by eexists|].
  destruct vals as [|v vals]; [by eexists|].
  destruct (inv_ok_index _ ik Hinv Hik) as (have & -> & _). cbn [mbind option_bind].
  repeat (case_match; [by eexists|]). apply IH.
Qed.

Lemma cond_eval_total (c : Condition) (s : Sim) (a : Agent) (roll : Q) :
  inv_ok (inv a) → cond_ok c → is_Some (cond_eval c s a roll).
Proof.
  intros Hinv Hc. unfold cond_eval.
  repeat (case_match; [by eexists|]).
  destruct (inv_clauses_total a (inv_item c) Hinv Hc (inv_cmp c) (inv_value c)) as [ok ->].
  cbn [mbind option_bind]. repeat case_match; by eexists.
Qed.

Lemma resolve_task_elem (ts : list TaskDef) (name : string) (t : TaskDef) :
  resolve_task ts name = Some t → t ∈ ts.
Proof.
  induction ts as [|t0 ts IH]; cbn [resolve_task]; [done|].
  destruct (String.eqb _ _).
  - intros [= ->]. apply elem_of_cons. by left.
  - intros Hr. apply elem_of_cons. right. by apply IH.
Qed.

Lemma voc_get_elem (vt : VocationTable) (vid : Z) (voc : VocationDef) :
  voc_get vt vid = Some voc → voc ∈ vocations vt.
Proof.
  unfold voc_get. case_match; [|done]. intros Hl. by eapply list_elem_of_lookup_2.
Qed.

Lemma choose_task_ok (s : Sim) (a : Agent) :
  static_ok s → inv_ok (inv a) →
  ∃ t, choose_task s a = Some t
       ∧ ∀ t', t = Some t' →
           Forall op_ok (ops t')
           ∧ (table_fin (sim_voc_table s) → Forall op_fin (ops t')).
Proof.
  intros (_ & _ & _ & _ & Htab) Hinv. unfold choose_task.
  destruct (voc_get (sim_voc_table s) (vocation_id a)) as [voc|] eqn:Hvoc.
  2: { exists None. split; [done|]. intros t' [=]. }
  apply voc_get_elem in Hvoc.
  unfold table_ok in Htab. rewrite Forall_forall in Htab.
  destruct (Htab voc Hvoc) as [Htasks Hrules].
  fold (day_roll s a).
  rewrite (eligible_rules_spec s a (rules voc) 0 []).
  2: { intros r Hr. apply cond_eval_total; [done|].
       rewrite Forall_forall in Hrules. by apply Hrules. }
  cbn [mbind option_bind].
  destruct (_ <=? 0).
  { exists None. split; [done|]. intros t' [=]. }
  destruct (pick_rule _ _) as [r|].
  2: { exists None. split; [done|]. intros t' [=]. }
  eexists. split; [reflexivity|]. intros t' Ht'.
  apply resolve_task_elem in Ht'. split.
  - rewrite Forall_forall in Htasks. by apply Htasks.
  - intros Hfin. unfold table_fin in Hfin. rewrite Forall_forall in Hfin.
    pose proof (Hfin voc Hvoc) as Hv. rewrite Forall_forall in Hv. by apply Hv.
Qed.

(** ** One agent, one day *)

Lemma agent_ok_needs (nh : nat) (a a' : Agent) :
  agent_ok nh a → inv a' = inv a → household_id a' = household_id a → needs_ok a' →
  agent_ok nh a'.
Proof. intros (Hinv & _ & Hhh) Hi Hh Hn. split; [by rewrite Hi|]. split; [done|by rewrite Hh]. Qed.

Ltac needs_goal :=
  unfold needs_ok, set_hunger, set_fatigue, set_health, set_age in *;
  cbn [hunger fatigue health inv household_id] in *;
  repeat split; lra.

(** The needs drift at the start of an agent's day. *)
Lemma drift_ok (nh : nat) (a : Agent) (d : Z) :
  agent_ok nh a →
  let a := if d mod 360 =? 0 then set_age a (age a + 1) else a in
  let a := set_hunger a (hunger a + (18 # 100))%Q in
  let a := if flt 1 (hunger a) then set_hunger a 1 else a in
  let a := set_fatigue a (fatigue a - (8 # 100))%Q in
  let a := if flt (fatigue a) 0 then set_fatigue a 0 else a in
  agent_ok nh a.
Proof.
  intros Hok. pose proof Hok as (_ & Hneeds & _). cbv zeta.
  eapply agent_ok_needs; [exact Hok| | |].
  - repeat case_match; reflexivity.
  - repeat case_match; reflexivity.
  - destruct (d mod 360 =? 0);
      unfold set_age, set_hunger, set_fatigue; cbn [hunger fatigue health];
      fcases; needs_goal.
Qed.

Lemma starve_ok (nh : nat) (a : Agent) :
  agent_ok nh a →
  let a := set_health a (health a - (1 # 100))%Q in
  let a := if flt (health a) 0 then set_health a 0 else a in
  agent_ok nh a.
Proof.
  intros Hok. pose proof Hok as (_ & Hneeds & _). cbv zeta.
  eapply agent_ok_needs; [exact Hok| | |].
  - repeat case_match; reflexivity.
  - repeat case_match; reflexivity.
  - unfold set_health; cbn [hunger fatigue health]; fcases; needs_goal.
Qed.

Lemma exhausted_ok (nh : nat) (a : Agent) :
  agent_ok nh a →
  let a := set_fatigue a (fatigue a - (20 # 100))%Q in
  let a := if flt (fatigue a) 0 then set_fatigue a 0 else a in
  agent_ok nh a.
Proof.
  intros Hok. pose proof Hok as (_ & Hneeds & _). cbv zeta.
  eapply agent_ok_needs; [exact Hok| | |].
  - repeat case_match; reflexivity.
  - repeat case_match; reflexivity.
  - unfold set_fatigue; cbn [hunger fatigue health]; fcases; needs_goal.
Qed.

Lemma agent_step_ok (s : Sim) (i : nat) :
  sim_ok s → (i < length (agents s))%nat → E ∨ sim_fin s →
  (∃ s', agent_step s i = Some s' ∧ sim_ok s' ∧ frame_eq s s')
  ∨ (E ∧ agent_step s i = None).
Proof.
  intros Hs Hi Hfin.
  destruct (lookup_lt_is_Some_2 (agents s) i Hi) as [a Ha].
  pose proof (sim_ok_agent s i a Hs Ha) as Hok.
  unfold agent_step. rewrite Ha. cbn [mbind option_bind].
  destruct (fle (health a) 0).
  { left. exists s. split; [done|]. split; [done|]. apply frame_eq_refl. }
  pose proof (drift_ok _ a (day s) Hok) as Hdrift. cbv zeta in Hdrift. cbv zeta.
  destruct (eat_ok _ _ Hdrift) as (a2 & -> & Hok2). cbn [mbind option_bind].
  destruct (put_agent_ok s i a2 Hs Hok2) as [Hs2 Hfr2].
  destruct (apprenticeship_ok (put_agent s i a2) a2) as (a3 & -> & Hok3);
    [by destruct Hs2 | done |].
  cbn [mbind option_bind].
  destruct (put_agent_ok (put_agent s i a2) i a3 Hs2 Hok3) as [Hs3 Hfr3].
  pose proof (frame_eq_trans _ _ _ Hfr2 Hfr3) as Hfr.
  set (s3 := put_agent (put_agent s i a2) i a3) in *.
  assert (Hok3' : agent_ok (length (households s3)) a3) by done.
  destruct (flt (95 # 100) (hunger a3)).
  { left. eexists. split; [reflexivity|].
    destruct (put_agent_ok s3 i _ Hs3 (starve_ok _ a3 Hok3')) as [? ?].
    split; [done|]. by eapply frame_eq_trans. }
  destruct (fle (90 # 100) (fatigue a3)).
  { left. eexists. split; [reflexivity|].
    destruct (put_agent_ok s3 i _ Hs3 (exhausted_ok _ a3 Hok3')) as [? ?].
    split; [done|]. by eapply frame_eq_trans. }
  destruct (choose_task_ok s3 a3) as (t & -> & Ht); [by destruct Hs3|by destruct Hok3'|].
  cbn [mbind option_bind]. destruct t as [t|].
  - destruct (Ht t eq_refl) as [Hopok Hopfin].
    assert (Hfin3 : E ∨ Forall op_fin (ops t)).
    { destruct Hfin as [He|Hf]; [by left|]. right. apply Hopfin.
      by destruct (sim_fin_frame _ _ Hfr Hf) as (_ & _ & ?). }
    destruct (exec_ops_ok i (ops t) Hopok Hfin3 s3 Hs3)
      as [(s4 & Hex & Hs4 & Hfr4)|[He Hex]].
    { destruct Hfr as (_ & _ & _ & _ & _ & _ & ->). done. }
    + left. exists s4. split; [exact Hex|]. split; [done|]. by eapply frame_eq_trans.
    + right. split; [exact He|]. unfold exec_task. exact Hex.
  - left. assert (Hok4 : agent_ok (length (households s3))
                     (set_fatigue a3 (fatigue a3 + (3 # 1000))%Q)).
    { apply set_fatigue_ok; [done|]. pose proof (agent_ok_fatigue _ _ Hok3'). lra. }
    destruct (put_agent_ok s3 i _ Hs3 Hok4) as [Hs4 Hfr4].
    destruct (Z.of_nat i mod 9 =? 0).
    + destruct (trade_ok (put_agent s3 i (set_fatigue a3 (fatigue a3 + (3 # 1000))%Q))
                  (set_fatigue a3 (fatigue a3 + (3 # 1000))%Q))
        as (a5 & -> & Hok5); [by destruct Hs4 | done |].
      cbn [mbind option_bind]. eexists. split; [reflexivity|].
      destruct (put_agent_ok _ i a5 Hs4 Hok5) as [? ?]. split; [done|].
      eapply frame_eq_trans; [exact Hfr|]. by eapply frame_eq_trans.
    + eexists. split; [reflexivity|]. split; [done|]. by eapply frame_eq_trans.
Qed.

Lemma agents_loop_ok (is_ : list nat) :
  ∀ s, sim_ok s → Forall (fun i => (i < length (agents s))%nat) is_ → E ∨ sim_fin s →
  (∃ s', agents_loop s is_ = Some s' ∧ sim_ok s' ∧ frame_eq s s')
  ∨ (E ∧ agents_loop s is_ = None).
Proof.
  induction is_ as [|i is_ IH]; intros s Hs His Hfin; cbn [agents_loop].
  { left. exists s. split; [done|]. split; [done|]. apply frame_eq_refl. }
  apply Forall_cons in His as [Hi His].
  destruct (agent_step_ok s i Hs Hi Hfin) as [(s1 & -> & Hs1 & Hfr1)|[He ->]]; [|by right].
  cbn [mbind option_bind].
  destruct (IH s1 Hs1) as [(s2 & -> & Hs2 & Hfr2)|[He ->]]; [| | |by right].
  { destruct Hfr1 as (_ & _ & _ & _ & _ & _ & ->). done. }
  { destruct Hfin as [He|Hf]; [by left|]. right. by eapply sim_fin_frame. }
  left. exists s2. split; [done|]. split; [done|]. by eapply frame_eq_trans.
Qed.

(** ** Regeneration, role switching and the day step *)

Lemma py_range_bound (n k : Z) : k ∈ py_range n → 0 ≤ k < n.
Proof.
  unfold py_range. intros Hin. apply list_elem_of_fmap in Hin as (j & -> & Hj).
  apply list_elem_of_In, in_seq in Hj. lia.
Qed.

Lemma py_range_length (n : Z) : length (py_range n) = Z.to_nat n.
Proof. unfold py_range. by rewrite length_map, length_seq. Qed.

Lemma regen_pool_ok (season scale : Z) (rks : list Z) :
  0 ≤ scale → Forall (fun rk => 0 ≤ rk < RES_MAX) rks →
  ∀ s, sim_ok s → E ∨ (sim_fin s ∧ scale ≤ 2 ^ 407) →
  (∃ s', regen_pool s season scale rks = Some s' ∧ sim_ok s' ∧ frame_eq s s')
  ∨ (E ∧ regen_pool s season scale rks = None).
Proof.
  intros Hscale Hrks.
  induction Hrks as [|rk rks Hrk _ IH]; intros s Hs Hfin; cbn [regen_pool].
  { left. exists s. split; [done|]. split; [done|]. apply frame_eq_refl. }
  cbv zeta. pose proof Hs as ((Hrl & Hrn & Hrest) & [Hpl Hpn] & Hag).
  unfold RES_MAX in *.
  rewrite !py_index_in_range by lia.
  destruct (lookup_lt_is_Some_2 (renew_per_day (world s)) (Z.to_nat rk)) as [r Hr]; [lia|].
  destruct (lookup_lt_is_Some_2 (resources_pool s) (Z.to_nat rk)) as [p Hp]; [lia|].
  rewrite Hr, Hp. cbn [mbind option_bind].
  pose proof (proj1 (Forall_lookup _ _) Hrn _ _ Hr) as Hr0.
  pose proof (proj1 (Forall_lookup _ _) Hpn _ _ Hp) as Hp0. cbn beta in Hr0, Hp0.
  match goal with
  | |- context [regen_amount r ?mul scale] =>
      assert (Hmul : fin_le mul 0)
        by (repeat case_match;
            first [exact fin_le_one | exact fin_le_b64_70 | exact fin_le_b64_30]);
      destruct (regen_amount r mul scale) as [add|] eqn:Eadd
  end.
  2: { destruct Hfin as [He|[(Hrates & _) Hsc]]; [by right|].
       pose proof (proj1 (Forall_lookup _ _) Hrates _ _ Hr) as Hrok.
       match type of Eadd with
       | regen_amount r ?mul scale = None =>
           destruct (regen_amount_ok r mul scale Hrok Hmul) as (add & Hadd & _);
             [lia|congruence]
       end. }
  assert (Hadd0 : 0 ≤ add).
  { eapply regen_amount_nonneg; [exact Hr0| |exact Hscale|exact Eadd].
    by eapply fin_le_nonneg. }
  cbn [mbind option_bind].
  rewrite py_setitem_in_range by lia. cbn [mbind option_bind].
  match goal with
  | |- context [regen_pool ?s1 season scale rks] =>
      destruct (IH s1) as [(s' & Hreg & Hs' & Hfr')|[He Hreg]];
        [| | left; exists s'; split; [exact Hreg|]; split; [exact Hs'|];
             destruct Hfr' as (F1 & F2 & F3 & F4 & F5 & F6 & F7); by repeat split
         | by right]
  end.
  - split; [done|]. split; [|done]. cbn [set_pool resources_pool]. split.
    + by rewrite length_insert.
    + apply Forall_insert; [done|]. lia.
  - exact Hfin.
Qed.

Lemma regen_pool_frame (season scale : Z) (rks : list Z) :
  ∀ s s', regen_pool s season scale rks = Some s' → agents s' = agents s.
Proof.
  induction rks as [|rk rks IH]; intros s s'; cbn [regen_pool].
  { by intros [= ->]. }
  cbv zeta. intros H.
  repeat (match type of H with
          | mbind _ ?m = Some _ =>
              destruct m as [?|]; cbn [mbind option_bind] in H; [|discriminate H]
          end).
  by apply IH in H.
Qed.

Lemma add_inv_ok (a : Agent) (its : list Z) :
  inv_ok (inv a) → Forall (fun it => 0 ≤ it < ITEM_MAX) its →
  ∀ totals, length totals = Z.to_nat ITEM_MAX →
  ∃ t', add_inv totals a its = Some t' ∧ length t' = Z.to_nat ITEM_MAX.
Proof.
  intros Hinv Hits. induction Hits as [|it its Hit _ IH]; intros totals Hlen; cbn [add_inv].
  { by exists totals. }
  cbn beta in Hit. unfold ITEM_MAX in *.
  rewrite (py_index_in_range totals it) by lia.
  destruct (lookup_lt_is_Some_2 totals (Z.to_nat it)) as [t ->]; [lia|].
  cbn [mbind option_bind].
  destruct (inv_ok_index _ it Hinv) as (v & -> & _); [unfold ITEM_MAX; lia|].
  cbn [mbind option_bind].
  rewrite (py_setitem_in_range totals it) by lia. cbn [mbind option_bind].
  apply IH. by rewrite length_insert.
Qed.

Lemma py_range_items : Forall (fun it => 0 ≤ it < ITEM_MAX) (py_range ITEM_MAX).
Proof. apply Forall_forall. intros it. apply py_range_bound. Qed.

Lemma alive_totals_ok (nh : nat) (as_ : list Agent) :
  Forall (agent_ok nh) as_ →
  ∀ alive totals, length totals = Z.to_nat ITEM_MAX →
  ∃ al' t', alive_totals as_ alive totals = Some (al', t')
            ∧ length t' = Z.to_nat ITEM_MAX.
Proof.
  intros Has. induction Has as [|a as_ Ha _ IH]; intros alive totals Hlen;
    cbn [alive_totals].
  { by exists alive, totals. }
  destruct (fle (health a) 0); [by apply IH|].
  destruct Ha as (Hinv & _).
  destruct (add_inv_ok a _ Hinv py_range_items totals Hlen) as (t' & -> & Hlen').
  cbn [mbind option_bind]. by apply IH.
Qed.

Lemma switch_loop_ok (s : Sim) (target alive : Z) (as_ : list Agent) :
  static_ok s → Forall (agent_ok (length (households s))) as_ →
  ∀ i switched,
  ∃ as' sw', switch_loop s target alive i as_ switched = Some (as', sw')
             ∧ Forall (agent_ok (length (households s))) as'
             ∧ length as' = length as_.
Proof.
  intros Hst Has. induction Has as [|a as_ Ha Has IH]; intros i switched;
    cbn [switch_loop].
  { exists [], switched. by repeat split. }
  cbv zeta.
  assert (Hskip : ∀ sw0,
    ∃ as' sw',
      ('(rest', sw) ← switch_loop s target alive (i + 1) as_ sw0; Some (a :: rest', sw))
      = Some (as', sw')
      ∧ Forall (agent_ok (length (households s))) as'
      ∧ length as' = length (a :: as_)).
  { intros sw0. destruct (IH (i + 1) sw0) as (as' & sw' & -> & Hall & Hlen).
    cbn [mbind option_bind]. eexists _, _. split; [reflexivity|].
    split; [by constructor|]. cbn. by rewrite Hlen. }
  destruct (fle (health a) 0); [apply Hskip|].
  destruct (age a <? 17); [apply Hskip|].
  destruct (vocation_id a =? target); [apply Hskip|].
  pose proof Ha as (_ & _ & Hhid).
  destruct (static_households s _ Hst Hhid) as (hh & _ & -> & _).
  cbn [mbind option_bind].
  destruct (parent_id hh =? i); [apply Hskip|].
  destruct (flt _ _); [|apply Hskip].
  destruct (_ >=? _).
  - eexists _, _. split; [reflexivity|]. split; [|done].
    constructor; [by apply set_vocation_ok|done].
  - destruct (IH (i + 1) (switched + 1)) as (as' & sw' & -> & Hall & Hlen).
    cbn [mbind option_bind]. eexists _, _. split; [reflexivity|].
    split; [constructor; [by apply set_vocation_ok|done]|]. cbn. by rewrite Hlen.
Qed.

Lemma role_switching_ok (s : Sim) :
  sim_ok s → ∃ s' out, role_switching s = Some (s', out) ∧ sim_ok s' ∧ frame_eq s s'.
Proof.
  intros Hs. pose proof Hs as (Hst & Hpool & Hag).
  assert (Hsame : ∃ s' out, Some (s, "") = Some (s', out) ∧ sim_ok s' ∧ frame_eq s s').
  { exists s, "". split; [done|]. split; [done|]. apply frame_eq_refl. }
  unfold role_switching.
  destruct (switch_every_days s =? 0); [exact Hsame|].
  destruct (negb _); [exact Hsame|].
  destruct (alive_totals_ok _ _ Hag 0 zero_totals) as (alive & totals & -> & Hlen).
  { unfold zero_totals. by rewrite length_replicate. }
  cbn [mbind option_bind].
  destruct (alive <=? 0); [exact Hsame|].
  unfold ITEM_MAX, ITEM_GRAIN, ITEM_FISH, ITEM_TOOL, ITEM_POT in *.
  rewrite !py_index_in_range by lia.
  destruct (lookup_lt_is_Some_2 totals (Z.to_nat 1)) as [tg ->]; [lia|].
  destruct (lookup_lt_is_Some_2 totals (Z.to_nat 0)) as [tf ->]; [lia|].
  destruct (lookup_lt_is_Some_2 totals (Z.to_nat 7)) as [tt ->]; [lia|].
  destruct (lookup_lt_is_Some_2 totals (Z.to_nat 8)) as [tp ->]; [lia|].
  cbn [mbind option_bind]. cbv zeta.
  destruct (_ <? 0); [exact Hsame|].
  match goal with
  | |- context [switch_loop s ?tg ?al 0 (agents s) 0] =>
      destruct (switch_loop_ok s tg al (agents s) Hst Hag 0 0)
        as (as' & sw' & -> & Hall & Hlen')
  end.
  cbn [mbind option_bind].
  assert (Hs' : sim_ok (set_agents s as') ∧ frame_eq s (set_agents s as')).
  { assert (Hfr : frame_eq s (set_agents s as')) by (by repeat split).
    split; [|exact Hfr]. split; [by apply (static_ok_frame s)|]. by split. }
  destruct (sw' >? 0); eexists _, _; (split; [reflexivity|]); exact Hs'.
Qed.

Lemma sim_step_ok (s : Sim) :
  sim_ok s → E ∨ sim_fin s →
  (∃ s' out, sim_step s = Some (s', out) ∧ sim_ok s' ∧ (sim_fin s → sim_fin s')
             ∧ day s' = day s + 1 ∧ length (agents s') = length (agents s))
  ∨ (E ∧ sim_step s = None).
Proof.
  intros Hs Hfin. unfold sim_step. cbv zeta.
  assert (Hs0 : sim_ok (set_day s (day s + 1))) by done.
  destruct (regen_pool_ok (world_season_kind (day (set_day s (day s + 1))))
              (Z.max 1000 (Z.of_nat (length (agents (set_day s (day s + 1)))) * 80))
              (py_range RES_MAX)) with (s := set_day s (day s + 1))
    as [(s1 & Hreg & Hs1 & Hfr1)|[He Hreg]]; [| |done| | |].
  { lia. }
  { apply Forall_forall. intros rk. apply py_range_bound. }
  { destruct Hfin as [He|Hf]; [by left|]. right. split; [exact Hf|].
    destruct Hf as (_ & Hn & _). cbn [set_day agents].
    change (2 ^ 407) with (2 ^ 400 * 2 ^ 7).
    pose proof (pow2_pos 400 ltac:(lia)). lia. }
  2: { right. split; [exact He|]. by rewrite Hreg. }
  rewrite Hreg. cbn [mbind option_bind].
  assert (Hfr01 : frame_eq (set_day s (day s + 1)) s1) by exact Hfr1.
  assert (Hfin1 : E ∨ sim_fin s1).
  { destruct Hfin as [He|Hf]; [by left|]. right. eapply sim_fin_frame; [exact Hfr1|done]. }
  destruct (agents_loop_ok (seq 0 (length (agents s1))) s1 Hs1)
    as [(s2 & -> & Hs2 & Hfr2)|[He ->]]; [|exact Hfin1| |by right].
  { apply Forall_forall. intros i Hi. apply list_elem_of_In, in_seq in Hi. lia. }
  cbn [mbind option_bind].
  destruct (role_switching_ok s2 Hs2) as (s3 & out & -> & Hs3 & Hfr3).
  left. exists s3, out. split; [done|]. split; [done|]. split.
  { intros Hf. eapply sim_fin_frame; [exact Hfr3|].
    eapply sim_fin_frame; [exact Hfr2|]. eapply sim_fin_frame; [exact Hfr1|done]. }
  destruct Hfr1 as (_ & _ & _ & _ & D1 & _ & L1).
  destruct Hfr2 as (_ & _ & _ & _ & D2 & _ & L2).
  destruct Hfr3 as (_ & _ & _ & _ & D3 & _ & L3).
  split; [by rewrite D3, D2, D1 | by rewrite L3, L2, L1].
Qed.

Lemma sim_days_ok (n : nat) :
  ∀ s, sim_ok s → E ∨ sim_fin s →
  (∃ s', sim_days n s = Some s' ∧ sim_ok s') ∨ (E ∧ sim_days n s = None).
Proof.
  induction n as [|n IH]; intros s Hs Hfin; cbn [sim_days]; [left; by exists s|].
  destruct (sim_step_ok s Hs Hfin) as [(s1 & out & -> & Hs1 & Hf1 & _)|[He ->]];
    [|by right].
  cbn [mbind option_bind]. apply IH; [done|].
  destruct Hfin as [He|Hf]; [by left|]. right. by apply Hf1.
Qed.

(** ** The initial simulator *)

Lemma init_agent_ok (g : WorldGen) (cfg : ParsedConfig) (seed hc i : Z) :
  1 ≤ hc → agent_ok (Z.to_nat hc) (init_agent g cfg seed hc i).
Proof.
  intros Hhc. unfold init_agent, pick_spawn. cbv zeta.
  split; [|split].
  - cbn [inv]. split; [by rewrite length_replicate|]. by apply Forall_replicate.
  - unfold needs_ok. cbn [hunger fatigue health]. repeat split; lra.
  - cbn [household_id]. pose proof (Z.mod_pos_bound i hc). lia.
Qed.

Lemma init_settlement_val (seed i : Z) :
  length (val (init_settlement seed i)) = Z.to_nat ITEM_MAX.
Proof.
  unfold init_settlement. cbv zeta. cbn [val].
  by rewrite !length_insert, length_replicate.
Qed.

Lemma sim_init_shape (cfg : ParsedConfig) (pool : list Z) :
  cfg_ok cfg → init_pool cfg = Some pool →
  length pool = Z.to_nat RES_MAX → Forall (fun v => 0 ≤ v) pool →
  sim_ok (sim_init_from_cfg cfg).
Proof.
  intros (Htab & Hrenew) Hpool Hplen Hpall.
  unfold sim_init_from_cfg. rewrite Hpool. cbn [default]. cbv zeta.
  set (sc := Z.max 1 (settlement_count cfg)).
  set (n := Z.max 1 (agent_count cfg)).
  set (hc := (n + 4) / 5).
  assert (Hsc : 1 ≤ sc) by (unfold sc; lia).
  assert (Hhc : 1 ≤ hc).
  { unfold hc. assert (1 ≤ n) by (unfold n; lia).
    apply Z.div_le_lower_bound; lia. }
  split; [|split].
  - unfold static_ok.
    cbn [world renew_per_day households settlements sim_voc_table ws_seed
         ws_settlement_count].
    split; [reflexivity|]. split; [exact Hrenew|]. split; [|split; [|exact Htab]].
    + apply Forall_forall. intros hh Hin.
      apply list_elem_of_fmap in Hin as (h & -> & Hh). cbn [settlement_id].
      rewrite length_map, py_range_length.
      pose proof (Z.mod_pos_bound h sc). lia.
    + apply Forall_forall. intros st Hin.
      apply list_elem_of_fmap in Hin as (k & -> & _). apply init_settlement_val.
  - cbn [resources_pool]. by split.
  - cbn [agents households]. rewrite length_map, py_range_length.
    apply Forall_forall. intros a Hin.
    apply list_elem_of_fmap in Hin as (i & -> & _). by apply init_agent_ok.
Qed.


Lemma sim_init_ok (cfg : ParsedConfig) :
  cfg_ok cfg → E ∨ cfg_fin cfg →
  (sim_init_run cfg = Some (sim_init_from_cfg cfg) ∧ sim_ok (sim_init_from_cfg cfg))
  ∨ (E ∧ sim_init_run cfg = None).
Proof.
  intros Hcfg Hfin. unfold sim_init_run.
  destruct (init_pool cfg) as [pool|] eqn:Hpool.
  - left. cbn [mbind option_bind]. split; [reflexivity|].
    destruct Hcfg as (Htab & Hrenew). unfold init_pool in Hpool. cbv zeta in Hpool.
    destruct (init_pool_loop_nonneg _ (Z.max 1000 (agent_count cfg * 80)) Hrenew
                ltac:(lia) _ Hpool) as [Hlen Hall].
    eapply sim_init_shape; [by split| | |exact Hall].
    + unfold init_pool. cbv zeta. exact Hpool.
    + rewrite Hlen. reflexivity.
  - destruct Hfin as [He|(Hrates & Hn & _)]; [by right|].
    unfold init_pool in Hpool. cbv zeta in Hpool.
    destruct (init_pool_loop_ok (renew_list cfg) (Z.max 1000 (agent_count cfg * 80)) Hrates)
      as (pool & Hp & _); [|congruence].
    change (2 ^ 407) with (2 ^ 400 * 2 ^ 7).
    pose proof (pow2_pos 400 ltac:(lia)). lia.
Qed.

End Escape.

(** C1 (as amended). For a program whose resource and item ordinals are in
    range (as the parser leaves them), whose gather and roam amounts are not
    negative, and for renewal rates that are not negative: in every state
    the run reaches (the initial simulator, and the state after each day
    step), every agent has hunger and health within [0,1] and fatigue at
    least 0 (fatigue has no upper bound: nothing in the stepper or in the
    task ops caps it at 1), and every inventory count and every pool count
    is a non-negative integer; every task execution of the program's ops
    (move_to, gather, craft, trade, rest, roam) that returns on such a state
    keeps all of this. *)
Theorem needs_and_counts_in_range (cfg : ParsedConfig) (n : nat) (s0 s : Sim) :
  cfg_ok cfg →
  sim_init_run cfg = Some s0 →
  sim_days n s0 = Some s →
  sim_ok s
  ∧ Forall (fun v => 0 ≤ v) (resources_pool s)
  ∧ (∀ a, a ∈ agents s →
       (0 <= hunger a <= 1)%Q ∧ (0 <= fatigue a)%Q ∧ (0 <= health a <= 1)%Q
       ∧ Forall (fun v => 0 ≤ v) (inv a))
  ∧ (∀ (i : nat) (t : TaskDef) (s' : Sim),
       (i < length (agents s))%nat → Forall op_ok (ops t) →
       exec_task s i t = Some s' →
       sim_ok s'
       ∧ Forall (fun v => 0 ≤ v) (resources_pool s')
       ∧ ∀ a, a ∈ agents s' →
           (0 <= hunger a <= 1)%Q ∧ (0 <= fatigue a)%Q ∧ (0 <= health a <= 1)%Q
           ∧ Forall (fun v => 0 ≤ v) (inv a)).
Proof.
  intros Hcfg Hrun Hdays.
  assert (Hranges : ∀ s1, sim_ok s1 →
            Forall (fun v => 0 ≤ v) (resources_pool s1)
            ∧ ∀ a, a ∈ agents s1 →
                (0 <= hunger a <= 1)%Q ∧ (0 <= fatigue a)%Q ∧ (0 <= health a <= 1)%Q
                ∧ Forall (fun v => 0 ≤ v) (inv a)).
  { intros s1 (_ & [_ Hpool] & Hag). split; [exact Hpool|].
    intros a Ha. rewrite Forall_forall in Hag.
    destruct (Hag a Ha) as ([_ Hinv] & (H1 & H2 & H3 & H4 & H5) & _).
    repeat split; assumption. }
  destruct (sim_init_ok True cfg Hcfg (or_introl I)) as [[Hrun' Hs0]|[_ Hnone]];
    [|congruence].
  assert (s0 = sim_init_from_cfg cfg) as -> by congruence.
  destruct (sim_days_ok True n _ Hs0 (or_introl I)) as [(s1 & Hd & Hs)|[_ Hnone]];
    [|congruence].
  assert (s1 = s) as -> by congruence.
  split; [exact Hs|]. destruct (Hranges s Hs) as [Hp Ha].
  split; [exact Hp|]. split; [exact Ha|].
  intros i t s' Hi Ht Hex. unfold exec_task in Hex.
  destruct (exec_ops_ok True i (ops t) Ht (or_introl I) s Hs Hi)
    as [(s2 & Hex2 & Hs2 & _)|[_ Hnone]]; [|congruence].
  assert (s2 = s') as -> by congruence.
  split; [exact Hs2|]. apply Hranges. exact Hs2.
Qed.



(** * The chunk cache does not influence a run *)

(** The simulator carries one piece of state that is not a function of the
    configuration and the day: the LRU cache, whose content depends on the
    lookups made so far.  The day stepper neither reads nor writes it. *)

Ltac sim_fields :=
  cbn [set_cache set_pool set_agents set_day put_agent world gen cache settlements
       resources_pool households agents sim_voc_table day switch_every_days].

Lemma cond_eval_cache (cnd : Condition) (s : Sim) (c : ChunkCache) (a : Agent) (roll : Q) :
  cond_eval cnd (set_cache s c) a roll = cond_eval cnd s a roll.
Proof. unfold cond_eval. sim_fields. reflexivity. Qed.

Lemma eligible_rules_cache (s : Sim) (c : ChunkCache) (a : Agent) (roll : Q)
    (rs : list RuleDef) :
  ∀ total el,
  eligible_rules (set_cache s c) a roll rs total el = eligible_rules s a roll rs total el.
Proof.
  induction rs as [|r rs IH]; intros total el; cbn [eligible_rules]; [done|].
  rewrite cond_eval_cache. destruct (cond_eval (cond r) s a roll) as [[|]|];
    cbn [mbind option_bind]; [|apply IH|done].
  destruct (_ >? 0); apply IH.
Qed.

Lemma choose_task_cache (s : Sim) (c : ChunkCache) (a : Agent) :
  choose_task (set_cache s c) a = choose_task s a.
Proof.
  unfold choose_task. sim_fields. destruct (voc_get _ _); [|done].
  cbv zeta. by rewrite eligible_rules_cache.
Qed.

Lemma apprenticeship_cache (s : Sim) (c : ChunkCache) (a : Agent) :
  apprenticeship (set_cache s c) a = apprenticeship s a.
Proof. unfold apprenticeship. sim_fields. reflexivity. Qed.

Lemma trade_cache (s : Sim) (c : ChunkCache) (a : Agent) :
  trade (set_cache s c) a = trade s a.
Proof. unfold trade. sim_fields. reflexivity. Qed.

Lemma gather_cache (s : Sim) (c : ChunkCache) (a : Agent) (rk want : Z) :
  gather (set_cache s c) a rk want = with_cache c <$> gather s a rk want.
Proof.
  unfold gather. sim_fields.
  destruct (py_index (resources_pool s) rk) as [pool|]; [|done]. cbn [mbind option_bind].
  destruct (py_setitem _ _ _); done.
Qed.

Lemma exec_op_cache (s : Sim) (c : ChunkCache) (i : nat) (op : OpDef) :
  exec_op (set_cache s c) i op = (fun s' => set_cache s' c) <$> exec_op s i op.
Proof.
  unfold exec_op. sim_fields.
  destruct (agents s !! i) as [a|]; [|done]. cbn [mbind option_bind].
  rewrite gather_cache, trade_cache.
  destruct (op_kind op =? OP_MOVE_TO); [done|].
  destruct (op_kind op =? OP_GATHER).
  { destruct (gather s a (arg_j op) (arg_i op)) as [[s1 got]|]; [|done].
    cbn [fmap option_fmap option_map mbind option_bind with_cache fst snd].
    repeat (match goal with
            | |- context [if ?b then _ else _] => destruct b
            end; [destruct (inv_add a _ got); done|]).
    done. }
  destruct (op_kind op =? OP_CRAFT); [destruct (craft_item _ _ _); done|].
  destruct (op_kind op =? OP_TRADE); [destruct (trade s a); done|].
  destruct (op_kind op =? OP_REST); [done|].
  destruct (op_kind op =? OP_ROAM); [destruct (roam _ _ _); done|done].
Qed.

Lemma exec_ops_cache (c : ChunkCache) (i : nat) (os : list OpDef) :
  ∀ s, exec_ops (set_cache s c) i os = (fun s' => set_cache s' c) <$> exec_ops s i os.
Proof.
  induction os as [|op os IH]; intros s; cbn [exec_ops]; [done|].
  rewrite exec_op_cache. destruct (exec_op s i op) as [s1|]; [|done].
  cbn [fmap option_fmap option_map mbind option_bind]. apply IH.
Qed.

Lemma regen_pool_cache (c : ChunkCache) (season scale : Z) (rks : list Z) :
  ∀ s, regen_pool (set_cache s c) season scale rks
       = (fun s' => set_cache s' c) <$> regen_pool s season scale rks.
Proof.
  induction rks as [|rk rks IH]; intros s; cbn [regen_pool]; [done|]. cbv zeta. sim_fields.
  destruct (py_index (resources_pool s) rk) as [p|]; [|done]. cbn [mbind option_bind].
  destruct (py_index (renew_per_day (world s)) rk) as [r|]; [|done].
  cbn [mbind option_bind].
  destruct (regen_amount _ _ _) as [add|]; [|done]. cbn [mbind option_bind].
  destruct (py_setitem _ _ _) as [pool|]; [|done]. cbn [mbind option_bind].
  apply (IH (set_pool s pool)).
Qed.

Lemma agent_step_cache (s : Sim) (c : ChunkCache) (i : nat) :
  agent_step (set_cache s c) i = (fun s' => set_cache s' c) <$> agent_step s i.
Proof.
  unfold agent_step. sim_fields.
  destruct (agents s !! i) as [a|]; [|done]. cbn [mbind option_bind].
  destruct (fle (health a) 0); [done|]. cbv zeta.
  destruct (eat _) as [a1|]; [|done]. cbn [mbind option_bind].
  change (put_agent (set_cache s c) i a1) with (set_cache (put_agent s i a1) c).
  rewrite apprenticeship_cache.
  destruct (apprenticeship _ a1) as [a2|]; [|done]. cbn [mbind option_bind].
  destruct (flt (95 # 100) (hunger a2)); [done|].
  destruct (fle (90 # 100) (fatigue a2)); [done|].
  change (put_agent (set_cache (put_agent s i a1) c) i a2)
    with (set_cache (put_agent (put_agent s i a1) i a2) c).
  rewrite choose_task_cache.
  destruct (choose_task _ a2) as [[t|]|]; [| |done]; cbn [mbind option_bind].
  - unfold exec_task. apply exec_ops_cache.
  - destruct (Z.of_nat i mod 9 =? 0); [|done].
    match goal with
    | |- context [trade (put_agent (set_cache ?s0 c) i ?a0) ?a0] =>
        change (put_agent (set_cache s0 c) i a0) with (set_cache (put_agent s0 i a0) c)
    end.
    rewrite trade_cache. destruct (trade _ _); done.
Qed.

Lemma agents_loop_cache (c : ChunkCache) (is_ : list nat) :
  ∀ s, agents_loop (set_cache s c) is_ = (fun s' => set_cache s' c) <$> agents_loop s is_.
Proof.
  induction is_ as [|i is_ IH]; intros s; cbn [agents_loop]; [done|].
  rewrite agent_step_cache. destruct (agent_step s i) as [s1|]; [|done].
  cbn [fmap option_fmap option_map mbind option_bind]. apply IH.
Qed.

Lemma switch_loop_cache (s : Sim) (c : ChunkCache) (target alive : Z) (as_ : list Agent) :
  ∀ i switched,
  switch_loop (set_cache s c) target alive i as_ switched
  = switch_loop s target alive i as_ switched.
Proof.
  induction as_ as [|a rest IH]; intros i switched; cbn [switch_loop]; [done|].
  cbv zeta. sim_fields. rewrite !IH. reflexivity.
Qed.

Lemma role_switching_cache (s : Sim) (c : ChunkCache) :
  role_switching (set_cache s c) = with_cache c <$> role_switching s.
Proof.
  unfold role_switching. sim_fields.
  destruct (switch_every_days s =? 0); [done|].
  destruct (negb _); [done|].
  destruct (alive_totals _ _ _) as [[alive totals]|]; [|done]. cbn [mbind option_bind].
  destruct (alive <=? 0); [done|].
  destruct (py_index totals ITEM_GRAIN) as [tg|]; [|done]. cbn [mbind option_bind].
  destruct (py_index totals ITEM_FISH) as [tf|]; [|done]. cbn [mbind option_bind].
  destruct (py_index totals ITEM_TOOL) as [tt|]; [|done]. cbn [mbind option_bind].
  destruct (py_index totals ITEM_POT) as [tp|]; [|done]. cbn [mbind option_bind].
  cbv zeta. destruct (_ <? 0); [done|].
  rewrite switch_loop_cache.
  destruct (switch_loop _ _ _ _ _ _) as [[as_ switched]|]; [|done].
  cbn [mbind option_bind]. sim_fields. destruct (switched >? 0); done.
Qed.

(** The day stepper commutes with any replacement of the cache: it reads
    nothing of it and leaves it as it was. *)
Lemma sim_step_cache (s : Sim) (c : ChunkCache) :
  sim_step (set_cache s c) = with_cache c <$> sim_step s.
Proof.
  unfold sim_step. cbv zeta.
  change (set_day (set_cache s c) (day (set_cache s c) + 1))
    with (set_cache (set_day s (day s + 1)) c).
  rewrite regen_pool_cache. sim_fields.
  destruct (regen_pool _ _ _ _) as [s1|]; [|done].
  cbn [fmap option_fmap option_map mbind option_bind].
  change (agents (set_cache s1 c)) with (agents s1).
  rewrite agents_loop_cache.
  destruct (agents_loop _ _) as [s2|]; [|done].
  cbn [fmap option_fmap option_map mbind option_bind].
  apply role_switching_cache.
Qed.

Lemma sim_step_cache_unchanged (s s' : Sim) (txt : string) :
  sim_step s = Some (s', txt) → cache s' = cache s.
Proof.
  intros H. pose proof (sim_step_cache s (cache s)) as Hc.
  replace (set_cache s (cache s)) with s in Hc by (by destruct s).
  rewrite H in Hc. cbn in Hc. injection Hc as Hc. rewrite Hc at 1. done.
Qed.

(** ** The map text does not depend on the content of the cache *)

Lemma generate_chunk_terrain (c0 : ChunkCache) (cx cy : Z) (ix iy : nat) :
  (ix < 64)%nat → (iy < 64)%nat →
  terrain (_generate_chunk c0 cx cy) !! (iy * 64 + ix)%nat
  = Some (world_cell_tags (cc_gen c0) (cx * CHUNK_SIZE + Z.of_nat ix)
            (cy * CHUNK_SIZE + Z.of_nat iy) (ws_settlement_count (cc_spec c0))).
Proof.
  intros Hx Hy.
  assert (Hidx : (cell_index (iy, ix) < Z.to_nat CHUNK_CELLS)%nat).
  { unfold cell_index. cbn [fst snd]. change (Z.to_nat CHUNK_SIZE) with 64%nat.
    change (Z.to_nat CHUNK_CELLS) with 4096%nat. lia. }
  change (iy * 64 + ix)%nat with (cell_index (iy, ix)).
  rewrite generate_chunk_pairs.
  destruct (cell_loop_at (cc_gen c0) (ws_settlement_count (cc_spec c0))
              (cx * CHUNK_SIZE) (cy * CHUNK_SIZE) chunk_pairs (Chunk_new cx cy) iy ix)
    as [Hterr _].
  - apply chunk_pairs_index.
  - by apply chunk_pairs_elem.
  - apply planes_ok_new.
  - unfold Chunk_new. cbn [terrain]. by rewrite length_replicate.
  - exact Hidx.
  - intros rk' Hrk'. by apply res_get_new.
  - exact Hterr.
Qed.

Lemma generate_chunk_terrain_length (c0 : ChunkCache) (cx cy : Z) :
  length (terrain (_generate_chunk c0 cx cy)) = 4096%nat.
Proof.
  rewrite generate_chunk_pairs, cell_loop_terrain_length.
  unfold Chunk_new. cbn [terrain]. by rewrite length_replicate.
Qed.

Lemma get_cell_tags (c0 c : ChunkCache) (x y : Z) :
  cache_inv c0 c →
  ∃ c' ch idx,
    get_cell c x y = (c', (ch, idx)) ∧ cache_inv c0 c'
    ∧ py_index (terrain ch) idx
      = Some (world_cell_tags (cc_gen c0) x y (ws_settlement_count (cc_spec c0))).
Proof.
  intros Hinv. unfold get_cell. cbv zeta.
  destruct (get_chunk_inv c0 c (x / CHUNK_SIZE) (y / CHUNK_SIZE) Hinv) as [Hinv' Hch].
  destruct (get_chunk c (x / CHUNK_SIZE) (y / CHUNK_SIZE)) as [c' ch]. cbn [fst snd] in *.
  eexists c', ch, _. split; [reflexivity|]. split; [exact Hinv'|].
  subst ch. unfold CHUNK_SIZE in *.
  pose proof (Z.mod_pos_bound x 64 ltac:(lia)) as Hx.
  pose proof (Z.mod_pos_bound y 64 ltac:(lia)) as Hy.
  rewrite py_index_in_range by (rewrite generate_chunk_terrain_length; lia).
  replace (Z.to_nat (y mod 64 * 64 + x mod 64))
    with (Z.to_nat (y mod 64) * 64 + Z.to_nat (x mod 64))%nat by lia.
  rewrite generate_chunk_terrain by lia. unfold CHUNK_SIZE.
  rewrite !Z2Nat.id by lia.
  f_equal. f_equal.
  - pose proof (Z.div_mod x 64 ltac:(lia)). lia.
  - pose proof (Z.div_mod y 64 ltac:(lia)). lia.
Qed.

Lemma map_row_pure (c0 : ChunkCache) (yy : Z) (xs : list Z) :
  ∀ c, cache_inv c0 c →
  ∃ c', map_row c yy xs
        = Some (c', map_row_text (cc_gen c0) (ws_settlement_count (cc_spec c0)) yy xs)
        ∧ cache_inv c0 c'.
Proof.
  induction xs as [|xx xs IH]; intros c Hinv; cbn [map_row map_row_text].
  { by exists c. }
  destruct ((xx <? 0) || (yy <? 0) || (xx >=? WORLD_CELLS_X) || (yy >=? WORLD_CELLS_Y)).
  - destruct (IH c Hinv) as (c' & -> & Hinv'). cbn [mbind option_bind]. by exists c'.
  - destruct (get_cell_tags c0 c xx yy Hinv) as (c1 & ch & idx & -> & Hinv1 & ->).
    cbn [mbind option_bind].
    destruct (IH c1 Hinv1) as (c' & -> & Hinv'). cbn [mbind option_bind]. by exists c'.
Qed.

Lemma map_rows_pure (c0 : ChunkCache) (ys xs : list Z) :
  ∀ c, cache_inv c0 c →
  ∃ c', map_rows c ys xs
        = Some (c', map_text (cc_gen c0) (ws_settlement_count (cc_spec c0)) ys xs)
        ∧ cache_inv c0 c'.
Proof.
  induction ys as [|yy ys IH]; intros c Hinv; cbn [map_rows map_text].
  { by exists c. }
  destruct (map_row_pure c0 yy xs c Hinv) as (c1 & -> & Hinv1). cbn [mbind option_bind].
  destruct (IH c1 Hinv1) as (c' & -> & Hinv'). cbn [mbind option_bind]. by exists c'.
Qed.

(** The map dump always returns; it changes the cache only, and its text is
    a function of the generator and the settlement count. *)
Lemma sim_dump_ascii_map_pure (c0 : ChunkCache) (s : Sim) (w h : Z) :
  cache_inv c0 (cache s) →
  ∃ c',
    sim_dump_ascii_map s w h
    = Some (set_cache s c',
            map_text (cc_gen c0) (ws_settlement_count (cc_spec c0))
              (py_range2 (WORLD_CELLS_Y / 2 - h / 2) (WORLD_CELLS_Y / 2 - h / 2 + h))
              (py_range2 (WORLD_CELLS_X / 2 - w / 2) (WORLD_CELLS_X / 2 - w / 2 + w)))
    ∧ cache_inv c0 c'.
Proof.
  intros Hinv. unfold sim_dump_ascii_map. cbv zeta.
  destruct (map_rows_pure c0 (py_range2 (WORLD_CELLS_Y / 2 - h / 2) (WORLD_CELLS_Y / 2 - h / 2 + h))
              (py_range2 (WORLD_CELLS_X / 2 - w / 2) (WORLD_CELLS_X / 2 - w / 2 + w))
              (cache s) Hinv) as (c' & -> & Hinv').
  cbn [mbind option_bind]. by exists c'.
Qed.

(** ** Two runs that differ in the cache and in the map schedule *)

Lemma sim_report_cache (s : Sim) (c : ChunkCache) : sim_report (set_cache s c) = sim_report s.
Proof. unfold sim_report, report_stats. sim_fields. reflexivity. Qed.

Lemma snapshot_data_cache (s : Sim) (c : ChunkCache) :
  snapshot_data (set_cache s c) = snapshot_data s.
Proof. unfold snapshot_data, report_stats. sim_fields. reflexivity. Qed.

Lemma snapshot_files_snapshot (o : string) (fs : list (string * FileData)) (n : string)
    (d : Snapshot) :
  snapshot_files (mkOutputs o (fs ++ [(n, SnapshotFile d)]))
  = snapshot_files (mkOutputs o fs) ++ [(n, SnapshotFile d)].
Proof. unfold snapshot_files. cbn [out_files]. by rewrite List.filter_app. Qed.

Lemma snapshot_files_map (o : string) (fs : list (string * FileData)) (n txt : string) :
  snapshot_files (mkOutputs o (fs ++ [(n, MapFile txt)])) = snapshot_files (mkOutputs o fs).
Proof.
  unfold snapshot_files. cbn [out_files]. rewrite List.filter_app. cbn. by rewrite app_nil_r.
Qed.

Lemma snapshot_files_stdout (o o' : string) (fs : list (string * FileData)) :
  snapshot_files (mkOutputs o fs) = snapshot_files (mkOutputs o' fs).
Proof. reflexivity. Qed.

Lemma forget_cache_set (s : Sim) (c : ChunkCache) : forget_cache (set_cache s c) = forget_cache s.
Proof. reflexivity. Qed.

Lemma set_cache_set (s : Sim) (c c' : ChunkCache) : set_cache (set_cache s c) c' = set_cache s c'.
Proof. reflexivity. Qed.

Lemma set_cache_same (s : Sim) : set_cache s (cache s) = s.
Proof. by destruct s. Qed.

Lemma main_day_rel (g : WorldGen) (ws : WorldSpec) (cfg1 cfg2 : ParsedConfig)
    (r1 r2 : Sim * Outputs) :
  snapshot_every_days cfg1 = snapshot_every_days cfg2 →
  run_rel g ws (map_every_days cfg1 = map_every_days cfg2) r1 r2 →
  match main_day cfg1 r1.1 r1.2, main_day cfg2 r2.1 r2.2 with
  | Some r1', Some r2' => run_rel g ws (map_every_days cfg1 = map_every_days cfg2) r1' r2'
  | None, None => True
  | _, _ => False
  end.
Proof.
  intros Hse. destruct r1 as [s1 o1], r2 as [s2 o2].
  intros (Hs & (c01 & Hi1 & Hg1 & Hw1) & (c02 & Hi2 & Hg2 & Hw2) & Hout & Hsnap & Hfiles).
  cbn [fst snd] in *.
  remember (cache s2) as c2 eqn:Hc2. subst s2. clear Hc2.
  unfold main_day. rewrite sim_step_cache.
  destruct (sim_step s1) as [[s1' txt]|] eqn:Hstep; [|done].
  cbn [fmap option_fmap option_map mbind option_bind with_cache fst snd].
  pose proof (sim_step_cache_unchanged _ _ _ Hstep) as Hcache.
  rewrite sim_report_cache, snapshot_data_cache. sim_fields.
  rewrite <- Hse, <- Hout.
  destruct o1 as [so1 f1], o2 as [so2 f2]. cbn [out_stdout out_files] in *. subst so2.
  destruct (sim_dump_ascii_map_pure c01 s1' 80 40) as (c1' & Hd1 & Hi1');
    [by rewrite Hcache|].
  destruct (sim_dump_ascii_map_pure c02 (set_cache s1' c2) 80 40) as (c2' & Hd2 & Hi2');
    [done|].
  rewrite Hg1, Hw1 in Hd1. rewrite Hg2, Hw2 in Hd2. rewrite Hd1, Hd2. clear Hd1 Hd2.
  assert (Hi1s : cache_inv c01 (cache s1')) by (by rewrite Hcache).
  destruct (day s1' mod 10 =? 0); [destruct (sim_report s1') as [r|]; [|done]|];
    cbn [mbind option_bind];
    (destruct ((snapshot_every_days cfg1 >? 0) && (day s1' mod snapshot_every_days cfg1 =? 0));
       [destruct (snapshot_data s1') as [d|]; [|done]|]);
    cbn [mbind option_bind out_stdout out_files];
    destruct ((map_every_days cfg1 >? 0) && (day s1' mod map_every_days cfg1 =? 0)) eqn:E1;
    destruct ((map_every_days cfg2 >? 0) && (day s1' mod map_every_days cfg2 =? 0)) eqn:E2;
    cbn [mbind option_bind out_stdout out_files];
    unfold run_rel; cbn [fst snd out_stdout out_files]; sim_fields.
  all: split; [reflexivity|].
  all: split; [by (exists c01) |].
  all: split; [by (exists c02) |].
  all: split; [reflexivity|].
  all: rewrite ?snapshot_files_map, ?snapshot_files_snapshot.
  all: split; [first [exact Hsnap | (f_equal; exact Hsnap)]|].
  all: intros Hm; rewrite Hm in E1; rewrite E1 in E2; try discriminate E2.
  all: by rewrite (Hfiles Hm).
Qed.

Lemma main_days_rel (g : WorldGen) (ws : WorldSpec) (cfg1 cfg2 : ParsedConfig) (n : nat) :
  snapshot_every_days cfg1 = snapshot_every_days cfg2 →
  ∀ r1 r2 : Sim * Outputs,
  run_rel g ws (map_every_days cfg1 = map_every_days cfg2) r1 r2 →
  match main_days n cfg1 r1.1 r1.2, main_days n cfg2 r2.1 r2.2 with
  | Some r1', Some r2' => run_rel g ws (map_every_days cfg1 = map_every_days cfg2) r1' r2'
  | None, None => True
  | _, _ => False
  end.
Proof.
  intros Hse. induction n as [|n IH]; intros [s1 o1] [s2 o2] Hrel; cbn [main_days fst snd].
  { exact Hrel. }
  pose proof (main_day_rel g ws cfg1 cfg2 (s1, o1) (s2, o2) Hse Hrel) as Hday.
  cbn [fst snd] in Hday.
  destruct (main_day cfg1 s1 o1) as [[s1' o1']|], (main_day cfg2 s2 o2) as [[s2' o2']|];
    try done.
  cbn [mbind option_bind]. apply (IH (s1', o1') (s2', o2') Hday).
Qed.

Lemma run_rel_observe (g : WorldGen) (ws : WorldSpec) (P : Prop) (r1 r2 : Sim * Outputs) :
  run_rel g ws P r1 r2 →
  observe_days r1 = observe_days r2 ∧ (P → observe_days_all r1 = observe_days_all r2).
Proof.
  destruct r1 as [s1 [o1 f1]], r2 as [s2 [o2 f2]].
  intros (Hs & _ & _ & Hout & Hsnap & Hfiles). cbn [fst snd out_stdout out_files] in *.
  assert (Hf : forget_cache s1 = forget_cache s2) by (by rewrite <- Hs).
  unfold observe_days, observe_days_all. cbn [fst snd out_stdout]. split.
  - rewrite Hf, Hout. f_equal. exact Hsnap.
  - intros HP. by rewrite Hf, Hout, (Hfiles HP).
Qed.

Lemma cache_inv_init_any (cm : Z) (g : WorldGen) (ws : WorldSpec) :
  cache_inv (ChunkCache_init cm g ws) (ChunkCache_init cm g ws).
Proof.
  unfold cache_inv, ChunkCache_init. cbn. split_and!; try done.
  - constructor.
  - lia.
  - intros k ch Hin. by apply elem_of_nil in Hin.
Qed.

Lemma sim_init_cache (cfg : ParsedConfig) (cm me : Z) :
  sim_init_from_cfg (set_map_every_days (set_cache_max cfg cm) me)
  = set_cache (sim_init_from_cfg cfg)
      (ChunkCache_init cm (worldgen_init (cfg_seed cfg))
         (mkWorldSpec (cfg_seed cfg) (Z.max 1 (settlement_count cfg)) (renew_list cfg))).
Proof. reflexivity. Qed.

Lemma init_run_rel (cfg : ParsedConfig) (cm me : Z) (P : Prop) :
  (P → me = map_every_days cfg) →
  run_rel (worldgen_init (cfg_seed cfg))
    (mkWorldSpec (cfg_seed cfg) (Z.max 1 (settlement_count cfg)) (renew_list cfg)) P
    (sim_init_from_cfg (set_map_every_days (set_cache_max cfg cm) me), mkOutputs "" [])
    (sim_init_from_cfg cfg, mkOutputs "" []).
Proof.
  intros HP. rewrite sim_init_cache. unfold run_rel. cbn [fst snd].
  split; [by rewrite set_cache_set, set_cache_same|].
  split; [eexists; split; [apply cache_inv_init_any|done]|].
  split; [eexists; split; [apply cache_inv_init_any|done]|].
  done.
Qed.

Lemma main_from_cfg_rel (cfg : ParsedConfig) (cm me : Z) :
  let cfg' := set_map_every_days (set_cache_max cfg cm) me in
  observe <$> main_from_cfg cfg' = observe <$> main_from_cfg cfg
  ∧ (me = map_every_days cfg →
     observe_all <$> main_from_cfg cfg' = observe_all <$> main_from_cfg cfg).
Proof.
  intros cfg'. unfold main_from_cfg.
  change (vocations (voc_table cfg')) with (vocations (voc_table cfg)).
  change (cfg_days cfg') with (cfg_days cfg).
  destruct (vocations (voc_table cfg)) as [|v vs]; [done|].
  unfold sim_init_run. change (init_pool cfg') with (init_pool cfg).
  destruct (init_pool cfg) as [pool0|] eqn:Hpool0; [|done]. cbn [mbind option_bind].
  pose proof (main_days_rel _ _ cfg' cfg (Z.to_nat (cfg_days cfg)) eq_refl _ _
                (init_run_rel cfg cm me (map_every_days cfg' = map_every_days cfg)
                   (fun H => H)))
    as Hrel.
  cbn [fst snd] in Hrel. cbv zeta.
  destruct (main_days _ cfg' _ _) as [[s1 o1]|], (main_days _ cfg _ _) as [[s2 o2]|];
    try done.
  cbn [mbind option_bind].
  destruct Hrel as (Hs & _ & _ & Ho & Hsn & Hfiles). cbn [fst snd] in Hs, Ho, Hsn, Hfiles.
  assert (Hf : forget_cache s1 = forget_cache s2) by (by rewrite <- Hs).
  assert (Hrep : sim_report s2 = sim_report s1) by (rewrite <- Hs; apply sim_report_cache).
  rewrite Hrep. destruct (sim_report s1) as [r|]; [|done].
  cbn [fmap option_fmap option_map mbind option_bind].
  unfold observe, observe_all. cbn [fst snd out_stdout out_files fmap option_fmap option_map].
  split.
  - rewrite Hf, Ho. do 2 f_equal. exact Hsn.
  - intros Hp. by rewrite Hf, Ho, (Hfiles Hp).
Qed.

(** X30.  The chunk cache cannot be observed: the day stepper commutes
    with any replacement of the cache, and two runs whose configurations
    differ only in the cache capacity [cache_max] and in the schedule of the
    map dumps (which fill the cache) pass through the same simulator states
    up to the cache after every day, write the same text to stdout and the
    same snapshots, and end with the same exit code; with the same map
    schedule the map files agree too. *)
Theorem run_independent_of_cache (cfg : ParsedConfig) (cm me : Z) (n : nat) :
  let cfg' := set_map_every_days (set_cache_max cfg cm) me in
  (∀ (s : Sim) (c : ChunkCache), sim_step (set_cache s c) = with_cache c <$> sim_step s)
  ∧ observe_days <$> main_days n cfg' (sim_init_from_cfg cfg') (mkOutputs "" [])
    = observe_days <$> main_days n cfg (sim_init_from_cfg cfg) (mkOutputs "" [])
  ∧ observe <$> main_from_cfg cfg' = observe <$> main_from_cfg cfg
  ∧ observe_all <$> main_from_cfg (set_cache_max cfg cm) = observe_all <$> main_from_cfg cfg.
Proof.
  intros cfg'. split; [exact sim_step_cache|]. split; [|split].
  - pose proof (main_days_rel _ _ cfg' cfg n eq_refl _ _
                  (init_run_rel cfg cm me (map_every_days cfg' = map_every_days cfg)
                     (fun H => H))) as Hrel.
    cbn [fst snd] in Hrel.
    destruct (main_days n cfg' _ _) as [r1|], (main_days n cfg _ _) as [r2|]; try done.
    cbn [fmap option_fmap option_map]. f_equal.
    by destruct (run_rel_observe _ _ _ _ _ Hrel).
  - exact (proj1 (main_from_cfg_rel cfg cm me)).
  - exact (proj2 (main_from_cfg_rel cfg cm (map_every_days cfg)) eq_refl).
Qed.


(** * One agent gathering fish for one day *)

(** Comparisons of closed rationals are evaluated. *)
Ltac eval_tests :=
  repeat match goal with
         | |- context [flt ?a ?b] =>
             let v := eval vm_compute in (flt a b) in
             match v with
             | true => change (flt a b) with true
             | false => change (flt a b) with false
             end
         | |- context [fle ?a ?b] =>
             let v := eval vm_compute in (fle a b) in
             match v with
             | true => change (fle a b) with true
             | false => change (fle a b) with false
             end
         end.


Lemma cond_eval_new (s : Sim) (a : Agent) (roll : Q) : cond_eval Condition_new s a roll = Some true.
Proof. reflexivity. Qed.

Lemma choose_task_single (s : Sim) (a : Agent) (v : VocationDef) (t : TaskDef)
    (rn : string) (w : Z) :
  voc_get (sim_voc_table s) (vocation_id a) = Some v →
  rules v = [mkRuleDef rn Condition_new (t_name t) w] → 0 < w →
  resolve_task (tasks v) (t_name t) = Some t →
  choose_task s a = Some (Some t).
Proof.
  intros Hv Hr Hw Ht. unfold choose_task. rewrite Hv, Hr.
  cbn [eligible_rules cond]. rewrite cond_eval_new. cbn [mbind option_bind weight].
  assert (E : (w >? 0) = true) by lia. rewrite ?E. cbv iota. rewrite ?E.
  cbn [app mbind option_bind].
  replace (0 + w <=? 0) with false by lia.
  cbn [pick_rule weight]. rewrite ?E.
  set (pick := _ mod _).
  assert (Hpick : 0 ≤ pick < 0 + w) by (apply Z.mod_pos_bound; lia).
  replace (pick - w <? 0) with true by lia.
  cbn [task_name]. by rewrite Ht.
Qed.

Lemma apprenticeship_alone (s : Sim) (a : Agent) (hh : Household) :
  agents s = [a] → households s = [hh] → household_id a = 0 →
  apprenticeship s a = Some a.
Proof.
  intros Ha Hhh Hid. unfold apprenticeship. rewrite Ha, Hhh, Hid.
  destruct ((age a <? 10) || (age a >? 16)); [done|].
  change (py_index [hh] 0) with (Some hh). cbn [mbind option_bind].
  destruct (parent_id hh <? 0) eqn:E1; [done|]. cbv zeta.
  cbn [orb length].
  destruct (parent_id hh >=? Z.of_nat 1) eqn:E2; [done|].
  assert (Hpid : parent_id hh = 0).
  { rewrite Z.geb_leb in E2. change (Z.of_nat 1) with 1 in E2. lia. }
  rewrite Hpid.
  change (py_index [a] 0) with (Some a). cbn [mbind option_bind].
  destruct (flt _ _); [|done]. by destruct a.
Qed.
Lemma gather_day_step (s : Sim) (x y ag : Z) (hh : Household) (w p : Z) :
  agents s = [mkAgent x y 0 ag 0 (replicate 9 0) (10 # 100) (10 # 100) 1] →
  households s = [hh] →
  sim_voc_table s = mkVocationTable [gather_fish_voc w] → 0 < w →
  day s = 1 →
  length (resources_pool s) = 14%nat → resources_pool s !! 0%nat = Some p →
  ∃ s' a', agent_step s 0 = Some s' ∧ agents s' = [a']
    ∧ inv a' !! 0%nat = Some (Z.min 5 (p / 20))
    ∧ resources_pool s' = <[0%nat := p - Z.min 5 (p / 20) * 20]> (resources_pool s)
    ∧ day s' = day s ∧ switch_every_days s' = switch_every_days s.
Proof.
  intros Ha Hhh Hvt Hw Hday Hlen Hp.
  unfold agent_step. rewrite Ha. cbn [lookup list_lookup mbind option_bind].
  rewrite Hday. change (1 mod 360 =? 0) with false. cbv iota zeta.
  cbn [health hunger fatigue set_hunger set_fatigue ag_x ag_y vocation_id age household_id inv].
  eval_tests. cbv iota.
  cbn [health hunger fatigue set_hunger set_fatigue ag_x ag_y vocation_id age household_id inv].
  unfold eat.
  cbn [health hunger fatigue set_hunger set_fatigue ag_x ag_y vocation_id age household_id inv].
  eval_tests. cbv iota. cbn [mbind option_bind].
  set (a1 := set_fatigue (set_hunger _ _) _).
  assert (Hag1 : agents (put_agent s 0 a1) = [a1]).
  { unfold put_agent. cbn [agents set_agents]. by rewrite Ha. }
  rewrite (apprenticeship_alone (put_agent s 0 a1) a1 hh Hag1 Hhh eq_refl).
  cbn [mbind option_bind].
  change (flt (95 # 100) (hunger a1)) with false.
  change (fle (90 # 100) (fatigue a1)) with false. cbv iota.
  set (s1 := put_agent (put_agent s 0 a1) 0 a1).
  assert (Hag2 : agents s1 = [a1]).
  { unfold s1, put_agent at 1. cbn [agents set_agents]. by rewrite Hag1. }
  rewrite (choose_task_single s1 a1 (gather_fish_voc w)
             (mkTaskDef "fish" [mkOpDef OP_GATHER 5 RES_FISH]) "r" w);
    [| by (unfold s1, put_agent; cbn [sim_voc_table set_agents]; rewrite Hvt)
     | reflexivity | exact Hw | reflexivity].
  cbn [mbind option_bind]. unfold exec_task. cbn [ops exec_ops].
  rewrite (exec_gather_spec s1 0 a1 RES_FISH 5 p 0);
    [| by rewrite Hag2 | unfold RES_FISH, RES_MAX; lia | exact Hlen | exact Hp
     | reflexivity | reflexivity].
  cbn [mbind option_bind]. change (RES_FISH <? 6) with true. cbv iota.
  change (Z.to_nat RES_FISH) with 0%nat.
  eexists _, _. split; [reflexivity|].
  unfold put_agent. cbn [agents set_agents set_pool resources_pool day switch_every_days].
  rewrite Hag2. cbn [insert list_insert].
  split; [reflexivity|]. split; [reflexivity|]. done.
Qed.

Lemma regen_pool_lookup (season scale : Z) (rks : list Z) :
  0 ≤ scale ≤ 2 ^ 407 →
  Forall (fun rk => 0 ≤ rk < RES_MAX) rks →
  ∀ s, length (renew_per_day (world s)) = Z.to_nat RES_MAX →
  Forall rate_fin (renew_per_day (world s)) →
  length (resources_pool s) = Z.to_nat RES_MAX →
  ∃ s', regen_pool s season scale rks = Some s'
        ∧ agents s' = agents s ∧ households s' = households s
        ∧ sim_voc_table s' = sim_voc_table s ∧ day s' = day s
        ∧ switch_every_days s' = switch_every_days s
        ∧ length (resources_pool s') = Z.to_nat RES_MAX
        ∧ ∀ k : nat, Z.of_nat k ∉ rks → resources_pool s' !! k = resources_pool s !! k.
Proof.
  intros Hscale Hrks.
  induction Hrks as [|rk rks Hrk _ IH]; intros s Hrl Hrf Hpl; cbn [regen_pool].
  { exists s. split_and!; done. }
  cbv zeta. unfold RES_MAX in *.
  rewrite !py_index_in_range by lia.
  destruct (lookup_lt_is_Some_2 (renew_per_day (world s)) (Z.to_nat rk)) as [r Hr]; [lia|].
  destruct (lookup_lt_is_Some_2 (resources_pool s) (Z.to_nat rk)) as [p Hp]; [lia|].
  rewrite Hr, Hp. cbn [mbind option_bind].
  pose proof (proj1 (Forall_lookup _ _) Hrf _ _ Hr) as Hr0.
  match goal with
  | |- context [regen_amount r ?mul scale] =>
      assert (Hmul : fin_le mul 0)
        by (repeat case_match;
            first [exact fin_le_one | exact fin_le_b64_70 | exact fin_le_b64_30]);
      destruct (regen_amount_fin r mul scale Hr0 Hmul Hscale) as (add & ->)
  end.
  cbn [mbind option_bind].
  rewrite py_setitem_in_range by lia. cbn [mbind option_bind].
  match goal with
  | |- context [regen_pool ?s1 _ _ _] =>
      destruct (IH s1) as (s' & Hreg & Hag & Hhh & Hvt & Hd & Hsw & Hlen & Hother)
  end.
  { done. }
  { done. }
  { cbn [set_pool resources_pool]. by rewrite length_insert. }
  exists s'. split; [exact Hreg|].
  cbn [set_pool agents households sim_voc_table day switch_every_days resources_pool]
    in Hag, Hhh, Hvt, Hd, Hsw, Hother.
  split_and!; try done.
  intros k [Hne Hk]%not_elem_of_cons. rewrite Hother by exact Hk.
  apply list_lookup_insert_ne. lia.
Qed.

Lemma gather_day (s : Sim) (x y ag : Z) (hh : Household) (w p regen : Z) (rn : pyfloat) :
  agents s = [mkAgent x y 0 ag 0 (replicate 9 0) (10 # 100) (10 # 100) 1] →
  households s = [hh] →
  sim_voc_table s = mkVocationTable [gather_fish_voc w] → 0 < w →
  day s = 0 → switch_every_days s = 30 →
  length (renew_per_day (world s)) = 14%nat → renew_per_day (world s) !! 0%nat = Some rn →
  Forall rate_fin (renew_per_day (world s)) →
  length (resources_pool s) = 14%nat → resources_pool s !! 0%nat = Some p →
  regen_amount rn 1 1000 = Some regen →
  let take := Z.min 5 ((p + regen) / 20) in
  ∃ s' a', sim_step s = Some (s', "") ∧ agents s' = [a']
    ∧ inv a' !! 0%nat = Some take
    ∧ resources_pool s' !! 0%nat = Some (p + regen - take * 20).
Proof.
  intros Ha Hhh Hvt Hw Hday Hsw Hrl Hrn Hrf Hpl Hp Hregen take.
  unfold sim_step. cbv zeta. cbn [set_day day agents]. rewrite Hday, Ha.
  change (world_season_kind (0 + 1)) with SEASON_SPRING.
  change (Z.max 1000 (Z.of_nat (length [_]) * 80)) with 1000.
  change (py_range RES_MAX) with (0 :: map Z.of_nat (seq 1 13)).
  cbn [regen_pool]. cbv zeta. cbn [set_day world resources_pool].
  rewrite (py_index_in_range (renew_per_day (world s)) 0) by (rewrite Hrl; lia).
  rewrite (py_index_in_range (resources_pool s) 0) by (rewrite Hpl; lia).
  change (Z.to_nat 0) with 0%nat. rewrite Hrn, Hp. cbn [mbind option_bind].
  change (0 =? RES_FISH) with true. change (SEASON_SPRING =? SEASON_WINTER) with false.
  cbv iota. rewrite Hregen. cbn [mbind option_bind].
  rewrite (py_setitem_in_range (resources_pool s) 0) by (rewrite Hpl; lia).
  change (Z.to_nat 0) with 0%nat. cbn [mbind option_bind].
  set (sa := set_pool _ _).
  destruct (regen_pool_lookup SEASON_SPRING 1000 (map Z.of_nat (seq 1 13))) with (s := sa)
    as (s1 & -> & Hag1 & Hhh1 & Hvt1 & Hd1 & Hsw1 & Hlen1 & Hother).
  { pose proof (pow2_pos 407 ltac:(lia)).
    assert (2 ^ 10 ≤ 2 ^ 407) by (apply Z.pow_le_mono_r; lia).
    change (2 ^ 10) with 1024 in *. lia. }
  { apply Forall_forall. intros k (j & -> & Hj)%list_elem_of_fmap.
    apply list_elem_of_In, in_seq in Hj. unfold RES_MAX. lia. }
  { exact Hrl. }
  { exact Hrf. }
  { unfold sa. cbn [set_pool resources_pool]. by rewrite length_insert. }
  cbn [mbind option_bind].
  assert (Hp1 : resources_pool s1 !! 0%nat = Some (p + regen)).
  { rewrite Hother.
    - unfold sa. cbn [set_pool resources_pool]. apply list_lookup_insert_eq. rewrite Hpl. lia.
    - intros (j & Hj0 & Hj)%list_elem_of_fmap. apply list_elem_of_In, in_seq in Hj. lia. }
  unfold sa in Hag1, Hhh1, Hvt1, Hd1, Hsw1.
  cbn [set_pool set_day agents households sim_voc_table day switch_every_days]
    in Hag1, Hhh1, Hvt1, Hd1, Hsw1.
  rewrite Hag1, Ha. cbn [length seq agents_loop].
  assert (Hd1' : day s1 = 1) by exact Hd1.
  destruct (gather_day_step s1 x y ag hh w (p + regen) (eq_trans Hag1 Ha)
              (eq_trans Hhh1 Hhh) (eq_trans Hvt1 Hvt) Hw Hd1' Hlen1 Hp1)
    as (s2 & a2 & -> & Hag2 & Hinv2 & Hpool2 & Hd2 & Hsw2).
  cbn [mbind option_bind].
  unfold role_switching. rewrite Hsw2, Hsw1, Hsw, Hd2, Hd1'.
  change (30 =? 0) with false. change (negb (1 mod 30 =? 0)) with true. cbv iota.
  exists s2, a2. split; [reflexivity|]. split; [exact Hag2|]. split; [exact Hinv2|].
  rewrite Hpool2. apply list_lookup_insert_eq. rewrite Hlen1. unfold RES_MAX. lia.
Qed.

Lemma init_single (cfg : ParsedConfig) (w : Z) :
  agent_count cfg ≤ 1 → voc_table cfg = mkVocationTable [gather_fish_voc w] →
  Forall rate_fin (renew_list cfg) →
  let s0 := sim_init_from_cfg cfg in
  ∃ x y ag hh p0,
    sim_init_run cfg = Some s0
    ∧ agents s0 = [mkAgent x y 0 ag 0 (replicate 9 0) (10 # 100) (10 # 100) 1]
    ∧ households s0 = [hh]
    ∧ sim_voc_table s0 = mkVocationTable [gather_fish_voc w]
    ∧ day s0 = 0 ∧ switch_every_days s0 = 30
    ∧ length (renew_per_day (world s0)) = 14%nat
    ∧ renew_per_day (world s0) = renew_list cfg
    ∧ length (resources_pool s0) = 14%nat
    ∧ init_amount (fish_renew cfg) 1000 = Some p0
    ∧ resources_pool s0 !! 0%nat = Some p0.
Proof.
  intros Hac Hvt Hrf s0.
  assert (Hsc : Z.max 1000 (agent_count cfg * 80) = 1000) by lia.
  destruct (init_pool_loop_fin (renew_list cfg) 1000 Hrf) as (pool & Hpool & Hplen).
  { assert (2 ^ 10 ≤ 2 ^ 407) by (apply Z.pow_le_mono_r; lia).
    change (2 ^ 10) with 1024 in *. lia. }
  destruct (init_pool_loop_lookup _ _ _ Hpool 0%nat (fish_renew cfg) eq_refl)
    as (p0 & Hp0 & Hamt).
  assert (Hip : init_pool cfg = Some pool).
  { unfold init_pool. cbv zeta. by rewrite Hsc. }
  unfold s0, sim_init_run. rewrite Hip. cbn [mbind option_bind].
  unfold sim_init_from_cfg. cbv zeta. rewrite Hip. cbn [default].
  cbn [agents households sim_voc_table day switch_every_days world renew_per_day
       resources_pool ws_seed ws_settlement_count].
  replace (Z.max 1 (agent_count cfg)) with 1 by lia.
  change ((1 + 4) / 5) with 1. change (py_range 1) with [0]. cbn [map].
  unfold init_agent. rewrite Hvt. cbv zeta.
  destruct (pick_spawn _ 0) as [x y].
  change (voc_find _ "farmer") with (-1). change (voc_find _ "fisher") with 0.
  change (voc_find _ "potter") with (-1). change (voc_find _ "smith") with (-1).
  change (voc_find _ "trader") with (-1).
  cbn [vocations gather_fish_voc].
  change (-1 >=? 0) with false. change (0 >=? 0) with true.
  rewrite !andb_false_r, andb_true_r.
  eexists x, y, _, _, p0. split; [reflexivity|]. split.
  { destruct (_ <? 70); reflexivity. }
  split; [reflexivity|]. split; [reflexivity|]. split; [reflexivity|].
  split; [reflexivity|]. split; [reflexivity|]. split; [reflexivity|].
  split; [exact Hplen|]. split; [exact Hamt|exact Hp0].
Qed.

(** C5 (as amended). A gather op of the executor takes
    [take = min(want, pool[rk] div 20)] units: the pool entry drops by
    exactly [take * 20], the inventory slot of the same ordinal grows by
    [take] for fish, grain, wood, clay, copper and tin, and no inventory
    changes for the other kinds; no other agent changes.  In particular, with
    one agent, a single vocation whose only rule is unconditional and
    selects a [gather fish 5] task, and renewal rates that are finite floats
    of magnitude at most 2^400, the simulator is built and its first day
    ends with [inv[fish] = min(5, P div 20)] and the fish pool at
    [P - take * 20], where [P] is the pool the gather finds: the initial
    pool [int(fish_renew * 255.0 * 30.0 * 1000)] plus the regeneration of
    that day [int(fish_renew * 1.0 * 255.0 * 1000)], both computed in
    binary64, which the stepper adds before the agents act.  When the
    initial pool holds at least five units and the regeneration is not
    negative this is [min(5, pool_initial div 20)]. *)
Theorem gather_takes_from_pool :
  (∀ (s : Sim) (i : nat) (a : Agent) (rk want pool have : Z),
     agents s !! i = Some a → 0 ≤ rk < RES_MAX →
     length (resources_pool s) = Z.to_nat RES_MAX →
     resources_pool s !! Z.to_nat rk = Some pool →
     length (inv a) = Z.to_nat ITEM_MAX →
     (rk < 6 → inv a !! Z.to_nat rk = Some have) →
     let take := Z.min want (pool / 20) in
     ∃ s', exec_op s i (mkOpDef OP_GATHER want rk) = Some s'
           ∧ resources_pool s' = <[Z.to_nat rk := pool - take * 20]> (resources_pool s)
           ∧ agents s' !! i
             = Some (if rk <? 6 then set_inv a (<[Z.to_nat rk := have + take]> (inv a))
                     else a)
           ∧ ∀ j : nat, j ≠ i → agents s' !! j = agents s !! j)
  ∧ (∀ (cfg : ParsedConfig) (w : Z),
       agent_count cfg ≤ 1 → voc_table cfg = mkVocationTable [gather_fish_voc w] → 0 < w →
       Forall rate_fin (renew_list cfg) →
       ∃ s0 p0 regen s1 txt a1,
         sim_init_run cfg = Some s0
         ∧ init_amount (fish_renew cfg) 1000 = Some p0
         ∧ regen_amount (fish_renew cfg) 1 1000 = Some regen
         ∧ resources_pool s0 !! 0%nat = Some p0
         ∧ sim_step s0 = Some (s1, txt) ∧ agents s1 = [a1]
         ∧ inv a1 !! 0%nat = Some (Z.min 5 ((p0 + regen) / 20))
         ∧ resources_pool s1 !! 0%nat
           = Some (p0 + regen - Z.min 5 ((p0 + regen) / 20) * 20)
         ∧ (100 ≤ p0 → 0 ≤ regen →
            Z.min 5 ((p0 + regen) / 20) = Z.min 5 (p0 / 20))).
Proof.
  split.
  - intros s i a rk want pool have Ha Hrk Hlen Hpool Hinv Hhave take.
    rewrite (exec_gather_spec s i a rk want pool have Ha Hrk Hlen Hpool Hinv Hhave).
    fold take. eexists. split; [reflexivity|].
    assert (Hi : (i < length (agents s))%nat) by (by eapply lookup_lt_Some).
    destruct (rk <? 6); unfold put_agent;
      cbn [set_agents set_pool resources_pool agents].
    + split; [reflexivity|]. split; [by apply list_lookup_insert_eq|].
      intros j Hj. by apply list_lookup_insert_ne.
    + split; [reflexivity|]. split; [exact Ha|]. done.
  - intros cfg w Hac Hvt Hw Hrf.
    destruct (init_single cfg w Hac Hvt Hrf)
      as (x & y & ag & hh & p0 & Hrun & Ha & Hhh & Hvt0 & Hd & Hsw & Hrl & Hrn & Hpl
          & Hamt & Hp).
    assert (Hfish : rate_fin (fish_renew cfg)).
    { apply Forall_cons in Hrf as [H _]. exact H. }
    destruct (regen_amount_fin (fish_renew cfg) 1 1000 Hfish fin_le_one) as (regen & Hregen).
    { assert (2 ^ 10 ≤ 2 ^ 407) by (apply Z.pow_le_mono_r; lia).
      change (2 ^ 10) with 1024 in *. lia. }
    destruct (gather_day (sim_init_from_cfg cfg) x y ag hh w p0 regen (fish_renew cfg)
                Ha Hhh Hvt0 Hw Hd Hsw Hrl)
      as (s1 & a1 & Hstep & Hag & Hinv & Hpool); [by rewrite Hrn|by rewrite Hrn|done..|].
    exists (sim_init_from_cfg cfg), p0, regen, s1, "", a1.
    split; [exact Hrun|]. split; [exact Hamt|]. split; [exact Hregen|].
    split; [exact Hp|]. split; [exact Hstep|].
    split; [exact Hag|]. split; [exact Hinv|]. split; [exact Hpool|].
    intros H100 Hregen0.
    assert (5 ≤ (p0 + regen) / 20) by (apply Z.div_le_lower_bound; lia).
    assert (5 ≤ p0 / 20) by (apply Z.div_le_lower_bound; lia).
    lia.
Qed.

Lemma gather_takes_from_pool_witness :
  let cfg := cfg_of_src gather_fish_src 1 in
  let cfg6 := set_fish_renew cfg (b64_round (6 # 100)) in
  (∃ s', exec_op (sim_init_from_cfg cfg) 0 (mkOpDef OP_GATHER 7 RES_WOOD) = Some s'
         ∧ resources_pool s' !! 2%nat = Some (229499 - 7 * 20))
  ∧ ∃ s0 s1 txt a1,
      sim_init_run cfg6 = Some s0
      ∧ resources_pool s0 !! 0%nat = Some 458999
      ∧ regen_amount (fish_renew cfg6) 1 1000 = Some 15299
      ∧ sim_step s0 = Some (s1, txt) ∧ agents s1 = [a1]
      ∧ inv a1 !! 0%nat = Some 5
      ∧ resources_pool s1 !! 0%nat = Some 474198.
Proof.
  intros cfg cfg6. destruct gather_takes_from_pool as [Hop Hday]. split.
  - destruct (Hop (sim_init_from_cfg cfg) 0%nat
                (mkAgent 51173 3776 0 10 0 (replicate 9 0) (10 # 100) (10 # 100) 1)
                RES_WOOD 7 229499 0) as (s' & Hex & Hpool & _).
    + vm_compute. reflexivity.
    + unfold RES_WOOD, RES_MAX. lia.
    + vm_compute. reflexivity.
    + vm_compute. reflexivity.
    + vm_compute. reflexivity.
    + intros _. vm_compute. reflexivity.
    + exists s'. split; [exact Hex|]. rewrite Hpool. vm_compute. reflexivity.
  - destruct (Hday cfg6 3)
      as (s0 & p0 & regen & s1 & txt & a1 & Hrun & Hamt & Hregen & Hp0 & Hstep & Hag & Hinv
          & Hpool & _).
    + vm_compute. discriminate.
    + vm_compute. reflexivity.
    + lia.
    + repeat (apply Forall_cons; split;
              [eexists; split; [vm_compute; reflexivity|vm_compute; discriminate]|]).
      apply Forall_nil. done.
    + assert (Hp : p0 = 458999) by (vm_compute in Hamt; congruence).
      assert (Hr : regen = 15299) by (vm_compute in Hregen; congruence).
      subst p0 regen.
      exists s0, s1, txt, a1. split; [exact Hrun|]. split; [exact Hp0|].
      split; [exact Hregen|]. split; [exact Hstep|]. split; [exact Hag|]. split.
      * rewrite Hinv. vm_compute. reflexivity.
      * rewrite Hpool. vm_compute. reflexivity.
Defined.


(** * Runs of parsed programs *)

(** C1 (as stated) fails.  The program [roam_src] parses; on the first day
    its only agent roams 2000 steps and ends the day with fatigue 2.02, above
    1: nothing in the stepper caps fatigue from above.  The program
    [negative_gather_src] parses too; its agent gathers -5 fish and ends the
    day with an inventory count of -5. *)
Lemma needs_and_counts_counterexample :
  (∃ cfg rest s txt a,
     parse_vocations_block roam_src ParsedConfig_new = Ok (cfg, rest)
     ∧ voc_table (cfg_of_src roam_src 1) = voc_table cfg
     ∧ sim_step (sim_init_from_cfg (cfg_of_src roam_src 1)) = Some (s, txt)
     ∧ agents s = [a] ∧ (1 < fatigue a)%Q)
  ∧ (∃ cfg rest s txt a,
       parse_vocations_block negative_gather_src ParsedConfig_new = Ok (cfg, rest)
       ∧ voc_table (cfg_of_src negative_gather_src 1) = voc_table cfg
       ∧ sim_step (sim_init_from_cfg (cfg_of_src negative_gather_src 1)) = Some (s, txt)
       ∧ agents s = [a] ∧ inv a !! 0%nat = Some (-5)).
Proof.
  split; eexists _, _, _, _, _.
  - split; [vm_compute; reflexivity|]. split; [vm_compute; reflexivity|].
    split; [vm_compute; reflexivity|]. split; [reflexivity|]. vm_compute. reflexivity.
  - split; [vm_compute; reflexivity|]. split; [vm_compute; reflexivity|].
    split; [vm_compute; reflexivity|]. split; [reflexivity|]. vm_compute. reflexivity.
Qed.

(** C5 (as stated) fails in its example.  With the default settings the
    initial fish pool is 612000 and the agent ends the first day with five
    fish, yet the pool stands at 632300 and not at [612000 - 5 * 20]: the
    regeneration of the day, 20400, is added before the agent gathers.  With
    [fish_renew 0.000013] the initial pool is 99, so that
    [min(5, pool_initial div 20)] is 4, yet the agent ends the day with five
    fish, taken from the regenerated pool of 102. *)
Lemma gather_day_counterexample :
  (let s0 := sim_init_from_cfg (cfg_of_src gather_fish_src 1) in
   ∃ s1 txt a1,
     resources_pool s0 !! 0%nat = Some 612000
     ∧ sim_step s0 = Some (s1, txt) ∧ agents s1 = [a1]
     ∧ inv a1 !! 0%nat = Some 5
     ∧ resources_pool s1 !! 0%nat = Some 632300
     ∧ 632300 ≠ 612000 - 5 * 20)
  ∧ (let s0 := sim_init_from_cfg scarce_fish_cfg in
     ∃ s1 txt a1,
       resources_pool s0 !! 0%nat = Some 99
       ∧ Z.min 5 (99 / 20) = 4
       ∧ sim_step s0 = Some (s1, txt) ∧ agents s1 = [a1]
       ∧ inv a1 !! 0%nat = Some 5
       ∧ resources_pool s1 !! 0%nat = Some 2).
Proof.
  split; cbv zeta; eexists _, _, _.
  - split; [vm_compute; reflexivity|]. split; [vm_compute; reflexivity|].
    split; [reflexivity|]. split; [vm_compute; reflexivity|].
    split; [vm_compute; reflexivity|]. lia.
  - split; [vm_compute; reflexivity|]. split; [reflexivity|].
    split; [vm_compute; reflexivity|]. split; [reflexivity|].
    split; vm_compute; reflexivity.
Qed.

Lemma cfg_ok_fisher_farmer : cfg_ok (cfg_of_src fisher_farmer_src 20).
Proof.
  split.
  - unfold table_ok.
    replace (vocations (voc_table (cfg_of_src fisher_farmer_src 20)))
      with [mkVocationDef "fisher"
              [mkTaskDef "fish" [mkOpDef OP_MOVE_TO 0 TAG_COAST; mkOpDef OP_GATHER 5 RES_FISH];
               mkTaskDef "nap" [mkOpDef OP_REST 0 0]]
              [mkRuleDef "r1" Condition_new "fish" 3;
               mkRuleDef "r2" (mkCondition true (1 # 2) false 0 SEASON_ANY [] [] [] false 0)
                 "nap" 1];
            mkVocationDef "farmer"
              [mkTaskDef "farm" [mkOpDef OP_GATHER 4 RES_GRAIN; mkOpDef OP_CRAFT 1 ITEM_POT;
                                 mkOpDef OP_TRADE 0 0]]
              [mkRuleDef "r1" Condition_new "farm" 3]]
      by (vm_compute; reflexivity).
    unfold voc_wf, op_ok, cond_ok.
    repeat first [apply Forall_nil | apply Forall_cons | split];
      intros; cbn [tasks rules ops cond inv_item op_kind arg_i arg_j Condition_new] in *;
      try apply Forall_nil;
      unfold OP_MOVE_TO, OP_GATHER, OP_CRAFT, OP_TRADE, OP_REST, OP_ROAM, RES_FISH, RES_GRAIN,
        RES_MAX, ITEM_POT in *; lia.
  - repeat (apply Forall_cons; split; [vm_compute; reflexivity|]).
    by apply Forall_nil.
Qed.


(** Three days of twenty agents over the fisher and farmer program, and one
    more task run on the state they leave. *)
Lemma needs_and_counts_in_range_witness :
  ∃ s0 s s',
    sim_init_run (cfg_of_src fisher_farmer_src 20) = Some s0
    ∧ sim_days 3 s0 = Some s
    ∧ sim_ok s
    ∧ (∀ a, a ∈ agents s →
         (0 <= hunger a <= 1)%Q ∧ (0 <= fatigue a)%Q ∧ (0 <= health a <= 1)%Q
         ∧ Forall (fun v => 0 ≤ v) (inv a))
    ∧ exec_task s 4 (mkTaskDef "walk" [mkOpDef OP_ROAM (2 ^ 1000) 0; mkOpDef OP_GATHER 9 RES_WOOD])
      = Some s'
    ∧ sim_ok s'.
Proof.
  destruct (sim_init_run (cfg_of_src fisher_farmer_src 20)) as [s0|] eqn:E0;
    [|vm_compute in E0; discriminate E0].
  assert (Hs0 : s0 = sim_init_from_cfg (cfg_of_src fisher_farmer_src 20)).
  { unfold sim_init_run in E0.
    destruct (init_pool _); [|discriminate E0]. by injection E0 as <-. }
  destruct (sim_days 3 s0) as [s|] eqn:E3;
    [|subst s0; vm_compute in E3; discriminate E3].
  destruct (needs_and_counts_in_range (cfg_of_src fisher_farmer_src 20) 3 s0 s
              cfg_ok_fisher_farmer E0 E3) as (Hok & _ & Hag & Hex).
  assert (Hlen : length (agents s) = 20%nat).
  { subst s0. vm_compute in E3. injection E3 as <-. reflexivity. }
  destruct (exec_task s 4
              (mkTaskDef "walk" [mkOpDef OP_ROAM (2 ^ 1000) 0; mkOpDef OP_GATHER 9 RES_WOOD]))
    as [s'|] eqn:E4;
    [|subst s0; vm_compute in E3; injection E3 as <-; vm_compute in E4; discriminate E4].
  exists s0, s, s'. split; [reflexivity|]. split; [exact E3|]. split; [exact Hok|].
  split; [exact Hag|]. split; [exact E4|].
  edestruct (Hex 4%nat) as [Hok' _]; [| |exact E4|exact Hok'].
  - rewrite Hlen. lia.
  - cbn [ops]. repeat (apply Forall_cons; split); try (by apply Forall_nil);
      unfold op_ok; cbn [op_kind arg_i arg_j];
      unfold OP_ROAM, OP_GATHER, RES_WOOD, RES_MAX; split; intros; try lia; try done.
Defined.

(** Agent 1 is the parent of household 1, an adult fisher; role switching
    on day 30 moves four adults to the farmers, and agent 1 stays a fisher. *)
Lemma role_switching_keeps_parents_witness :
  ∃ s' a',
    role_switching day30_sim
    = Some (s', "Day 30: role switching nudged 4 adults into vocation 'farmer'" +:+ nl)
    ∧ agents s' !! 1%nat = Some a' ∧ vocation_id a' = 0.
Proof.
  destruct (role_switching day30_sim) as [[s' out]|] eqn:E;
    [|vm_compute in E; discriminate E].
  destruct (role_switching_keeps_parents day30_sim s' out 1
              (mkAgent 8048 1706 0 40 1 (replicate 9 0) (10 # 100) (10 # 100) 1)
              (mkHousehold 1 1 1) E) as [_ (a' & Ha' & Hv)].
  - vm_compute. reflexivity.
  - vm_compute. reflexivity.
  - reflexivity.
  - exists s', a'. split; [|split; [exact Ha'|exact Hv]].
    pose proof E as E2. vm_compute in E2. injection E2 as _ <-. reflexivity.
Defined.

(** The block [dangling_src] holds a rule that names a task its vocation
    does not have and a vocation without tasks; it parses: the rule of the
    smith, which named [smelt], names the first task [forge], and the idler
    has the synthesized task [idle] with its rule pointed at it. *)
Lemma parse_vocations_no_dangling_witness :
  ∃ cfg' lx' raw,
    parse_vocations_block dangling_src ParsedConfig_new = Ok (cfg', lx')
    ∧ read_vocations dangling_src = Ok (raw, lx')
    ∧ map (fun v => (v_name v, map t_name (tasks v), map task_name (rules v))) raw
      = [("smith", ["forge"], ["smelt"]); ("idler", [], ["stroll"])]
    ∧ map (fun v => (v_name v, tasks v, map task_name (rules v)))
          (vocations (voc_table cfg'))
      = [("smith", [mkTaskDef "forge" [mkOpDef OP_CRAFT 1 ITEM_BRONZE]], ["forge"]);
         ("idler", [mkTaskDef "idle" [mkOpDef OP_REST 0 0]], ["idle"])]
    ∧ Forall voc_ok (vocations (voc_table cfg')).
Proof.
  destruct (parse_vocations_block dangling_src ParsedConfig_new) as [[cfg' lx']|msg|] eqn:E;
    [|vm_compute in E; discriminate E..].
  destruct (parse_vocations_no_dangling _ _ _ _ E) as (raw & Hread & Hcfg & _ & _ & Hok).
  exists cfg', lx', raw. split; [reflexivity|]. split; [exact Hread|].
  assert (Hraw : raw = [mkVocationDef "smith"
                          [mkTaskDef "forge" [mkOpDef OP_CRAFT 1 ITEM_BRONZE]]
                          [mkRuleDef "r" Condition_new "smelt" 2];
                        mkVocationDef "idler" []
                          [mkRuleDef "r"
                             (mkCondition false 0 true (1 # 2) SEASON_ANY [] [] [] false 0)
                             "stroll" 1]]).
  { vm_compute in Hread. injection Hread as <- _. reflexivity. }
  split; [rewrite Hraw; reflexivity|]. split.
  - rewrite Hcfg, Hraw. vm_compute. reflexivity.
  - apply Hok. constructor.
Defined.


(** * The lexer makes progress *)

Lemma append_cons (c : ascii) (a b : string) : String c a +:+ b = String c (a +:+ b).
Proof. reflexivity. Qed.

Lemma skip_from_suffix (n : nat) :
  ∀ s b, (String.length s ≤ n)%nat → ∃ pre, s = pre +:+ skip_from b s.
Proof.
  induction n as [|n IH]; intros s b Hn.
  { destruct s; [|cbn in Hn; lia]. by exists "". }
  destruct s as [|c r]; [by exists ""|]. cbn [String.length] in Hn.
  cbn [skip_from]. destruct b.
  - destruct (Ascii.eqb c "010");
      [destruct (IH r false) as [pre Hpre]|destruct (IH r true) as [pre Hpre]];
      try lia; exists (String c pre); rewrite append_cons; by f_equal.
  - destruct (isspace c).
    { destruct (IH r false) as [pre Hpre]; [lia|]. exists (String c pre). rewrite append_cons.
      by f_equal. }
    destruct (Ascii.eqb c "#").
    { destruct (IH r true) as [pre Hpre]; [lia|]. exists (String c pre). rewrite append_cons.
      by f_equal. }
    destruct r as [|c2 r2]; [by exists ""|].
    destruct (Ascii.eqb c "/" && Ascii.eqb c2 "/"); [|by exists ""].
    cbn [String.length] in Hn.
    destruct (IH r2 true) as [pre Hpre]; [lia|].
    exists (String c (String c2 pre)). rewrite !append_cons. by do 2 f_equal.
Qed.

Lemma append_nil_r (a : string) : a +:+ "" = a.
Proof. induction a as [|c a IH]; [done|]. rewrite append_cons. by f_equal. Qed.

Lemma append_length (a b : string) :
  String.length (a +:+ b) = (String.length a + String.length b)%nat.
Proof.
  induction a as [|c a IH]; [done|]. rewrite append_cons. cbn [String.length].
  by rewrite IH.
Qed.

Lemma skip_from_le (s : string) (b : bool) :
  (String.length (skip_from b s) ≤ String.length s)%nat.
Proof.
  destruct (skip_from_suffix (String.length s) s b) as [pre Hpre]; [lia|].
  rewrite Hpre at 2. rewrite append_length. lia.
Qed.

Lemma read_word_split (s : string) :
  ∀ w rest, read_word s = (w, rest) →
  s = w +:+ rest ∧ string_forall (fun c => negb (ends_word c)) w = true.
Proof.
  induction s as [|ch r IH]; intros w rest; cbn [read_word].
  { intros [= <- <-]. done. }
  fold (ends_word ch). destruct (ends_word ch) eqn:Hend.
  { intros [= <- <-]. done. }
  match goal with |- context [if ?b then _ else _] => destruct b end.
  { intros [= <- <-]. done. }
  destruct (read_word r) as [w1 rest1]. intros [= <- <-].
  destruct (IH w1 rest1 eq_refl) as [Hs Hw]. split.
  - rewrite append_cons. by f_equal.
  - cbn [string_forall]. by rewrite Hend, Hw.
Qed.

(** The text left by [_skip_ws_and_comments] is empty or starts with a
    character of a token. *)
Lemma skip_from_start (n : nat) :
  ∀ s, (String.length s ≤ n)%nat →
  match skip_from false s with
  | EmptyString => True
  | String c r =>
      isspace c = false ∧ Ascii.eqb c "#" = false
      ∧ match r with
        | String c2 _ => Ascii.eqb c "/" && Ascii.eqb c2 "/" = false
        | EmptyString => True
        end
  end
  ∧ match skip_from true s with
    | EmptyString => True
    | String c r =>
        isspace c = false ∧ Ascii.eqb c "#" = false
        ∧ match r with
          | String c2 _ => Ascii.eqb c "/" && Ascii.eqb c2 "/" = false
          | EmptyString => True
          end
    end.
Proof.
  induction n as [|n IH]; intros s Hn.
  { destruct s; [done|cbn in Hn; lia]. }
  destruct s as [|c r]; [done|]. cbn [String.length] in Hn.
  destruct (IH r ltac:(lia)) as [IHf IHt].
  cbn [skip_from]. split.
  - destruct (isspace c) eqn:Hsp; [exact IHf|].
    destruct (Ascii.eqb c "#") eqn:Hh; [exact IHt|].
    destruct r as [|c2 r2]; [by rewrite Hsp, Hh|].
    destruct (Ascii.eqb c "/" && Ascii.eqb c2 "/") eqn:Hc.
    + cbn [String.length] in Hn. apply (IH r2). lia.
    + by rewrite Hsp, Hh, Hc.
  - destruct (Ascii.eqb c "010"); [exact IHf|exact IHt].
Qed.

Lemma next_tok_spec (lx : Lexer) (t : Tok) (lx' : Lexer) :
  next_tok lx = (t, lx') →
  (∃ pre, lx = pre +:+ text t +:+ lx')
  ∧ (tok_kind t = TK_EOF ∧ text t = "" ∧ lx' = ""
     ∨ tok_kind t = TK_LBRACE ∧ text t = "{"
     ∨ tok_kind t = TK_RBRACE ∧ text t = "}"
     ∨ tok_kind t = TK_WORD ∧ text t ≠ ""
       ∧ string_forall (fun c => negb (ends_word c)) (text t) = true).
Proof.
  unfold next_tok, _skip_ws_and_comments.
  destruct (skip_from_suffix (String.length lx) lx false) as [pre Hpre]; [lia|].
  pose proof (proj1 (skip_from_start (String.length lx) lx ltac:(lia))) as Hstart.
  destruct (skip_from false lx) as [|c r] eqn:Hskip.
  { intros [= <- <-]. split; [|by left]. exists lx. cbn [text].
    change ("" +:+ "") with "". by rewrite append_nil_r. }
  destruct (Ascii.eqb_spec c "{") as [->|Hl].
  { intros [= <- <-]. split; [|right; by left]. exists pre. exact Hpre. }
  destruct (Ascii.eqb_spec c "}") as [->|Hr].
  { intros [= <- <-]. split; [|do 2 right; by left]. exists pre. exact Hpre. }
  destruct (read_word (String c r)) as [w rest] eqn:Hw. intros [= <- <-].
  destruct (read_word_split _ _ _ Hw) as [Hsplit Hall]. cbn [text tok_kind].
  split.
  - exists pre. by rewrite <- Hsplit.
  - do 3 right. split; [done|]. split; [|exact Hall].
    destruct Hstart as (Hsp & Hh & Hc). cbn [read_word] in Hw.
    rewrite Hsp in Hw. cbn [orb] in Hw.
    destruct (Ascii.eqb_spec c "{"); [done|]. destruct (Ascii.eqb_spec c "}"); [done|].
    rewrite Hh in Hw. cbn [orb] in Hw.
    destruct r as [|c2 r2].
    + destruct (read_word "") as [w1 rest1]. by injection Hw as <- <-.
    + rewrite Hc in Hw. destruct (read_word (String c2 r2)) as [w1 rest1].
      by injection Hw as <- <-.
Qed.

Lemma next_tok_le (lx : Lexer) :
  (String.length (next_tok lx).2 ≤ String.length lx)%nat.
Proof.
  destruct (next_tok lx) as [t lx'] eqn:E.
  destruct (next_tok_spec _ _ _ E) as [[pre Hpre] _]. cbn [snd].
  apply (f_equal String.length) in Hpre. rewrite !append_length in Hpre. lia.
Qed.

Lemma next_tok_lt (lx : Lexer) (t : Tok) (lx' : Lexer) :
  next_tok lx = (t, lx') → tok_kind t ≠ TK_EOF →
  (String.length lx' < String.length lx)%nat.
Proof.
  intros E Hk. destruct (next_tok_spec _ _ _ E) as [[pre Hpre] Hcases].
  apply (f_equal String.length) in Hpre. rewrite !append_length in Hpre.
  destruct Hcases as [(? & _)|[(_ & Ht)|[(_ & Ht)|(_ & Hne & _)]]]; [done| | |].
  - rewrite Ht in Hpre. cbn [String.length] in Hpre. lia.
  - rewrite Ht in Hpre. cbn [String.length] in Hpre. lia.
  - destruct (text t); [done|]. cbn [String.length] in Hpre. lia.
Qed.

(** X1. [next_tok] returns a well-formed token and only moves forward: the
    input is what was skipped, then the token's text, then the text left; an
    end-of-input token has empty text and leaves nothing; a word is not empty
    and holds no whitespace, brace or [#]; every other token shortens the
    input. *)
Theorem next_tok_well_formed (lx : Lexer) :
  let t := (next_tok lx).1 in
  let lx' := (next_tok lx).2 in
  (∃ pre, lx = pre +:+ text t +:+ lx')
  ∧ (tok_kind t = TK_EOF ∧ text t = "" ∧ lx' = "" ∧ next_tok lx' = (t, lx')
     ∨ (tok_kind t = TK_LBRACE ∧ text t = "{"
        ∨ tok_kind t = TK_RBRACE ∧ text t = "}"
        ∨ tok_kind t = TK_WORD ∧ text t ≠ ""
          ∧ string_forall (fun c => negb (ends_word c)) (text t) = true)
       ∧ (String.length lx' < String.length lx)%nat).
Proof.
  cbv zeta. destruct (next_tok lx) as [t lx'] eqn:E. cbn [fst snd].
  destruct (next_tok_spec _ _ _ E) as [Hpre Hcases]. split; [exact Hpre|].
  destruct Hcases as [(Hk & Ht & ->)|Hrest].
  - left. split; [done|]. split; [done|]. split; [done|].
    destruct t as [k tx]. cbn in Hk, Ht. by subst.
  - right. split; [exact Hrest|]. apply (next_tok_lt _ _ _ E).
    unfold TK_EOF, TK_LBRACE, TK_RBRACE, TK_WORD in *.
    destruct Hrest as [[-> _]|[[-> _]|[-> _]]]; done.
Qed.

(** * The vocations parser terminates *)

Lemma returned_bind {A B} (n k : nat) (m : result (A * Lexer))
    (f : A * Lexer → result (B * Lexer)) :
  returned n m →
  (∀ a lx1, (String.length lx1 ≤ n)%nat → returned k (f (a, lx1))) →
  returned k (m ≫= f).
Proof.
  destruct m as [[a lx1]|msg|]; cbn; [|done..]. intros Hn Hf. by apply Hf.
Qed.

Lemma returned_weaken {A} (n k : nat) (r : result (A * Lexer)) :
  returned n r → (n ≤ k)%nat → returned k r.
Proof. destruct r as [[a lx1]|msg|]; cbn; [lia|done..]. Qed.

Lemma expect_bind {B} (lx : Lexer) (kind : Z) (k : nat)
    (f : Tok * Lexer → result (B * Lexer)) :
  kind ≠ TK_EOF →
  (∀ t lx1, (S (String.length lx1) ≤ String.length lx)%nat → returned k (f (t, lx1))) →
  returned k (expect lx kind ≫= f).
Proof.
  intros Hk Hf. unfold expect. destruct (next_tok lx) as [t lx'] eqn:E.
  destruct (tok_kind t =? kind) eqn:Ek; cbn [negb]; [|done].
  cbn [mbind result_bind]. apply Hf. pose proof (next_tok_lt _ _ _ E). lia.
Qed.

Lemma to_i32_total (s : string) : _to_i32 s ≠ OutOfFuel.
Proof. unfold _to_i32. by destruct (int_literal s). Qed.

Lemma to_f32_total (s : string) : _to_f32 s ≠ OutOfFuel.
Proof. unfold _to_f32. by destruct (float_literal s). Qed.

(** One step of a proof that a parser returns: a bind on [expect], on a
    number conversion, or a test. *)
Ltac returned_step :=
  lazymatch goal with
  | |- returned _ (mbind _ (expect _ _)) =>
      apply expect_bind; [done | intros ? ? ?]
  | |- returned _ (mbind _ (_to_i32 ?s)) =>
      let H := fresh in
      pose proof (to_i32_total s) as H; destruct (_to_i32 s); [|done|done];
      clear H; cbn [mbind result_bind]
  | |- returned _ (mbind _ (_to_f32 ?s)) =>
      let H := fresh in
      pose proof (to_f32_total s) as H; destruct (_to_f32 s); [|done|done];
      clear H; cbn [mbind result_bind]
  | |- returned _ (if ?b then _ else _) => destruct b
  | |- returned _ (match ?o with Some _ => _ | None => _ end) => destruct o
  | |- returned _ (Error _) => exact I
  | |- returned _ (Ok (_, _)) => cbn [returned]; lia
  end.

Ltac expect_step t lx H := apply expect_bind; [done | intros t lx H].

Lemma parse_clause_returned (a : Tok) (c : Condition) (lx : Lexer) (n : nat) :
  (String.length lx ≤ S n)%nat → returned n (parse_clause a c lx).
Proof.
  intros Hn. unfold parse_clause. repeat returned_step.
Qed.

Lemma parse_condition_loop_returned (fuel : nat) :
  ∀ (c : Condition) (lx : Lexer) (n : nat),
  (String.length lx < fuel)%nat → (String.length lx ≤ S n)%nat →
  returned n (parse_condition_loop fuel c lx).
Proof.
  induction fuel as [|fuel IH]; intros c lx n Hfuel Hn; [lia|].
  cbn [parse_condition_loop]. destruct (next_tok lx) as [a lx1] eqn:E1.
  destruct (tok_kind a =? TK_WORD) eqn:Ek; cbn [negb]; [|done].
  assert (String.length lx1 < String.length lx)%nat
    by (apply (next_tok_lt _ _ _ E1); unfold TK_WORD, TK_EOF in *; lia).
  eapply (returned_bind (pred (String.length lx1))).
  { apply parse_clause_returned. lia. }
  intros c2 lx2 H2. destruct (next_tok lx2) as [m lx3] eqn:E3.
  pose proof (next_tok_le lx2) as H3. rewrite E3 in H3. cbn [snd] in H3.
  destruct (is_word m "and"); [apply IH; lia|].
  destruct (is_word m "do"); cbn [negb]; [|done]. cbn. lia.
Qed.

Lemma parse_condition_returned (lx : Lexer) (n : nat) :
  (String.length lx ≤ S n)%nat → returned n (parse_condition lx).
Proof.
  intros Hn. unfold parse_condition, fuel_of.
  apply parse_condition_loop_returned; lia.
Qed.

Lemma parse_op_returned (op : Tok) (lx : Lexer) (n : nat) :
  (String.length lx ≤ n)%nat → returned n (parse_op op lx).
Proof.
  intros Hn. unfold parse_op. repeat returned_step.
Qed.

Lemma parse_ops_returned (fuel : nat) :
  ∀ (acc : list OpDef) (lx : Lexer) (n : nat),
  (String.length lx < fuel)%nat → (String.length lx ≤ S n)%nat →
  returned n (parse_ops fuel acc lx).
Proof.
  induction fuel as [|fuel IH]; intros acc lx n Hfuel Hn; [lia|].
  cbn [parse_ops]. destruct (next_tok lx) as [op lx1] eqn:E1.
  destruct (tok_kind op =? TK_RBRACE) eqn:Er.
  { cbn. pose proof (next_tok_lt _ _ _ E1). unfold TK_RBRACE, TK_EOF in *. lia. }
  destruct (tok_kind op =? TK_WORD) eqn:Ek; cbn [negb]; [|done].
  assert (String.length lx1 < String.length lx)%nat
    by (apply (next_tok_lt _ _ _ E1); unfold TK_WORD, TK_EOF in *; lia).
  eapply (returned_bind (String.length lx1)).
  { by apply parse_op_returned. }
  intros o lx2 H2. apply IH; lia.
Qed.

Lemma parse_task_returned (lx : Lexer) (voc : VocationDef) (n : nat) :
  (String.length lx ≤ S n)%nat → returned n (parse_task lx voc).
Proof.
  intros Hn. unfold parse_task. expect_step t1 lx1 H1. expect_step t2 lx2 H2.
  eapply (returned_bind (String.length lx2)).
  { eapply returned_weaken;
      [apply (parse_ops_returned (fuel_of lx2) [] lx2 (pred (String.length lx2)));
       unfold fuel_of; lia|lia]. }
  intros os lx3 H3. cbn. lia.
Qed.

Lemma parse_rule_returned (lx : Lexer) (voc : VocationDef) (n : nat) :
  (String.length lx ≤ S n)%nat → returned n (parse_rule lx voc).
Proof.
  intros Hn. unfold parse_rule.
  expect_step t1 lx1 H1. expect_step t2 lx2 H2. expect_step t3 lx3 H3. returned_step.
  { exact I. }
  eapply (returned_bind (String.length lx3)).
  { eapply returned_weaken; [apply (parse_condition_returned lx3 (pred (String.length lx3)))|];
      lia. }
  intros cnd lx4 H4. expect_step t5 lx5 H5. expect_step t6 lx6 H6. returned_step.
  { exact I. }
  expect_step t7 lx7 H7. returned_step.
  destruct (next_tok lx7) as [maybe lx8] eqn:E8.
  pose proof (next_tok_le lx7) as H8. rewrite E8 in H8. cbn [snd] in H8.
  eapply (returned_bind (String.length lx8)).
  { destruct (is_word maybe "prob"); [|cbn; lia].
    expect_step t9 lx9 H9. returned_step.
    destruct (next_tok lx9) as [maybe2 lx10] eqn:E10.
    pose proof (next_tok_le lx9) as H10. rewrite E10 in H10. cbn [snd] in H10.
    cbn. lia. }
  intros [cnd2 maybe2] lx9 H9. repeat returned_step.
Qed.

Lemma skip_block_returned (fuel : nat) :
  ∀ (depth : Z) (lx : Lexer), (String.length lx < fuel)%nat →
  match skip_block fuel depth lx with
  | Ok lx' => (String.length lx' ≤ String.length lx)%nat
  | Error _ => True
  | OutOfFuel => False
  end.
Proof.
  induction fuel as [|fuel IH]; intros depth lx Hfuel; [lia|].
  cbn [skip_block]. destruct (depth >? 0); [|lia].
  destruct (next_tok lx) as [x lx1] eqn:E1.
  pose proof (next_tok_le lx) as Hle. rewrite E1 in Hle. cbn [snd] in Hle.
  destruct (tok_kind x =? TK_EOF) eqn:Ee; [exact Hle|].
  assert (String.length lx1 < String.length lx)%nat
    by (apply (next_tok_lt _ _ _ E1); lia).
  repeat match goal with
         | |- context [if ?b then _ else _] => destruct b
         end;
    match goal with
    | |- context [skip_block fuel ?d lx1] =>
        specialize (IH d lx1 ltac:(lia)); destruct (skip_block fuel d lx1); [lia|done..]
    end.
Qed.

Lemma parse_vocation_body_returned (fuel : nat) :
  ∀ (voc : VocationDef) (lx : Lexer) (n : nat),
  (String.length lx < fuel)%nat → (String.length lx ≤ S n)%nat →
  returned n (parse_vocation_body fuel voc lx).
Proof.
  induction fuel as [|fuel IH]; intros voc lx n Hfuel Hn; [lia|].
  cbn [parse_vocation_body]. destruct (next_tok lx) as [k lx1] eqn:E1.
  destruct (tok_kind k =? TK_RBRACE) eqn:Er.
  { cbn. pose proof (next_tok_lt _ _ _ E1). unfold TK_RBRACE, TK_EOF in *. lia. }
  destruct (tok_kind k =? TK_WORD) eqn:Ek; cbn [negb]; [|done].
  assert (String.length lx1 < String.length lx)%nat
    by (apply (next_tok_lt _ _ _ E1); unfold TK_WORD, TK_EOF in *; lia).
  destruct (String.eqb (text k) "task").
  { eapply (returned_bind (String.length lx1)).
    - eapply returned_weaken;
        [apply (parse_task_returned lx1 voc (pred (String.length lx1)))|]; lia.
    - intros voc2 lx2 H2. apply IH; lia. }
  destruct (String.eqb (text k) "rule").
  { eapply (returned_bind (String.length lx1)).
    - eapply returned_weaken;
        [apply (parse_rule_returned lx1 voc (pred (String.length lx1)))|]; lia.
    - intros voc2 lx2 H2. apply IH; lia. }
  destruct (next_tok lx1) as [maybe lx2] eqn:E2.
  pose proof (next_tok_le lx1) as H2. rewrite E2 in H2. cbn [snd] in H2.
  destruct (tok_kind maybe =? TK_LBRACE); [|apply IH; lia].
  pose proof (skip_block_returned (fuel_of lx2) 1 lx2 ltac:(unfold fuel_of; lia)) as Hsk.
  destruct (skip_block (fuel_of lx2) 1 lx2) as [lx3|msg|]; [|done..].
  cbn [mbind result_bind]. apply IH; lia.
Qed.

Lemma parse_vocations_loop_returned (fuel : nat) :
  ∀ (cfg : ParsedConfig) (lx : Lexer) (n : nat),
  (String.length lx < fuel)%nat → (String.length lx ≤ S n)%nat →
  returned n (parse_vocations_loop fuel cfg lx).
Proof.
  induction fuel as [|fuel IH]; intros cfg lx n Hfuel Hn; [lia|].
  cbn [parse_vocations_loop]. destruct (next_tok lx) as [t lx1] eqn:E1.
  destruct (tok_kind t =? TK_RBRACE) eqn:Er.
  { cbn. pose proof (next_tok_lt _ _ _ E1). unfold TK_RBRACE, TK_EOF in *. lia. }
  destruct (is_word t "vocation") eqn:Ew; cbn [negb]; [|done].
  assert (String.length lx1 < String.length lx)%nat.
  { apply (next_tok_lt _ _ _ E1). unfold is_word in Ew.
    apply andb_true_iff in Ew as [Ew _]. unfold TK_WORD, TK_EOF in *. lia. }
  expect_step t2 lx2 H2. expect_step t3 lx3 H3.
  eapply (returned_bind (String.length lx3)).
  { eapply returned_weaken;
      [apply (parse_vocation_body_returned (fuel_of lx3) _ lx3 (pred (String.length lx3)));
       unfold fuel_of; lia|lia]. }
  intros voc lx4 H4. apply IH; lia.
Qed.

Lemma parse_vocations_block_returned (lx : Lexer) (cfg : ParsedConfig) :
  match parse_vocations_block lx cfg with
  | Ok (_, lx') => (String.length lx' + 2 ≤ String.length lx)%nat
  | Error _ => True
  | OutOfFuel => False
  end.
Proof.
  unfold parse_vocations_block, expect. destruct (next_tok lx) as [t1 lx1] eqn:E1.
  destruct (tok_kind t1 =? TK_LBRACE) eqn:Ek; cbn [negb]; [|done].
  cbn [mbind result_bind].
  assert (String.length lx1 < String.length lx)%nat
    by (apply (next_tok_lt _ _ _ E1); unfold TK_LBRACE, TK_EOF in *; lia).
  destruct lx1 as [|c r]; [by vm_compute|].
  pose proof (parse_vocations_loop_returned (fuel_of (String c r)) cfg (String c r)
                (String.length r)) as Hloop.
  unfold fuel_of in Hloop. cbn [String.length] in Hloop, H.
  specialize (Hloop ltac:(lia) ltac:(lia)). unfold fuel_of. cbn [String.length].
  destruct (parse_vocations_loop _ cfg (String c r)) as [[cfg' lx']|msg|]; [|done..].
  cbn in Hloop. lia.
Qed.

(** X2. [parse_vocations_block] terminates on every input: it returns the
    extended configuration or raises [ValueError], and when it returns it has
    consumed at least the two braces of the block. *)
Theorem parse_vocations_block_terminates (lx : Lexer) (cfg : ParsedConfig) :
  (∃ cfg' lx', parse_vocations_block lx cfg = Ok (cfg', lx')
               ∧ (String.length lx' + 2 ≤ String.length lx)%nat)
  ∨ ∃ msg, parse_vocations_block lx cfg = Error msg.
Proof.
  pose proof (parse_vocations_block_returned lx cfg) as H.
  destruct (parse_vocations_block lx cfg) as [[cfg' lx']|msg|]; [| |done].
  - left. by exists cfg', lx'.
  - right. by exists msg.
Qed.

(** * What the vocations parser builds *)

Lemma resource_map_range (k : string) (v : Z) :
  dict_get RESOURCE_MAP k = Some v → 0 ≤ v < RES_MAX.
Proof.
  unfold RESOURCE_MAP. cbn [dict_get].
  repeat (destruct (String.eqb _ k); [intros [= <-]; vm_compute; split; congruence|]).
  done.
Qed.

Lemma item_map_range (k : string) (v : Z) :
  dict_get ITEM_MAP k = Some v → 0 ≤ v < ITEM_MAX.
Proof.
  unfold ITEM_MAP. cbn [dict_get].
  repeat (destruct (String.eqb _ k); [intros [= <-]; vm_compute; split; congruence|]).
  done.
Qed.

Lemma tag_map_range (k : string) (v : Z) :
  dict_get TAG_MAP k = Some v → ∃ b, 0 ≤ b < 8 ∧ v = Z.shiftl 1 b.
Proof.
  unfold TAG_MAP, TAG_COAST, TAG_BEACH, TAG_FOREST, TAG_MARSH, TAG_HILL, TAG_RIVER,
    TAG_FIELD, TAG_SETTLE. cbn [dict_get].
  repeat (destruct (String.eqb _ k); [intros [= <-]; eexists; split; [|reflexivity]; lia|]).
  done.
Qed.

Lemma parse_op_parsed (op : Tok) (lx : Lexer) (o : OpDef) (lx' : Lexer) :
  parse_op op lx = Ok (o, lx') → op_parsed o.
Proof.
  unfold parse_op, op_parsed. intros H.
  repeat bind_step H; injection H as <- <-; cbn [op_kind arg_i arg_j].
  - left. split; [done|]. split; [done|]. by eapply tag_map_range.
  - right. left. split; [done|]. by eapply resource_map_range.
  - do 2 right. left. split; [done|]. by eapply item_map_range.
  - do 3 right. left. done.
  - do 4 right. left. done.
  - do 5 right. done.
Qed.

Lemma parse_ops_parsed (fuel : nat) :
  ∀ acc lx os lx', Forall op_parsed acc →
  parse_ops fuel acc lx = Ok (os, lx') → Forall op_parsed os.
Proof.
  induction fuel as [|fuel IH]; intros acc lx os lx' Hacc H; [done|].
  cbn [parse_ops] in H. repeat bind_step H.
  - by injection H as <- <-.
  - apply IH in H; [done|].
    apply Forall_app. split; [done|]. constructor; [|done]. by eapply parse_op_parsed.
Qed.

Lemma season_parse_range (s : string) :
  0 ≤ season_parse s ≤ SEASON_WINTER ∨ season_parse s = SEASON_ANY.
Proof.
  unfold season_parse. cbv zeta.
  repeat (match goal with |- context [if ?b then _ else _] => destruct b end);
    unfold SEASON_SPRING, SEASON_SUMMER, SEASON_AUTUMN, SEASON_WINTER, SEASON_ANY;
    first [left; lia | by right].
Qed.

Lemma parse_cmp_range (s : string) :
  parse_cmp s = CMP_ANY ∨ CMP_GT ≤ parse_cmp s ≤ CMP_LE.
Proof.
  unfold parse_cmp, CMP_ANY, CMP_GT, CMP_LT, CMP_GE, CMP_LE.
  repeat (match goal with |- context [if ?b then _ else _] => destruct b end);
    first [by left | right; lia].
Qed.

Lemma cond_parsed_new : cond_parsed Condition_new.
Proof.
  unfold cond_parsed, Condition_new. cbn.
  split_and!; try done; try lia; try (by right).
  right. exists 0%Q. split; [done|]. split; lra.
Qed.

(** [max(0.0, min(1.0, pv))] lies within [0,1], also for NaN, which [min]
    replaces by its first argument. *)
Lemma py_clamp_range (v : pyfloat) :
  ∃ q : Q, py_max 0 (py_min 1 v) = Fin q ∧ (0 <= q)%Q ∧ (q <= 1)%Q.
Proof.
  unfold py_max, py_min. destruct v as [q| | |]; cbn [pf_lt].
  - destruct (flt_spec q 1); cbn [pf_lt].
    + destruct (flt_spec 0 q); eexists; (split; [reflexivity|]); split; lra.
    + destruct (flt_spec 0 1); eexists; (split; [reflexivity|]); split; lra.
  - destruct (flt_spec 0 1); eexists; (split; [reflexivity|]); split; lra.
  - exists 0%Q. split; [reflexivity|]. split; lra.
  - destruct (flt_spec 0 1); eexists; (split; [reflexivity|]); split; lra.
Qed.

(** The clamps [if v < 0: v = 0.0] and [if v > 1: v = 1.0] of a [prob]
    clause leave a value within [0,1] or NaN. *)
Lemma prob_clamp_range (v : pyfloat) :
  let v1 := if pf_lt v 0 then Fin 0 else v in
  let v2 := if pf_lt 1 v1 then Fin 1 else v1 in
  v2 = NaN ∨ ∃ q : Q, v2 = Fin q ∧ (0 <= q)%Q ∧ (q <= 1)%Q.
Proof.
  destruct v as [q| | |]; cbn [pf_lt]; cbv zeta.
  - right. destruct (flt_spec q 0); cbn [pf_lt].
    + destruct (flt_spec 1 0); eexists; (split; [reflexivity|]); split; lra.
    + destruct (flt_spec 1 q); eexists; (split; [reflexivity|]); split; lra.
  - right. exists 1%Q. split; [reflexivity|]. split; lra.
  - right. cbn [pf_lt]. destruct (flt_spec 1 0); eexists; (split; [reflexivity|]); split; lra.
  - by left.
Qed.

Lemma parse_clause_parsed (a : Tok) (c c' : Condition) (lx lx' : Lexer) :
  cond_parsed c → parse_clause a c lx = Ok (c', lx') → cond_parsed c'.
Proof.
  intros (Hl1 & Hl2 & Hl4 & Hit & Hcmp & Hse & Hpr) H. unfold parse_clause in H.
  repeat bind_step H; injection H as <- <-; unfold cond_parsed;
    cbn [inv_item inv_cmp inv_value season_eq prob].
  - tauto.
  - tauto.
  - pose proof (season_parse_range (text t0)). tauto.
  - rewrite !length_app. cbn [length].
    assert ((Z.of_nat (length (inv_item c)) >=? 4) = false) as Hlen by done.
    split; [lia|]. split; [lia|]. split; [lia|]. split; [|split; [|tauto]].
    + apply Forall_app. split; [done|]. constructor; [|done].
      by eapply item_map_range.
    + apply Forall_app. split; [done|]. constructor; [|done].
      destruct (parse_cmp_range (text t0)) as [Hany|Hr]; [|done].
      rewrite Hany in *. done.
  - split; [done|]. split; [done|]. split; [done|]. split; [done|]. split; [done|].
    split; [done|]. apply prob_clamp_range.
Qed.

Lemma parse_condition_loop_parsed (fuel : nat) :
  ∀ c lx c' lx', cond_parsed c →
  parse_condition_loop fuel c lx = Ok (c', lx') → cond_parsed c'.
Proof.
  induction fuel as [|fuel IH]; intros c lx c' lx' Hc H; [done|].
  cbn [parse_condition_loop] in H. repeat bind_step H.
  - eapply IH; [|exact H]. by eapply parse_clause_parsed.
  - injection H as <- <-. by eapply parse_clause_parsed.
Qed.

Lemma parse_task_parsed (lx lx' : Lexer) (voc voc' : VocationDef) :
  voc_parsed voc → parse_task lx voc = Ok (voc', lx') → voc_parsed voc'.
Proof.
  intros [Ht Hr] H. unfold parse_task in H. repeat bind_step H.
  injection H as <- <-. split; [|done]. cbn [tasks].
  apply Forall_app. split; [done|]. constructor; [|done]. cbn [ops].
  by eapply parse_ops_parsed.
Qed.

Lemma parse_rule_parsed (lx lx' : Lexer) (voc voc' : VocationDef) :
  voc_parsed voc → parse_rule lx voc = Ok (voc', lx') → voc_parsed voc'.
Proof.
  intros [Ht Hr] H. unfold parse_rule in H.
  repeat bind_step H.
  all: match goal with
       | Hc : parse_condition _ = Ok (?c, _) |- _ =>
           assert (cond_parsed c)
             by (unfold parse_condition in Hc;
                 eapply parse_condition_loop_parsed; [apply cond_parsed_new|exact Hc])
       end.
  all: injection H as <- <-; (split; [done|]); cbn [rules];
    (apply Forall_app; split; [done|]); (constructor; [|done]); cbn [cond].
  match goal with
  | Hp : (if _ then _ else _) = Ok (?c0, _, _) |- _ => rename Hp into Hprob
  end.
  repeat bind_step Hprob; injection Hprob as <- _ _; [|done].
  match goal with Hc : cond_parsed _ |- _ => destruct Hc as (? & ? & ? & ? & ? & ? & ?) end.
  unfold cond_parsed. cbn [inv_item inv_cmp inv_value season_eq prob].
  split_and!; try done. right. apply py_clamp_range.
Qed.

Lemma repair_spec_parsed (v : VocationDef) : voc_parsed v → voc_parsed (repair_spec v).
Proof.
  intros [Ht Hr]. unfold repair_spec.
  destruct (tasks v) as [|t0 ts] eqn:Hts.
  - destruct (rules v) as [|r rs] eqn:Hrs.
    + unfold voc_parsed. rewrite Hts, Hrs. done.
    + split; cbn [tasks rules].
      * constructor; [|done]. cbn. constructor; [|done].
        do 4 right. left. done.
      * apply Forall_forall. intros r' (r0 & -> & Hin)%list_elem_of_fmap.
        rewrite Forall_forall in Hr. unfold set_task_name. cbn [cond]. by apply Hr.
  - split; cbn [tasks rules]; [done|].
    apply Forall_forall. intros r' (r0 & -> & Hin)%list_elem_of_fmap.
    rewrite Forall_forall in Hr.
    case_bool_decide; unfold set_task_name; cbn [cond]; by apply Hr.
Qed.

Lemma parse_vocation_body_parsed (fuel : nat) :
  ∀ voc lx voc' lx', voc_parsed voc →
  parse_vocation_body fuel voc lx = Ok (voc', lx') → voc_parsed voc'.
Proof.
  induction fuel as [|fuel IH]; intros voc lx voc' lx' Hv H; [done|].
  cbn [parse_vocation_body] in H.
  destruct (next_tok lx) as [k lx1].
  destruct (tok_kind k =? TK_RBRACE); [by injection H as <- <-|].
  destruct (negb (tok_kind k =? TK_WORD)); [done|].
  destruct (String.eqb (text k) "task").
  { do 2 bind_step H. eapply IH; [|exact H]. by eapply parse_task_parsed. }
  destruct (String.eqb (text k) "rule").
  { do 2 bind_step H. eapply IH; [|exact H]. by eapply parse_rule_parsed. }
  repeat bind_step H; by eapply IH.
Qed.

Lemma parse_vocations_loop_parsed (fuel : nat) :
  ∀ cfg lx cfg' lx', Forall voc_parsed (vocations (voc_table cfg)) →
  parse_vocations_loop fuel cfg lx = Ok (cfg', lx') →
  Forall voc_parsed (vocations (voc_table cfg')).
Proof.
  induction fuel as [|fuel IH]; intros cfg lx cfg' lx' Hv H; [done|].
  cbn [parse_vocations_loop] in H.
  destruct (next_tok lx) as [t lx1].
  destruct (tok_kind t =? TK_RBRACE); [by injection H as <- <-|].
  destruct (negb (is_word t "vocation")); [done|].
  repeat bind_step H. eapply IH; [|exact H].
  unfold set_voc_table. cbn [voc_table voc_add vocations].
  apply Forall_app. split; [done|]. constructor; [|done].
  rewrite postfix_rules_spec. apply repair_spec_parsed.
  match goal with
  | Hb : parse_vocation_body _ _ _ = Ok _ |- _ =>
      eapply parse_vocation_body_parsed; [|exact Hb]
  end.
  split; constructor.
Qed.

(** X3. Every vocation that [parse_vocations_block] adds is well formed:
    each op has one of the six kinds, a [gather] names a resource ordinal
    below 14, a [craft] an item ordinal below 9, a [move_to] one of the eight
    tag bits; each rule's condition holds at most four inventory clauses over
    item ordinals below 9 with one of the four comparisons, a season or ANY,
    and a probability that lies within [0,1] or is NaN (the clause
    [prob nan] is read and kept: neither clamp of the clause catches NaN).
    A table that is well formed stays so. *)
Theorem parse_vocations_well_formed (lx lx' : Lexer) (cfg cfg' : ParsedConfig) :
  parse_vocations_block lx cfg = Ok (cfg', lx') →
  Forall voc_parsed (vocations (voc_table cfg)) →
  Forall voc_parsed (vocations (voc_table cfg')).
Proof.
  unfold parse_vocations_block. intros H Hv. repeat bind_step H.
  by eapply parse_vocations_loop_parsed.
Qed.

Lemma parse_vocations_well_formed_witness :
  (∃ cfg' lx',
     parse_vocations_block fisher_farmer_src ParsedConfig_new = Ok (cfg', lx')
     ∧ Forall voc_parsed (vocations (voc_table cfg')))
  ∧ ∃ cfg' lx' c,
      parse_vocations_block
        "{ vocation v { rule r { when prob nan and prob -inf do t weight 1 } rule q { when prob nan do t weight 1 prob nan } } }"
        ParsedConfig_new = Ok (cfg', lx')
      ∧ Forall voc_parsed (vocations (voc_table cfg'))
      ∧ parse_condition "prob nan do t" = Ok (c, " t") ∧ prob c = NaN
      ∧ map (fun v => map (fun r => prob (cond r)) (rules v)) (vocations (voc_table cfg'))
        = [[Fin 0; Fin 1]].
Proof.
  split.
  - destruct (parse_vocations_block fisher_farmer_src ParsedConfig_new)
      as [[cfg' lx']|msg|] eqn:E; [|vm_compute in E; discriminate E..].
    exists cfg', lx'. split; [reflexivity|].
    apply (parse_vocations_well_formed _ _ _ _ E). constructor.
  - match goal with
    | |- ∃ cfg' lx' c, parse_vocations_block ?src _ = _ ∧ _ =>
        destruct (parse_vocations_block src ParsedConfig_new)
          as [[cfg' lx']|msg|] eqn:E; [|vm_compute in E; discriminate E..]
    end.
    eexists cfg', lx', _. split; [reflexivity|]. split.
    { apply (parse_vocations_well_formed _ _ _ _ E). constructor. }
    split; [vm_compute; reflexivity|]. split; [reflexivity|].
    vm_compute in E. injection E as <- _. reflexivity.
Defined.

(** * The file parser *)

Lemma to_u32_range (s : string) (n : Z) : _to_u32 s = Ok n → 0 ≤ n < 2 ^ 32.
Proof.
  unfold _to_u32. intros H. bind_step H. injection H as <-.
  change MASK32 with (Z.ones 32). rewrite Z.land_ones by lia.
  apply Z.mod_pos_bound. lia.
Qed.

Lemma cfg_parsed_new : cfg_parsed ParsedConfig_new.
Proof. unfold cfg_parsed, ParsedConfig_new. cbn. split_and!; try lia; constructor. Qed.

Ltac kv_cases H :=
  repeat bind_step H; injection H as <-;
  unfold cfg_parsed, set_seed, set_days, set_agent_count, set_settlement_count,
    set_cache_max, set_snapshot_every_days, set_map_every_days, set_renew in *;
  cbn [cfg_seed agent_count settlement_count cache_max voc_table] in *.

Lemma world_kv_parsed (k v : string) (cfg cfg' : ParsedConfig) :
  cfg_parsed cfg → world_kv k v cfg = Ok cfg' → cfg_parsed cfg'.
Proof.
  intros Hc H. unfold world_kv in H. kv_cases H; try tauto.
  - match goal with Hs : _to_u32 _ = Ok _ |- _ => apply to_u32_range in Hs end. tauto.
  - split_and!; try tauto; lia.
  - split_and!; try tauto; lia.
  - split_and!; try tauto; lia.
Qed.

Lemma sim_kv_parsed (k v : string) (cfg cfg' : ParsedConfig) :
  cfg_parsed cfg → sim_kv k v cfg = Ok cfg' → cfg_parsed cfg'.
Proof.
  intros Hc H. unfold sim_kv in H. kv_cases H; try tauto.
  split_and!; try tauto; lia.
Qed.

Lemma agents_kv_parsed (k v : string) (cfg cfg' : ParsedConfig) :
  cfg_parsed cfg → agents_kv k v cfg = Ok cfg' → cfg_parsed cfg'.
Proof.
  intros Hc H. unfold agents_kv in H. kv_cases H; try tauto.
  split_and!; try tauto; lia.
Qed.

Lemma settlements_kv_parsed (k v : string) (cfg cfg' : ParsedConfig) :
  cfg_parsed cfg → settlements_kv k v cfg = Ok cfg' → cfg_parsed cfg'.
Proof.
  intros Hc H. unfold settlements_kv in H. kv_cases H; try tauto.
  split_and!; try tauto; lia.
Qed.

Lemma resources_kv_parsed (k v : string) (cfg cfg' : ParsedConfig) :
  cfg_parsed cfg → resources_kv k v cfg = Ok cfg' → cfg_parsed cfg'.
Proof. intros Hc H. unfold resources_kv in H. kv_cases H. tauto. Qed.

Lemma kv_loop_keeps (P : ParsedConfig → Prop)
    (kv : string → string → ParsedConfig → result ParsedConfig) (fuel : nat) :
  (∀ k v cfg cfg', P cfg → kv k v cfg = Ok cfg' → P cfg') →
  ∀ cfg lx cfg' lx', P cfg → kv_loop fuel kv cfg lx = Ok (cfg', lx') → P cfg'.
Proof.
  intros Hkv. induction fuel as [|fuel IH]; intros cfg lx cfg' lx' Hc H; [done|].
  cbn [kv_loop] in H. destruct (next_tok lx) as [k lx1].
  destruct (tok_kind k =? TK_RBRACE); [by injection H as <- <-|].
  destruct (negb (tok_kind k =? TK_WORD)); [by eapply IH|].
  repeat bind_step H. eapply IH; [|exact H]. by eapply Hkv.
Qed.

Lemma kv_block_keeps (P : ParsedConfig → Prop)
    (kv : string → string → ParsedConfig → result ParsedConfig) (fuel : nat)
    (cfg cfg' : ParsedConfig) (lx lx' : Lexer) :
  (∀ k v cfg cfg', P cfg → kv k v cfg = Ok cfg' → P cfg') →
  P cfg → kv_block fuel kv cfg lx = Ok (cfg', lx') → P cfg'.
Proof.
  intros Hkv Hc H. unfold kv_block in H. repeat bind_step H.
  by eapply kv_loop_keeps.
Qed.

(** The vocations block changes the vocation table only. *)
Lemma parse_vocations_loop_frame (fuel : nat) :
  ∀ cfg lx cfg' lx', parse_vocations_loop fuel cfg lx = Ok (cfg', lx') →
  cfg' = set_voc_table cfg (voc_table cfg').
Proof.
  induction fuel as [|fuel IH]; intros cfg lx cfg' lx' H; [done|].
  cbn [parse_vocations_loop] in H. destruct (next_tok lx) as [t lx1].
  destruct (tok_kind t =? TK_RBRACE).
  { injection H as <- <-. by destruct cfg. }
  destruct (negb (is_word t "vocation")); [done|].
  repeat bind_step H. apply IH in H. rewrite H at 1. reflexivity.
Qed.

Lemma parse_vocations_block_parsed (lx lx' : Lexer) (cfg cfg' : ParsedConfig) :
  cfg_parsed cfg → parse_vocations_block lx cfg = Ok (cfg', lx') → cfg_parsed cfg'.
Proof.
  intros (Hs & Ha & Hst & Hcm & Hvp & Hvo) H. unfold parse_vocations_block in H.
  repeat bind_step H.
  pose proof (parse_vocations_loop_frame _ _ _ _ _ H) as Hfr.
  pose proof (parse_vocations_loop_parsed _ _ _ _ _ Hvp H) as Hvp'.
  destruct (parse_vocations_loop_spec _ _ _ _ _ H) as [raw Hraw].
  assert (Hsc : cfg_seed cfg' = cfg_seed cfg ∧ agent_count cfg' = agent_count cfg
                ∧ settlement_count cfg' = settlement_count cfg
                ∧ cache_max cfg' = cache_max cfg) by (by rewrite Hfr).
  unfold cfg_parsed. destruct Hsc as (-> & -> & -> & ->). split_and!; try done; try lia.
  rewrite Hraw. apply Forall_app. split; [done|].
  apply Forall_forall. intros v (v0 & -> & _)%list_elem_of_fmap. apply repair_spec_ok.
Qed.

Lemma parse_block_parsed (fuel : nat) (t : Tok) (cfg cfg' : ParsedConfig) (lx lx' : Lexer) :
  cfg_parsed cfg → parse_block fuel t cfg lx = Ok (cfg', lx') → cfg_parsed cfg'.
Proof.
  intros Hc H. unfold parse_block in H.
  destruct (String.eqb (text t) "world");
    [by eapply kv_block_keeps; [apply world_kv_parsed| |exact H]|].
  destruct (String.eqb (text t) "sim");
    [by eapply kv_block_keeps; [apply sim_kv_parsed| |exact H]|].
  destruct (String.eqb (text t) "agents");
    [by eapply kv_block_keeps; [apply agents_kv_parsed| |exact H]|].
  destruct (String.eqb (text t) "settlements");
    [by eapply kv_block_keeps; [apply settlements_kv_parsed| |exact H]|].
  destruct (String.eqb (text t) "resources");
    [by eapply kv_block_keeps; [apply resources_kv_parsed| |exact H]|].
  destruct (String.eqb (text t) "vocations");
    [by eapply parse_vocations_block_parsed|].
  repeat bind_step H; by injection H as <- <-.
Qed.

Lemma parse_top_parsed (fuel : nat) :
  ∀ cfg t lx cfg', cfg_parsed cfg → parse_top fuel cfg t lx = Ok cfg' → cfg_parsed cfg'.
Proof.
  induction fuel as [|fuel IH]; intros cfg t lx cfg' Hc H; [done|].
  cbn [parse_top] in H.
  destruct (tok_kind t =? TK_EOF); [by injection H as <-|].
  destruct (negb (tok_kind t =? TK_WORD)).
  { destruct (next_tok lx) as [t1 lx1]. by eapply IH. }
  destruct (parse_block fuel t cfg lx) as [[cfg1 lx1]|msg|] eqn:E; [|done..].
  destruct (next_tok lx1) as [t2 lx2]. eapply IH; [|exact H].
  by eapply parse_block_parsed.
Qed.

(** X4. Whatever file parses, the configuration it yields has a seed within
    32 bits, at least one agent, at least one settlement and a cache of at
    least 16 chunks, every vocation of its table is well formed, and every
    rule names a task of its vocation. *)
Theorem parse_bronze_src_parsed (fuel : nat) (src : string) (cfg : ParsedConfig) :
  parse_bronze_src fuel src = Ok cfg → cfg_parsed cfg.
Proof.
  unfold parse_bronze_src. destruct (next_tok src) as [t lx]. intros H.
  eapply parse_top_parsed; [|exact H]. apply cfg_parsed_new.
Qed.

Lemma parse_bronze_src_parsed_witness :
  ∃ cfg, parse_bronze_src 100 example_bronze_src = Ok cfg
         ∧ cfg_seed cfg = 0 ∧ agent_count cfg = 1 ∧ cache_max cfg = 16
         ∧ cfg_parsed cfg.
Proof.
  destruct (parse_bronze_src 100 example_bronze_src) as [cfg|msg|] eqn:E;
    [|vm_compute in E; discriminate E..].
  exists cfg. split; [reflexivity|].
  pose proof (parse_bronze_src_parsed _ _ _ E) as Hp.
  vm_compute in E. injection E as <-. split_and!; try reflexivity. exact Hp.
Defined.

Lemma next_tok_eof (lx : Lexer) (t : Tok) (lx' : Lexer) :
  next_tok lx = (t, lx') → tok_kind t = TK_EOF → lx' = "" ∧ next_tok "" = (t, "").
Proof.
  intros E Hk. destruct (next_tok_spec _ _ _ E) as [_ Hcases].
  unfold TK_EOF, TK_LBRACE, TK_RBRACE, TK_WORD in *.
  destruct Hcases as [(_ & Ht & ->)|[(? & _)|[(? & _)|(? & _)]]]; try congruence.
  split; [done|]. destruct t as [k tx]. cbn in Hk, Ht. by subst.
Qed.

(** At the end of the input the loop of a block of settings goes on for
    ever: the end-of-input token is neither a word nor a closing brace. *)
Lemma kv_loop_eof (fuel : nat) (kv : string → string → ParsedConfig → result ParsedConfig) :
  ∀ cfg lx, tok_kind (next_tok lx).1 = TK_EOF → kv_loop fuel kv cfg lx = OutOfFuel.
Proof.
  induction fuel as [|fuel IH]; intros cfg lx Hk; [done|].
  cbn [kv_loop]. destruct (next_tok lx) as [t lx1] eqn:E. cbn [fst] in Hk.
  destruct (next_tok_eof _ _ _ E Hk) as [-> Hnext].
  rewrite Hk. change (TK_EOF =? TK_RBRACE) with false. change (TK_EOF =? TK_WORD) with false.
  cbn [negb]. apply IH. by rewrite Hnext.
Qed.

Lemma string_forall_app (p : ascii → bool) (a b : string) :
  string_forall p (a +:+ b) = string_forall p a && string_forall p b.
Proof.
  induction a as [|c a IH]; [done|].
  rewrite append_cons. cbn [string_forall]. by rewrite IH, andb_assoc.
Qed.

(** In a text without [}] no token is a closing brace, and the text left
    after a token holds none either. *)
Lemma next_tok_no_rbrace (lx : Lexer) (t : Tok) (lx' : Lexer) :
  next_tok lx = (t, lx') →
  string_forall (fun c => negb (Ascii.eqb c "}")) lx = true →
  (tok_kind t =? TK_RBRACE) = false
  ∧ string_forall (fun c => negb (Ascii.eqb c "}")) lx' = true.
Proof.
  intros E Hno. destruct (next_tok_spec _ _ _ E) as [[pre Hpre] Hcases].
  rewrite Hpre, !string_forall_app in Hno.
  apply andb_prop in Hno as [_ Hno]. apply andb_prop in Hno as [Htxt Hrest].
  split; [|exact Hrest].
  unfold TK_EOF, TK_LBRACE, TK_RBRACE, TK_WORD in *.
  destruct Hcases as [(-> & _)|[(-> & _)|[(_ & Ht)|(-> & _)]]]; try reflexivity.
  rewrite Ht in Htxt. discriminate Htxt.
Qed.

Lemma kv_loop_no_rbrace (fuel : nat)
    (kv : string → string → ParsedConfig → result ParsedConfig) :
  ∀ cfg lx cfg' lx',
  string_forall (fun c => negb (Ascii.eqb c "}")) lx = true →
  kv_loop fuel kv cfg lx ≠ Ok (cfg', lx').
Proof.
  induction fuel as [|fuel IH]; intros cfg lx cfg' lx' Hno; [done|].
  cbn [kv_loop]. destruct (next_tok lx) as [k lx1] eqn:E.
  destruct (next_tok_no_rbrace _ _ _ E Hno) as [-> Hno1].
  destruct (negb (tok_kind k =? TK_WORD)); [by apply IH|].
  unfold expect. destruct (next_tok lx1) as [v lx2] eqn:E2.
  destruct (next_tok_no_rbrace _ _ _ E2 Hno1) as [_ Hno2].
  destruct (negb (tok_kind v =? TK_WORD)); [done|].
  unfold mbind. cbn [result_bind].
  destruct (kv (text k) (text v) cfg) as [cfg1| |]; [|done..].
  cbn [result_bind]. by apply IH.
Qed.

(** X5. A [world], [sim], [agents], [settlements] or [resources] block that
    is never closed yields no configuration, wherever it stands in the file
    (whatever was read before it): when no [}] follows its opening brace,
    then after any number of steps the parser has either raised
    [ValueError] (a key that is not followed by a value word, or a value that
    does not convert) or is still in the loop of the block, which passes over
    the end-of-input token as over any token that is neither a word nor a
    closing brace.  When the input ends right after the opening brace, the
    parser loops for ever. *)
Theorem unterminated_block_never_returns (fuel : nat) (cfg : ParsedConfig) (name : string)
    (lx1 lx2 : Lexer) :
  name ∈ kv_block_names →
  next_tok lx1 = (mkTok TK_LBRACE "{", lx2) →
  string_forall (fun c => negb (Ascii.eqb c "}")) lx2 = true →
  (∀ cfg', parse_top fuel cfg (mkTok TK_WORD name) lx1 ≠ Ok cfg')
  ∧ (∀ src cfg', next_tok src = (mkTok TK_WORD name, lx1) →
                 parse_bronze_src fuel src ≠ Ok cfg')
  ∧ (tok_kind (next_tok lx2).1 = TK_EOF →
     parse_top fuel cfg (mkTok TK_WORD name) lx1 = OutOfFuel).
Proof.
  intros Hname E2 Hno.
  assert (Hblock : ∀ f c,
            parse_block f (mkTok TK_WORD name) c lx1
            = kv_loop f (if String.eqb name "world" then world_kv
                         else if String.eqb name "sim" then sim_kv
                         else if String.eqb name "agents" then agents_kv
                         else if String.eqb name "settlements" then settlements_kv
                         else resources_kv) c lx2).
  { intros f c. unfold parse_block, kv_block, expect. cbn [text]. rewrite E2.
    cbn [tok_kind]. change (TK_LBRACE =? TK_LBRACE) with true.
    cbn [negb mbind result_bind].
    unfold kv_block_names in Hname. apply list_elem_of_In in Hname. cbn [In] in Hname.
    destruct Hname as [<-|[<-|[<-|[<-|[<-|[]]]]]]; reflexivity. }
  assert (Htop : ∀ f c cfg', parse_top f c (mkTok TK_WORD name) lx1 ≠ Ok cfg').
  { intros f c cfg'. destruct f as [|f]; [done|]. cbn [parse_top tok_kind].
    change (TK_WORD =? TK_EOF) with false. change (TK_WORD =? TK_WORD) with true.
    cbn [negb]. rewrite Hblock.
    match goal with
    | |- context [kv_loop f ?kv c lx2] =>
        pose proof (kv_loop_no_rbrace f kv c lx2) as Hk;
        destruct (kv_loop f kv c lx2) as [[c1 l1]| |]; [|done..]
    end.
    exfalso. by eapply Hk. }
  split; [apply Htop|]. split.
  - intros src cfg' E1. unfold parse_bronze_src. rewrite E1. apply Htop.
  - intros Heof. destruct fuel as [|fuel]; [done|]. cbn [parse_top tok_kind].
    change (TK_WORD =? TK_EOF) with false. change (TK_WORD =? TK_WORD) with true.
    cbn [negb]. rewrite Hblock. by rewrite kv_loop_eof.
Qed.

(** A key without a value raises, a block that ends after its brace or
    after a pair loops: in no case does the parser return. *)
Lemma unterminated_block_never_returns_witness :
  (∀ cfg', parse_bronze_src 1000 "world { seed" ≠ Ok cfg')
  ∧ (∃ msg, parse_bronze_src 1000 "world { seed" = Error msg)
  ∧ parse_bronze_src 1000 ("resources {  # nothing follows" +:+ nl) = OutOfFuel
  ∧ parse_bronze_src 1000 "sim { days 5 " = OutOfFuel.
Proof.
  split; [|split; [|split]].
  - intros cfg'.
    destruct (unterminated_block_never_returns 1000 ParsedConfig_new "world" " { seed" " seed")
      as (_ & H & _).
    + apply list_elem_of_In. cbn. tauto.
    + vm_compute. reflexivity.
    + vm_compute. reflexivity.
    + apply H. vm_compute. reflexivity.
  - eexists. vm_compute. reflexivity.
  - destruct (unterminated_block_never_returns 1000 ParsedConfig_new "resources"
                (" {  # nothing follows" +:+ nl) ("  # nothing follows" +:+ nl))
      as (_ & _ & H).
    + apply list_elem_of_In. cbn. tauto.
    + vm_compute. reflexivity.
    + vm_compute. reflexivity.
    + unfold parse_bronze_src.
      change (next_tok ("resources {  # nothing follows" +:+ nl))
        with (mkTok TK_WORD "resources", " {  # nothing follows" +:+ nl).
      apply H. vm_compute. reflexivity.
  - vm_compute. reflexivity.
Defined.


(** * Crafting *)

(** An agent with a given inventory and fatigue, the rest kept. *)
Lemma agent_eta (a : Agent) : set_fatigue (set_inv a (inv a)) (fatigue a) = a.
Proof. by destruct a. Qed.

Lemma craft_loop_pots (n : nat) :
  ∀ (a : Agent) (f g w c cu t b tl p : Z),
  inv a = [f; g; w; c; cu; t; b; tl; p] →
  let k := Z.max 0 (Z.min (Z.of_nat n) (Z.min (c / 2) w)) in
  ∃ fa, craft_loop n a ITEM_POT
        = Some (set_fatigue (set_inv a [f; g; w - k; c - 2 * k; cu; t; b; tl; p + k]) fa)
        ∧ (fa == fatigue a + inject_Z k * (1 # 100))%Q.
Proof.
  induction n as [|n IH]; intros a f g w c cu t b tl p Hinv k.
  { exists (fatigue a). cbn [craft_loop]. subst k.
    replace (Z.max 0 _) with 0 by (Z.div_mod_to_equations; lia).
    rewrite !Z.sub_0_r, Z.add_0_r, <- Hinv, agent_eta. split; [done|]. cbn. ring. }
  cbn [craft_loop]. unfold craft_once.
  destruct a as [ax ay avid aage ahid ainv hu fa0 he]. cbn [inv fatigue] in *. subst ainv.
  agent_eval. change (8 =? 8) with true. cbv iota.
  destruct (c >=? 2) eqn:Ec; agent_eval; [destruct (w >=? 1) eqn:Ew; agent_eval|].
  - destruct (IH (mkAgent ax ay avid aage ahid
                     [f; g; w + -1; c + -2; cu; t; b; tl; p + 1] hu (fa0 + (1 # 100))%Q he)
                _ _ _ _ _ _ _ _ _ eq_refl) as (fa & Hl & Hfa).
    change ITEM_POT with 8 in Hl. rewrite Hl. clear Hl.
    cbn [fatigue] in Hfa. exists fa.
    assert (Hk : k = Z.max 0 (Z.min (Z.of_nat n) (Z.min ((c + -2) / 2) (w + -1))) + 1)
      by (subst k; Z.div_mod_to_equations; lia).
    set (k' := Z.max 0 _) in *. split.
    + unfold set_fatigue, set_inv. cbn [ag_x ag_y vocation_id age household_id inv hunger health].
      do 2 f_equal. rewrite Hk. repeat (f_equal; try lia).
    + rewrite Hfa, Hk, inject_Z_plus. cbn. ring.
  - destruct (IH (mkAgent ax ay avid aage ahid [f; g; w; c; cu; t; b; tl; p] hu fa0 he)
                _ _ _ _ _ _ _ _ _ eq_refl) as (fa & Hl & Hfa).
    change ITEM_POT with 8 in Hl. rewrite Hl. clear Hl. cbn [fatigue] in Hfa. exists fa.
    assert (Hk : k = Z.max 0 (Z.min (Z.of_nat n) (Z.min (c / 2) w)))
      by (subst k; Z.div_mod_to_equations; lia).
    rewrite Hk. done.
  - destruct (IH (mkAgent ax ay avid aage ahid [f; g; w; c; cu; t; b; tl; p] hu fa0 he)
                _ _ _ _ _ _ _ _ _ eq_refl) as (fa & Hl & Hfa).
    change ITEM_POT with 8 in Hl. rewrite Hl. clear Hl. cbn [fatigue] in Hfa. exists fa.
    assert (Hk : k = Z.max 0 (Z.min (Z.of_nat n) (Z.min (c / 2) w)))
      by (subst k; Z.div_mod_to_equations; lia).
    rewrite Hk. done.
Qed.

Lemma craft_loop_bronze (n : nat) :
  ∀ (a : Agent) (f g w c cu t b tl p : Z),
  inv a = [f; g; w; c; cu; t; b; tl; p] →
  let k := Z.max 0 (Z.min (Z.of_nat n) (Z.min (Z.min cu t) (w / 2))) in
  ∃ fa, craft_loop n a ITEM_BRONZE
        = Some (set_fatigue (set_inv a [f; g; w - 2 * k; c; cu - k; t - k; b + k; tl; p]) fa)
        ∧ (fa == fatigue a + inject_Z k * (2 # 100))%Q.
Proof.
  induction n as [|n IH]; intros a f g w c cu t b tl p Hinv k.
  { exists (fatigue a). cbn [craft_loop]. subst k.
    replace (Z.max 0 _) with 0 by (Z.div_mod_to_equations; lia).
    rewrite !Z.sub_0_r, Z.add_0_r, <- Hinv, agent_eta. split; [done|]. cbn. ring. }
  cbn [craft_loop]. unfold craft_once.
  destruct a as [ax ay avid aage ahid ainv hu fa0 he]. cbn [inv fatigue] in *. subst ainv.
  agent_eval. change (6 =? 8) with false. change (6 =? 6) with true. cbv iota.
  destruct (cu >=? 1) eqn:Ec; agent_eval;
    [destruct (t >=? 1) eqn:Et; agent_eval; [destruct (w >=? 2) eqn:Ew; agent_eval|]|].
  1: destruct (IH (mkAgent ax ay avid aage ahid
                     [f; g; w + -2; c; cu + -1; t + -1; b + 1; tl; p] hu
                     (fa0 + (2 # 100))%Q he)
                _ _ _ _ _ _ _ _ _ eq_refl) as (fa & Hl & Hfa).
  2-4: destruct (IH (mkAgent ax ay avid aage ahid [f; g; w; c; cu; t; b; tl; p] hu fa0 he)
                _ _ _ _ _ _ _ _ _ eq_refl) as (fa & Hl & Hfa).
  all: change ITEM_BRONZE with 6 in Hl; rewrite Hl; clear Hl; cbn [fatigue] in Hfa; exists fa.
  - assert (Hk : k = Z.max 0 (Z.min (Z.of_nat n)
                                 (Z.min (Z.min (cu + -1) (t + -1)) ((w + -2) / 2))) + 1)
      by (subst k; Z.div_mod_to_equations; lia).
    set (k' := Z.max 0 _) in *. split.
    + unfold set_fatigue, set_inv. cbn [ag_x ag_y vocation_id age household_id inv hunger health].
      do 2 f_equal. rewrite Hk. repeat (f_equal; try lia).
    + rewrite Hfa, Hk, inject_Z_plus. cbn. ring.
  - assert (Hk : k = Z.max 0 (Z.min (Z.of_nat n) (Z.min (Z.min cu t) (w / 2))))
      by (subst k; Z.div_mod_to_equations; lia).
    rewrite Hk. done.
  - assert (Hk : k = Z.max 0 (Z.min (Z.of_nat n) (Z.min (Z.min cu t) (w / 2))))
      by (subst k; Z.div_mod_to_equations; lia).
    rewrite Hk. done.
  - assert (Hk : k = Z.max 0 (Z.min (Z.of_nat n) (Z.min (Z.min cu t) (w / 2))))
      by (subst k; Z.div_mod_to_equations; lia).
    rewrite Hk. done.
Qed.

Lemma craft_loop_tools (n : nat) :
  ∀ (a : Agent) (f g w c cu t b tl p : Z),
  inv a = [f; g; w; c; cu; t; b; tl; p] →
  let k := Z.max 0 (Z.min (Z.of_nat n) b) in
  ∃ fa, craft_loop n a ITEM_TOOL
        = Some (set_fatigue (set_inv a [f; g; w; c; cu; t; b - k; tl + k; p]) fa)
        ∧ (fa == fatigue a + inject_Z k * (2 # 100))%Q.
Proof.
  induction n as [|n IH]; intros a f g w c cu t b tl p Hinv k.
  { exists (fatigue a). cbn [craft_loop]. subst k.
    replace (Z.max 0 _) with 0 by lia.
    rewrite !Z.sub_0_r, Z.add_0_r, <- Hinv, agent_eta. split; [done|]. cbn. ring. }
  cbn [craft_loop]. unfold craft_once.
  destruct a as [ax ay avid aage ahid ainv hu fa0 he]. cbn [inv fatigue] in *. subst ainv.
  agent_eval. change (7 =? 8) with false. change (7 =? 6) with false.
  change (7 =? 7) with true. cbv iota.
  destruct (b >=? 1) eqn:Eb; agent_eval.
  1: destruct (IH (mkAgent ax ay avid aage ahid
                     [f; g; w; c; cu; t; b + -1; tl + 1; p] hu (fa0 + (2 # 100))%Q he)
                _ _ _ _ _ _ _ _ _ eq_refl) as (fa & Hl & Hfa).
  2: destruct (IH (mkAgent ax ay avid aage ahid [f; g; w; c; cu; t; b; tl; p] hu fa0 he)
                _ _ _ _ _ _ _ _ _ eq_refl) as (fa & Hl & Hfa).
  all: change ITEM_TOOL with 7 in Hl; rewrite Hl; clear Hl; cbn [fatigue] in Hfa; exists fa.
  - assert (Hk : k = Z.max 0 (Z.min (Z.of_nat n) (b + -1)) + 1) by (subst k; lia).
    set (k' := Z.max 0 _) in *. split.
    + unfold set_fatigue, set_inv. cbn [ag_x ag_y vocation_id age household_id inv hunger health].
      do 2 f_equal. rewrite Hk. repeat (f_equal; try lia).
    + rewrite Hfa, Hk, inject_Z_plus. cbn. ring.
  - assert (Hk : k = Z.max 0 (Z.min (Z.of_nat n) b)) by (subst k; lia).
    rewrite Hk. done.
Qed.

Lemma craft_loop_other (item : Z) (n : nat) (a : Agent) :
  item ≠ ITEM_POT → item ≠ ITEM_BRONZE → item ≠ ITEM_TOOL →
  craft_loop n a item = Some a.
Proof.
  intros H1 H2 H3. induction n as [|n IH]; [done|]. cbn [craft_loop]. unfold craft_once.
  destruct (Z.eqb_spec item ITEM_POT); [done|].
  destruct (Z.eqb_spec item ITEM_BRONZE); [done|].
  destruct (Z.eqb_spec item ITEM_TOOL); [done|]. exact IH.
Qed.

Lemma to_nat_clip (amount m : Z) :
  Z.max 0 (Z.min (Z.of_nat (Z.to_nat amount)) m) = Z.max 0 (Z.min amount m).
Proof. lia. Qed.

(** X6.  Crafting pots: [craft_item] with the pot recipe makes as many pots as
    the amount asked and the stock allow, two clay and one wood each, and adds
    0.01 fatigue per pot; nothing else of the agent changes and no
    inventory slot is driven below zero by it. *)
Theorem craft_item_pots (a : Agent) (amount f g w c cu t b tl p : Z) :
  inv a = [f; g; w; c; cu; t; b; tl; p] →
  let k := Z.max 0 (Z.min amount (Z.min (c / 2) w)) in
  ∃ fa, craft_item a ITEM_POT amount
        = Some (set_fatigue (set_inv a [f; g; w - k; c - 2 * k; cu; t; b; tl; p + k]) fa)
        ∧ (fa == fatigue a + inject_Z k * (1 # 100))%Q
        ∧ (0 ≤ w → 0 ≤ c → 0 ≤ w - k ∧ 0 ≤ c - 2 * k).
Proof.
  intros Hinv k. unfold craft_item.
  destruct (craft_loop_pots (Z.to_nat amount) a _ _ _ _ _ _ _ _ _ Hinv) as (fa & Hl & Hfa).
  rewrite to_nat_clip in Hl, Hfa. exists fa. split; [exact Hl|]. split; [exact Hfa|].
  intros Hw Hc. subst k. Z.div_mod_to_equations. lia.
Qed.

Lemma craft_item_pots_witness :
  ∃ fa, craft_item (mkAgent 5 6 0 20 0 [0; 0; 2; 7; 0; 0; 0; 0; 1] 0 0 1) ITEM_POT 5
        = Some (mkAgent 5 6 0 20 0 [0; 0; 0; 3; 0; 0; 0; 0; 3] 0 fa 1)
        ∧ (fa == 2 # 100)%Q.
Proof.
  destruct (craft_item_pots (mkAgent 5 6 0 20 0 [0; 0; 2; 7; 0; 0; 0; 0; 1] 0 0 1) 5
              0 0 2 7 0 0 0 0 1 eq_refl) as (fa & H & Hfa & _).
  exists fa. split; [exact H | exact Hfa].
Defined.

(** X7.  Smelting bronze: [craft_item] with the bronze recipe makes as many
    units as the amount asked and the stock allow, one copper, one tin and two
    wood each, and adds 0.02 fatigue per unit; nothing else of the agent
    changes. *)
Theorem craft_item_bronze (a : Agent) (amount f g w c cu t b tl p : Z) :
  inv a = [f; g; w; c; cu; t; b; tl; p] →
  let k := Z.max 0 (Z.min amount (Z.min (Z.min cu t) (w / 2))) in
  ∃ fa, craft_item a ITEM_BRONZE amount
        = Some (set_fatigue (set_inv a [f; g; w - 2 * k; c; cu - k; t - k; b + k; tl; p]) fa)
        ∧ (fa == fatigue a + inject_Z k * (2 # 100))%Q.
Proof.
  intros Hinv k. unfold craft_item.
  destruct (craft_loop_bronze (Z.to_nat amount) a _ _ _ _ _ _ _ _ _ Hinv) as (fa & Hl & Hfa).
  rewrite to_nat_clip in Hl, Hfa. exists fa. split; [exact Hl | exact Hfa].
Qed.

Lemma craft_item_bronze_witness :
  ∃ fa, craft_item (mkAgent 5 6 0 20 0 [0; 0; 5; 0; 4; 3; 0; 0; 0] 0 0 1) ITEM_BRONZE 9
        = Some (mkAgent 5 6 0 20 0 [0; 0; 1; 0; 2; 1; 2; 0; 0] 0 fa 1)
        ∧ (fa == 4 # 100)%Q.
Proof.
  destruct (craft_item_bronze (mkAgent 5 6 0 20 0 [0; 0; 5; 0; 4; 3; 0; 0; 0] 0 0 1) 9
              0 0 5 0 4 3 0 0 0 eq_refl) as (fa & H & Hfa).
  exists fa. split; [exact H | exact Hfa].
Defined.

(** X8.  Tools and the missing recipes: [craft_item] turns one bronze into
    one tool per round, as far as the amount asked and the bronze held allow,
    with 0.02 fatigue each; for every item other than pot, bronze and tool it
    leaves the agent as it is, whatever the amount. *)
Theorem craft_item_tools_and_others (a : Agent) (amount f g w c cu t b tl p : Z) :
  inv a = [f; g; w; c; cu; t; b; tl; p] →
  let k := Z.max 0 (Z.min amount b) in
  (∃ fa, craft_item a ITEM_TOOL amount
         = Some (set_fatigue (set_inv a [f; g; w; c; cu; t; b - k; tl + k; p]) fa)
         ∧ (fa == fatigue a + inject_Z k * (2 # 100))%Q)
  ∧ ∀ item, item ≠ ITEM_POT → item ≠ ITEM_BRONZE → item ≠ ITEM_TOOL →
            craft_item a item amount = Some a.
Proof.
  intros Hinv k. unfold craft_item. split.
  - destruct (craft_loop_tools (Z.to_nat amount) a _ _ _ _ _ _ _ _ _ Hinv) as (fa & Hl & Hfa).
    rewrite to_nat_clip in Hl, Hfa. exists fa. split; [exact Hl | exact Hfa].
  - intros item H1 H2 H3. by apply craft_loop_other.
Qed.

Lemma craft_item_tools_and_others_witness :
  (∃ fa, craft_item (mkAgent 5 6 0 20 0 [0; 0; 0; 0; 0; 0; 2; 1; 0] 0 0 1) ITEM_TOOL 3
         = Some (mkAgent 5 6 0 20 0 [0; 0; 0; 0; 0; 0; 0; 3; 0] 0 fa 1)
         ∧ (fa == 4 # 100)%Q)
  ∧ craft_item (mkAgent 5 6 0 20 0 [0; 0; 0; 0; 0; 0; 2; 1; 0] 0 0 1) ITEM_FISH 3
    = Some (mkAgent 5 6 0 20 0 [0; 0; 0; 0; 0; 0; 2; 1; 0] 0 0 1).
Proof.
  destruct (craft_item_tools_and_others (mkAgent 5 6 0 20 0 [0; 0; 0; 0; 0; 0; 2; 1; 0] 0 0 1)
              3 0 0 0 0 0 0 2 1 0 eq_refl) as ((fa & H & Hfa) & Ho).
  split; [exists fa; split; [exact H | exact Hfa]|].
  apply Ho; discriminate.
Defined.

(** * What a day keeps of the agents *)

Lemma body_kept_refl (a : Agent) : body_kept a a.
Proof. by repeat split. Qed.

Lemma body_kept_trans (a b c : Agent) : body_kept a b → body_kept b c → body_kept a c.
Proof.
  intros (H1 & H2 & H3 & H4 & H5) (G1 & G2 & G3 & G4 & G5).
  repeat split; congruence.
Qed.

Lemma inv_add_body (a a' : Agent) (it d : Z) : inv_add a it d = Some a' → body_kept a a'.
Proof.
  unfold inv_add. intros H.
  destruct (py_index (inv a) it); [|done]. cbn in H.
  destruct (py_setitem (inv a) it (z + d)); [|done]. cbn in H.
  injection H as <-. by repeat split.
Qed.

Lemma set_fatigue_body (a : Agent) (f : Q) : body_kept a (set_fatigue a f).
Proof. by repeat split. Qed.

Lemma set_hunger_body (a : Agent) (h : Q) : body_kept a (set_hunger a h).
Proof. by repeat split. Qed.

Lemma set_vocation_body (a : Agent) (v : Z) : body_kept a (set_vocation a v).
Proof. by repeat split. Qed.

(** Steps through a computation on an agent that returned, collecting
    [body_kept] facts for the updates on the way. *)
Ltac body_step :=
  match goal with
  | H : Some _ = Some _ |- _ => injection H as H
  | H : None = Some _ |- _ => discriminate H
  | H : (if ?b then _ else _) = Some _ |- _ => destruct b eqn:?
  | H : (let '(_, _) := ?p in _) = Some _ |- _ => destruct p
  | H : inv_add _ _ _ = Some _ |- _ => apply inv_add_body in H
  | H : mbind _ ?m = Some _ |- _ =>
      let x := fresh "x" in
      let E := fresh "E" in
      destruct m as [x|] eqn:E; [|discriminate H]; cbn [mbind option_bind] in H
  end.

Ltac body_solve :=
  repeat match goal with
         | H : body_kept _ _ |- _ => destruct H as (? & ? & ? & ? & ?)
         | H : (if ?b then _ else _) = _ |- _ => destruct b
         end;
  subst;
  unfold body_kept, set_fatigue, set_hunger, set_vocation, set_inv in *;
  cbn [ag_x ag_y household_id age health] in *;
  repeat split; congruence.

Lemma craft_once_body (a a' : Agent) (item : Z) : craft_once a item = Some a' → body_kept a a'.
Proof. unfold craft_once. intros H. repeat body_step; body_solve. Qed.

Lemma craft_item_body (a a' : Agent) (item amount : Z) :
  craft_item a item amount = Some a' → body_kept a a'.
Proof.
  unfold craft_item. generalize (Z.to_nat amount). intros n. revert a.
  induction n as [|n IH]; intros a H; cbn [craft_loop] in H.
  { injection H as <-. apply body_kept_refl. }
  destruct (craft_once a item) as [a1|] eqn:E; [|done]. cbn in H.
  eapply body_kept_trans; [by eapply craft_once_body|by apply IH].
Qed.

Lemma trade_want_body (a a' : Agent) (st : Settlement) (want : Z) :
  trade_want a st want = Some a' → body_kept a a'.
Proof.
  unfold trade_want. intros H. repeat body_step; body_solve.
Qed.

Lemma trade_wants_body (st : Settlement) (wants : list Z) :
  ∀ a a', trade_wants a st wants = Some a' → body_kept a a'.
Proof.
  induction wants as [|w ws IH]; intros a a' H; cbn [trade_wants] in H.
  { injection H as <-. apply body_kept_refl. }
  destruct (trade_want a st w) as [a1|] eqn:E; [|done]. cbn in H.
  eapply body_kept_trans; [by eapply trade_want_body|by apply IH].
Qed.

Lemma trade_body (s : Sim) (a a' : Agent) : trade s a = Some a' → body_kept a a'.
Proof.
  unfold trade. intros H. do 2 body_step. by eapply trade_wants_body.
Qed.

Lemma eat_body (a a' : Agent) : eat a = Some a' → body_kept a a'.
Proof. unfold eat. intros H. repeat body_step; body_solve. Qed.

Lemma apprenticeship_body (s : Sim) (a a' : Agent) :
  apprenticeship s a = Some a' → body_kept a a'.
Proof. unfold apprenticeship. intros H. repeat body_step; body_solve. Qed.

Lemma put_agent_frame (s : Sim) (i : nat) (a : Agent) : frame_eq s (put_agent s i a).
Proof.
  unfold frame_eq, put_agent, set_agents. cbn. rewrite length_insert. by repeat split.
Qed.

Lemma gather_pool (s s1 : Sim) (a : Agent) (rk n got : Z) :
  gather s a rk n = Some (s1, got) → ∃ p, s1 = set_pool s p.
Proof.
  unfold gather. intros H.
  destruct (py_index (resources_pool s) rk) as [pool|]; [|done]. cbn in H.
  destruct (py_setitem _ _ _) as [p|]; [|done]. cbn in H.
  injection H as <- _. by exists p.
Qed.

(** A task operation changes the agent that runs it and nothing else of
    the agents. *)
Lemma exec_op_agents (s s' : Sim) (i : nat) (op : OpDef) (a : Agent) :
  agents s !! i = Some a → exec_op s i op = Some s' →
  ∃ a', agents s' = <[i := a']> (agents s) ∧ body_kept a a' ∧ frame_eq s s'.
Proof.
  intros Ha H. unfold exec_op in H. rewrite Ha in H. cbn [mbind option_bind] in H.
  assert (Hsame : ∀ s2, agents s2 = agents s → frame_eq s s2 →
            ∃ a', agents s2 = <[i := a']> (agents s) ∧ body_kept a a' ∧ frame_eq s s2).
  { intros s2 E Hf. exists a. rewrite E, list_insert_id by done.
    split; [done|]. split; [apply body_kept_refl|done]. }
  assert (Hput : ∀ a', body_kept a a' →
            ∃ a'', agents (put_agent s i a') = <[i := a'']> (agents s) ∧ body_kept a a''
                   ∧ frame_eq s (put_agent s i a')).
  { intros a' Hb. exists a'. split; [done|]. split; [done|]. apply put_agent_frame. }
  destruct (op_kind op =? OP_MOVE_TO).
  { injection H as <-. apply Hput. apply set_fatigue_body. }
  destruct (op_kind op =? OP_GATHER).
  { destruct (gather s a (arg_j op) (arg_i op)) as [[s1 got]|] eqn:Eg; [|done].
    cbn [mbind option_bind] in H.
    destruct (gather_pool _ _ _ _ _ _ Eg) as [p ->].
    assert (Hput1 : ∀ a', body_kept a a' →
              ∃ a'', agents (put_agent (set_pool s p) i a') = <[i := a'']> (agents s)
                     ∧ body_kept a a'' ∧ frame_eq s (put_agent (set_pool s p) i a')).
    { intros a' Hb. exists a'. split; [done|]. split; [done|].
      unfold frame_eq, put_agent, set_agents, set_pool. cbn. rewrite length_insert.
      by repeat split. }
    repeat match type of H with
           | (if ?b then _ else _) = _ => destruct b
           end.
    1-6: destruct (inv_add a _ got) as [a1|] eqn:Ei; [|done]; cbn in H; injection H as <-;
         apply Hput1; by eapply inv_add_body.
    injection H as <-. apply Hsame; [done|]. by repeat split. }
  destruct (op_kind op =? OP_CRAFT).
  { destruct (craft_item a (arg_j op) (arg_i op)) as [a1|] eqn:Ec; [|done]. cbn in H.
    injection H as <-. apply Hput. by eapply craft_item_body. }
  destruct (op_kind op =? OP_TRADE).
  { destruct (trade s a) as [a1|] eqn:Et; [|done]. cbn in H.
    injection H as <-. apply Hput. by eapply trade_body. }
  destruct (op_kind op =? OP_REST).
  { injection H as <-. apply Hput. destruct (flt _ _); by repeat split. }
  destruct (op_kind op =? OP_ROAM).
  { unfold roam in H. destruct (float_of_int (arg_i op)) as [f|]; [|done]. cbn in H.
    injection H as <-. apply Hput. apply set_fatigue_body. }
  injection H as <-. apply Hsame; [done|]. apply frame_eq_refl.
Qed.

Lemma exec_ops_agents (i : nat) (os : list OpDef) :
  ∀ (s s' : Sim) (a : Agent),
  agents s !! i = Some a → exec_ops s i os = Some s' →
  ∃ a', agents s' = <[i := a']> (agents s) ∧ body_kept a a' ∧ frame_eq s s'.
Proof.
  induction os as [|op os IH]; intros s s' a Ha H; cbn [exec_ops] in H.
  { injection H as <-. exists a. rewrite list_insert_id by done.
    split; [done|]. split; [apply body_kept_refl|apply frame_eq_refl]. }
  destruct (exec_op s i op) as [s1|] eqn:E; [|done]. cbn in H.
  destruct (exec_op_agents _ _ _ _ _ Ha E) as (a1 & Hag1 & Hb1 & Hf1).
  assert (Ha1 : agents s1 !! i = Some a1).
  { rewrite Hag1. apply list_lookup_insert_eq. by eapply lookup_lt_Some. }
  destruct (IH _ _ _ Ha1 H) as (a2 & Hag2 & Hb2 & Hf2).
  exists a2. rewrite Hag2, Hag1, list_insert_insert_eq. split; [done|].
  split; [by eapply body_kept_trans|by eapply frame_eq_trans].
Qed.

Lemma agent_kept_refl (a : Agent) : agent_kept a a.
Proof. unfold agent_kept. repeat split; try done; try lia. apply Qle_refl. Qed.

Lemma agent_kept_trans (a b c : Agent) : agent_kept a b → agent_kept b c → agent_kept a c.
Proof.
  intros (H1 & H2 & H3 & H4 & H5 & H6) (G1 & G2 & G3 & G4 & G5 & G6).
  repeat split; try congruence; try lia.
  - by eapply Qle_trans.
  - intros Hd. specialize (H6 Hd). subst b. by apply G6.
Qed.

(** A living agent after changes that keep its place and household, raise
    its age and lower its health. *)
Lemma agent_kept_alive (a a' : Agent) :
  fle (health a) 0 = false →
  ag_x a' = ag_x a → ag_y a' = ag_y a → household_id a' = household_id a →
  age a ≤ age a' → (health a' <= health a)%Q → agent_kept a a'.
Proof.
  intros Hl ?????. repeat split; try done. intros Hd.
  destruct (fle_spec (health a) 0); [done|]. by destruct n.
Qed.

Lemma put_agent_agents (s : Sim) (i : nat) (a : Agent) :
  agents (put_agent s i a) = <[i := a]> (agents s).
Proof. reflexivity. Qed.

Lemma put_put_agent (s : Sim) (i : nat) (a b : Agent) :
  agents (put_agent (put_agent s i a) i b) = <[i := b]> (agents s).
Proof. unfold put_agent, set_agents. cbn. apply list_insert_insert_eq. Qed.

(** The step of one agent changes that agent and nothing else of the
    agents. *)
Lemma agent_step_agents (s s' : Sim) (i : nat) :
  agent_step s i = Some s' →
  ∃ a a', agents s !! i = Some a ∧ agents s' = <[i := a']> (agents s)
          ∧ agent_kept a a' ∧ frame_eq s s'.
Proof.
  unfold agent_step. intros H.
  destruct (agents s !! i) as [a|] eqn:Ha; [|done]. cbn [mbind option_bind] in H.
  exists a.
  destruct (fle (health a) 0) eqn:Hl.
  { injection H as <-. exists a. rewrite list_insert_id by done.
    split; [done|]. split; [done|]. split; [apply agent_kept_refl|apply frame_eq_refl]. }
  assert (Hlt : (0 < health a)%Q).
  { destruct (fle_spec (health a) 0); [done|]. by apply Qnot_le_lt. }
  set (a0 := if day s mod 360 =? 0 then set_age a (age a + 1) else a) in H.
  set (a1 := set_hunger a0 (hunger a0 + (18 # 100))%Q) in H.
  set (a2 := if flt 1 (hunger a1) then set_hunger a1 1 else a1) in H.
  set (a3 := set_fatigue a2 (fatigue a2 - (8 # 100))%Q) in H.
  set (a4 := if flt (fatigue a3) 0 then set_fatigue a3 0 else a3) in H.
  assert (H4 : ag_x a4 = ag_x a ∧ ag_y a4 = ag_y a ∧ household_id a4 = household_id a
               ∧ age a ≤ age a4 ∧ health a4 = health a).
  { subst a4 a3 a2 a1 a0.
    destruct (day s mod 360 =? 0), (flt 1 _), (flt _ 0); cbn; repeat split; lia. }
  clearbody a4. clear a0 a1 a2 a3. destruct H4 as (X4 & Y4 & HH4 & A4 & L4).
  destruct (eat a4) as [a5|] eqn:Eeat; [|done]. cbn [mbind option_bind] in H.
  apply eat_body in Eeat. destruct Eeat as (X5 & Y5 & HH5 & A5 & L5).
  destruct (apprenticeship (put_agent s i a5) a5) as [a6|] eqn:Eapp; [|done].
  cbn [mbind option_bind] in H.
  apply apprenticeship_body in Eapp. destruct Eapp as (X6 & Y6 & HH6 & A6 & L6).
  set (s2 := put_agent (put_agent s i a5) i a6) in H.
  assert (Hag2 : agents s2 = <[i := a6]> (agents s)) by apply put_put_agent.
  assert (Hf2 : frame_eq s s2).
  { eapply frame_eq_trans; apply put_agent_frame. }
  assert (Hi : (i < length (agents s))%nat) by by eapply lookup_lt_Some.
  assert (Hput : ∀ b, body_kept a6 b → agents (put_agent s2 i b) = <[i := b]> (agents s)
                      ∧ agent_kept a b ∧ frame_eq s (put_agent s2 i b)).
  { intros b (Xb & Yb & HHb & Ab & Lb). split.
    - rewrite put_agent_agents, Hag2. apply list_insert_insert_eq.
    - split; [|eapply frame_eq_trans; [exact Hf2|apply put_agent_frame]].
      apply agent_kept_alive; try congruence; try lia.
      rewrite Lb, L6, L5, L4. apply Qle_refl. }
  clearbody s2.
  destruct (flt (95 # 100) (hunger a6)).
  { injection H as <-. eexists. split; [done|]. split; [|split].
    - rewrite put_agent_agents, Hag2. apply list_insert_insert_eq.
    - apply agent_kept_alive; try done.
      + destruct (flt _ 0); cbn; congruence.
      + destruct (flt _ 0); cbn; congruence.
      + destruct (flt _ 0); cbn; congruence.
      + destruct (flt _ 0); cbn; lia.
      + cbn [health set_health]. rewrite L6, L5, L4.
        destruct (flt_spec (health a - (1 # 100)) 0) as [Hn|Hn]; cbn [health set_health]; lra.
    - eapply frame_eq_trans; [exact Hf2|apply put_agent_frame]. }
  destruct (fle (90 # 100) (fatigue a6)).
  { injection H as <-. eexists. split; [done|]. apply Hput.
    destruct (flt _ 0); by repeat split. }
  destruct (choose_task s2 a6) as [t|] eqn:Ect; [|done]. cbn [mbind option_bind] in H.
  destruct t as [t|].
  - assert (Ha6 : agents s2 !! i = Some a6).
    { rewrite Hag2. by apply list_lookup_insert_eq. }
    destruct (exec_ops_agents _ _ _ _ _ Ha6 H) as (b & Hb & Hbody & Hfb).
    exists b. split; [done|]. split; [|split].
    + rewrite Hb, Hag2. apply list_insert_insert_eq.
    + destruct Hbody as (Xb & Yb & HHb & Ab & Lb).
      apply agent_kept_alive; try congruence; try lia.
      rewrite Lb, L6, L5, L4. apply Qle_refl.
    + by eapply frame_eq_trans.
  - destruct (Z.of_nat i mod 9 =? 0).
    + destruct (trade _ _) as [b|] eqn:Etr; [|done]. cbn [mbind option_bind] in H.
      injection H as <-. apply trade_body in Etr.
      exists b. split; [done|]. split; [|split].
      * rewrite !put_agent_agents, Hag2. by rewrite !list_insert_insert_eq.
      * destruct Etr as (Xb & Yb & HHb & Ab & Lb). cbn in Xb, Yb, HHb, Ab, Lb.
        apply agent_kept_alive; try congruence; try lia.
        rewrite Lb, L6, L5, L4. apply Qle_refl.
      * eapply frame_eq_trans; [exact Hf2|].
        eapply frame_eq_trans; apply put_agent_frame.
    + injection H as <-. eexists. split; [done|]. apply Hput. apply set_fatigue_body.
Qed.

Lemma insert_kept (l : list Agent) (i : nat) (a a' : Agent) :
  l !! i = Some a → agent_kept a a' → Forall2 agent_kept l (<[i := a']> l).
Proof.
  intros Ha Hk. rewrite <- (list_insert_id l i a) at 1 by done.
  apply Forall2_insert; [|done]. apply Forall2_same_length_lookup_2; [done|].
  intros j x y Hx Hy. assert (x = y) as -> by congruence. apply agent_kept_refl.
Qed.

Lemma Forall2_kept_refl (l : list Agent) : Forall2 agent_kept l l.
Proof. induction l; constructor; [apply agent_kept_refl|done]. Qed.

Lemma Forall2_kept_trans (l1 l2 l3 : list Agent) :
  Forall2 agent_kept l1 l2 → Forall2 agent_kept l2 l3 → Forall2 agent_kept l1 l3.
Proof.
  intros H. revert l3. induction H as [|a b l1 l2 Hab H IH]; intros l3 H3.
  - by inversion H3.
  - inversion H3 as [|b' c l2' l3' Hbc H' E1 E2]; subst. constructor.
    + by eapply agent_kept_trans.
    + by apply IH.
Qed.

Lemma agents_loop_agents (is_ : list nat) :
  ∀ s s', agents_loop s is_ = Some s' →
  Forall2 agent_kept (agents s) (agents s') ∧ frame_eq s s'.
Proof.
  induction is_ as [|i is_ IH]; intros s s' H; cbn [agents_loop] in H.
  { injection H as <-. split; [apply Forall2_kept_refl|apply frame_eq_refl]. }
  destruct (agent_step s i) as [s1|] eqn:E; [|done]. cbn [mbind option_bind] in H.
  destruct (agent_step_agents _ _ _ E) as (a & a' & Ha & Hag & Hk & Hf).
  destruct (IH _ _ H) as [Hall Hf2]. split; [|by eapply frame_eq_trans].
  eapply Forall2_kept_trans; [|exact Hall]. rewrite Hag. by eapply insert_kept.
Qed.

Lemma regen_pool_static (season scale : Z) (rks : list Z) :
  ∀ s s', regen_pool s season scale rks = Some s' → agents s' = agents s ∧ frame_eq s s'.
Proof.
  induction rks as [|rk rks IH]; intros s s' H; cbn [regen_pool] in H.
  { injection H as <-. split; [done|apply frame_eq_refl]. }
  destruct (py_index (resources_pool s) rk) as [p|]; [|done]. cbn [mbind option_bind] in H.
  destruct (py_index (renew_per_day (world s)) rk) as [r|]; [|done].
  cbn [mbind option_bind] in H.
  destruct (regen_amount _ _ _) as [add|]; [|done]. cbn [mbind option_bind] in H.
  destruct (py_setitem _ _ _) as [pool|]; [|done]. cbn [mbind option_bind] in H.
  destruct (IH _ _ H) as [Hag Hf]. split; [done|].
  eapply frame_eq_trans; [|exact Hf]. by repeat split.
Qed.

Lemma switch_loop_kept (s : Sim) (target alive : Z) (as_ : list Agent) :
  ∀ (i switched : Z) (as' : list Agent) (sw' : Z),
  switch_loop s target alive i as_ switched = Some (as', sw') →
  Forall2 agent_kept as_ as'.
Proof.
  induction as_ as [|a rest IH]; intros i switched as' sw' H; cbn [switch_loop] in H.
  { injection H as <- _. constructor. }
  assert (Hskip : ∀ sw, ('(rest', sw0) ← switch_loop s target alive (i + 1) rest sw;
                          Some (a :: rest', sw0)) = Some (as', sw') →
                        Forall2 agent_kept (a :: rest) as').
  { intros sw Hs. destruct (switch_loop s target alive (i + 1) rest sw) as [[rest' sw0]|] eqn:E;
      [|done]. cbn in Hs. injection Hs as <- _.
    constructor; [apply agent_kept_refl|by eapply IH]. }
  destruct (fle (health a) 0) eqn:Hl; [by eapply Hskip|].
  destruct (age a <? 17); [by eapply Hskip|].
  destruct (vocation_id a =? target); [by eapply Hskip|].
  destruct (py_index (households s) (household_id a)) as [hh|]; [|done].
  cbn [mbind option_bind] in H.
  destruct (parent_id hh =? i); [by eapply Hskip|].
  destruct (flt _ _); [|by eapply Hskip].
  assert (Hk : agent_kept a (set_vocation a target)).
  { apply agent_kept_alive; cbn; try done; try lia; apply Qle_refl. }
  destruct (switched + 1 >=? alive `div` 50 + 1).
  { injection H as <- _. constructor; [done|apply Forall2_kept_refl]. }
  destruct (switch_loop s target alive (i + 1) rest (switched + 1)) as [[rest' sw0]|] eqn:E;
    [|done]. cbn in H. injection H as <- _.
  constructor; [done|by eapply IH].
Qed.

Lemma role_switching_kept (s s' : Sim) (out : string) :
  role_switching s = Some (s', out) → Forall2 agent_kept (agents s) (agents s').
Proof.
  unfold role_switching. intros H.
  destruct (switch_every_days s =? 0); [injection H as <- _; apply Forall2_kept_refl|].
  destruct (negb _); [injection H as <- _; apply Forall2_kept_refl|].
  destruct (alive_totals _ _ _) as [[alive totals]|]; [|done]. cbn [mbind option_bind] in H.
  destruct (alive <=? 0); [injection H as <- _; apply Forall2_kept_refl|].
  repeat (match type of H with
          | mbind _ ?m = Some _ => destruct m; [|done]; cbn [mbind option_bind] in H
          end).
  destruct (_ <? 0); [injection H as <- _; apply Forall2_kept_refl|].
  destruct (switch_loop _ _ _ _ _ _) as [[as_ switched]|] eqn:E; [|done].
  cbn [mbind option_bind] in H. apply switch_loop_kept in E.
  destruct (switched >? 0); by injection H as <- _.
Qed.

(** A day: the agents, the parts that never change and the calendar. *)
Lemma sim_step_kept (s s' : Sim) (out : string) :
  sim_step s = Some (s', out) →
  Forall2 agent_kept (agents s) (agents s')
  ∧ day s' = day s + 1 ∧ world s' = world s ∧ households s' = households s
  ∧ settlements s' = settlements s ∧ sim_voc_table s' = sim_voc_table s
  ∧ switch_every_days s' = switch_every_days s.
Proof.
  unfold sim_step. intros H.
  destruct (regen_pool _ _ _ _) as [s1|] eqn:E1; [|done]. cbn [mbind option_bind] in H.
  destruct (agents_loop _ _) as [s2|] eqn:E2; [|done]. cbn [mbind option_bind] in H.
  destruct (regen_pool_static _ _ _ _ _ E1) as [Hag1 (A1 & A2 & A3 & A4 & A5 & A6 & A7)].
  destruct (agents_loop_agents _ _ _ E2) as [Hall (B1 & B2 & B3 & B4 & B5 & B6 & B7)].
  pose proof (role_switching_kept _ _ _ H) as Hall3.
  destruct (role_switching_frame _ _ _ H) as (C1 & _ & C3 & C4 & C5 & C6 & _ & C8 & _).
  cbn in Hag1, A1, A2, A3, A4, A5, A6. split.
  - eapply Forall2_kept_trans; [|exact Hall3]. by rewrite <- Hag1.
  - repeat split; congruence.
Qed.

Lemma sim_days_kept (n : nat) :
  ∀ s s', sim_days n s = Some s' →
  Forall2 agent_kept (agents s) (agents s')
  ∧ day s' = day s + Z.of_nat n ∧ world s' = world s ∧ households s' = households s
  ∧ settlements s' = settlements s ∧ sim_voc_table s' = sim_voc_table s
  ∧ switch_every_days s' = switch_every_days s.
Proof.
  induction n as [|n IH]; intros s s' H; cbn [sim_days] in H.
  { injection H as <-. split; [apply Forall2_kept_refl|]. repeat split; lia. }
  destruct (sim_step s) as [[s1 out]|] eqn:E; [|done]. cbn [mbind option_bind] in H.
  destruct (sim_step_kept _ _ _ E) as (Hall & A1 & A2 & A3 & A4 & A5 & A6).
  destruct (IH _ _ H) as (Hall2 & B1 & B2 & B3 & B4 & B5 & B6).
  split; [by eapply Forall2_kept_trans|]. repeat split; try congruence; lia.
Qed.

(** X9.  Agents never move: after any number of days every agent is where it
    was spawned and in the household it was put in (move_to and roam only cost
    fatigue), and it has not grown younger. *)
Theorem agents_never_move (n : nat) (s s' : Sim) (i : nat) (a : Agent) :
  sim_days n s = Some s' →
  agents s !! i = Some a →
  ∃ a', agents s' !! i = Some a'
        ∧ ag_x a' = ag_x a ∧ ag_y a' = ag_y a ∧ household_id a' = household_id a
        ∧ age a ≤ age a'.
Proof.
  intros H Ha. destruct (sim_days_kept _ _ _ H) as [Hall _].
  destruct (Forall2_lookup_l _ _ _ _ _ Hall Ha) as (a' & Ha' & X & Y & HH & A & _).
  exists a'. by repeat split.
Qed.

Lemma agents_never_move_witness :
  ∃ s' a',
    sim_days 2 (one_agent_sim two_rule_voc (replicate 9 0) (replicate 14 1000) 0) = Some s'
    ∧ agents s' !! 0%nat = Some a' ∧ ag_x a' = 500 ∧ ag_y a' = 600.
Proof.
  destruct (sim_days 2 (one_agent_sim two_rule_voc (replicate 9 0) (replicate 14 1000) 0))
    as [s'|] eqn:E; [|vm_compute in E; discriminate E].
  destruct (agents_never_move 2 _ s' 0 (example_agent (replicate 9 0)) E eq_refl)
    as (a' & Ha' & X & Y & _).
  exists s', a'. split; [reflexivity|]. split; [exact Ha'|]. split; [exact X | exact Y].
Defined.

(** X10.  Health never recovers: over any number of days no agent's health
    rises, and an agent whose health is zero or less is left exactly as it
    is, by the agent loop and by role switching alike. *)
Theorem health_never_recovers (n : nat) (s s' : Sim) (i : nat) (a : Agent) :
  sim_days n s = Some s' →
  agents s !! i = Some a →
  ∃ a', agents s' !! i = Some a'
        ∧ (health a' <= health a)%Q
        ∧ ((health a <= 0)%Q → a' = a).
Proof.
  intros H Ha. destruct (sim_days_kept _ _ _ H) as [Hall _].
  destruct (Forall2_lookup_l _ _ _ _ _ Hall Ha) as (a' & Ha' & _ & _ & _ & _ & L & D).
  exists a'. by repeat split.
Qed.

Lemma health_never_recovers_witness :
  ∃ s' a',
    sim_days 2 (one_agent_sim two_rule_voc (replicate 9 0) (replicate 14 1000) 0) = Some s'
    ∧ agents s' !! 0%nat = Some a' ∧ (health a' <= 1)%Q.
Proof.
  destruct (sim_days 2 (one_agent_sim two_rule_voc (replicate 9 0) (replicate 14 1000) 0))
    as [s'|] eqn:E; [|vm_compute in E; discriminate E].
  destruct (health_never_recovers 2 _ s' 0 (example_agent (replicate 9 0)) E eq_refl)
    as (a' & Ha' & L & _).
  exists s', a'. split; [reflexivity|]. split; [exact Ha' | exact L].
Defined.

(** X11.  What no day changes: after [n] days the calendar has advanced by
    [n], and the number of agents, the households with their parents, the
    settlements, the world settings and the vocation table are the ones the
    run began with. *)
Theorem sim_days_frame (n : nat) (s s' : Sim) :
  sim_days n s = Some s' →
  day s' = day s + Z.of_nat n
  ∧ length (agents s') = length (agents s)
  ∧ households s' = households s
  ∧ settlements s' = settlements s
  ∧ world s' = world s
  ∧ sim_voc_table s' = sim_voc_table s
  ∧ switch_every_days s' = switch_every_days s.
Proof.
  intros H. destruct (sim_days_kept _ _ _ H) as (Hall & A1 & A2 & A3 & A4 & A5 & A6).
  apply Forall2_length in Hall. by repeat split.
Qed.

Lemma sim_days_frame_witness :
  ∃ s',
    sim_days 2 (one_agent_sim two_rule_voc (replicate 9 0) (replicate 14 1000) 0) = Some s'
    ∧ day s' = 2 ∧ length (agents s') = 1%nat ∧ households s' = [mkHousehold 0 0 0].
Proof.
  destruct (sim_days 2 (one_agent_sim two_rule_voc (replicate 9 0) (replicate 14 1000) 0))
    as [s'|] eqn:E; [|vm_compute in E; discriminate E].
  destruct (sim_days_frame 2 _ s' E) as (D & L & HH & _).
  exists s'. split; [reflexivity|]. split; [exact D|]. split; [exact L | exact HH].
Defined.

(** X12.  The step of one agent touches no other agent: trading and
    apprenticeship read the settlement and the parent but write only to the
    agent being stepped. *)
Theorem agent_step_touches_one (s s' : Sim) (i j : nat) :
  agent_step s i = Some s' →
  j ≠ i →
  agents s' !! j = agents s !! j.
Proof.
  intros H Hj. destruct (agent_step_agents _ _ _ H) as (a & a' & _ & -> & _).
  by apply list_lookup_insert_ne.
Qed.

Lemma agent_step_touches_one_witness :
  ∃ s', agent_step day30_sim 3 = Some s'
        ∧ agents s' !! 7%nat = agents day30_sim !! 7%nat.
Proof.
  destruct (agent_step day30_sim 3) as [s'|] eqn:E; [|vm_compute in E; discriminate E].
  exists s'. split; [reflexivity|].
  apply (agent_step_touches_one day30_sim s' 3 7 E). lia.
Defined.


(** * The initial simulator *)

Lemma py_range_lookup (n : Z) (k : nat) :
  (k < Z.to_nat n)%nat → py_range n !! k = Some (Z.of_nat k).
Proof.
  intros Hk. unfold py_range. rewrite list_lookup_fmap, lookup_seq_lt by done. done.
Qed.

Lemma py_range_lookup_inv (n : Z) (k : nat) (v : Z) :
  py_range n !! k = Some v → v = Z.of_nat k ∧ (k < Z.to_nat n)%nat.
Proof.
  intros H. assert (Hk : (k < Z.to_nat n)%nat).
  { apply lookup_lt_Some in H. by rewrite py_range_length in H. }
  rewrite py_range_lookup in H by done. by injection H as <-.
Qed.

(** The scan for the oldest member of household [h]: either nobody of the
    household beats the running best, or the result is the first member of
    the greatest age. *)
Lemma oldest_member_spec (h : Z) (as_ : list Agent) :
  ∀ (i bestAge parent : Z),
  (oldest_member as_ h i bestAge parent = parent
   ∧ ∀ b, b ∈ as_ → household_id b = h → age b ≤ bestAge)
  ∨ ∃ (k : nat) (p : Agent),
      as_ !! k = Some p
      ∧ oldest_member as_ h i bestAge parent = i + Z.of_nat k
      ∧ household_id p = h ∧ bestAge < age p
      ∧ ∀ (j : nat) (b : Agent), as_ !! j = Some b → household_id b = h →
          age b ≤ age p ∧ ((j < k)%nat → age b < age p).
Proof.
  induction as_ as [|a rest IH]; intros i bestAge parent; cbn [oldest_member].
  { left. split; [done|]. intros b Hb. by apply elem_of_nil in Hb. }
  destruct (Z.eqb_spec (household_id a) h) as [Hh|Hh]; cbn [negb].
  2: { destruct (IH (i + 1) bestAge parent) as [[Hp Hall]|(k & p & Hk & Hp & Hhp & Hb & Hall)].
       - left. split; [done|]. intros b Hin Hbh.
         apply elem_of_cons in Hin as [->|Hin]; [done|by apply Hall].
       - right. exists (S k), p. split; [done|]. split; [lia|]. split; [done|].
         split; [done|]. intros [|j] b Hj Hbh; cbn in Hj.
         + injection Hj as <-. done.
         + destruct (Hall j b Hj Hbh) as [H1 H2]. split; [done|]. intros Hlt. apply H2. lia. }
  destruct (age a >? bestAge) eqn:Eage.
  - destruct (IH (i + 1) (age a) i) as [[Hp Hall]|(k & p & Hk & Hp & Hhp & Hb & Hall)].
    + right. exists 0%nat, a. split; [done|]. split; [lia|]. split; [done|].
      split; [lia|]. intros [|j] b Hj Hbh; cbn in Hj.
      * injection Hj as <-. split; [lia|]. lia.
      * split; [|lia]. apply Hall; [|done]. by eapply list_elem_of_lookup_2.
    + right. exists (S k), p. split; [done|]. split; [lia|]. split; [done|].
      split; [lia|]. intros [|j] b Hj Hbh; cbn in Hj.
      * injection Hj as <-. lia.
      * destruct (Hall j b Hj Hbh) as [H1 H2]. split; [done|]. intros Hlt. apply H2. lia.
  - destruct (IH (i + 1) bestAge parent) as [[Hp Hall]|(k & p & Hk & Hp & Hhp & Hb & Hall)].
    + left. split; [done|]. intros b Hin Hbh.
      apply elem_of_cons in Hin as [->|Hin]; [lia|by apply Hall].
    + right. exists (S k), p. split; [done|]. split; [lia|]. split; [done|].
      split; [done|]. intros [|j] b Hj Hbh; cbn in Hj.
      * injection Hj as <-. lia.
      * destruct (Hall j b Hj Hbh) as [H1 H2]. split; [done|]. intros Hlt. apply H2. lia.
Qed.

Lemma init_agent_household (g : WorldGen) (cfg : ParsedConfig) (seed hc i : Z) :
  household_id (init_agent g cfg seed hc i) = i mod hc.
Proof. unfold init_agent. by destruct (pick_spawn g i). Qed.

Lemma init_agent_age (g : WorldGen) (cfg : ParsedConfig) (seed hc i : Z) :
  8 ≤ age (init_agent g cfg seed hc i) ≤ 42.
Proof.
  unfold init_agent. destruct (pick_spawn g i). cbn [age].
  pose proof (Z.mod_pos_bound (brz_hash_u32 i seed 2718) 35). lia.
Qed.

Lemma household_count_bound (n : Z) : 1 ≤ n → 1 ≤ (n + 4) / 5 ≤ n.
Proof. intros Hn. Z.div_mod_to_equations. lia. Qed.

(** X13.  Every household of the initial simulator has a parent, and the
    parent is its oldest member, the first one in agent order when several
    share the greatest age. *)
Theorem households_have_oldest_parent (cfg : ParsedConfig) (h : nat) (hh : Household) :
  households (sim_init_from_cfg cfg) !! h = Some hh →
  hh_id hh = Z.of_nat h
  ∧ ∃ (k : nat) (p : Agent),
      parent_id hh = Z.of_nat k
      ∧ agents (sim_init_from_cfg cfg) !! k = Some p
      ∧ household_id p = hh_id hh
      ∧ ∀ (j : nat) (b : Agent),
          agents (sim_init_from_cfg cfg) !! j = Some b → household_id b = hh_id hh →
          age b ≤ age p ∧ ((j < k)%nat → age b < age p).
Proof.
  unfold sim_init_from_cfg. cbv zeta. cbn [households agents ws_seed ws_settlement_count].
  set (n := Z.max 1 (agent_count cfg)). set (hc := (n + 4) / 5).
  set (ags := map _ (py_range n)).
  intros H. rewrite list_lookup_fmap in H.
  destruct (py_range hc !! h) as [hz|] eqn:Eh; [|done]. cbn in H. injection H as <-.
  apply py_range_lookup_inv in Eh as [-> Hh]. cbn [hh_id parent_id]. split; [done|].
  assert (Hn : 1 ≤ n) by (subst n; lia).
  pose proof (household_count_bound n Hn) as Hhc. fold hc in Hhc.
  destruct (oldest_member_spec (Z.of_nat h) ags 0 (-1) (-1))
    as [[_ Hall]|(k & p & Hk & Hp & Hhp & _ & Hall)].
  - exfalso.
    assert (Hin : init_agent (worldgen_init (cfg_seed cfg)) cfg (cfg_seed cfg) hc (Z.of_nat h)
                  ∈ ags).
    { subst ags. apply list_elem_of_fmap. exists (Z.of_nat h). split; [done|].
      eapply list_elem_of_lookup_2. apply py_range_lookup. lia. }
    specialize (Hall _ Hin). rewrite init_agent_household in Hall.
    pose proof (init_agent_age (worldgen_init (cfg_seed cfg)) cfg (cfg_seed cfg) hc
                  (Z.of_nat h)).
    rewrite Z.mod_small in Hall by lia. specialize (Hall eq_refl). lia.
  - exists k, p. rewrite Hp. split; [lia|]. split; [done|]. split; [done|]. exact Hall.
Qed.

Lemma households_have_oldest_parent_witness :
  ∃ (hh : Household) (k : nat) (p : Agent),
    households (sim_init_from_cfg (cfg_of_src fisher_farmer_src 20)) !! 1%nat = Some hh
    ∧ parent_id hh = Z.of_nat k
    ∧ agents (sim_init_from_cfg (cfg_of_src fisher_farmer_src 20)) !! k = Some p
    ∧ household_id p = 1.
Proof.
  destruct (households (sim_init_from_cfg (cfg_of_src fisher_farmer_src 20)) !! 1%nat)
    as [hh|] eqn:E; [|vm_compute in E; discriminate E].
  destruct (households_have_oldest_parent _ 1 hh E) as (Hid & k & p & Hk & Hp & Hh & _).
  exists hh, k, p. split; [reflexivity|]. split; [exact Hk|]. split; [exact Hp|].
  rewrite Hh. exact Hid.
Defined.

Lemma pick_spawn_range (g : WorldGen) (i : Z) :
  100 ≤ (pick_spawn g i).1 < WORLD_CELLS_X - 100
  ∧ 100 ≤ (pick_spawn g i).2 < WORLD_CELLS_Y - 100.
Proof.
  unfold pick_spawn. cbv zeta. cbn [fst snd].
  change WORLD_CELLS_X with 52800. change WORLD_CELLS_Y with 52800.
  split.
  - pose proof (Z.mod_pos_bound
                  (brz_hash_u32 (Z.land i MASK32) (Z.land (wg_seed g) MASK32) 0xABCDE123)
                  (52800 - 200)). lia.
  - pose proof (Z.mod_pos_bound
                  (brz_hash_u32 (Z.land i MASK32) (Z.land (wg_seed g) MASK32) 0xCDEF2345)
                  (52800 - 200)). lia.
Qed.

Lemma find_from_bound (vs : list VocationDef) (name : string) :
  ∀ i, find_from vs name i = -1 ∨ i ≤ find_from vs name i < i + Z.of_nat (length vs).
Proof.
  induction vs as [|v vs IH]; intros i; cbn [find_from]; [by left|].
  destruct (String.eqb _ _); [right; cbn [length]; lia|].
  destruct (IH (i + 1)) as [->|Hr]; [by left|right; cbn [length]; lia].
Qed.

Lemma voc_find_bound (vt : VocationTable) (name : string) :
  (voc_find vt name >=? 0) = true → 0 ≤ voc_find vt name < Z.of_nat (length (vocations vt)).
Proof.
  unfold voc_find. intros H. destruct (find_from_bound (vocations vt) name 0); lia.
Qed.

Lemma voc_find_empty (vt : VocationTable) (name : string) :
  vocations vt = [] → (voc_find vt name >=? 0) = false.
Proof. unfold voc_find. by intros ->. Qed.

(** X14.  The initial population: there is at least one agent whatever the
    configuration asks for, one household for every five agents (rounded
    up), and every agent starts at least 100 cells away from each edge of
    the world, aged 8 to 42, in an existing household, with an empty
    inventory, full health and hunger and fatigue 0.10. *)
Theorem initial_population (cfg : ParsedConfig) :
  let s := sim_init_from_cfg cfg in
  let n := Z.max 1 (agent_count cfg) in
  length (agents s) = Z.to_nat n
  ∧ length (households s) = Z.to_nat ((n + 4) / 5)
  ∧ (1 ≤ length (households s) ≤ length (agents s))%nat
  ∧ day s = 0
  ∧ Forall (fun a =>
              100 ≤ ag_x a < WORLD_CELLS_X - 100 ∧ 100 ≤ ag_y a < WORLD_CELLS_Y - 100
              ∧ 8 ≤ age a ≤ 42
              ∧ 0 ≤ household_id a < Z.of_nat (length (households s))
              ∧ inv a = replicate 9 0
              ∧ hunger a = (10 # 100)%Q ∧ fatigue a = (10 # 100)%Q ∧ health a = 1%Q)
           (agents s).
Proof.
  unfold sim_init_from_cfg. cbv zeta. cbn [households agents day ws_seed ws_settlement_count].
  set (n := Z.max 1 (agent_count cfg)). set (hc := (n + 4) / 5).
  assert (Hn : 1 ≤ n) by (subst n; lia).
  pose proof (household_count_bound n Hn) as Hhc. fold hc in Hhc.
  rewrite !length_map, !py_range_length.
  split; [done|]. split; [done|]. split; [lia|]. split; [done|].
  apply (proj2 (Forall_fmap _ _ _)), Forall_forall. intros i _. unfold compose.
  pose proof (init_agent_age (worldgen_init (cfg_seed cfg)) cfg (cfg_seed cfg) hc i) as Hage.
  pose proof (init_agent_household (worldgen_init (cfg_seed cfg)) cfg (cfg_seed cfg) hc i)
    as Hhh.
  pose proof (pick_spawn_range (worldgen_init (cfg_seed cfg)) i) as Hsp.
  pose proof (Z.mod_pos_bound i hc) as Hmod.
  revert Hage Hhh Hsp. unfold init_agent.
  destruct (pick_spawn (worldgen_init (cfg_seed cfg)) i) as [x y].
  cbn [ag_x ag_y age household_id inv hunger fatigue health fst snd].
  intros Hage _ [Hx Hy]. repeat split; try done; try lia.
Qed.

(** X15.  The initial vocation of an agent: with an empty vocation table
    every agent gets the id -1, otherwise every agent gets the id of a
    vocation of the table. *)
Theorem initial_vocations_exist (cfg : ParsedConfig) :
  Forall (fun a =>
            match vocations (voc_table cfg) with
            | [] => vocation_id a = -1
            | _ :: _ => ∃ v, voc_get (voc_table cfg) (vocation_id a) = Some v
            end)
         (agents (sim_init_from_cfg cfg)).
Proof.
  unfold sim_init_from_cfg. cbv zeta. cbn [agents ws_seed].
  apply (proj2 (Forall_fmap _ _ _)), Forall_forall. intros i _. unfold compose.
  unfold init_agent. destruct (pick_spawn _ i) as [x y]. cbn [vocation_id].
  destruct (vocations (voc_table cfg)) as [|v0 vs] eqn:Ev.
  - rewrite !voc_find_empty by done. by rewrite !andb_false_r.
  - assert (Hget : ∀ vid, 0 ≤ vid < Z.of_nat (length (vocations (voc_table cfg))) →
                          ∃ v, voc_get (voc_table cfg) vid = Some v).
    { intros vid Hvid. unfold voc_get.
      destruct (Z.leb_spec 0 vid); [|lia].
      destruct (Z.ltb_spec vid (Z.of_nat (length (vocations (voc_table cfg))))); [|lia].
      cbn [andb]. apply lookup_lt_is_Some_2. lia. }
    repeat match goal with
           | |- context [(_ <? _) && (voc_find ?vt ?nm >=? 0)] =>
               destruct (voc_find vt nm >=? 0) eqn:?; rewrite ?andb_true_r, ?andb_false_r
           | |- context [if ?b <? ?c then _ else _] => destruct (b <? c)
           | |- context [if voc_find ?vt ?nm >=? 0 then _ else _] =>
               destruct (voc_find vt nm >=? 0) eqn:?
           end.
    all: try (apply Hget; by apply voc_find_bound).
    all: apply Hget; rewrite Ev; cbn [length]; lia.
Qed.

Lemma percent_range (m : Z) : 0 ≤ m < 100 → (0 <= Qmake m 100)%Q ∧ (Qmake m 100 < 1)%Q.
Proof. intros Hm. unfold Qle, Qlt. cbn. lia. Qed.

Lemma init_settlement_shape (seed i : Z) :
  ∃ r : Q,
    (0 <= r)%Q ∧ (r < 1)%Q
    ∧ val (init_settlement seed i)
      = [(1 + (5 # 10) * r)%Q; (1 + (5 # 10) * (1 - r))%Q; 1%Q; 1%Q; 1%Q; 1%Q;
         ((13 # 10) + (7 # 10) * r)%Q; ((12 # 10) + (6 # 10) * r)%Q; (1 + (4 # 10) * r)%Q].
Proof.
  exists (Qmake (brz_hash_u32 i seed 0xC0DE mod 100) 100).
  destruct (percent_range (brz_hash_u32 i seed 0xC0DE mod 100)) as [H0 H1].
  { apply Z.mod_pos_bound. lia. }
  split; [done|]. split; [done|]. reflexivity.
Qed.

(** X16.  The initial settlements: there is at least one, each lies at least
    1000 cells away from every edge of the world, every household belongs
    to one of them, and each values every item between 1 and 2, bronze above
    tools and tools above pots. *)
Theorem initial_settlements (cfg : ParsedConfig) :
  let s := sim_init_from_cfg cfg in
  length (settlements s) = Z.to_nat (Z.max 1 (settlement_count cfg))
  ∧ Forall (fun hh => 0 ≤ settlement_id hh < Z.of_nat (length (settlements s)))
           (households s)
  ∧ Forall (fun st =>
              1000 ≤ st_x st < WORLD_CELLS_X - 1000 ∧ 1000 ≤ st_y st < WORLD_CELLS_Y - 1000
              ∧ length (val st) = 9%nat
              ∧ Forall (fun v => (1 <= v)%Q ∧ (v < 2)%Q) (val st)
              ∧ ∃ bronze tool pot,
                  py_index (val st) ITEM_BRONZE = Some bronze
                  ∧ py_index (val st) ITEM_TOOL = Some tool
                  ∧ py_index (val st) ITEM_POT = Some pot
                  ∧ (pot < tool)%Q ∧ (tool < bronze)%Q)
           (settlements s).
Proof.
  unfold sim_init_from_cfg. cbv zeta. cbn [households settlements ws_seed ws_settlement_count].
  set (sc := Z.max 1 (settlement_count cfg)).
  assert (Hsc : 1 ≤ sc) by (subst sc; lia).
  rewrite !length_map, !py_range_length. split; [done|]. split.
  - apply (proj2 (Forall_fmap _ _ _)), Forall_forall. intros h _. unfold compose.
    cbn [settlement_id]. pose proof (Z.mod_pos_bound h sc). lia.
  - apply (proj2 (Forall_fmap _ _ _)), Forall_forall. intros i _. unfold compose.
    destruct (init_settlement_shape (cfg_seed cfg) i) as (r & Hr0 & Hr1 & Hval).
    rewrite Hval. clear Hval. unfold init_settlement. cbv zeta. cbn [st_x st_y].
    change WORLD_CELLS_X with 52800. change WORLD_CELLS_Y with 52800.
    split; [|split; [|split; [done|split]]].
    + pose proof (Z.mod_pos_bound (brz_hash_u32 i (cfg_seed cfg) 0x5E77A11A) (52800 - 2000)).
      lia.
    + pose proof (Z.mod_pos_bound (brz_hash_u32 i (cfg_seed cfg) 0x5E77B22B) (52800 - 2000)).
      lia.
    + repeat (apply Forall_cons; split; [split; lra|]). by apply Forall_nil.
    + do 3 eexists. split; [reflexivity|]. split; [reflexivity|]. split; [reflexivity|].
      split; lra.
Qed.


(** * Trading and eating *)

(** The scan of [trade] for the item to offer: either the running offer
    stands, and no surplus item is valued above the running best, or the
    offer is a surplus item of the greatest value. *)
Lemma best_offer_spec (a : Agent) (st : Settlement) (want : Z) (its : list Z) :
  length (inv a) = 9%nat → length (val st) = 9%nat →
  Forall (fun it => 0 ≤ it < ITEM_MAX) its →
  ∀ (offer : Z) (best : Q),
  ∃ o b, best_offer a st want its offer best = Some (o, b)
    ∧ ((o = offer ∧ b = best
        ∧ ∀ it v, it ∈ its → surplus a want it → py_index (val st) it = Some v →
                  (v <= best)%Q)
       ∨ (o ∈ its ∧ surplus a want o ∧ py_index (val st) o = Some b ∧ (best < b)%Q
          ∧ ∀ it v, it ∈ its → surplus a want it → py_index (val st) it = Some v →
                    (v <= b)%Q)).
Proof.
  intros Hinv Hval Hits. induction Hits as [|it its Hit _ IH]; intros offer best.
  { exists offer, best. split; [done|]. left. split; [done|]. split; [done|].
    intros it v Hin. by apply elem_of_nil in Hin. }
  cbn [best_offer]. unfold ITEM_MAX in Hit.
  destruct (Z.eqb_spec it want) as [Hw|Hw].
  { destruct (IH offer best) as (o & b & -> & [(Eo & Eb & Hall)|(Ho & Hs & Hv & Hlt & Hall)]);
      exists o, b; (split; [done|]).
    - left. split; [done|]. split; [done|]. intros it' v Hin Hsur.
      apply elem_of_cons in Hin as [->|Hin]; [by destruct Hsur|by apply Hall].
    - right. split; [by apply elem_of_cons; right|]. split; [done|]. split; [done|].
      split; [done|]. intros it' v Hin Hsur.
      apply elem_of_cons in Hin as [->|Hin]; [by destruct Hsur|by apply Hall]. }
  destruct (py_index_is_Some (inv a) it) as [have Hhave]; [lia|]. rewrite Hhave.
  cbn [mbind option_bind].
  destruct (Z.ltb_spec have 6) as [H6|H6].
  { destruct (IH offer best) as (o & b & -> & [(Eo & Eb & Hall)|(Ho & Hs & Hv & Hlt & Hall)]);
      exists o, b; (split; [done|]).
    - left. split; [done|]. split; [done|]. intros it' v Hin Hsur.
      apply elem_of_cons in Hin as [->|Hin]; [|by apply Hall].
      destruct Hsur as [_ (h & Hh & Hge)]. rewrite Hhave in Hh. injection Hh as <-. lia.
    - right. split; [by apply elem_of_cons; right|]. split; [done|]. split; [done|].
      split; [done|]. intros it' v Hin Hsur.
      apply elem_of_cons in Hin as [->|Hin]; [|by apply Hall].
      destruct Hsur as [_ (h & Hh & Hge)]. rewrite Hhave in Hh. injection Hh as <-. lia. }
  assert (Hsur : surplus a want it) by (split; [done|by exists have]).
  destruct (py_index_is_Some (val st) it) as [score Hscore]; [lia|]. rewrite Hscore.
  cbn [mbind option_bind].
  destruct (flt_spec best score) as [Hlt|Hge].
  - destruct (IH it score) as (o & b & -> & [(Eo & Eb & Hall)|(Ho & Hs & Hv & Hlt2 & Hall)]).
    + subst o b. exists it, score. split; [done|]. right. split; [by apply elem_of_cons; left|].
      split; [done|]. split; [done|]. split; [done|]. intros it' v Hin Hsur' Hv.
      apply elem_of_cons in Hin as [->|Hin]; [|by eapply Hall].
      rewrite Hscore in Hv. injection Hv as <-. apply Qle_refl.
    + exists o, b. split; [done|]. right. split; [by apply elem_of_cons; right|].
      split; [done|]. split; [done|]. split; [lra|]. intros it' v Hin Hsur' Hv'.
      apply elem_of_cons in Hin as [->|Hin]; [|by eapply Hall].
      rewrite Hscore in Hv'. injection Hv' as <-. lra.
  - destruct (IH offer best) as (o & b & -> & [(Eo & Eb & Hall)|(Ho & Hs & Hv & Hlt2 & Hall)]);
      exists o, b; (split; [done|]).
    + left. split; [done|]. split; [done|]. intros it' v Hin Hsur' Hv.
      apply elem_of_cons in Hin as [->|Hin]; [|by eapply Hall].
      rewrite Hscore in Hv. injection Hv as <-. lra.
    + right. split; [by apply elem_of_cons; right|]. split; [done|]. split; [done|].
      split; [done|]. intros it' v Hin Hsur' Hv'.
      apply elem_of_cons in Hin as [->|Hin]; [|by eapply Hall].
      rewrite Hscore in Hv'. injection Hv' as <-. lra.
Qed.

Lemma item_range_elem (it : Z) : 0 ≤ it < ITEM_MAX → it ∈ item_range.
Proof.
  intros Hit. unfold item_range, ITEM_MAX in *. apply list_elem_of_fmap.
  exists (Z.to_nat it). split; [lia|]. apply list_elem_of_In, in_seq. lia.
Qed.

(** X17.  One exchange of [trade]: for an item the agent wants, either the
    agent is left as it is, or it holds fewer than three of the wanted item
    and gives two units of a surplus item (another item of which it holds at
    least six) for one unit of the wanted one; the item given is one the
    settlement values at least as much as the wanted item and no less than
    any other surplus item.  The exchange costs 0.01 fatigue and leaves at
    least four units of the item given. *)
Theorem trade_gives_best_surplus (a : Agent) (st : Settlement) (want : Z) :
  length (inv a) = 9%nat → length (val st) = 9%nat →
  Forall (fun v => (-1 < v)%Q) (val st) →
  0 ≤ want < ITEM_MAX →
  ∃ a', trade_want a st want = Some a'
    ∧ (a' = a
       ∨ ∃ offer ho hw vo vw,
           0 ≤ offer < ITEM_MAX ∧ offer ≠ want
           ∧ py_index (inv a) offer = Some ho ∧ 6 ≤ ho
           ∧ py_index (inv a) want = Some hw ∧ hw < 3
           ∧ py_index (val st) offer = Some vo
           ∧ py_index (val st) want = Some vw
           ∧ (vw <= vo)%Q
           ∧ (∀ it v, 0 ≤ it < ITEM_MAX → surplus a want it →
                      py_index (val st) it = Some v → (v <= vo)%Q)
           ∧ a' = set_fatigue
                    (set_inv a (<[Z.to_nat want := hw + 1]>
                                  (<[Z.to_nat offer := ho - 2]> (inv a))))
                    (fatigue a + (1 # 100))%Q).
Proof.
  intros Hinv Hval Hpos Hwant. unfold trade_want. unfold ITEM_MAX in Hwant.
  destruct (py_index_is_Some (inv a) want) as [hw Hhw]; [lia|]. rewrite Hhw.
  cbn [mbind option_bind].
  destruct (Z.geb_spec hw 3) as [H3|H3]; [exists a; by split; [|left]|].
  destruct (best_offer_spec a st want item_range Hinv Hval item_range_ok ITEM_FISH (-1)%Q)
    as (o & b & -> & Hcases). cbn [mbind option_bind].
  assert (Ho : 0 ≤ o < 9).
  { destruct Hcases as [(-> & _)|(Ho & _)]; [done|].
    pose proof item_range_ok as Hr. rewrite Forall_forall in Hr. apply (Hr _ Ho). }
  destruct (py_index_is_Some (inv a) o) as [ho Hho]; [lia|]. rewrite Hho.
  cbn [mbind option_bind].
  destruct (Z.ltb_spec ho 6) as [H6|H6]; [exists a; by split; [|left]|].
  destruct (py_index_is_Some (val st) o) as [vo Hvo]; [lia|]. rewrite Hvo.
  destruct (py_index_is_Some (val st) want) as [vw Hvw]; [lia|]. rewrite Hvw.
  cbn [mbind option_bind].
  destruct (fle_spec vw vo) as [Hle|Hle]; [|exists a; by split; [|left]].
  assert (How : o ≠ want).
  { intros ->. rewrite Hhw in Hho. injection Hho as <-. lia. }
  assert (Hso : surplus a want o) by (split; [done|by exists ho]).
  assert (Hbest : ∀ it v, 0 ≤ it < ITEM_MAX → surplus a want it →
                          py_index (val st) it = Some v → (v <= vo)%Q).
  { intros it v Hit Hsur Hv. apply item_range_elem in Hit.
    destruct Hcases as [(-> & -> & Hall)|(_ & _ & Hb & _ & Hall)].
    - exfalso. specialize (Hall _ _ (item_range_elem _ ltac:(done)) Hso Hvo).
      rewrite py_index_in_range in Hvo by (rewrite Hval; done).
      rewrite Forall_lookup in Hpos. specialize (Hpos _ _ Hvo). lra.
    - rewrite Hvo in Hb. injection Hb as <-. by eapply Hall. }
  unfold inv_add. rewrite Hho. cbn [mbind option_bind].
  rewrite py_setitem_in_range by lia. cbn [mbind option_bind inv set_inv].
  rewrite py_index_in_range by (rewrite length_insert; lia).
  rewrite list_lookup_insert_ne by lia.
  rewrite <- py_index_in_range by lia. rewrite Hhw. cbn [mbind option_bind].
  rewrite py_setitem_in_range by (rewrite length_insert; lia). cbn [mbind option_bind].
  eexists. split; [reflexivity|]. right. exists o, ho, hw, vo, vw.
  unfold ITEM_MAX. replace (ho + -2) with (ho - 2) by lia.
  repeat (split; [done || lia|]). done.
Qed.

Lemma trade_gives_best_surplus_witness :
  ∃ a',
    trade_want (mkAgent 5 6 0 20 0 [7; 0; 9; 0; 0; 0; 0; 0; 0] 0 0 1)
      (mkSettlement 1000 1000 [1; 1; 3 # 2; 1; 1; 1; 1; 1; 1]%Q) ITEM_GRAIN = Some a'
    ∧ inv a' = [7; 1; 7; 0; 0; 0; 0; 0; 0].
Proof.
  destruct (trade_gives_best_surplus (mkAgent 5 6 0 20 0 [7; 0; 9; 0; 0; 0; 0; 0; 0] 0 0 1)
              (mkSettlement 1000 1000 [1; 1; 3 # 2; 1; 1; 1; 1; 1; 1]%Q) ITEM_GRAIN)
    as (a' & H & _).
  - reflexivity.
  - reflexivity.
  - repeat (apply Forall_cons; split; [reflexivity|]). by apply Forall_nil.
  - unfold ITEM_GRAIN, ITEM_MAX. lia.
  - exists a'. split; [exact H|]. vm_compute in H. injection H as <-. reflexivity.
Defined.

(** X18.  Eating: an agent whose hunger is at most 1 eats at most one unit a
    day.  At hunger 0.7 or less, or without fish and grain, it is left as it
    is; otherwise it eats one fish (hunger falls by 0.35) if it has one, and
    one grain (hunger falls by 0.30) only if it has no fish. *)
Theorem eat_one_unit (a : Agent) (f g w c cu t b tl p : Z) :
  inv a = [f; g; w; c; cu; t; b; tl; p] →
  (hunger a <= 1)%Q →
  (((hunger a <= 7 # 10)%Q ∨ (f ≤ 0 ∧ g ≤ 0)) ∧ eat a = Some a)
  ∨ ((7 # 10 < hunger a)%Q ∧ 0 < f
     ∧ eat a = Some (set_hunger (set_inv a [f - 1; g; w; c; cu; t; b; tl; p])
                       (hunger a - (35 # 100))%Q))
  ∨ ((7 # 10 < hunger a)%Q ∧ f ≤ 0 ∧ 0 < g
     ∧ eat a = Some (set_hunger (set_inv a [f; g - 1; w; c; cu; t; b; tl; p])
                       (hunger a - (30 # 100))%Q)).
Proof.
  intros Hinv Hh. destruct a as [ax ay avid aage ahid ainv hu fa he].
  cbn [inv hunger] in *. subst ainv. unfold eat. agent_eval.
  destruct (fle_spec hu (7 # 10)) as [Hle|Hgt]; [left; split; [by left|done]|].
  apply Qnot_le_lt in Hgt.
  destruct (Z.gtb_spec f 0) as [Hf|Hf]; agent_eval.
  - right. left. split; [done|]. split; [lia|].
    destruct (flt_spec (7 # 10) (hu - (35 # 100))) as [Hx|_]; [lra|]. agent_eval.
    destruct (flt_spec (hu - (35 # 100)) 0) as [Hx|_]; [lra|].
    replace (f + -1) with (f - 1) by lia. done.
  - destruct (flt_spec (7 # 10) hu) as [_|Hx]; [|lra].
    destruct (Z.gtb_spec g 0) as [Hg|Hg]; agent_eval.
    + right. right. split; [done|]. split; [lia|]. split; [lia|].
      destruct (flt_spec (hu - (30 # 100)) 0) as [Hx|_]; [lra|].
      replace (g + -1) with (g - 1) by lia. done.
    + left. split; [right; lia|].
      destruct (flt_spec hu 0) as [Hx|_]; [lra|]. done.
Qed.

Lemma eat_one_unit_witness :
  eat (mkAgent 5 6 0 20 0 [2; 3; 0; 0; 0; 0; 0; 0; 0] (9 # 10) 0 1)
  = Some (mkAgent 5 6 0 20 0 [1; 3; 0; 0; 0; 0; 0; 0; 0] ((9 # 10) - (35 # 100)) 0 1).
Proof.
  destruct (eat_one_unit (mkAgent 5 6 0 20 0 [2; 3; 0; 0; 0; 0; 0; 0; 0] (9 # 10) 0 1)
              2 3 0 0 0 0 0 0 0 eq_refl) as [[_ H]|[(_ & _ & H)|(_ & Hf & _)]].
  - vm_compute. discriminate.
  - vm_compute in H. discriminate H.
  - exact H.
  - lia.
Defined.


(** * The procedural world *)

(** X19.  Terrain tags of a cell: the tag word fits in a byte; the coast tag
    marks exactly the two outermost rings of the world; a beach is never on
    the coast, only on the ring next to it; and every cell of a settlement
    is also a field. *)
Theorem terrain_tags_consistent (g : WorldGen) (x y n : Z) :
  let t := world_cell_tags g x y n in
  0 ≤ t < 256
  ∧ truthy (Z.land t TAG_COAST) = is_coast_cell x y
  ∧ (truthy (Z.land t TAG_BEACH) = true →
     is_coast_cell x y = false
     ∧ (x = 2 ∨ y = 2 ∨ x = WORLD_CELLS_X - 3 ∨ y = WORLD_CELLS_Y - 3))
  ∧ (truthy (Z.land t TAG_SETTLE) = true → truthy (Z.land t TAG_FIELD) = true).
Proof.
  unfold world_cell_tags. cbv zeta.
  generalize (noise01 g x y 0xBEEF1234) (noise01 g x y 0x1111A11A)
    (noise01 g x y 0x2222B22B) (noise01 g x y 0x3333C33C)
    (noise01 g (x / 8) (y / 8) 0x52A17B3D)
    (noise01 g (x / 2000 * 2000 + 1000) (y / 2000 * 2000 + 1000) 0x5E771EAD).
  intros nb n1 n2 n3 rv sc.
  set (d2 := (x - (x / 2000 * 2000 + 1000)) * (x - (x / 2000 * 2000 + 1000))
             + (y - (y / 2000 * 2000 + 1000)) * (y - (y / 2000 * 2000 + 1000))).
  clearbody d2.
  assert (Hring : is_coast_cell x y = false →
            ((x <? 3) || (y <? 3) || (x >? WORLD_CELLS_X - 4) || (y >? WORLD_CELLS_Y - 4))
            = true →
            x = 2 ∨ y = 2 ∨ x = WORLD_CELLS_X - 3 ∨ y = WORLD_CELLS_Y - 3).
  { unfold is_coast_cell. change WORLD_CELLS_X with 52800. change WORLD_CELLS_Y with 52800.
    intros H1 H2. lia. }
  destruct (is_coast_cell x y) eqn:Ec.
  - change (negb (truthy (Z.land (Z.lor 0 TAG_COAST) TAG_COAST))) with false. cbv iota.
    destruct (n1 >? 150), (n2 >? 200), (n3 >? 215), (rv >? 245), (sc >? 240),
      (Z.ltb_spec d2 (70 * 70)), (Z.ltb_spec d2 (250 * 250));
      cbn [andb]; try lia;
      (split; [by vm_compute|]); (split; [by vm_compute|]); split; by vm_compute.
  - change (negb (truthy (Z.land 0 TAG_COAST))) with true. cbv iota.
    destruct ((x <? 3) || (y <? 3) || (x >? WORLD_CELLS_X - 4) || (y >? WORLD_CELLS_Y - 4))
      eqn:Er; [destruct (nb <? 140)|];
      destruct (n1 >? 150), (n2 >? 200), (n3 >? 215), (rv >? 245), (sc >? 240),
        (Z.ltb_spec d2 (70 * 70)), (Z.ltb_spec d2 (250 * 250));
      cbn [andb]; try lia;
      (split; [by vm_compute|]); (split; [by vm_compute|]);
      (split; [first [intros _; split; [done|by apply Hring] | by vm_compute]
              | by vm_compute]).
Qed.

Lemma clamp_u8_range (v : Z) : 0 ≤ clamp_u8 v ≤ 255.
Proof. unfold clamp_u8. repeat case_match; lia. Qed.

(** X20.  Initial resource densities: [world_cell_res0] always yields a
    byte, whatever the resource kind and the tag word it is given, and a
    cell without any terrain tag starts with no resource at all. *)
Theorem world_cell_res0_byte (g : WorldGen) (x y rk tags : Z) :
  0 ≤ world_cell_res0 g x y rk tags ≤ 255
  ∧ world_cell_res0 g x y rk 0 = 0.
Proof.
  unfold world_cell_res0. cbv zeta. generalize (noise01 g x y 0x9999DDDD). intros base.
  split.
  - repeat match goal with
           | |- context [clamp_u8 ?v] =>
               let H := fresh in pose proof (clamp_u8_range v) as H;
               generalize dependent (clamp_u8 v); intros
           end.
    repeat match goal with
           | |- context [if ?b then _ else _] => destruct b
           end; lia.
  - change (Z.land 0 TAG_COAST) with 0. change (Z.land 0 TAG_FIELD) with 0.
    change (Z.land 0 TAG_FOREST) with 0. change (Z.land 0 TAG_RIVER) with 0.
    change (Z.land 0 TAG_MARSH) with 0. change (Z.land 0 TAG_HILL) with 0.
    change (Z.land 0 TAG_SETTLE) with 0. change (truthy 0) with false. cbn [orb].
    repeat match goal with
           | |- context [if ?b =? ?c then _ else _] => destruct (b =? c)
           end; done.
Qed.

(** * Hashing and random numbers *)

Lemma land_ones_range (v : Z) (n : Z) : 0 ≤ n → 0 ≤ Z.land v (Z.ones n) < 2 ^ n.
Proof. intros Hn. rewrite Z.land_ones by done. apply Z.mod_pos_bound. lia. Qed.

(** X21.  Ranges of the hash and of the random numbers drawn from it, for
    all integer arguments, negative ones included: [brz_splitmix64] yields a
    64-bit value, [brz_hash_u32] and [rng_u32] a 32-bit value, [noise01] a
    byte, and [rng_f01] a number in [0, 1) that is a multiple of 2^-24. *)
Theorem rng_ranges (seed a b c : Z) :
  0 ≤ brz_splitmix64 a < 2 ^ 64
  ∧ 0 ≤ brz_hash_u32 a b c < 2 ^ 32
  ∧ 0 ≤ rng_u32 seed a b c < 2 ^ 32
  ∧ 0 ≤ noise01 (worldgen_init seed) a b c < 256
  ∧ (0 <= rng_f01 seed a b c)%Q ∧ (rng_f01 seed a b c < 1)%Q
  ∧ ∃ k, 0 ≤ k < 2 ^ 24 ∧ rng_f01 seed a b c = Qmake k (Z.to_pos (2 ^ 24)).
Proof.
  split; [|split; [|split; [|split]]].
  - unfold brz_splitmix64. cbv zeta. change MASK64 with (Z.ones 64).
    by apply land_ones_range.
  - unfold brz_hash_u32. cbv zeta. change MASK32 with (Z.ones 32).
    by apply land_ones_range.
  - unfold rng_u32, brz_hash_u32. cbv zeta. change MASK32 with (Z.ones 32).
    by apply land_ones_range.
  - apply noise01_range.
  - unfold rng_f01. change 0xFFFFFF with (Z.ones 24).
    pose proof (land_ones_range (rng_u32 seed a b c) 24 ltac:(done)) as Hk.
    set (k := Z.land _ _) in *. clearbody k.
    split; [|split].
    + unfold Qle. cbn. lia.
    + unfold Qlt. cbn. lia.
    + exists k. split; [done|]. reflexivity.
Qed.

(** * Seasons *)

(** X22.  The calendar: a year has 360 days and four seasons of 90 days, on
    negative day numbers too; the season of a day is the quarter of the year
    it falls in, and the name printed for it in reports and snapshots parses
    back to the same season. *)
Theorem season_calendar (d : Z) :
  world_season_kind d = d `mod` 360 / 90
  ∧ 0 ≤ world_season_kind d ≤ 3
  ∧ world_season_kind (d + 360) = world_season_kind d
  ∧ season_parse (season_name (world_season_kind d)) = world_season_kind d.
Proof.
  assert (Hq : world_season_kind d = d `mod` 360 / 90).
  { unfold world_season_kind. cbv zeta. pose proof (Z.mod_pos_bound d 360 ltac:(lia)) as Hm.
    unfold SEASON_SPRING, SEASON_SUMMER, SEASON_AUTUMN, SEASON_WINTER.
    repeat case_match; Z.div_mod_to_equations; lia. }
  split; [exact Hq|]. split; [|split].
  - rewrite Hq. pose proof (Z.mod_pos_bound d 360 ltac:(lia)). Z.div_mod_to_equations. lia.
  - unfold world_season_kind. cbv zeta.
    replace ((d + 360) `mod` 360) with (d `mod` 360); [done|].
    replace (d + 360) with (d + 1 * 360) by lia. by rewrite Z_mod_plus_full.
  - unfold world_season_kind. cbv zeta. repeat case_match; by vm_compute.
Qed.

(** * The vocation table *)

Lemma find_from_app (vs : list VocationDef) (v : VocationDef) (name : string) :
  ∀ i, 0 ≤ i →
       find_from (vs ++ [v]) name i
       = if find_from vs name i =? -1
         then (if String.eqb (v_name v) name then i + Z.of_nat (length vs) else -1)
         else find_from vs name i.
Proof.
  induction vs as [|w vs IH]; intros i Hi; cbn [app find_from length].
  { change (-1 =? -1) with true. cbv iota. by rewrite Z.add_0_r. }
  destruct (String.eqb (v_name w) name) eqn:E.
  - destruct (Z.eqb_spec i (-1)) as [->|]; [lia|done].
  - rewrite IH by lia.
    replace (i + 1 + Z.of_nat (length vs)) with (i + Z.of_nat (S (length vs))) by lia. done.
Qed.

Lemma find_from_named (vs : list VocationDef) (name : string) :
  ∀ i, 0 ≤ i → find_from vs name i ≠ -1 →
  ∃ (k : nat) (w : VocationDef),
    find_from vs name i = i + Z.of_nat k ∧ vs !! k = Some w ∧ v_name w = name
    ∧ ∀ (j : nat) (u : VocationDef), (j < k)%nat → vs !! j = Some u → v_name u ≠ name.
Proof.
  induction vs as [|w vs IH]; intros i Hi H; cbn [find_from] in *; [done|].
  destruct (String.eqb_spec (v_name w) name) as [E|E].
  - exists 0%nat, w. split; [lia|]. split; [done|]. split; [done|]. intros j u Hj. lia.
  - destruct (IH (i + 1) ltac:(lia) H) as (k & u & Hf & Hk & Hn & Hfirst).
    exists (S k), u. split; [lia|]. split; [done|]. split; [done|].
    intros [|j] u' Hj Hu'; cbn in Hu'; [by injection Hu' as <-|].
    eapply Hfirst; [|done]. lia.
Qed.

(** X23.  The vocation table: [find] returns -1 or the index of the first
    vocation of that name, at which [get] returns a vocation of that name;
    [get] returns nothing below 0 and from the length on (no counting from
    the end); [add] always appends, so that the new vocation is at index
    [len], every older index keeps its vocation, a name that was in the table
    keeps its index, and a second vocation of a name already in the table
    can not be found by name. *)
Theorem vocation_table_lookup (vt : VocationTable) (v : VocationDef) (name : string) :
  let n := Z.of_nat (length (vocations vt)) in
  (voc_find vt name = -1
   ∨ 0 ≤ voc_find vt name < n
     ∧ ∃ w, voc_get vt (voc_find vt name) = Some w ∧ v_name w = name
            ∧ ∀ i u, 0 ≤ i < voc_find vt name → voc_get vt i = Some u → v_name u ≠ name)
  ∧ (∀ i, i < 0 ∨ n ≤ i → voc_get vt i = None)
  ∧ voc_get (voc_add vt v) n = Some v
  ∧ (∀ i w, voc_get vt i = Some w → voc_get (voc_add vt v) i = Some w)
  ∧ voc_find (voc_add vt v) name
    = (if voc_find vt name =? -1
       then (if String.eqb (v_name v) name then n else -1)
       else voc_find vt name).
Proof.
  cbv zeta. split; [|split; [|split; [|split]]].
  - unfold voc_find.
    destruct (Z.eq_dec (find_from (vocations vt) name 0) (-1)) as [E|E]; [by left|right].
    destruct (find_from_named (vocations vt) name 0 ltac:(lia) E)
      as (k & w & Hf & Hk & Hn & Hfirst).
    rewrite Hf. pose proof (lookup_lt_Some _ _ _ Hk) as Hlt. split; [lia|].
    exists w. split; [|split; [done|]].
    + unfold voc_get. destruct (Z.leb_spec 0 (0 + Z.of_nat k)); [|lia].
      destruct (Z.ltb_spec (0 + Z.of_nat k) (Z.of_nat (length (vocations vt)))); [|lia].
      cbn [andb]. by replace (Z.to_nat (0 + Z.of_nat k)) with k by lia.
    + intros i u Hi. unfold voc_get.
      destruct (Z.leb_spec 0 i); [|lia].
      destruct (Z.ltb_spec i (Z.of_nat (length (vocations vt)))); [|done].
      cbn [andb]. intros Hu. eapply (Hfirst (Z.to_nat i)); [lia|done].
  - intros i Hi. unfold voc_get.
    destruct (Z.leb_spec 0 i); destruct (Z.ltb_spec i (Z.of_nat (length (vocations vt))));
      cbn [andb]; try done; lia.
  - unfold voc_get, voc_add. cbn [vocations]. rewrite length_app. cbn [length].
    destruct (Z.leb_spec 0 (Z.of_nat (length (vocations vt)))); [|lia].
    destruct (Z.ltb_spec (Z.of_nat (length (vocations vt)))
                (Z.of_nat (length (vocations vt) + 1))); [|lia].
    cbn [andb]. rewrite Nat2Z.id. rewrite lookup_app_r by lia.
    by rewrite Nat.sub_diag.
  - intros i w. unfold voc_get, voc_add. cbn [vocations]. rewrite length_app. cbn [length].
    destruct (Z.leb_spec 0 i); [|done].
    destruct (Z.ltb_spec i (Z.of_nat (length (vocations vt)))); [|done].
    destruct (Z.ltb_spec i (Z.of_nat (length (vocations vt) + 1))); [|lia].
    cbn [andb]. intros Hw. rewrite lookup_app_l by lia. done.
  - unfold voc_find, voc_add. cbn [vocations]. rewrite find_from_app by lia.
    by rewrite Z.add_0_l.
Qed.

(** * Settlement search and movement *)

Lemma nearest_loop_spec (x y : Z) (sts : list Settlement) :
  ∀ (i best bestd : Z),
  (nearest_loop sts x y i best bestd = best
   ∧ ∀ st, st ∈ sts → bestd ≤ dist2 st x y)
  ∨ ∃ (k : nat) (st : Settlement),
      sts !! k = Some st
      ∧ nearest_loop sts x y i best bestd = i + Z.of_nat k
      ∧ dist2 st x y < bestd
      ∧ ∀ (j : nat) (st' : Settlement), sts !! j = Some st' →
          dist2 st x y ≤ dist2 st' x y ∧ ((j < k)%nat → dist2 st x y < dist2 st' x y).
Proof.
  induction sts as [|s0 sts IH]; intros i best bestd; cbn [nearest_loop].
  { left. split; [done|]. intros st Hin. by apply elem_of_nil in Hin. }
  cbv zeta. fold (dist2 s0 x y).
  destruct (Z.ltb_spec (dist2 s0 x y) bestd) as [Hlt|Hge].
  - destruct (IH (i + 1) i (dist2 s0 x y)) as [[Hb Hall]|(k & st & Hk & Hr & Hd & Hall)].
    + right. exists 0%nat, s0. split; [done|]. split; [lia|]. split; [done|].
      intros [|j] st' Hj; cbn in Hj.
      * injection Hj as <-. lia.
      * split; [|lia]. apply Hall. by eapply list_elem_of_lookup_2.
    + right. exists (S k), st. split; [done|]. split; [lia|]. split; [lia|].
      intros [|j] st' Hj; cbn in Hj.
      * injection Hj as <-. lia.
      * destruct (Hall j st' Hj) as [H1 H2]. split; [done|]. intros Hjk. apply H2. lia.
  - destruct (IH (i + 1) best bestd) as [[Hb Hall]|(k & st & Hk & Hr & Hd & Hall)].
    + left. split; [done|]. intros st Hin.
      apply elem_of_cons in Hin as [->|Hin]; [lia|by apply Hall].
    + right. exists (S k), st. split; [done|]. split; [lia|]. split; [done|].
      intros [|j] st' Hj; cbn in Hj.
      * injection Hj as <-. lia.
      * destruct (Hall j st' Hj) as [H1 H2]. split; [done|]. intros Hjk. apply H2. lia.
Qed.

(** X24.  [nearest_settlement] returns the index of a settlement at the
    least squared distance from the cell, the first such in list order,
    provided every squared distance is below the initial bound 2^63 - 1;
    with no settlement at all it returns 0, which is then no valid index. *)
Theorem nearest_settlement_is_nearest (s : Sim) (x y : Z) :
  Forall (fun st => dist2 st x y < 2 ^ 63 - 1) (settlements s) →
  (settlements s = [] ∧ nearest_settlement s x y = 0)
  ∨ ∃ (k : nat) (st : Settlement),
      nearest_settlement s x y = Z.of_nat k
      ∧ settlements s !! k = Some st
      ∧ ∀ (j : nat) (st' : Settlement), settlements s !! j = Some st' →
          dist2 st x y ≤ dist2 st' x y ∧ ((j < k)%nat → dist2 st x y < dist2 st' x y).
Proof.
  intros Hall. unfold nearest_settlement.
  destruct (nearest_loop_spec x y (settlements s) 0 0 (2 ^ 63 - 1))
    as [[Hb Hfar]|(k & st & Hk & Hr & _ & Hbest)].
  - left. split; [|done]. destruct (settlements s) as [|st sts]; [done|].
    apply Forall_cons in Hall as [Hst _]. specialize (Hfar st ltac:(by left)). lia.
  - right. exists k, st. split; [lia|]. by split.
Qed.

Lemma nearest_settlement_is_nearest_witness :
  nearest_settlement three_towns_sim 4000 2600 = 2
  ∧ ∃ st, settlements three_towns_sim !! 2%nat = Some st
          ∧ ∀ (j : nat) (st' : Settlement), settlements three_towns_sim !! j = Some st' →
              dist2 st 4000 2600 ≤ dist2 st' 4000 2600.
Proof.
  split; [vm_compute; reflexivity|].
  destruct (nearest_settlement_is_nearest three_towns_sim 4000 2600)
    as [[H _]|(k & st & Hk & Hst & Hbest)].
  - repeat (apply Forall_cons; split; [vm_compute; reflexivity|]). by apply Forall_nil.
  - vm_compute in H. discriminate H.
  - assert (E : nearest_settlement three_towns_sim 4000 2600 = 2) by (vm_compute; reflexivity).
    rewrite E in Hk. assert (k = 2%nat) as -> by lia.
    exists st. split; [exact Hst|]. intros j st' Hj. exact (proj1 (Hbest j st' Hj)).
Defined.

Lemma step_toward_axis (x tx w : Z) :
  0 ≤ x < w → 0 ≤ tx < w →
  let x' := clamp_i32 (x + (if tx >? x then 1 else if tx <? x then -1 else 0)) 0 (w - 1) in
  0 ≤ x' < w ∧ Z.abs (tx - x') = Z.max 0 (Z.abs (tx - x) - 1).
Proof.
  intros Hx Htx. cbv zeta. unfold clamp_i32. repeat case_match; lia.
Qed.

(** X25.  [step_toward] moves an agent one cell on each axis toward a
    target inside the world and keeps it inside the world: after [n] steps
    the distance left on each axis is the initial one less [n], or zero, so
    the agent stands on the target from the larger of the two distances on;
    each step costs 0.004 fatigue. *)
Theorem step_toward_reaches (n : nat) (a : Agent) (tx ty : Z) :
  0 ≤ ag_x a < WORLD_CELLS_X → 0 ≤ ag_y a < WORLD_CELLS_Y →
  0 ≤ tx < WORLD_CELLS_X → 0 ≤ ty < WORLD_CELLS_Y →
  let a' := Nat.iter n (fun b => step_toward b tx ty) a in
  0 ≤ ag_x a' < WORLD_CELLS_X ∧ 0 ≤ ag_y a' < WORLD_CELLS_Y
  ∧ Z.abs (tx - ag_x a') = Z.max 0 (Z.abs (tx - ag_x a) - Z.of_nat n)
  ∧ Z.abs (ty - ag_y a') = Z.max 0 (Z.abs (ty - ag_y a) - Z.of_nat n)
  ∧ (fatigue a' == fatigue a + inject_Z (Z.of_nat n) * (4 # 1000))%Q.
Proof.
  intros Hx Hy Htx Hty. cbv zeta. induction n as [|n IH].
  { cbn [Nat.iter nat_rect]. split; [lia|]. split; [lia|]. split; [lia|]. split; [lia|].
    change (Z.of_nat 0) with 0. unfold inject_Z. ring. }
  rewrite Nat.iter_succ. set (b := Nat.iter n _ a) in *. clearbody b.
  destruct IH as (Hbx & Hby & Hdx & Hdy & Hf).
  unfold step_toward. cbv zeta.
  cbn [ag_x ag_y fatigue set_x set_y set_fatigue].
  destruct (step_toward_axis (ag_x b) tx WORLD_CELLS_X Hbx Htx) as [Hx1 Hx2].
  destruct (step_toward_axis (ag_y b) ty WORLD_CELLS_Y Hby Hty) as [Hy1 Hy2].
  split; [exact Hx1|]. split; [exact Hy1|]. split; [lia|]. split; [lia|].
  rewrite Hf, Nat2Z.inj_succ, <- Z.add_1_r, inject_Z_plus. cbn. ring.
Qed.

Lemma step_toward_reaches_witness :
  ag_x (Nat.iter 5 (fun b => step_toward b 503 596) (example_agent (replicate 9 0))) = 503
  ∧ ag_y (Nat.iter 5 (fun b => step_toward b 503 596) (example_agent (replicate 9 0))) = 596.
Proof.
  destruct (step_toward_reaches 5 (example_agent (replicate 9 0)) 503 596)
    as (_ & _ & Hx & Hy & _).
  - vm_compute. split; [discriminate | reflexivity].
  - vm_compute. split; [discriminate | reflexivity].
  - vm_compute. split; [discriminate | reflexivity].
  - vm_compute. split; [discriminate | reflexivity].
  - split; vm_compute; reflexivity.
Defined.


(** * Comments and white space *)

Lemma append_nil_l (s : string) : "" +:+ s = s.
Proof. reflexivity. Qed.

Lemma skip_comment_line (c rest : string) :
  string_forall (fun x => negb (Ascii.eqb x "010")) c = true →
  skip_from true (c +:+ nl +:+ rest) = skip_from false rest.
Proof.
  induction c as [|x c IH]; intros H.
  - reflexivity.
  - cbn [string_forall] in H. apply andb_prop in H as [Hx Hc].
    rewrite append_cons. cbn [skip_from].
    destruct (Ascii.eqb x "010"); [done|]. by apply IH.
Qed.

Lemma skip_comment_eof (c : string) :
  string_forall (fun x => negb (Ascii.eqb x "010")) c = true →
  skip_from true c = "".
Proof.
  induction c as [|x c IH]; intros H; [done|].
  cbn [string_forall] in H. apply andb_prop in H as [Hx Hc]. cbn [skip_from].
  destruct (Ascii.eqb x "010"); [done|]. by apply IH.
Qed.

(** X26.  Comments and white space are invisible to the lexer: a comment
    opened by [#] or by [//] runs to the end of its line and the next token
    is the one that follows the line; leading white space is skipped; and a
    comment that is not closed by a newline ends the input. *)
Theorem comments_are_skipped (c rest : string) (ch : ascii) :
  string_forall (fun x => negb (Ascii.eqb x "010")) c = true →
  next_tok ("#" +:+ c +:+ nl +:+ rest) = next_tok rest
  ∧ next_tok ("//" +:+ c +:+ nl +:+ rest) = next_tok rest
  ∧ (isspace ch = true → next_tok (String ch rest) = next_tok rest)
  ∧ next_tok ("#" +:+ c) = (mkTok TK_EOF "", "")
  ∧ next_tok ("//" +:+ c) = (mkTok TK_EOF "", "").
Proof.
  intros H. unfold next_tok, _skip_ws_and_comments.
  split; [|split; [|split; [|split]]].
  - rewrite append_cons. cbn [skip_from]. change (isspace "#") with false.
    change (Ascii.eqb "#" "#") with true. cbv iota. rewrite ?append_nil_l.
    by rewrite skip_comment_line.
  - rewrite !append_cons. cbn [skip_from]. change (isspace "/") with false.
    change (Ascii.eqb "/" "#") with false. change (Ascii.eqb "/" "/") with true.
    cbn [andb]. cbv iota. rewrite ?append_nil_l. by rewrite skip_comment_line.
  - intros Hsp. cbn [skip_from]. by rewrite Hsp.
  - rewrite append_cons. cbn [skip_from]. change (isspace "#") with false.
    change (Ascii.eqb "#" "#") with true. cbv iota. rewrite ?append_nil_l.
    by rewrite skip_comment_eof.
  - rewrite !append_cons. cbn [skip_from]. change (isspace "/") with false.
    change (Ascii.eqb "/" "#") with false. change (Ascii.eqb "/" "/") with true.
    cbn [andb]. cbv iota. rewrite ?append_nil_l. by rewrite skip_comment_eof.
Qed.

Lemma comments_are_skipped_witness :
  next_tok ("# the seed" +:+ nl +:+ "seed 5") = (mkTok TK_WORD "seed", " 5")
  ∧ next_tok ("// the seed" +:+ nl +:+ "seed 5") = (mkTok TK_WORD "seed", " 5").
Proof.
  destruct (comments_are_skipped " the seed" "seed 5" " ") as (H1 & H2 & _).
  - vm_compute. reflexivity.
  - split.
    + etransitivity; [exact H1|]. vm_compute. reflexivity.
    + etransitivity; [exact H2|]. vm_compute. reflexivity.
Defined.

(** * Reports *)

(** [add_inv] over the items [i, i + n): each of these slots of the totals
    grows by what the agent holds, the others stay. *)
Lemma add_inv_spec (a : Agent) (n : nat) :
  ∀ (i : nat) (totals t' : list Z),
  add_inv totals a (map Z.of_nat (seq i n)) = Some t' →
  length t' = length totals
  ∧ ∀ (k : nat) (x : Z), totals !! k = Some x →
      t' !! k = Some (if bool_decide (i ≤ k < i + n)%nat
                      then x + default 0 (inv a !! k) else x).
Proof.
  induction n as [|n IH]; intros i totals t' H; cbn [seq map add_inv] in H.
  { injection H as <-. split; [done|]. intros k x Hk.
    rewrite bool_decide_eq_false_2 by lia. done. }
  destruct (py_index totals (Z.of_nat i)) as [t|] eqn:Et; [|done].
  cbn [mbind option_bind] in H.
  destruct (py_index (inv a) (Z.of_nat i)) as [v|] eqn:Ev; [|done].
  cbn [mbind option_bind] in H.
  destruct (py_setitem totals (Z.of_nat i) (t + v)) as [t1|] eqn:Es; [|done].
  cbn [mbind option_bind] in H.
  assert (Hi : (i < length totals)%nat).
  { unfold py_index in Et. destruct (py_pos totals (Z.of_nat i)) as [p|] eqn:Ep; [|done].
    unfold py_pos in Ep.
    destruct ((0 <=? Z.of_nat i) && (Z.of_nat i <? Z.of_nat (length totals))) eqn:Eb;
      [lia|].
    destruct ((- Z.of_nat (length totals) <=? Z.of_nat i) && (Z.of_nat i <? 0)) eqn:Eb2;
      [lia|done]. }
  assert (Hia : (i < length (inv a))%nat).
  { unfold py_index in Ev. destruct (py_pos (inv a) (Z.of_nat i)) as [p|] eqn:Ep; [|done].
    unfold py_pos in Ep.
    destruct ((0 <=? Z.of_nat i) && (Z.of_nat i <? Z.of_nat (length (inv a)))) eqn:Eb;
      [lia|].
    destruct ((- Z.of_nat (length (inv a)) <=? Z.of_nat i) && (Z.of_nat i <? 0)) eqn:Eb2;
      [lia|done]. }
  rewrite py_index_in_range, Nat2Z.id in Et by lia.
  rewrite py_index_in_range, Nat2Z.id in Ev by lia.
  rewrite py_setitem_in_range, Nat2Z.id in Es by lia. injection Es as <-.
  destruct (IH _ _ _ H) as [Hlen Hall]. rewrite length_insert in Hlen. split; [done|].
  intros k x Hk. destruct (decide (k = i)) as [->|Hne].
  - rewrite (Hall i (t + v)) by (by apply list_lookup_insert_eq).
    rewrite bool_decide_eq_false_2 by lia. rewrite bool_decide_eq_true_2 by lia.
    rewrite Ev. cbn [default id]. congruence.
  - rewrite (Hall k x) by (by rewrite list_lookup_insert_ne).
    destruct (decide (S i ≤ k < S i + n)%nat).
    + by rewrite !bool_decide_eq_true_2 by lia.
    + by rewrite !bool_decide_eq_false_2 by lia.
Qed.

Lemma report_totals_spec (as_ : list Agent) :
  ∀ (alive : Z) (inv_ vc : list Z) (alive' : Z) (inv' vc' : list Z),
  report_totals as_ alive inv_ vc = Some (alive', inv', vc') →
  alive' = alive + Z.of_nat (length (living as_))
  ∧ length vc' = length vc ∧ length inv' = length inv_
  ∧ (∀ (k : nat) (c : Z), vc !! k = Some c →
       vc' !! k = Some (c + count_vocation (living as_) k))
  ∧ (∀ (k : nat) (x : Z), (k < 9)%nat → inv_ !! k = Some x →
       inv' !! k = Some (x + total_held (living as_) k)).
Proof.
  induction as_ as [|a as_ IH]; intros alive inv_ vc alive' inv' vc' H;
    cbn [report_totals] in H.
  { injection H as <- <- <-. unfold living, count_vocation, total_held. cbn.
    split; [lia|]. split; [done|]. split; [done|].
    split; intros; rewrite Z.add_0_r; done. }
  unfold living, count_vocation, total_held in *. cbn [List.filter].
  destruct (fle (health a) 0); cbn [negb]; [by apply IH|].
  destruct (add_inv inv_ a (py_range ITEM_MAX)) as [inv1|] eqn:Ea; [|done].
  cbn [mbind option_bind] in H.
  apply (add_inv_spec a 9 0) in Ea as [Hl1 Hinv1].
  destruct ((0 <=? vocation_id a) && (vocation_id a <? Z.of_nat (length vc))) eqn:Ev.
  - destruct (py_index vc (vocation_id a)) as [c0|] eqn:Ec; [|done].
    cbn [mbind option_bind] in H.
    rewrite py_index_in_range in Ec by lia.
    rewrite py_setitem_in_range in H by lia. cbn [mbind option_bind] in H.
    destruct (IH _ _ _ _ _ _ H) as (Hal & Hlvc & Hlinv & Hvc & Hinv).
    rewrite length_insert in Hlvc. split; [cbn [length]; lia|]. split; [done|].
    split; [congruence|]. split.
    + intros k c Hk. cbn [List.filter].
      destruct (Z.eqb_spec (vocation_id a) (Z.of_nat k)) as [E|E].
      * rewrite E, Nat2Z.id in Ec. assert (c0 = c) as -> by congruence.
        rewrite (Hvc k (c + 1)) by (rewrite E, Nat2Z.id; by apply list_lookup_insert_eq;
                                    eapply lookup_lt_Some).
        f_equal. cbn [length]. lia.
      * rewrite (Hvc k c) by (rewrite list_lookup_insert_ne by lia; done). done.
    + intros k x Hk9 Hk. specialize (Hinv1 k x Hk).
      rewrite bool_decide_eq_true_2 in Hinv1 by lia.
      rewrite (Hinv k _ Hk9 Hinv1). cbn [foldr]. f_equal. lia.
  - cbn [mbind option_bind] in H.
    destruct (IH _ _ _ _ _ _ H) as (Hal & Hlvc & Hlinv & Hvc & Hinv).
    split; [cbn [length]; lia|]. split; [done|]. split; [congruence|]. split.
    + intros k c Hk. cbn [List.filter].
      destruct (Z.eqb_spec (vocation_id a) (Z.of_nat k)) as [E|E].
      * apply lookup_lt_Some in Hk. lia.
      * by apply Hvc.
    + intros k x Hk9 Hk. specialize (Hinv1 k x Hk).
      rewrite bool_decide_eq_true_2 in Hinv1 by lia.
      rewrite (Hinv k _ Hk9 Hinv1). cbn [foldr]. f_equal. lia.
Qed.

(** X27.  What a report counts: the figures behind [sim_report] and the
    snapshot are taken over the agents with health above zero only; [alive]
    is their number, the count of a vocation is the number of them with that
    vocation id, and the total of an item is the sum of what they hold. *)
Theorem report_counts_the_living (s : Sim) (alive : Z) (inv_ voc_counts : list Z) :
  report_stats s = Some (alive, inv_, voc_counts) →
  alive = Z.of_nat (length (living (agents s)))
  ∧ length voc_counts = length (vocations (sim_voc_table s))
  ∧ (∀ (k : nat) (c : Z), voc_counts !! k = Some c →
       c = count_vocation (living (agents s)) k)
  ∧ length inv_ = 9%nat
  ∧ (∀ (k : nat) (x : Z), inv_ !! k = Some x → x = total_held (living (agents s)) k).
Proof.
  unfold report_stats. intros H.
  destruct (report_totals_spec _ _ _ _ _ _ _ H) as (Hal & Hlvc & Hlinv & Hvc & Hinv).
  rewrite length_replicate in Hlvc. unfold zero_totals in *.
  rewrite length_replicate in Hlinv. split; [lia|]. split; [done|]. split; [|split; [done|]].
  - intros k c Hk. pose proof (lookup_lt_Some _ _ _ Hk) as Hlt. rewrite Hlvc in Hlt.
    rewrite (Hvc k 0) in Hk by (by apply lookup_replicate_2). by injection Hk as <-.
  - intros k x Hk. pose proof (lookup_lt_Some _ _ _ Hk) as Hlt. rewrite Hlinv in Hlt.
    change (Z.to_nat ITEM_MAX) with 9%nat in *.
    rewrite (Hinv k 0) in Hk by (by try apply lookup_replicate_2). by injection Hk as <-.
Qed.

Lemma report_counts_the_living_witness :
  ∃ inv_ voc_counts,
    report_stats day30_sim = Some (220, inv_, voc_counts)
    ∧ Z.of_nat (length (living (agents day30_sim))) = 220
    ∧ length voc_counts = 2%nat.
Proof.
  destruct (report_stats day30_sim) as [[[alive inv_] vc]|] eqn:E;
    [|vm_compute in E; discriminate E].
  destruct (report_counts_the_living day30_sim alive inv_ vc E) as (Hal & Hlen & _).
  assert (alive = 220) as ->.
  { vm_compute in E. injection E as <- _ _. reflexivity. }
  exists inv_, vc. split; [reflexivity|]. split; [by rewrite <- Hal|].
  rewrite Hlen. vm_compute. reflexivity.
Defined.


(** * The main loop runs to the end *)












(** * The shape of the map *)

Lemma cell_char_shape (tags : Z) :
  String.length (cell_char tags) = 1%nat
  ∧ string_forall (fun ch => negb (Ascii.eqb ch "010")) (cell_char tags) = true.
Proof. unfold cell_char. repeat case_match; by vm_compute. Qed.

Lemma map_row_text_shape (g : WorldGen) (n yy : Z) (xs : list Z) :
  String.length (map_row_text g n yy xs) = length xs
  ∧ string_forall (fun ch => negb (Ascii.eqb ch "010")) (map_row_text g n yy xs) = true.
Proof.
  induction xs as [|xx xs [IH1 IH2]]; [done|]. cbn [map_row_text length].
  rewrite append_length, string_forall_app, IH1, IH2.
  destruct (_ || _); [done|].
  destruct (cell_char_shape (world_cell_tags g xx yy n)) as [-> ->]. done.
Qed.

Lemma map_text_rows (g : WorldGen) (n : Z) (ys xs : list Z) :
  map_text g n ys xs
  = foldr (fun r acc => r +:+ nl +:+ acc) "" (map (fun yy => map_row_text g n yy xs) ys).
Proof. induction ys as [|yy ys IH]; [done|]. cbn [map_text map foldr]. by rewrite IH. Qed.

(** X29.  The shape of the ASCII map: [sim_dump_ascii_map] with width [w]
    and height [h] writes [h] lines, each of exactly [w] characters and
    closed by a newline, and changes nothing of the simulator but the chunk
    cache. *)
Theorem map_dump_shape (c0 : ChunkCache) (s : Sim) (w h : Z) :
  cache_inv c0 (cache s) →
  ∃ (c' : ChunkCache) (rows : list string),
    sim_dump_ascii_map s w h
    = Some (set_cache s c', foldr (fun r acc => r +:+ nl +:+ acc) "" rows)
    ∧ length rows = Z.to_nat h
    ∧ Forall (fun r => String.length r = Z.to_nat w
                       ∧ string_forall (fun ch => negb (Ascii.eqb ch "010")) r = true)
             rows.
Proof.
  intros Hc. destruct (sim_dump_ascii_map_pure c0 s w h Hc) as (c' & -> & _).
  exists c'. eexists. split; [by rewrite map_text_rows|]. split.
  - unfold py_range2. rewrite !length_map, py_range_length. f_equal. lia.
  - apply Forall_forall. intros r Hr. apply list_elem_of_fmap in Hr as (yy & -> & _).
    destruct (map_row_text_shape (cc_gen c0) (ws_settlement_count (cc_spec c0)) yy
                (py_range2 (WORLD_CELLS_X / 2 - w / 2) (WORLD_CELLS_X / 2 - w / 2 + w)))
      as [Hl Hn].
    split; [|exact Hn]. rewrite Hl. unfold py_range2.
    rewrite length_map, py_range_length. f_equal. lia.
Qed.

Lemma map_dump_shape_witness :
  ∃ (c' : ChunkCache) (rows : list string),
    sim_dump_ascii_map (sim_init_from_cfg (cfg_of_src fisher_farmer_src 20)) 80 40
    = Some (set_cache (sim_init_from_cfg (cfg_of_src fisher_farmer_src 20)) c',
            foldr (fun r acc => r +:+ nl +:+ acc) "" rows)
    ∧ length rows = 40%nat
    ∧ Forall (fun r => String.length r = 80%nat) rows.
Proof.
  destruct (map_dump_shape
              (cache (sim_init_from_cfg (cfg_of_src fisher_farmer_src 20)))
              (sim_init_from_cfg (cfg_of_src fisher_farmer_src 20)) 80 40)
    as (c' & rows & H & Hlen & Hrows).
  - apply cache_inv_init_any.
  - exists c', rows. split; [exact H|]. split; [exact Hlen|].
    apply (Forall_impl _ _ _ Hrows). intros r [Hr _]. exact Hr.
Defined.
